(* ===== verification/_CoqProject ===== *)
-Q . S2P
Prelude.v
BitArray.v
Containers.v
LruCache.v
Pointers.v
Cbor.v
Keys.v
Object.v
Query.v
BloomFilter.v
Section.v
SectionFacts.v
Message.v
Siglib.v
SiglibFacts.v
Merkle.v
MerkleFacts.v
RhineTree.v
ZoneCache.v
ZoneCacheFacts.v
AssertionCache.v
NegAssertionCache.v
ZoneKeyCache.v
ConnectionCache.v
PendingCaches.v
CapabilityCache.v
Server.v
AssertionEngine.v
QueryEngine.v
Verify.v
Inbox.v
ServerFacts.v
EngineFacts.v
PoolFacts.v
QueryFacts.v
ServerStore.v
Connection.v
Resolver.v
ResolverFacts.v
ZoneFile.v
ZoneFileFacts.v
ZoneFileRoundtrip.v
ZoneParser.v
ZoneParserFacts.v
KeyManager.v
Publisher.v
PublisherFacts.v
PublisherSigning.v
Rhine.v
RhineLog.v
RhineStore.v
RhineLogFacts.v
RhineServers.v
RhineToy.v
RhineFacts.v
RhineConfig.v
RhineCommands.v
Client.v
Dig.v
Served.v
Commands.v
