(* ===== verification/Prelude.v ===== *)
(** * RAINS and RHINE: the naming core, its servers and clients, and authenticated delegation

    ** The program

    The repository holds an implementation of RAINS, a naming service.  A message carries
    sections: queries, notifications, and signed assertions, shards (ranges of assertions),
    pshards (Bloom filters) and zones.  A server decodes messages, verifies sections, keeps
    them in caches and answers queries from the caches.  This core lives in
    src/attic/internal/pkg; the development models its data model, its wire format, the
    signing and checking of sections, all of its caches, and the server (rainsd) that puts
    them together: inbox and worker pools, verification, assertion, query and notification
    engines, sending, checkpoints; the resolver (libresolve), which asks servers over the
    network; the zone file format; the publisher, which shards, signs and sends a zone, with
    its keys; the client package src/pkg/rains; and the command-line programs in
    src/attic/cmd.  RHINE, in src/offlineauth, authenticates
    delegations: a child zone has a request approved by its parent, and an authority issues a
    certificate after logs have proved, with Merkle trees over the delegations of a zone, that
    it was not delegated before, and logs and aggregators have confirmed it.  The trees, the
    log, the signed structures and the four servers are modelled, and their composition runs.

    ** The files

    - [Prelude]: machine integers with their wrap-around; the [outcome] monad (a Go function
      returns a value, returns an error or panics); three-way comparisons and the laws they
      must satisfy ([CmpOn], [CmpEqOn]); [sort.Slice]; sums over maps; string operations.
    - [BitArray]: datastructures/bitarray/bitarray.go.
    - [Containers]: datastructures/safeCounter/safeCounter.go (the counter behind every
      cache) and datastructures/safeHashMap/safeHashMap.go.
    - [LruCache]: lruCache/lruCache.go: two linked lists and a hash map, with an abstract
      specification as two recency-ordered association lists.
    - [Pointers]: the shared store.  The caches hold pointers to mutable records that are
      marked deleted when they leave the cache; frame lemmas for a heap of such records
      behind an LRU cache.
    - [Cbor]: the trees of Go values exchanged with the third-party CBOR library, and what
      the program uses of its byte level ([CborWriter]).
    - [Keys]: algorithmTypes, keys/keys.go, token/token.go and signature/signature.go.
    - [Object]: object/object.go: the object types, their array encoding, sorting and
      comparison, and the command-line names of types.
    - [Query]: query/query.go.
    - [BloomFilter]: section/bloomfilter.go.
    - [Section]: section/{interval,util,assertion,shard,pshard,zone,notification}.go.
      [SectionFacts]: theorems about them.
    - [Message]: message/message.go (the message and its encoding) and the message
      constructors and signature windows of util/rainslibUtil.go.
    - [Siglib]: siglib/rainsSiglib.go (signing and checking sections, the check of their
      strings, RHINE certificates) and [GetRhineCertFromAssertion] of util/rainslibUtil.go.
      The interface [section.WithSig] is the class [WithSig].  [SiglibFacts]: the laws of the
      interface ([WithSigLaws]) with an instance per section type, and the theorems.
    - [ZoneCache]: the common code of cache/assertionCache.go and cache/negAssertionCache.go.
      [ZoneCacheFacts]: its invariant and the effect of each operation on the abstract
      state.  [AssertionCache] and [NegAssertionCache]: the two caches.
    - [ZoneKeyCache], [ConnectionCache], [PendingCaches], [CapabilityCache]: the files of
      the same names in cache/ ([PendingCaches] holds pendingQueryCache.go and
      pendingKeyCache.go).
    - [Server]: rainsd/{serverConfig,cache,server,serverUtil,switchboard}.go: the
      configuration, the caches of a server and its state, the monad [M] of its methods, and
      sending with its retries.  [AssertionEngine], [QueryEngine], [Verify]: the files of the
      same names.  [Inbox]: inbox.go, notification.go and the reapers of cache.go; the
      dispatching loops, the semaphore channels and the running handlers are a step relation
      on [Pool].  [ServerStore]: checkpoints, the root key and [New] (serverUtil.go, server.go).
      [ServerFacts]: what the caches promise to the engines and the logic [respects] for
      methods that keep the caches' invariants and only add what they may.  [EngineFacts],
      [QueryFacts], [PoolFacts]: the theorems.
    - [Connection]: connection/connection.go and [SendQuery] of util/rainslibUtil.go, over an
      arbitrary network with a log of what was written.  [Resolver]: libresolve/resolver.go.
      [ResolverFacts]: its theorems, with concrete networks.
    - [ZoneFile]: zonefile/{zoneFileIO,zoneFileEncoder,encoder,decoder,zoneFileWordScanner}.go
      and of zoneFileParser.go the lexer, the helpers and the grammar, by recursive descent.
      [ZoneParser]: the parser in zoneFileParser.go that goyacc generated from the grammar, with
      its tables; [ZoneParserFacts]: it does what the grammar says.  [ZoneFileFacts]: words,
      numbers, queries and the lexer; [ZoneFileRoundtrip]: sections.
    - [KeyManager]: keyManager/keyManager.go over directories of files.  [Publisher]: the
      package publisher.  [PublisherFacts]: sharding and Bloom filters; [PublisherSigning]:
      signatures and the exchange with the servers.
    - [Client]: src/pkg/rains.
    - [Dig]: attic/cmd/rdig/rdig.go; [Served]: rdig and the server at the two ends of a
      connection.  [Commands]: attic/cmd/{rainsd,zonepub,keyManager}.
    - [Merkle]: src/offlineauth/rhine/merkleTree.go, with the leaves of rhineTree.go and the
      authority levels of zone.go: nodes linked by pointers in an arena.  [MerkleFacts]: the
      invariant of a built tree and its theorems.  [RhineTree]: rhineTree.go (ordered
      intervals, proofs of presence and absence) and the summaries of dsa.go.
    - [Rhine]: rhineSig.go, dsp.go, nds.go, logWitness.go, aggLoggerConfirm.go, csr.go, psr.go
      and the keys of util.go.  [RhineLog]: dsaLog.go and the links of merkleTree.go;
      [RhineStore]: trees through serialization and their height; [RhineLogFacts]: the
      theorems.  [RhineServers]: the operations of the four managers and the handlers under
      src/offlineauth/components, over an arbitrary network and over each other ([System]).
      [RhineToy]: concrete libraries, and runs of the whole protocol on them.  [RhineFacts]:
      the theorems.  [RhineConfig]: key files and the constructors of the managers.
      [RhineCommands]: the command with which a child zone requests its delegation
      (cmd/zoneManager/run_zoneManager.go), over an arbitrary network and over the modelled
      servers ([World]), the commands of the aggregator, and keyManager/keyManager.go.

    ** How the code is modelled

    A pure Go function is a function.  A method that writes through its receiver returns
    the new receiver.  A function that can fail returns an [outcome]; an index expression
    out of range, a failed type assertion and a nil dereference are [Panic].  Go's [int],
    [int64], [uint64] and [uint16] are [Z] with the wrap-around written out where arithmetic
    can leave the range (the counters, the Bloom filter's positions).  [map[string]T] is a
    [gmap]; ranging over a map lists the entries in some order, and no theorem depends on
    which one.  The wall clock is an argument, [now].  Every method runs to completion: the
    locks are taken so that the methods of a cache are atomic towards each other up to the
    retry loops for records deleted meanwhile, which the model keeps.  Logging is left out.

    Code outside the repository is a class with its documented laws, and every theorem that
    relies on such laws has a witness with a concrete instance: [Ed25519Lib] (signatures),
    [CborWriter], [CborEncoder] and [CborStream] (the CBOR library), [ObjLib] (SCION
    addresses), [BloomLib] (hash functions), [Sha256Lib], [X509Lib] (certificates), [TokenGen]
    (random tokens), [Network] and [Internet] (which connections can be opened, what is read
    from them), [AddrLib] and [ZoneLib] (addresses as text), [Gob], [KeyLib] (encryption, PEM,
    randomness), [RhineCrypto], [CtLib] and [CtBackend] (RSA, X.509, certificate
    transparency), [DsaCodec] and [RhineCodec] (CBOR and gob of the RHINE structures),
    [ConfigLib] and [JsonLib].  [RhineNet] stands for the servers that the authority calls and
    [ChildNet] for those that a child calls; they have no laws, and instances of the modelled
    servers.

    The methods of a server are programs of a state monad over [Server] with panics.  What a
    server sends is a log.  A goroutine that an engine starts runs to completion where it is
    started; the interleaving of the dispatching loops, handlers and reapers is explicit, one
    handler being one step.

    ** What is proved

    - Data structures: reading a bit after writing it; the counter under every interleaving;
      the LRU cache refines its specification and offers the least recently used evictable
      key after every history of calls.
    - Orders: the comparison functions are total orders that identify only equal values, so
      sorting has one result (keys, objects, assertions); the Bloom filter's comparison is
      shown not to be antisymmetric.
    - Wire format: signatures, objects and whole messages survive encoding and decoding;
      what is decoded is well typed; decoding well-shaped input does not panic, and an
      input that makes it panic is given.
    - Sections: intervals intersect as their names do; ranges, consistency, validity windows
      and Bloom filter membership behave as documented; a pshard never denies the existence
      of an assertion that was added to it, and refuses queries of its own zone.
    - Signatures of sections: what [SignSectionUnsafe] signs [CheckSectionSignatures]
      accepts, and what it accepts was verified, signature by signature, over the section's
      encoding; an accepted RHINE message verifies under its certificate, and the search for
      the certificate is shown to forget all but the last section.
    - Merkle trees: a built tree is the one of the reference construction, verifies, and its
      paths recompute the root; insertion keeps the intervals of a zone sorted; exactly one of
      the proofs of presence and absence exists for a name.  The verifier of proofs is shown
      to be right over one level and to refuse genuine proofs over more, up to collisions.
    - Caches: each cache keeps an invariant that ties every index and counter to the set of
      cached values; adding, looking up, expiring and removing act on that set as
      documented; evictions terminate, respect internal entries and happen only on a full
      cache.  The cases in which the code panics or drops the wrong value are theorems too.
    - Server: everything that enters the caches stems from an accepted section of the message;
      the invariants of the caches hold in every reachable state of the worker pools; the
      priority queue makes progress; everybody waiting for an answer gets it once; following
      redirects ends when the records are acyclic; a checkpoint is read back.  Theorems show
      the opposite where the code has it: keys of one zone verify sections of another,
      unsigned sections pass, expired queries panic the server, workers are lost, a name
      leading to itself is followed for ever.
    - Resolver: whatever servers answer, a recursive lookup files only delegations with a chain
      of verified signatures and answers with a section verified under one; it ends when
      redirections lead to servers of smaller rank.  The opposite is shown where the code has it:
      sections without signatures count as verified, a zone takes over other names, a server
      that redirects to itself is asked for ever.
    - Zone files: queries and sections are read back as they were printed, up to the open ends
      of ranges and the type of name sets; the lexer gives the words of every file and never
      panics; the generated parser ends on every file, reads its tables inside their bounds and
      gives the result of the grammar.  What is behind the sections is shown to be ignored.
    - Publisher and keys: the shards of a zone contain each assertion once and leave no name
      out; no pshard denies an assertion of its zone; signed sections are accepted under the
      public key; a generated key is read back.  No server is ever reported as reached.
    - Programs: whatever the network does, rdig writes the query of its command line and
      prints what was sent for its token; connected to the modelled server, it prints the
      valid assertions that the server has; the commands of the key manager work on the keys
      they make.  A server without the address of a root server is shown to ask nobody.
    - RHINE: the log proves exactly its delegations, before and after serialization, in memory
      and from its store; an issued certificate implies an approved request and the checks of
      all proofs, witnesses and confirmations, whatever the other servers answer; a child keeps
      only a certificate for its own name and key, and with the modelled servers one that was
      approved and issued for its own request.  The opposite is shown where the code has it: no third delegation of a zone is possible, a
      restarted log forgets, a delegation can be denied, nothing is recorded, servers without
      a configured key are believed, the parent approves everything, and a certificate can be
      had for somebody else's name.

    ** Fuel

    The retry loops take fuel.  [Add] of the section caches is proved to finish with fuel 1
    (a record in the cache is never marked deleted between two method calls), the eviction
    loop with one round more than there are keys; the zone key, connection and capability
    caches need one round.  The recursion over Merkle nodes and the climb to the root are
    bounded by the number of nodes, which is shown to be enough.  The recursion over redirects
    has a depth, [stack]; running out of it is the stack overflow of the code, and the depth
    that is enough is part of the theorem.  A lookup of the resolver has a number of rounds for
    the redirections of one name, a depth for nested key lookups and a stack bound for names
    that lead to names: without a result ([None]) it is still running.  The rounds and the
    depth that are enough are part of the theorem on termination.  The loop of the
    generated parser has a number of turns, and the theorem says that there is a number after
    which it has ended.  The publisher waits for an answer during a number of rounds, one per message.  The
    recursion over the links of a Merkle tree is bounded by the number of its nodes, which is
    shown to be enough.  No theorem is conditional on fuel being enough.

    ** What is not modelled

    Of the server, listening on sockets, shutting down, TLS
    certificates, resource measurement and timers are left out.  Of
    src/offlineauth/rhine/util.go and src/offlineauth/keyManager the text forms of private
    keys, the certificates for tests and the opening of connections are left out.  Generated
    code (the stringers, jsonenums, protobuf), the parsing of command lines by its library
    and the commands under src/offlineauth/cmd that only read flags and serve, network input
    and output, gob serialization and logging are left out. *)

From Stdlib Require Export Ascii String.
From stdpp Require Export base numbers strings pretty sorting list_numbers gmap list.

Declare Scope rains_scope.
Delimit Scope rains_scope with rains.
Open Scope rains_scope.
Local Open Scope Z_scope.

Create HintDb rains.
Create Rewrite HintDb rains.

(** ** Machine integers

    Go's [int] and [int64] are 64-bit two's complement numbers on the platforms the
    program is built for.  They are values of [Z]; the wrap-around of an arithmetic
    operation is written out with the functions below. *)

Definition int64_wrap (z : Z) : Z := (z + 2 ^ 63) mod 2 ^ 64 - 2 ^ 63.
Definition uint64_wrap (z : Z) : Z := z mod 2 ^ 64.
Definition uint16_wrap (z : Z) : Z := z mod 2 ^ 16.

Definition MaxInt64 : Z := 2 ^ 63 - 1.

Definition in_int64 (z : Z) : Prop := - 2 ^ 63 ≤ z < 2 ^ 63.
Definition in_uint64 (z : Z) : Prop := 0 ≤ z < 2 ^ 64.
Definition in_uint16 (z : Z) : Prop := 0 ≤ z < 2 ^ 16.

Lemma int64_wrap_id z : in_int64 z → int64_wrap z = z.
Proof. unfold in_int64, int64_wrap. intros ?. rewrite Z.mod_small; lia. Qed.

Lemma int64_wrap_range z : in_int64 (int64_wrap z).
Proof. unfold in_int64, int64_wrap. pose proof (Z.mod_pos_bound (z + 2 ^ 63) (2 ^ 64)). lia. Qed.

Lemma uint64_wrap_id z : in_uint64 z → uint64_wrap z = z.
Proof. unfold in_uint64, uint64_wrap. intros ?. by apply Z.mod_small. Qed.

Lemma uint64_wrap_range z : in_uint64 (uint64_wrap z).
Proof. unfold in_uint64, uint64_wrap. apply Z.mod_pos_bound. lia. Qed.

Lemma uint16_wrap_id z : in_uint16 z → uint16_wrap z = z.
Proof. unfold in_uint16, uint16_wrap. intros ?. by apply Z.mod_small. Qed.

#[export] Hint Resolve int64_wrap_range uint64_wrap_range : rains.
#[export] Hint Rewrite int64_wrap_id uint64_wrap_id uint16_wrap_id using (unfold in_int64, in_uint64, in_uint16; lia) : rains.

(** ** Outcomes of a Go call

    A call returns normally, returns a non-nil [error], or panics (index out of
    range, failed type assertion, nil dereference, explicit [panic]). *)

Inductive outcome (A : Type) : Type :=
| Ok (a : A)
| Err (msg : string)
| Panic (msg : string).
Arguments Ok {A} a.
Arguments Err {A} msg.
Arguments Panic {A} msg.

#[export] Instance outcome_ret : MRet outcome := @Ok.
#[export] Instance outcome_bind : MBind outcome := λ A B f m,
  match m with Ok a => f a | Err e => Err e | Panic e => Panic e end.

Definition is_ok {A} (m : outcome A) : bool := match m with Ok _ => true | _ => false end.
Definition is_err {A} (m : outcome A) : bool := match m with Err _ => true | _ => false end.
Definition is_panic {A} (m : outcome A) : bool := match m with Panic _ => true | _ => false end.

(** [if !ok { return errors.New(msg) }] *)
Definition or_err {A} (o : option A) (msg : string) : outcome A :=
  match o with Some a => Ok a | None => Err msg end.

(** A value whose absence is a run-time panic. *)
Definition or_panic {A} (o : option A) (msg : string) : outcome A :=
  match o with Some a => Ok a | None => Panic msg end.

(** [l[i]] with Go's bounds check. *)
Definition at_index {A} (l : list A) (i : Z) : outcome A :=
  if decide (0 ≤ i) then or_panic (l !! Z.to_nat i) "index out of range"
  else Panic "index out of range".

(** A [for _, x := range l] loop whose body can stop the function. *)
Fixpoint traverse {A B} (f : A → outcome B) (l : list A) : outcome (list B) :=
  match l with
  | [] => Ok []
  | x :: l' => y ← f x; ys ← traverse f l'; Ok (y :: ys)
  end.

(** Case analysis on the outcome of a bound computation. *)
Ltac step_outcome :=
  match goal with
  | H : context [@mbind outcome _ _ _ _ ?m] |- _ => destruct m eqn:?; simpl in H; try discriminate H
  | |- context [@mbind outcome _ _ _ _ ?m] => destruct m eqn:?; simpl
  end.
Ltac simplify_outcome := repeat (step_outcome || simplify_eq).

Lemma bind_ok {A B} (m : outcome A) (f : A → outcome B) b : m ≫= f = Ok b → ∃ a, m = Ok a ∧ f a = Ok b.
Proof. destruct m as [a| |]; cbn; [by exists a|done..]. Qed.
Lemma or_panic_Ok {A} (o : option A) msg a : or_panic o msg = Ok a → o = Some a.
Proof. destruct o; cbn; congruence. Qed.
Lemma at_index_head {A} (l : list A) a : at_index l 0 = Ok a → head l = Some a.
Proof. by destruct l; intros [=]; subst. Qed.
Lemma or_err_Ok {A} (o : option A) msg a : or_err o msg = Ok a → o = Some a.
Proof. destruct o; simpl; congruence. Qed.

Lemma traverse_ok {A B} (f : A → outcome B) l k :
  traverse f l = Ok k ↔ Forall2 (λ x y, f x = Ok y) l k.
Proof.
  revert k. induction l as [|x l IH]; intros k; simpl.
  - split; [intros ?; by simplify_eq|]. by inversion 1.
  - split.
    + intros H. simplify_outcome. constructor; [done|]. by apply IH.
    + inversion 1 as [|? y ? ys Hy Hys]; subst. rewrite Hy. simpl.
      apply IH in Hys. by rewrite Hys.
Qed.

Lemma traverse_map {A B C} (f : A → outcome B) (g : C → A) (h : C → B) l :
  Forall (λ c, f (g c) = Ok (h c)) l → traverse f (map g l) = Ok (map h l).
Proof. intros H. apply traverse_ok. induction H; simpl; constructor; auto. Qed.

Lemma traverse_length {A B} (f : A → outcome B) l k :
  traverse f l = Ok k → length k = length l.
Proof. intros H%traverse_ok. symmetry. by eapply Forall2_length. Qed.

(** ** Three-way comparisons

    The [CompareTo] methods return -1, 0 or 1 and are written as chains of
    [if x < y { return -1 } else if x > y { return 1 } else ...]. *)

Definition int_cmp (x y : Z) : Z := if x <? y then -1 else if y <? x then 1 else 0.

(** [bytes.Compare]; it is also the order of Go's [<] on strings. *)
Fixpoint bytes_cmp (xs ys : list Z) : Z :=
  match xs, ys with
  | [], [] => 0
  | [], _ :: _ => -1
  | _ :: _, [] => 1
  | x :: xs', y :: ys' => if x <? y then -1 else if y <? x then 1 else bytes_cmp xs' ys'
  end.

Fixpoint bytes_of_string (s : string) : list Z :=
  match s with
  | EmptyString => []
  | String c s' => Z.of_N (Ascii.N_of_ascii c) :: bytes_of_string s'
  end.

Definition str_cmp (s t : string) : Z := bytes_cmp (bytes_of_string s) (bytes_of_string t).
Definition str_ltb (s t : string) : bool := str_cmp s t <? 0.
Notation "s <ₛ t" := (str_ltb s t) (at level 65, no associativity) : rains_scope.
Notation "s =ₛ t" := (String.eqb s t) (at level 65, no associativity) : rains_scope.

(** The [else] of a comparison chain. *)
Definition lex_then (c d : Z) : Z := if c =? 0 then d else c.
Notation "c '<?>' d" := (lex_then c d) (at level 60, right associativity) : rains_scope.

(** [for i, x := range xs { if c := cmp(x, ys[i]); c != 0 { return c } }; return 0] *)
Fixpoint elems_cmp {A} (cmp : A → A → Z) (xs ys : list A) : Z :=
  match xs, ys with
  | x :: xs', y :: ys' => cmp x y <?> elems_cmp cmp xs' ys'
  | _, _ => 0
  end.

Definition len_cmp {A} (xs ys : list A) : Z := int_cmp (Z.of_nat (length xs)) (Z.of_nat (length ys)).

(** Shorter slices first, then element by element. *)
Definition list_cmp {A} (cmp : A → A → Z) (xs ys : list A) : Z := len_cmp xs ys <?> elems_cmp cmp xs ys.

(** [CmpOn P cmp]: on the values satisfying [P], [cmp] is a total preorder presented
    by its sign.  [CmpEqOn] adds that only equal values compare as 0. *)
Class CmpOn {A} (P : A → Prop) (cmp : A → A → Z) : Prop := {
  cmp_sign x y : P x → P y → cmp x y = -1 ∨ cmp x y = 0 ∨ cmp x y = 1;
  cmp_anti x y : P x → P y → cmp y x = - cmp x y;
  cmp_trans x y z : P x → P y → P z → cmp x y ≤ 0 → cmp y z ≤ 0 → cmp x z ≤ 0
}.

Class CmpEqOn {A} (P : A → Prop) (cmp : A → A → Z) : Prop := {
  cmp_eq_on :: CmpOn P cmp;
  cmp_zero x y : P x → P y → cmp x y = 0 → x = y
}.

Definition any {A} (_ : A) : Prop := True.
#[export] Hint Extern 0 (any _) => exact I : core typeclass_instances rains.

Lemma lex_then_zero c d : c <?> d = 0 ↔ c = 0 ∧ d = 0.
Proof. unfold lex_then. destruct (Z.eqb_spec c 0); lia. Qed.

Ltac split_lex :=
  repeat match goal with
  | H : _ <?> _ = 0 |- _ => apply lex_then_zero in H as [? H]
  end.

(** The general chain rule: the second comparison only has to behave on values the
    first one does not separate. *)
Lemma CmpOn_lex_dep {A} (P : A → Prop) (c d : A → A → Z) :
  CmpOn P c →
  (∀ x y, P x → P y → c x y = 0 → d x y = -1 ∨ d x y = 0 ∨ d x y = 1) →
  (∀ x y, P x → P y → c x y = 0 → d y x = - d x y) →
  (∀ x y z, P x → P y → P z → c x y = 0 → c y z = 0 → d x y ≤ 0 → d y z ≤ 0 → d x z ≤ 0) →
  CmpOn P (λ x y, c x y <?> d x y).
Proof.
  intros Hc Hs Ha Ht. split.
  - intros x y Px Py. unfold lex_then. destruct (Z.eqb_spec (c x y) 0); [auto|].
    by apply cmp_sign.
  - intros x y Px Py. unfold lex_then. pose proof (cmp_anti x y Px Py) as E.
    destruct (Z.eqb_spec (c x y) 0), (Z.eqb_spec (c y x) 0); try lia. auto.
  - intros x y z Px Py Pz. unfold lex_then.
    pose proof (cmp_trans x y z Px Py Pz). pose proof (cmp_trans z x y Pz Px Py).
    pose proof (cmp_trans y z x Py Pz Px).
    pose proof (cmp_anti x y Px Py). pose proof (cmp_anti y z Py Pz).
    pose proof (cmp_anti x z Px Pz).
    destruct (Z.eqb_spec (c x y) 0), (Z.eqb_spec (c y z) 0), (Z.eqb_spec (c x z) 0);
      intros; try lia. by apply (Ht x y z).
Qed.

#[export] Instance CmpOn_lex {A} (P : A → Prop) (c d : A → A → Z) :
  CmpOn P c → CmpOn P d → CmpOn P (λ x y, c x y <?> d x y).
Proof.
  intros Hc Hd. apply CmpOn_lex_dep; [done|intros; by apply cmp_sign|intros; by apply cmp_anti|].
  intros x y z ??? _ _. by apply cmp_trans.
Qed.

Lemma CmpOn_by {A B} (P : A → Prop) (Q : B → Prop) (f : A → B) (c : B → B → Z) :
  CmpOn Q c → (∀ x, P x → Q (f x)) → CmpOn P (λ x y, c (f x) (f y)).
Proof.
  intros Hc Hf. split.
  - intros x y Px Py. apply cmp_sign; auto.
  - intros x y Px Py. apply cmp_anti; auto.
  - intros x y z Px Py Pz. apply (cmp_trans (f x) (f y) (f z)); auto.
Qed.

Lemma CmpOn_weaken {A} (P Q : A → Prop) (c : A → A → Z) :
  CmpOn Q c → (∀ x, P x → Q x) → CmpOn P c.
Proof. intros Hc HP. apply (CmpOn_by P Q (λ x, x)); auto. Qed.

(** A comparison that agrees with a lawful one is lawful. *)
Lemma CmpOn_ext {A} (P : A → Prop) (c d : A → A → Z) :
  (∀ x y, P x → P y → c x y = d x y) → CmpOn P d → CmpOn P c.
Proof.
  intros E Hd. split.
  - intros x y Px Py. rewrite E by done. by apply (cmp_sign (cmp:=d)).
  - intros x y Px Py. rewrite !E by done. by apply (cmp_anti (cmp:=d)).
  - intros x y z Px Py Pz. rewrite !E by done. by apply (cmp_trans (cmp:=d)).
Qed.

#[export] Instance int_cmp_on : CmpEqOn any int_cmp.
Proof.
  assert (∀ x y, (x < y ∧ int_cmp x y = -1) ∨ (x = y ∧ int_cmp x y = 0) ∨ (y < x ∧ int_cmp x y = 1)) as E.
  { intros x y. unfold int_cmp. destruct (Z.ltb_spec x y), (Z.ltb_spec y x); lia. }
  split; [split|].
  - intros x y _ _. destruct (E x y); lia.
  - intros x y _ _. pose proof (E x y). pose proof (E y x). lia.
  - intros x y z _ _ _. pose proof (E x y). pose proof (E y z). pose proof (E x z). lia.
  - intros x y _ _. pose proof (E x y). lia.
Qed.

Lemma bytes_cmp_cons x y xs ys :
  bytes_cmp (x :: xs) (y :: ys) = int_cmp x y <?> bytes_cmp xs ys.
Proof.
  simpl. unfold int_cmp, lex_then. destruct (Z.ltb_spec x y), (Z.ltb_spec y x); reflexivity.
Qed.

#[export] Instance bytes_cmp_on : CmpEqOn any bytes_cmp.
Proof.
  split; [split|].
  - intros x y _ _. revert y. induction x as [|a x IH]; intros [|b y]; simpl; auto.
    destruct (a <? b), (b <? a); auto.
  - intros x y _ _. revert y. induction x as [|a x IH]; intros [|b y]; simpl; auto.
    destruct (Z.ltb_spec a b), (Z.ltb_spec b a); auto; lia.
  - intros x y z _ _ _. revert y z.
    induction x as [|a x IH]; intros [|b y] [|c z]; simpl; try lia.
    specialize (IH y z).
    destruct (Z.ltb_spec a b), (Z.ltb_spec b a), (Z.ltb_spec b c), (Z.ltb_spec c b),
      (Z.ltb_spec a c), (Z.ltb_spec c a); lia.
  - intros x y _ _. revert y. induction x as [|a x IH]; intros [|b y]; simpl; try done.
    destruct (Z.ltb_spec a b), (Z.ltb_spec b a); try done.
    intros E. f_equal; [lia|]. by apply IH.
Qed.

#[export] Instance bytes_of_string_inj : Inj (=) (=) bytes_of_string.
Proof.
  intros s. induction s as [|c s IH]; intros [|d t]; simpl; try done.
  intros [= H1 H2]. f_equal; [|by apply IH].
  apply N2Z.inj in H1. rewrite <-(Ascii.ascii_N_embedding c), <-(Ascii.ascii_N_embedding d).
  by rewrite H1.
Qed.

#[export] Instance str_cmp_on : CmpEqOn any str_cmp.
Proof.
  split; [by apply (CmpOn_by _ any bytes_of_string bytes_cmp); [apply _|]|].
  intros x y _ _ E. apply (inj bytes_of_string). by apply cmp_zero.
Qed.

Lemma str_ltb_spec s t : s <ₛ t = true ↔ str_cmp s t = -1.
Proof.
  unfold str_ltb. rewrite Z.ltb_lt. pose proof (cmp_sign (cmp:=str_cmp) s t I I). lia.
Qed.

Lemma str_ltb_irrefl s : s <ₛ s = false.
Proof.
  pose proof (cmp_anti (cmp:=str_cmp) s s I I). unfold str_ltb. apply Z.ltb_ge. lia.
Qed.

Lemma str_ltb_trans s t u : s <ₛ t = true → t <ₛ u = true → s <ₛ u = true.
Proof.
  unfold str_ltb. rewrite !Z.ltb_lt. intros H1 H2.
  pose proof (cmp_trans (cmp:=str_cmp) s t u I I I).
  pose proof (cmp_trans (cmp:=str_cmp) u s t I I I).
  pose proof (cmp_anti (cmp:=str_cmp) s u I I). pose proof (cmp_anti (cmp:=str_cmp) t u I I). lia.
Qed.

Lemma str_ltb_contra s t : s <ₛ t = true → t <ₛ s = true → False.
Proof. intros H1 H2. pose proof (str_ltb_trans s t s H1 H2). by rewrite str_ltb_irrefl in *. Qed.

Lemma str_ltb_total s t : s <ₛ t = true ∨ s = t ∨ t <ₛ s = true.
Proof.
  rewrite !str_ltb_spec. pose proof (cmp_anti (cmp:=str_cmp) s t I I).
  destruct (cmp_sign (cmp:=str_cmp) s t I I) as [?|[?%cmp_zero|?]]; auto. right. right. lia.
Qed.

Lemma str_ltb_empty s : s <ₛ "" = false.
Proof. by destruct s. Qed.

Lemma str_ltb_from_empty s : s ≠ "" → "" <ₛ s = true.
Proof. by destruct s. Qed.

(** Comparison chains over fields: split the chain and use the order of each field. *)
Ltac solve_cmp_on :=
  first [ by apply (CmpOn_by _ any _ int_cmp); [apply _|]
        | by apply (CmpOn_by _ any _ str_cmp); [apply _|]
        | by apply (CmpOn_by _ any _ bytes_cmp); [apply _|]
        | apply CmpOn_lex; [solve_cmp_on|solve_cmp_on]
        | idtac ].

(** Fields that compare as 0 are equal. *)
Ltac fields_equal :=
  repeat match goal with
  | H : int_cmp _ _ = 0 |- _ => apply cmp_zero in H; [|done..]
  | H : str_cmp _ _ = 0 |- _ => apply cmp_zero in H; [|done..]
  | H : bytes_cmp _ _ = 0 |- _ => apply cmp_zero in H; [|done..]
  end.

(** Lists of comparable elements. *)
Lemma elems_cmp_sign {A} (P : A → Prop) cmp `{!CmpOn P cmp} xs ys :
  Forall P xs → Forall P ys → elems_cmp cmp xs ys = -1 ∨ elems_cmp cmp xs ys = 0 ∨ elems_cmp cmp xs ys = 1.
Proof.
  intros Hx. revert ys. induction Hx as [|x xs Px _ IH]; intros ys [|y ys' Py Hy]; simpl; auto.
  unfold lex_then. destruct (Z.eqb_spec (cmp x y) 0); [by apply IH|by apply cmp_sign].
Qed.

Lemma elems_cmp_anti {A} (P : A → Prop) cmp `{!CmpOn P cmp} xs ys :
  Forall P xs → Forall P ys → elems_cmp cmp ys xs = - elems_cmp cmp xs ys.
Proof.
  intros Hx. revert ys. induction Hx as [|x xs Px _ IH]; intros ys [|y ys' Py Hy]; simpl; auto.
  unfold lex_then. pose proof (cmp_anti x y Px Py).
  destruct (Z.eqb_spec (cmp x y) 0), (Z.eqb_spec (cmp y x) 0); try lia. auto.
Qed.

Lemma elems_cmp_trans {A} (P : A → Prop) cmp `{!CmpOn P cmp} xs ys zs :
  Forall P xs → Forall P ys → Forall P zs →
  length xs = length ys → length ys = length zs →
  elems_cmp cmp xs ys ≤ 0 → elems_cmp cmp ys zs ≤ 0 → elems_cmp cmp xs zs ≤ 0.
Proof.
  intros Hx. revert ys zs.
  induction Hx as [|x xs Px _ IH]; intros ys zs [|y ys' Py Hy] [|z zs' Pz Hz]; simpl; try lia.
  intros [= L1] [= L2]. specialize (IH _ _ Hy Hz L1 L2). unfold lex_then.
  pose proof (cmp_trans x y z Px Py Pz). pose proof (cmp_trans z x y Pz Px Py).
  pose proof (cmp_trans y z x Py Pz Px). pose proof (cmp_anti x y Px Py).
  pose proof (cmp_anti y z Py Pz). pose proof (cmp_anti x z Px Pz).
  destruct (Z.eqb_spec (cmp x y) 0), (Z.eqb_spec (cmp y z) 0), (Z.eqb_spec (cmp x z) 0); lia.
Qed.

Lemma elems_cmp_zero {A} (P : A → Prop) cmp `{!CmpEqOn P cmp} xs ys :
  Forall P xs → Forall P ys → length xs = length ys → elems_cmp cmp xs ys = 0 → xs = ys.
Proof.
  intros Hx. revert ys. induction Hx as [|x xs Px _ IH]; intros ys [|y ys' Py Hy]; simpl; try done.
  intros [= L] E. apply lex_then_zero in E as [E1 E2].
  f_equal; [by apply cmp_zero|by apply IH].
Qed.

Lemma len_cmp_zero {A} (xs ys : list A) : len_cmp xs ys = 0 → length xs = length ys.
Proof. intros E%(cmp_zero (cmp:=int_cmp)); [lia|done|done]. Qed.

#[export] Instance list_cmp_on {A} (P : A → Prop) cmp `{!CmpOn P cmp} : CmpOn (Forall P) (list_cmp cmp).
Proof.
  apply CmpOn_lex_dep.
  - by apply (CmpOn_by _ any (λ l : list A, Z.of_nat (length l)) int_cmp); [apply _|].
  - intros; by eapply elems_cmp_sign.
  - intros; by eapply elems_cmp_anti.
  - intros x y z ??? ?%len_cmp_zero ?%len_cmp_zero. by eapply elems_cmp_trans.
Qed.

#[export] Instance list_cmp_eq_on {A} (P : A → Prop) cmp `{!CmpEqOn P cmp} : CmpEqOn (Forall P) (list_cmp cmp).
Proof.
  split; [apply _|]. intros x y ?? E. apply lex_then_zero in E as [E1%len_cmp_zero E2].
  by eapply elems_cmp_zero.
Qed.

(** ** Slices

    [sort.Slice(l, less)] sorts in place and is not stable.  The model is one
    particular sorting function; [sort_slice_unique] shows that on the values the
    program sorts every sorting function gives the same slice. *)

Fixpoint insert_less {A} (less : A → A → bool) (x : A) (l : list A) : list A :=
  match l with
  | [] => [x]
  | y :: l' => if less y x then y :: insert_less less x l' else x :: l
  end.

Definition sort_slice {A} (less : A → A → bool) (l : list A) : list A :=
  foldr (insert_less less) [] l.

Definition cmp_less {A} (cmp : A → A → Z) (x y : A) : bool := cmp x y <? 0.
Definition cmp_le {A} (cmp : A → A → Z) (x y : A) : Prop := cmp x y ≤ 0.

Lemma insert_less_Permutation {A} (less : A → A → bool) x l : insert_less less x l ≡ₚ x :: l.
Proof.
  induction l as [|y l IH]; simpl; [done|]. destruct (less y x); [|done].
  rewrite IH. apply perm_swap.
Qed.

Lemma sort_slice_Permutation {A} (less : A → A → bool) l : sort_slice less l ≡ₚ l.
Proof.
  induction l as [|x l IH]; simpl; [done|]. by rewrite insert_less_Permutation, IH.
Qed.

Lemma sort_slice_Forall {A} (P : A → Prop) (less : A → A → bool) l :
  Forall P l → Forall P (sort_slice less l).
Proof. by rewrite sort_slice_Permutation. Qed.

Section sorting.
Context {A} (P : A → Prop) (cmp : A → A → Z) `{!CmpOn P cmp}.

Lemma insert_less_sorted x l :
  P x → Forall P l → StronglySorted (cmp_le cmp) l →
  StronglySorted (cmp_le cmp) (insert_less (cmp_less cmp) x l).
Proof.
  intros Px Pl Hl. induction Hl as [|y l Hl IH Hy]; simpl.
  { repeat constructor. }
  apply Forall_cons_1 in Pl as [Py Pl]. pose proof (cmp_anti x y Px Py).
  unfold cmp_less at 1. destruct (Z.ltb_spec (cmp y x) 0).
  - constructor; [by apply IH|]. rewrite insert_less_Permutation. constructor; [unfold cmp_le; lia|done].
  - constructor; [by constructor|]. constructor; [unfold cmp_le; lia|].
    rewrite Forall_forall in Hy, Pl |- *. intros z Hz. unfold cmp_le in *.
    apply (cmp_trans x y z); auto; lia.
Qed.

Lemma sort_slice_sorted l :
  Forall P l → StronglySorted (cmp_le cmp) (sort_slice (cmp_less cmp) l).
Proof.
  induction 1 as [|x l Px Pl IH]; simpl; [constructor|].
  apply insert_less_sorted; [done|by apply sort_slice_Forall|done].
Qed.
End sorting.

Lemma sort_slice_unique {A} (P : A → Prop) (cmp : A → A → Z) `{!CmpEqOn P cmp} l k :
  Forall P l → k ≡ₚ l → StronglySorted (cmp_le cmp) k → k = sort_slice (cmp_less cmp) l.
Proof.
  intros Pl Hk Sk.
  apply (StronglySorted_unique_strong (cmp_le cmp)).
  - intros x y Hx Hy H1 H2. unfold cmp_le in *.
    assert (Forall P k) as Pk by by rewrite Hk.
    assert (Forall P (sort_slice (cmp_less cmp) l)) as Ps by by apply sort_slice_Forall.
    rewrite Forall_forall in Pk, Ps.
    apply cmp_zero; [auto|auto|]. pose proof (cmp_anti x y (Pk _ Hx) (Ps _ Hy)). lia.
  - done.
  - by eapply sort_slice_sorted; [apply _|].
  - by rewrite sort_slice_Permutation.
Qed.

Lemma sort_by_key_sorted {A} (key : A → Z) l :
  StronglySorted (λ x y, key x ≤ key y) (sort_slice (λ x y, key x <? key y) l).
Proof.
  induction l as [|x l IH]; simpl; [constructor|]. set (k := sort_slice _ l) in *. clearbody k.
  induction IH as [|y k Hk IH Hy]; simpl; [repeat constructor|]. destruct (Z.ltb_spec (key y) (key x)).
  - constructor; [done|]. rewrite insert_less_Permutation. constructor; [lia|done].
  - constructor; [by constructor|]. constructor; [lia|]. eapply Forall_impl; [done|]. simpl. lia.
Qed.

(** ** Sums over a map *)

Definition map_sum {K A} `{Countable K} (f : A → Z) (m : gmap K A) : Z := map_fold (λ _ x s, f x + s) 0 m.

Section map_sum.
Context {K A} `{Countable K} (f : A → Z).
Implicit Types m : gmap K A.

Lemma map_sum_empty : map_sum f (∅ : gmap K A) = 0.
Proof. apply map_fold_empty. Qed.
Lemma map_sum_insert m k x : m !! k = None → map_sum f (<[k := x]> m) = f x + map_sum f m.
Proof. intros. unfold map_sum. rewrite map_fold_insert_L; [done|intros; lia|done]. Qed.
Lemma map_sum_delete m k x : m !! k = Some x → map_sum f (delete k m) = map_sum f m - f x.
Proof.
  intros E. rewrite <-(insert_delete_id m k x E) at 2. rewrite map_sum_insert by apply lookup_delete_eq. lia.
Qed.
Lemma map_sum_update m k x y : m !! k = Some x → map_sum f (<[k := y]> m) = map_sum f m - f x + f y.
Proof.
  intros E. rewrite <-insert_delete_eq, map_sum_insert by apply lookup_delete_eq. rewrite (map_sum_delete _ _ x) by done. lia.
Qed.
Lemma map_sum_nonneg m : (∀ x, 0 ≤ f x) → 0 ≤ map_sum f m.
Proof.
  intros Hf. induction m as [|k x m E IH] using map_ind; [by rewrite map_sum_empty|].
  rewrite map_sum_insert by done. specialize (Hf x). lia.
Qed.
Lemma map_sum_lower m k x : (∀ x, 0 ≤ f x) → m !! k = Some x → f x ≤ map_sum f m.
Proof.
  intros Hf E. pose proof (map_sum_nonneg (delete k m) Hf). rewrite (map_sum_delete _ _ x) in H0 by done. lia.
Qed.
End map_sum.

(** ** Strings *)

Definition str_join (sep : string) (l : list string) : string := String.concat sep l.

(** [strings.Split(s, ".")] *)
Fixpoint split_dot (s : string) : list string :=
  match s with
  | EmptyString => [""%string]
  | String c s' =>
      if Ascii.eqb c "."%char then ""%string :: split_dot s'
      else match split_dot s' with
           | [] => [String c EmptyString]
           | l :: ls => String c l :: ls
           end
  end.

(** Decimal rendering, [%d]. *)
Definition dec (z : Z) : string := pretty z.

Lemma str_eqb_refl s : s =ₛ s = true.
Proof. apply String.eqb_refl. Qed.
Lemma str_eqb_neq s t : s ≠ t → s =ₛ t = false.
Proof. apply String.eqb_neq. Qed.
#[export] Hint Rewrite str_eqb_refl str_ltb_irrefl str_ltb_empty : rains.

(** ** Separators

    The program builds map keys by joining fields with a separator character.  Such
    a key determines its fields when the fields do not contain the separator. *)

Fixpoint no_char (c : Ascii.ascii) (s : string) : Prop :=
  match s with
  | EmptyString => True
  | String d s' => d ≠ c ∧ no_char c s'
  end.

#[export] Instance no_char_dec c s : Decision (no_char c s).
Proof. induction s; simpl; apply _. Defined.

Lemma str_app_cons c s t : (String c s +:+ t)%string = String c (s +:+ t).
Proof. done. Qed.

Lemma str_app_assoc s t u : ((s +:+ t) +:+ u = s +:+ (t +:+ u))%string.
Proof. induction s as [|c s IH]; [done|]. rewrite !str_app_cons. by rewrite IH. Qed.

Lemma str_app_nil_r s : (s +:+ "" = s)%string.
Proof. induction s as [|c s IH]; [done|]. rewrite str_app_cons. by rewrite IH. Qed.

Lemma no_char_app c s t : no_char c (s +:+ t) ↔ no_char c s ∧ no_char c t.
Proof. induction s as [|d s IH]; [by simpl; tauto|]. rewrite str_app_cons. simpl. tauto. Qed.

Lemma sep_inj c s s' t t' :
  no_char c s → no_char c s' →
  (s +:+ String c t = s' +:+ String c t')%string → s = s' ∧ t = t'.
Proof.
  revert s'. induction s as [|d s IH]; intros [|d' s'] H H' E; simpl in H, H'.
  - by simplify_eq/=.
  - rewrite str_app_cons in E. injection E as E1 E2. naive_solver.
  - rewrite str_app_cons in E. injection E as E1 E2. naive_solver.
  - rewrite !str_app_cons in E. injection E as -> E.
    destruct (IH s') as [-> ->]; tauto.
Qed.

Lemma str_app_inj_l s t t' : (s +:+ t = s +:+ t')%string → t = t'.
Proof. apply (inj (String.app s)). Qed.

(** Decimal numerals contain digits and a sign only. *)
Definition digit_or_minus (c : Ascii.ascii) : Prop :=
  c = "-"%char ∨ (48 ≤ N_of_ascii c ≤ 57)%N.

Fixpoint all_chars (P : Ascii.ascii → Prop) (s : string) : Prop :=
  match s with EmptyString => True | String c s' => P c ∧ all_chars P s' end.

Lemma all_chars_no_char P c s : all_chars P s → ¬ P c → no_char c s.
Proof. induction s as [|d s IH]; simpl; [done|]. intros [Hd Hs] Hc. split; [naive_solver|auto]. Qed.

Lemma pretty_N_go_chars x s :
  all_chars digit_or_minus s → all_chars digit_or_minus (pretty_N_go x s).
Proof.
  revert s. induction (N.lt_wf_0 x) as [x _ IH]; intros s Hs.
  destruct (decide (0 < x)%N) as [Hx|Hx].
  - rewrite pretty_N_go_step by done. apply IH; [apply N.div_lt; lia|]. simpl. split; [|done].
    assert (x `mod` 10 < 10)%N as Hm by (apply N.mod_lt; lia). revert Hm.
    generalize (x `mod` 10)%N. intros y Hy. right. unfold pretty_N_char.
    assert (y = 0 ∨ y = 1 ∨ y = 2 ∨ y = 3 ∨ y = 4 ∨ y = 5 ∨ y = 6 ∨ y = 7 ∨ y = 8 ∨ y = 9)%N as Hc by lia.
    repeat destruct Hc as [->|Hc]; try subst; vm_compute; split; congruence.
  - assert (x = 0%N) as -> by lia. by rewrite pretty_N_go_0.
Qed.

Lemma dec_chars z : all_chars digit_or_minus (dec z).
Proof.
  unfold dec. destruct z as [|p|p]; cbn -[pretty_N_go].
  - split; [|done]. right. vm_compute. split; congruence.
  - unfold pretty, pretty_positive, pretty, pretty_N. case_decide; [done|]. by apply pretty_N_go_chars.
  - split; [by left|]. unfold pretty, pretty_positive, pretty, pretty_N. case_decide; [done|]. by apply pretty_N_go_chars.
Qed.

Lemma dec_no_char c z : ¬ digit_or_minus c → no_char c (dec z).
Proof. intros H. by eapply all_chars_no_char; [apply dec_chars|]. Qed.

Lemma digit_or_minus_dec_false c :
  c ≠ "-"%char → bool_decide (48 ≤ N_of_ascii c ≤ 57)%N = false → ¬ digit_or_minus c.
Proof. intros H1 H2%bool_decide_eq_false [->|H]; done. Qed.

Ltac solve_not_digit := apply digit_or_minus_dec_false; [discriminate|vm_compute; reflexivity].

#[export] Instance dec_inj : Inj (=) (=) dec.
Proof. apply pretty_Z_inj. Qed.
