(* ===== verification/BitArray.v ===== *)
(** * Bit arrays

    Models attic/internal/pkg/datastructures/bitarray/bitarray.go: a byte slice
    addressed by bit number.  The methods mutate the slice in place; here they
    return the slice after the call.  [BitArray_spec] is the abstract view, a set of
    bit numbers, and the theorems show that [SetBit] is insertion into that set,
    [GetBit] is membership and neither leaves the slice. *)

From S2P Require Import Prelude.
Local Open Scope Z_scope.

Abbreviation BitArray := (list Z) (only parsing).

(** Go's [/] and [%] truncate towards zero, so negative positions reach [getOffset]
    with a negative remainder. *)
Definition getOffset (pos : Z) : Z :=
  if pos =? 0 then 1
  else if pos =? 1 then 2
  else if pos =? 2 then 4
  else if pos =? 3 then 8
  else if pos =? 4 then 16
  else if pos =? 5 then 32
  else if pos =? 6 then 64
  else if pos =? 7 then 128
  else 0.

Definition SetBit (b : BitArray) (i : Z) : outcome BitArray :=
  let block := Z.quot i 8 in
  if Z.of_nat (length b) <=? block then Err "i out of bound"
  else
    x ← at_index b block;
    Ok (<[Z.to_nat block := Z.lor x (getOffset (Z.rem i 8))]> b).

Definition GetBit (b : BitArray) (i : Z) : outcome bool :=
  let block := Z.quot i 8 in
  if Z.of_nat (length b) <=? block then Err "i out of bound"
  else
    x ← at_index b block;
    Ok (negb (Z.land x (getOffset (Z.rem i 8)) =? 0)).

(** ** The abstract view *)

Definition nbits (b : BitArray) : Z := 8 * Z.of_nat (length b).

(** The bit [i] of the array is set. *)
Definition BitArray_spec (b : BitArray) (i : Z) : Prop :=
  ∃ x, b !! Z.to_nat (i / 8) = Some x ∧ Z.testbit x (i mod 8) = true.

Definition byte_range (x : Z) : Prop := 0 ≤ x < 256.

(** ** Lemmas *)

Lemma getOffset_pow p : 0 ≤ p < 8 → getOffset p = 2 ^ p.
Proof.
  intros H. assert (p = 0 ∨ p = 1 ∨ p = 2 ∨ p = 3 ∨ p = 4 ∨ p = 5 ∨ p = 6 ∨ p = 7) as E by lia.
  by destruct E as [->|[->|[->|[->|[->|[->|[->| ->]]]]]]].
Qed.

Lemma getOffset_out p : ¬ (0 ≤ p < 8) → getOffset p = 0.
Proof.
  intros H. unfold getOffset.
  repeat match goal with |- context [?a =? ?b] => destruct (Z.eqb_spec a b); [lia|] end. done.
Qed.

Lemma land_pow2_eqb x p : 0 ≤ p → negb (Z.land x (2 ^ p) =? 0) = Z.testbit x p.
Proof.
  intros Hp. destruct (Z.testbit x p) eqn:E.
  - apply negb_true_iff, Z.eqb_neq. intros H.
    apply (f_equal (λ z, Z.testbit z p)) in H.
    rewrite Z.land_spec, E, Z.pow2_bits_true, Z.bits_0 in H by done. done.
  - apply negb_false_iff, Z.eqb_eq. apply Z.bits_inj'. intros n Hn.
    rewrite Z.land_spec, Z.pow2_bits_eqb, Z.bits_0 by done.
    destruct (Z.eqb_spec p n) as [->|]; [by rewrite E|by rewrite andb_false_r].
Qed.

Lemma quot_rem_nonneg i : 0 ≤ i → Z.quot i 8 = i / 8 ∧ Z.rem i 8 = i mod 8.
Proof. intros H. split; [apply Z.quot_div_nonneg|apply Z.rem_mod_nonneg]; lia. Qed.

Lemma div_mod_inj i j : i / 8 = j / 8 → i mod 8 = j mod 8 → i = j.
Proof. intros H1 H2. rewrite (Z.div_mod i 8), (Z.div_mod j 8) by lia. lia. Qed.

(** An in-range position addresses a byte of the array. *)
Lemma byte_at (b : BitArray) i :
  0 ≤ i < nbits b →
  ∃ x, b !! Z.to_nat (i / 8) = Some x ∧ at_index b (Z.quot i 8) = Ok x ∧
       (Z.of_nat (length b) <=? Z.quot i 8) = false.
Proof.
  intros [H0 H1]. unfold nbits in H1. destruct (quot_rem_nonneg i H0) as [Hq _].
  assert (i / 8 < Z.of_nat (length b)) by (apply Z.div_lt_upper_bound; lia).
  assert (0 ≤ i / 8) by (apply Z.div_pos; lia).
  destruct (lookup_lt_is_Some_2 b (Z.to_nat (i / 8))) as [x Hx]; [lia|].
  exists x. split; [done|]. rewrite Hq. split; [|apply Z.leb_gt; lia].
  unfold at_index. rewrite decide_True by lia. by rewrite Hx.
Qed.

Lemma SetBit_ok b i :
  0 ≤ i < nbits b →
  ∃ x, b !! Z.to_nat (i / 8) = Some x ∧
       SetBit b i = Ok (<[Z.to_nat (i / 8) := Z.lor x (2 ^ (i mod 8))]> b).
Proof.
  intros H. destruct (byte_at b i H) as (x & Hx & Ha & Hb). exists x. split; [done|].
  unfold SetBit. rewrite Hb, Ha. simpl. destruct (quot_rem_nonneg i) as [-> ->]; [lia|].
  by rewrite getOffset_pow by (apply Z.mod_pos_bound; lia).
Qed.

Lemma GetBit_ok b i :
  0 ≤ i < nbits b →
  ∃ x, b !! Z.to_nat (i / 8) = Some x ∧ GetBit b i = Ok (Z.testbit x (i mod 8)).
Proof.
  intros H. destruct (byte_at b i H) as (x & Hx & Ha & Hb). exists x. split; [done|].
  unfold GetBit. rewrite Hb, Ha. simpl. destruct (quot_rem_nonneg i) as [_ ->]; [lia|].
  pose proof (Z.mod_pos_bound i 8). rewrite getOffset_pow by lia. by rewrite land_pow2_eqb by lia.
Qed.

Lemma GetBit_spec b i :
  0 ≤ i < nbits b → ∃ v, GetBit b i = Ok v ∧ (v = true ↔ BitArray_spec b i).
Proof.
  intros H. destruct (GetBit_ok b i H) as (x & Hx & ->). eexists; split; [done|].
  unfold BitArray_spec. rewrite Hx. naive_solver.
Qed.

Lemma SetBit_spec b i :
  0 ≤ i < nbits b →
  ∃ b', SetBit b i = Ok b' ∧ length b' = length b ∧
        ∀ j, 0 ≤ j < nbits b → BitArray_spec b' j ↔ j = i ∨ BitArray_spec b j.
Proof.
  intros H. destruct (SetBit_ok b i H) as (x & Hx & ->). eexists; split; [done|].
  split; [apply length_insert|]. intros j Hj. unfold BitArray_spec.
  assert (Z.to_nat (i / 8) < length b)%nat by (by apply lookup_lt_Some in Hx).
  pose proof (Z.mod_pos_bound i 8). pose proof (Z.mod_pos_bound j 8).
  assert (0 ≤ i / 8) by (apply Z.div_pos; lia). assert (0 ≤ j / 8) by (apply Z.div_pos; lia).
  destruct (decide (i / 8 = j / 8)) as [E|E].
  - rewrite <-E, list_lookup_insert_eq, Hx by lia. split.
    + intros (y & [= <-] & T). rewrite Z.lor_spec, Z.pow2_bits_eqb in T by lia.
      apply orb_true_iff in T as [T|T]; [eauto|]. left. apply div_mod_inj; lia.
    + intros T. eexists; split; [done|]. rewrite Z.lor_spec, Z.pow2_bits_eqb by lia.
      destruct T as [->|(y & [= <-] & ->)]; [|done]. by rewrite Z.eqb_refl, orb_true_r.
  - rewrite list_lookup_insert_ne by lia. split; [by eauto|]. intros [->|?]; [done|done].
Qed.

Lemma lor_byte_range x p : byte_range x → 0 ≤ p < 8 → byte_range (Z.lor x (2 ^ p)).
Proof.
  unfold byte_range. intros Hx Hp. rewrite <-(getOffset_pow p) by done. split.
  - apply Z.lor_nonneg. rewrite getOffset_pow by done. lia.
  - assert (Z.lor x (getOffset p) = (Z.lor x (getOffset p)) mod 2 ^ 8) as ->.
    { rewrite getOffset_pow, <-Z.land_ones, Z.land_lor_distr_l, !Z.land_ones by lia.
      rewrite (Z.mod_small x), Z.mod_small; [done| |lia].
      split; [lia|]. apply Z.pow_lt_mono_r; lia. }
    apply Z.mod_pos_bound. lia.
Qed.

(** ** Theorems *)

(** On every position of the array, reading after writing gives the written bit and
    every other bit is unchanged: [SetBit] is insertion into the set of set bits,
    [GetBit] is membership. *)
Theorem GetBit_SetBit b i j :
  0 ≤ i < nbits b → 0 ≤ j < nbits b →
  ∃ b', SetBit b i = Ok b' ∧
        GetBit b' j = if decide (j = i) then Ok true else GetBit b j.
Proof.
  intros Hi Hj. destruct (SetBit_spec b i Hi) as (b' & Hs & Hl & Hb'). exists b'. split; [done|].
  assert (nbits b' = nbits b) as Hn by (unfold nbits; by rewrite Hl).
  destruct (GetBit_spec b' j) as (v' & -> & Hv'); [by rewrite Hn|].
  destruct (GetBit_spec b j Hj) as (v & -> & Hv). rewrite (Hb' j Hj), <-Hv in Hv'.
  case_decide; destruct v, v'; naive_solver.
Qed.

Lemma GetBit_SetBit_witness : ∃ b', SetBit [0; 8] 9 = Ok b' ∧ GetBit b' 11 = Ok true.
Proof.
  destruct (GetBit_SetBit [0; 8] 9 11) as (b' & E & G); [vm_compute; split; congruence|vm_compute; split; congruence|].
  exists b'. split; [exact E|]. rewrite G. reflexivity.
Defined.

(** Positions outside the array are refused with an error by both operations,
    positions at or below -8 index the slice with a negative number, and the
    positions between -7 and -1 read as unset and write nothing. *)
Lemma BitArray_out_of_range b i :
  (nbits b ≤ i → is_err (SetBit b i) = true ∧ is_err (GetBit b i) = true) ∧
  (i ≤ -8 → is_panic (SetBit b i) = true ∧ is_panic (GetBit b i) = true) ∧
  (-8 < i < 0 → b ≠ [] → SetBit b i = Ok b ∧ GetBit b i = Ok false).
Proof.
  unfold nbits, SetBit, GetBit. split; [|split].
  - intros H. destruct (quot_rem_nonneg i) as [-> _]; [lia|].
    destruct (Z.leb_spec (Z.of_nat (length b)) (i / 8)) as [|Hl]; [done|].
    pose proof (Z.div_mod i 8). pose proof (Z.mod_pos_bound i 8). lia.
  - intros H. assert (Z.quot i 8 ≤ -1).
    { pose proof (Z.quot_rem i 8). pose proof (Z.rem_bound_abs i 8). lia. }
    destruct (Z.leb_spec (Z.of_nat (length b)) (Z.quot i 8)); [lia|].
    unfold at_index. by rewrite decide_False by lia.
  - intros H Hb. assert (Z.quot i 8 = 0) as -> by (apply Z.quot_small_iff; lia).
    assert (Z.rem i 8 = i) as -> by (apply Z.rem_small_iff; lia).
    destruct b as [|x b]; [done|]. rewrite getOffset_out by lia. simpl.
    by rewrite Z.lor_0_r, Z.land_0_r.
Qed.

(** Writing a bit keeps every element a byte and the length of the slice. *)
Lemma SetBit_type b i b' :
  Forall byte_range b → SetBit b i = Ok b' → Forall byte_range b' ∧ length b' = length b.
Proof.
  intros Hb H. unfold SetBit in H. destruct (_ <=? _); [done|]. simplify_outcome.
  split; [|apply length_insert]. apply Forall_insert; [done|].
  unfold at_index in *. case_decide; [|done].
  destruct (b !! Z.to_nat (Z.quot i 8)) eqn:E; simplify_eq/=.
  assert (byte_range a) by (by eapply Forall_lookup_1 in E).
  destruct (decide (0 ≤ Z.rem i 8 < 8)).
  - rewrite getOffset_pow by done. by apply lor_byte_range.
  - rewrite getOffset_out by done. by rewrite Z.lor_0_r.
Qed.
