(* ===== verification/Containers.v ===== *)
(** * Shared containers

    Models attic/internal/pkg/datastructures/safeCounter/safeCounter.go and
    attic/internal/pkg/datastructures/safeHashMap/safeHashMap.go.  Every method holds
    the object's mutex for its whole body, so a method is one atomic step on the
    state and a concurrent execution is a sequence of such steps. *)

From S2P Require Import Prelude.
Local Open Scope Z_scope.

(** ** safeCounter.Counter *)

Record Counter := mkCounter { maxCount : Z; count : Z }.

Definition Counter_New (maxcount : Z) : Counter := {| maxCount := maxcount; count := 0 |}.

Definition Counter_Inc (m : Counter) : Counter * bool :=
  let m' := {| maxCount := maxCount m; count := int64_wrap (count m + 1) |} in
  (m', maxCount m' <=? count m').

(** A negative count is only logged. *)
Definition Counter_Add (m : Counter) (i : Z) : Counter * bool :=
  let m' := {| maxCount := maxCount m; count := int64_wrap (count m + i) |} in
  (m', maxCount m' <=? count m').

Definition Counter_Dec (m : Counter) : Counter :=
  {| maxCount := maxCount m; count := int64_wrap (count m - 1) |}.

Definition Counter_Sub (m : Counter) (i : Z) : Counter := (Counter_Add m (int64_wrap (- i))).1.

Definition Counter_Value (m : Counter) : Z := count m.
Definition Counter_Info (m : Counter) : Z * Z := (count m, maxCount m).
Definition Counter_IsFull (m : Counter) : bool := maxCount m <=? count m.
Definition Counter_String (m : Counter) : string :=
  (dec (count m) +:+ "/" +:+ dec (maxCount m))%string.

(** The atomic steps of a counter and their effect on the number it holds. *)
Inductive counter_op := OpInc | OpDec | OpAdd (i : Z) | OpSub (i : Z).

Definition counter_step (m : Counter) (o : counter_op) : Counter :=
  match o with
  | OpInc => (Counter_Inc m).1
  | OpDec => Counter_Dec m
  | OpAdd i => (Counter_Add m i).1
  | OpSub i => Counter_Sub m i
  end.

Definition op_delta (o : counter_op) : Z :=
  match o with OpInc => 1 | OpDec => -1 | OpAdd i => i | OpSub i => - i end.

Definition counter_run (m : Counter) (os : list counter_op) : Counter := foldl counter_step m os.
Definition delta_sum (os : list counter_op) : Z := foldr (λ o s, op_delta o + s) 0 os.

Lemma int64_wrap_add_r a b : int64_wrap (a + int64_wrap b) = int64_wrap (a + b).
Proof.
  unfold int64_wrap. f_equal.
  replace (a + ((b + 2 ^ 63) mod 2 ^ 64 - 2 ^ 63) + 2 ^ 63) with (a + (b + 2 ^ 63) mod 2 ^ 64) by lia.
  rewrite Zplus_mod_idemp_r. f_equal. lia.
Qed.

Lemma int64_wrap_add_l a b : int64_wrap (int64_wrap a + b) = int64_wrap (a + b).
Proof. rewrite Z.add_comm, int64_wrap_add_r. f_equal. lia. Qed.

Lemma counter_step_count m o : count (counter_step m o) = int64_wrap (count m + op_delta o).
Proof. destruct o; simpl; rewrite ?int64_wrap_add_r; done. Qed.

Lemma counter_step_max m o : maxCount (counter_step m o) = maxCount m.
Proof. by destruct o. Qed.

(** Counts used by the caches never leave the positive range, where the wrap-around
    is the identity. *)
Lemma Counter_Sub_small m i :
  0 ≤ i ≤ MaxInt64 → 0 ≤ count m - i → in_int64 (count m) → count (Counter_Sub m i) = count m - i.
Proof.
  unfold MaxInt64, in_int64. intros. simpl. rewrite int64_wrap_add_r, int64_wrap_id; [lia|].
  unfold in_int64. lia.
Qed.

Lemma delta_sum_app xs ys : delta_sum (xs ++ ys) = delta_sum xs + delta_sum ys.
Proof. induction xs; simpl; lia. Qed.

(** Every interleaving of increments, decrements, additions and subtractions leaves
    the counter at its start value plus the sum of the deltas (modulo 2^64), so the
    final value does not depend on the order in which the goroutines got the mutex;
    the threshold is never changed. *)
Theorem counter_run_sum m os :
  in_int64 (count m) →
  count (counter_run m os) = int64_wrap (count m + delta_sum os) ∧
  maxCount (counter_run m os) = maxCount m ∧
  (∀ os', os ≡ₚ os' → counter_run m os' = counter_run m os).
Proof.
  assert (∀ os m, in_int64 (count m) →
    counter_run m os = {| maxCount := maxCount m; count := int64_wrap (count m + delta_sum os) |}) as E.
  { clear m os. intros os. induction os as [|o os IH]; intros m Hm; simpl.
    - rewrite Z.add_0_r, int64_wrap_id by done. by destruct m.
    - fold (counter_run (counter_step m o) os). rewrite IH, counter_step_count, counter_step_max.
      + f_equal. rewrite int64_wrap_add_l. f_equal. lia.
      + rewrite counter_step_count. apply int64_wrap_range. }
  intros Hm. rewrite E by done. split; [done|]. split; [done|].
  intros os' P. rewrite E by done. do 3 f_equal.
  assert (∀ a b, a ≡ₚ b → delta_sum a = delta_sum b) as Hp; [|by symmetry; apply Hp].
  clear. induction 1; simpl; lia.
Qed.

Lemma counter_run_sum_witness :
  count (counter_run (Counter_New 3) [OpInc; OpInc; OpDec; OpAdd 5; OpSub 2]) = 4.
Proof.
  rewrite (proj1 (counter_run_sum (Counter_New 3) [OpInc; OpInc; OpDec; OpAdd 5; OpSub 2] ltac:(vm_compute; split; congruence))).
  reflexivity.
Defined.

(** ** safeHashMap.Map

    [map[string]interface{}]; a value is of any type [V]. *)

Section SafeHashMap.
Context {V : Type}.

Record Map := mkMap { hashMap : gmap string V }.

Definition Map_New : Map := mkMap ∅.

Definition Map_Add (m : Map) (key : string) (value : V) : Map * bool :=
  let old := size (hashMap m) in
  let h := <[key := value]> (hashMap m) in
  (mkMap h, bool_decide (old < size h)%nat).

Definition Map_GetOrAdd (m : Map) (key : string) (value : V) : Map * (V * bool) :=
  match hashMap m !! key with
  | Some v => (m, (v, false))
  | None => (mkMap (<[key := value]> (hashMap m)), (value, true))
  end.

Definition Map_Get (m : Map) (key : string) : option V := hashMap m !! key.

(** Go ranges over a map in an unspecified order; the model lists the entries in the
    order of [map_to_list] and no theorem depends on it. *)
Definition Map_GetAll (m : Map) : list V := (map_to_list (hashMap m)).*2.
Definition Map_GetAllKeys (m : Map) : list string := (map_to_list (hashMap m)).*1.

(** The boolean reports whether an element was deleted. *)
Definition Map_Remove (m : Map) (key : string) : Map * (option V * bool) :=
  let old := size (hashMap m) in
  let value := hashMap m !! key in
  let h := delete key (hashMap m) in
  (mkMap h, (value, bool_decide (size h < old)%nat)).

Definition Map_Len (m : Map) : Z := Z.of_nat (size (hashMap m)).

Lemma Map_Add_fresh m key value :
  (Map_Add m key value).2 = bool_decide (hashMap m !! key = None).
Proof.
  simpl. apply bool_decide_ext. destruct (hashMap m !! key) eqn:E.
  - rewrite map_size_insert_Some by eauto. split; [lia|done].
  - rewrite map_size_insert_None by done. split; [done|lia].
Qed.

Lemma Map_Remove_present m key :
  (Map_Remove m key).2.2 = bool_decide (is_Some (hashMap m !! key)).
Proof.
  simpl. apply bool_decide_ext. destruct (hashMap m !! key) eqn:E.
  - rewrite map_size_delete_Some by eauto. split; [by eauto|]. intros _.
    assert (size (hashMap m) ≠ 0%nat); [|lia].
    intros H0%map_size_empty_iff. rewrite H0 in E. by rewrite lookup_empty in E.
  - rewrite map_size_delete_None by done. split; [lia|]. intros [? ?]; done.
Qed.

Lemma Map_GetAllKeys_spec m key : key ∈ Map_GetAllKeys m ↔ is_Some (hashMap m !! key).
Proof.
  unfold Map_GetAllKeys. rewrite list_elem_of_fmap. split.
  - intros ([k v] & -> & ?%elem_of_map_to_list). by eexists.
  - intros [v ?%elem_of_map_to_list]. by exists (key, v).
Qed.
End SafeHashMap.
Arguments Map : clear implicits.
