(* ===== verification/LruCache.v ===== *)
(** * The LRU cache

    Models attic/internal/pkg/lruCache/lruCache.go.  The cache keeps two doubly
    linked lists ([container/list]) and a map from keys to list elements; elements of
    the internal list are only removed explicitly, elements of the LRU list can be
    evicted from the back.  A [*list.Element] is an identity ([eid], allocated by
    [PushFront]) together with the immutable entry it carries.

    The abstract specification ([Spec]) is a pair of association lists ordered from
    most to least recently used; [lru_refines] shows that every method implements it,
    and [lru_evicts_least_recently_used] that the element offered for eviction is the
    one whose last use lies furthest in the past. *)

From S2P Require Import Prelude.
Local Open Scope Z_scope.

Section LruCache.
Context {V : Type}.
Implicit Types (k key : string) (v value : V).

Record entry := mkEntry { internal : bool; ekey : string; evalue : V }.
Record element := mkElement { eid : nat; eValue : entry }.

Record Cache := mkCache {
  internalList : list element;
  lruList : list element;
  lruMap : gmap string element;
  nextId : nat
}.

(** ** container/list *)

Definition in_list (e : element) (l : list element) : bool :=
  existsb (λ x, Nat.eqb (eid x) (eid e)) l.
Definition drop_elem (e : element) (l : list element) : list element :=
  filter (λ x, eid x ≠ eid e) l.

(** [l.MoveToFront(e)] does nothing when [e] is not an element of [l]. *)
Definition MoveToFront (l : list element) (e : element) : list element :=
  if in_list e l then e :: drop_elem e l else l.
Definition list_Remove (l : list element) (e : element) : list element :=
  if in_list e l then drop_elem e l else l.
Definition list_Back (l : list element) : option element := last l.

(** ** Methods *)

Definition lru_New : Cache := mkCache [] [] ∅ 0.

Definition move_to_front (c : Cache) (e : element) : Cache :=
  if internal (eValue e)
  then mkCache (MoveToFront (internalList c) e) (lruList c) (lruMap c) (nextId c)
  else mkCache (internalList c) (MoveToFront (lruList c) e) (lruMap c) (nextId c).

Definition lru_GetOrAdd (c : Cache) (key : string) (value : V) (isInternal : bool) : Cache * (V * bool) :=
  match lruMap c !! key with
  | Some e => (move_to_front c e, (evalue (eValue e), false))
  | None =>
      let e := mkElement (nextId c) (mkEntry isInternal key value) in
      let m := <[key := e]> (lruMap c) in
      if isInternal
      then (mkCache (e :: internalList c) (lruList c) m (S (nextId c)), (value, true))
      else (mkCache (internalList c) (e :: lruList c) m (S (nextId c)), (value, true))
  end.

Definition lru_Get (c : Cache) (key : string) : Cache * option V :=
  match lruMap c !! key with
  | Some e => (move_to_front c e, Some (evalue (eValue e)))
  | None => (c, None)
  end.

Definition lru_GetAll (c : Cache) : list V :=
  (λ e, evalue (eValue e)) <$> (map_to_list (lruMap c)).*2.

Definition lru_Remove (c : Cache) (key : string) : Cache * option V :=
  match lruMap c !! key with
  | None => (c, None)
  | Some e =>
      let m := delete key (lruMap c) in
      let c' := if internal (eValue e)
                then mkCache (list_Remove (internalList c) e) (lruList c) m (nextId c)
                else mkCache (internalList c) (list_Remove (lruList c) e) m (nextId c) in
      (c', Some (evalue (eValue e)))
  end.

(** Go returns [("", nil)] for an empty list; [None] stands for [nil]. *)
Definition lru_GetLeastRecentlyUsed (c : Cache) : string * option V :=
  match list_Back (lruList c) with
  | Some e => (ekey (eValue e), Some (evalue (eValue e)))
  | None => (""%string, None)
  end.

Definition lru_Len (c : Cache) : Z := Z.of_nat (size (lruMap c)).

(** ** Invariant *)

Definition elements_of (c : Cache) : list element := internalList c ++ lruList c.
Definition list_of (c : Cache) (b : bool) : list element := if b then internalList c else lruList c.

(** The lists hold exactly the elements the map points to, each in the list its
    [internal] flag names, and no two elements share an identity. *)
Record lru_wf (c : Cache) : Prop := {
  wf_sound b e : e ∈ list_of c b → internal (eValue e) = b ∧ lruMap c !! ekey (eValue e) = Some e;
  wf_complete k e : lruMap c !! k = Some e → ekey (eValue e) = k ∧ e ∈ list_of c (internal (eValue e));
  wf_nodup : NoDup (eid <$> elements_of c);
  wf_fresh e : e ∈ elements_of c → (eid e < nextId c)%nat
}.

(** ** Abstract specification *)

Abbreviation alist := (list (string * V)).
Record Spec := mkSpec { sInternal : alist; sLru : alist }.

Definition aget (k : string) (l : alist) : option V := (list_find (λ p, p.1 = k) l) ≫= λ r, Some r.2.2.
Definition adel (k : string) (l : alist) : alist := filter (λ p, p.1 ≠ k) l.

Definition spec_get (s : Spec) (k : string) : Spec * option V :=
  match aget k (sInternal s), aget k (sLru s) with
  | Some v, _ => (mkSpec ((k, v) :: adel k (sInternal s)) (sLru s), Some v)
  | None, Some v => (mkSpec (sInternal s) ((k, v) :: adel k (sLru s)), Some v)
  | None, None => (s, None)
  end.

Definition spec_get_or_add (s : Spec) (k : string) (v : V) (b : bool) : Spec * (V * bool) :=
  match spec_get s k with
  | (s', Some w) => (s', (w, false))
  | (_, None) =>
      if b then (mkSpec ((k, v) :: sInternal s) (sLru s), (v, true))
      else (mkSpec (sInternal s) ((k, v) :: sLru s), (v, true))
  end.

Definition spec_remove (s : Spec) (k : string) : Spec * option V :=
  match aget k (sInternal s), aget k (sLru s) with
  | Some v, _ => (mkSpec (adel k (sInternal s)) (sLru s), Some v)
  | None, Some v => (mkSpec (sInternal s) (adel k (sLru s)), Some v)
  | None, None => (s, None)
  end.

Definition spec_lru (s : Spec) : string * option V :=
  match last (sLru s) with Some (k, v) => (k, Some v) | None => (""%string, None) end.

Definition kv (e : element) : string * V := (ekey (eValue e), evalue (eValue e)).
Definition abs (c : Cache) : Spec := mkSpec (kv <$> internalList c) (kv <$> lruList c).

(** ** Lemmas *)

Lemma in_list_spec e l : in_list e l = true ↔ ∃ x, x ∈ l ∧ eid x = eid e.
Proof.
  unfold in_list. rewrite existsb_exists. setoid_rewrite <-list_elem_of_In.
  setoid_rewrite Nat.eqb_eq. done.
Qed.

Lemma in_list_elem e l : e ∈ l → in_list e l = true.
Proof. intros. apply in_list_spec. eauto. Qed.

Lemma elem_of_drop_elem x e l : x ∈ drop_elem e l ↔ eid x ≠ eid e ∧ x ∈ l.
Proof. unfold drop_elem. by rewrite list_elem_of_filter. Qed.

Lemma list_of_elements c b e : e ∈ list_of c b → e ∈ elements_of c.
Proof. unfold elements_of, list_of. destruct b; rewrite elem_of_app; auto. Qed.

Lemma eid_inj c x y : lru_wf c → x ∈ elements_of c → y ∈ elements_of c → eid x = eid y → x = y.
Proof.
  intros H Hx Hy E. pose proof (wf_nodup c H) as ND.
  apply list_elem_of_lookup in Hx as [i Hi]. apply list_elem_of_lookup in Hy as [j Hj].
  assert (i = j) as ->; [|congruence].
  apply (NoDup_lookup (eid <$> elements_of c) i j (eid x)); [done|..];
    rewrite list_lookup_fmap; [by rewrite Hi|by rewrite Hj, E].
Qed.

Lemma key_of_elem c b x e :
  lru_wf c → e ∈ list_of c b → x ∈ list_of c b → eid x ≠ eid e ↔ (kv x).1 ≠ ekey (eValue e).
Proof.
  intros H He Hx. pose proof (wf_sound c H b e He) as [_ Ee].
  pose proof (wf_sound c H b x Hx) as [_ Ex]. unfold kv. simpl. split.
  - intros Hne E. rewrite E, Ee in Ex. congruence.
  - intros Hne E. apply Hne. f_equal. f_equal. eapply eid_inj; eauto using list_of_elements.
Qed.

Lemma drop_elem_adel c b e l :
  lru_wf c → e ∈ list_of c b → (∀ x, x ∈ l → x ∈ list_of c b) →
  kv <$> drop_elem e l = adel (ekey (eValue e)) (kv <$> l).
Proof.
  intros H He. induction l as [|x l IH]; intros Hl; [done|].
  assert (x ∈ list_of c b) as Hx by (apply Hl; left).
  pose proof (key_of_elem c b x e H He Hx) as Hk.
  unfold drop_elem, adel in *. rewrite fmap_cons.
  destruct (decide (eid x ≠ eid e)) as [Hd|Hd].
  - rewrite (filter_cons_True _ x) by done. rewrite (filter_cons_True _ (kv x)) by tauto.
    rewrite fmap_cons, IH; [done|]. intros; apply Hl; by right.
  - rewrite (filter_cons_False _ x) by done. rewrite (filter_cons_False _ (kv x)) by tauto.
    rewrite IH; [done|]. intros; apply Hl; by right.
Qed.

Lemma elem_of_adel p k l : p ∈ adel k l ↔ p.1 ≠ k ∧ p ∈ l.
Proof. unfold adel. by rewrite list_elem_of_filter. Qed.

Lemma aget_None k (l : alist) : aget k l = None ↔ ∀ p, p ∈ l → p.1 ≠ k.
Proof.
  unfold aget. destruct (list_find _ l) as [[i p]|] eqn:E; simpl.
  - apply list_find_Some in E as (Hp & Hk & _). split; [done|].
    intros H. exfalso. eapply H; [|done]. by eapply list_elem_of_lookup_2.
  - apply list_find_None in E. rewrite Forall_forall in E. naive_solver.
Qed.

Lemma aget_Some k v (l : alist) : NoDup l.*1 → (k, v) ∈ l → aget k l = Some v.
Proof.
  intros ND H. unfold aget. destruct (list_find (λ p, p.1 = k) l) as [[i [k' v']]|] eqn:E; simpl.
  - apply list_find_Some in E as (Hp & Hk & _). simpl in Hk. subst k'.
    apply list_elem_of_lookup in H as [j Hj]. f_equal.
    assert (i = j) as ->; [|congruence].
    apply (NoDup_lookup l.*1 i j k); [done|..]; rewrite list_lookup_fmap; [by rewrite Hp|by rewrite Hj].
  - apply list_find_None in E. rewrite Forall_forall in E. exfalso. by apply (E _ H).
Qed.

Lemma keys_nodup c b : lru_wf c → NoDup (kv <$> list_of c b).*1.
Proof.
  intros H. rewrite <-list_fmap_compose. apply NoDup_alt. intros i j k Hi Hj.
  rewrite list_lookup_fmap in Hi, Hj.
  destruct (list_of c b !! i) as [x|] eqn:Ex; [|done]. destruct (list_of c b !! j) as [y|] eqn:Ey; [|done].
  simpl in *. simplify_eq.
  assert (x = y) as ->.
  { destruct (wf_sound c H b x) as [_ E1]; [by eapply list_elem_of_lookup_2|].
    destruct (wf_sound c H b y) as [_ E2]; [by eapply list_elem_of_lookup_2|].
    unfold kv in *; simpl in *. congruence. }
  assert (NoDup (eid <$> list_of c b)) as ND.
  { pose proof (wf_nodup c H) as ND. unfold elements_of in ND. rewrite fmap_app in ND.
    apply NoDup_app in ND as (? & _ & ?). by destruct b. }
  apply (NoDup_lookup _ i j (eid y) ND); rewrite list_lookup_fmap; [by rewrite Ex|by rewrite Ey].
Qed.

Lemma abs_get_Some c k e :
  lru_wf c → lruMap c !! k = Some e →
  aget k (kv <$> list_of c (internal (eValue e))) = Some (evalue (eValue e)) ∧
  aget k (kv <$> list_of c (negb (internal (eValue e)))) = None.
Proof.
  intros H E. destruct (wf_complete c H k e E) as [Hk He]. split.
  - apply aget_Some; [by apply keys_nodup|]. apply list_elem_of_fmap. exists e. unfold kv. by rewrite Hk.
  - apply aget_None. intros p (x & -> & Hx)%list_elem_of_fmap Hpk.
    destruct (wf_sound c H _ x Hx) as [Hb Ex]. unfold kv in Hpk; simpl in Hpk.
    rewrite Hpk, E in Ex. injection Ex as <-. by destruct (internal (eValue e)).
Qed.

Lemma abs_get_None c k b : lru_wf c → lruMap c !! k = None → aget k (kv <$> list_of c b) = None.
Proof.
  intros H E. apply aget_None. intros p (x & -> & Hx)%list_elem_of_fmap Hpk.
  destruct (wf_sound c H _ x Hx) as [_ Ex]. unfold kv in Hpk; simpl in Hpk. congruence.
Qed.

(** ** Preservation of the invariant *)

Lemma lru_New_wf : lru_wf lru_New.
Proof.
  split; simpl.
  - intros [] e He; by apply elem_of_nil in He.
  - intros k e. by rewrite lookup_empty.
  - constructor.
  - intros e He. by apply elem_of_nil in He.
Qed.

Lemma MoveToFront_Permutation c b e :
  lru_wf c → e ∈ list_of c b → MoveToFront (list_of c b) e ≡ₚ list_of c b.
Proof.
  intros H He. unfold MoveToFront. rewrite in_list_elem by done.
  assert (NoDup (list_of c b)) as ND.
  { apply (NoDup_fmap_1 kv). apply (NoDup_fmap_1 fst). by apply keys_nodup. }
  apply NoDup_Permutation.
  - constructor; [|by apply NoDup_filter]. rewrite elem_of_drop_elem. naive_solver.
  - done.
  - intros x. rewrite elem_of_cons, elem_of_drop_elem. split; [naive_solver|].
    intros Hx. destruct (decide (eid x = eid e)) as [E|]; [|auto].
    left. eapply eid_inj; eauto using list_of_elements.
Qed.

(** Reordering the lists keeps the invariant. *)
Lemma lru_wf_perm c i r :
  lru_wf c → i ≡ₚ internalList c → r ≡ₚ lruList c → lru_wf (mkCache i r (lruMap c) (nextId c)).
Proof.
  intros [S1 S2 S3 S4] Hi Hr. split; simpl.
  - intros b e He. apply S1. destruct b; simpl in *; [by rewrite <-Hi|by rewrite <-Hr].
  - intros k e E. destruct (S2 k e E) as [? He]. split; [done|].
    destruct (internal (eValue e)); simpl in *; [by rewrite Hi|by rewrite Hr].
  - unfold elements_of in *. simpl. by rewrite Hi, Hr.
  - intros e. unfold elements_of in *. simpl. rewrite Hi, Hr. apply S4.
Qed.

Lemma move_to_front_wf c k e : lru_wf c → lruMap c !! k = Some e → lru_wf (move_to_front c e).
Proof.
  intros H E. destruct (wf_complete c H k e E) as [_ He].
  pose proof (MoveToFront_Permutation c _ e H He) as P. unfold move_to_front.
  destruct (internal (eValue e)); apply lru_wf_perm; auto.
Qed.

Lemma add_wf c k v b : lru_wf c → lruMap c !! k = None → lru_wf (lru_GetOrAdd c k v b).1.
Proof.
  intros H E. unfold lru_GetOrAdd. rewrite E.
  set (e := mkElement (nextId c) (mkEntry b k v)).
  assert (∀ x b', x ∈ list_of c b' → ekey (eValue x) ≠ k) as Hk.
  { intros x b' Hx Hxk. destruct (wf_sound c H b' x Hx) as [_ ?]. congruence. }
  assert (∀ x, x ∈ elements_of c → (eid x < nextId c)%nat) as Hf by apply (wf_fresh c H).
  set (c' := if b then mkCache (e :: internalList c) (lruList c) (<[k:=e]> (lruMap c)) (S (nextId c))
             else mkCache (internalList c) (e :: lruList c) (<[k:=e]> (lruMap c)) (S (nextId c))).
  assert (lru_wf c') as Hc'; [|by destruct b].
  assert (∀ b' x, x ∈ list_of c' b' ↔ (b' = b ∧ x = e) ∨ x ∈ list_of c b') as Hl.
  { intros b' x. subst c'. destruct b, b'; simpl; rewrite ?elem_of_cons; naive_solver. }
  assert (elements_of c' ≡ₚ e :: elements_of c) as Hel.
  { subst c'. unfold elements_of. destruct b; simpl; [done|]. by rewrite Permutation_middle. }
  assert (lruMap c' = <[k:=e]> (lruMap c) ∧ nextId c' = S (nextId c)) as [Hm Hn] by (by subst c'; destruct b).
  split.
  - intros b' x. rewrite Hl, Hm. intros [[-> ->]|Hx]; [by rewrite lookup_insert_eq|].
    rewrite lookup_insert_ne by (intros Hkx; symmetry in Hkx; by eapply Hk). by apply (wf_sound c H).
  - intros k' x. rewrite Hm, Hl. intros [[<- <-]|[? Hx]]%lookup_insert_Some; [by auto|].
    destruct (wf_complete c H _ _ Hx); auto.
  - rewrite Hel. simpl. constructor; [|apply (wf_nodup c H)].
    rewrite list_elem_of_fmap. intros (x & Ex & Hx). specialize (Hf x Hx). simpl in Ex. lia.
  - intros x. rewrite Hel, Hn, elem_of_cons. intros [->|Hx]; [simpl; lia|]. specialize (Hf x Hx). lia.
Qed.

Lemma lru_GetOrAdd_wf c k v b : lru_wf c → lru_wf (lru_GetOrAdd c k v b).1.
Proof.
  intros H. destruct (lruMap c !! k) eqn:E; [|by apply add_wf].
  unfold lru_GetOrAdd. rewrite E. simpl. by eapply move_to_front_wf.
Qed.

Lemma lru_Get_wf c k : lru_wf c → lru_wf (lru_Get c k).1.
Proof.
  intros H. unfold lru_Get. destruct (lruMap c !! k) eqn:E; simpl; [by eapply move_to_front_wf|done].
Qed.

Lemma lru_Remove_wf c k : lru_wf c → lru_wf (lru_Remove c k).1.
Proof.
  intros H. unfold lru_Remove. destruct (lruMap c !! k) as [e|] eqn:E; [|done]. simpl.
  destruct (wf_complete c H k e E) as [Hk He].
  set (c' := if internal (eValue e) then _ else _).
  assert (∀ b x, x ∈ list_of c' b ↔ eid x ≠ eid e ∧ x ∈ list_of c b) as Hl.
  { intros b x. assert (b ≠ internal (eValue e) → x ∈ list_of c b → eid x ≠ eid e) as Hne.
    { intros Hb Hx Eid. assert (x = e) as -> by (eapply eid_inj; eauto using list_of_elements).
      by destruct (wf_sound c H b e Hx). }
    subst c'. destruct (internal (eValue e)) eqn:Ei, b; simpl in *; unfold list_Remove;
      rewrite ?in_list_elem, ?elem_of_drop_elem by done; naive_solver. }
  assert (lruMap c' = delete k (lruMap c) ∧ nextId c' = nextId c) as [Hm Hn]
    by (by subst c'; destruct (internal (eValue e))).
  assert (elements_of c' `sublist_of` elements_of c) as Hsub.
  { subst c'. unfold elements_of, list_Remove, drop_elem.
    destruct (internal (eValue e)); simpl; case_match; auto using sublist_app, sublist_filter. }
  split.
  - intros b x. rewrite Hl, Hm. intros [Hne Hx]. destruct (wf_sound c H b x Hx) as [? Ex].
    split; [done|]. rewrite lookup_delete_ne; [done|]. intros Hkx. congruence.
  - intros k' x. rewrite Hm, Hl. intros [? Hx]%lookup_delete_Some.
    destruct (wf_complete c H _ _ Hx) as [Hkx ?]. split; [done|]. split; [|done]. intros Eid.
    assert (x = e) as -> by (eapply eid_inj; eauto using list_of_elements). congruence.
  - eapply sublist_NoDup; [apply (wf_nodup c H)|]. by apply fmap_sublist.
  - intros x Hx. rewrite Hn. apply (wf_fresh c H). by eapply elem_of_submseteq, sublist_submseteq.
Qed.

(** ** Refinement *)

Lemma move_to_front_abs c k e :
  lru_wf c → lruMap c !! k = Some e →
  (abs (move_to_front c e), Some (evalue (eValue e))) = spec_get (abs c) k.
Proof.
  intros H E. destruct (wf_complete c H k e E) as [Hk He].
  destruct (abs_get_Some c k e H E) as [G1 G2].
  pose proof (drop_elem_adel c _ e (list_of c (internal (eValue e))) H He (λ x Hx, Hx)) as D.
  unfold spec_get, abs, move_to_front, MoveToFront. rewrite Hk in D.
  destruct (internal (eValue e)) eqn:Ei; simpl in *; rewrite G1, ?G2, in_list_elem by done;
    rewrite fmap_cons, D; unfold kv; by rewrite Hk.
Qed.

Lemma abs_miss c k : lru_wf c → lruMap c !! k = None → spec_get (abs c) k = (abs c, None).
Proof.
  intros H E. pose proof (abs_get_None c k true H E) as G1. pose proof (abs_get_None c k false H E) as G2.
  unfold spec_get, abs. simpl in *. by rewrite G1, G2.
Qed.

Lemma lru_Get_abs c k : lru_wf c → (abs (lru_Get c k).1, (lru_Get c k).2) = spec_get (abs c) k.
Proof.
  intros H. unfold lru_Get. destruct (lruMap c !! k) as [e|] eqn:E; simpl.
  - by eapply move_to_front_abs.
  - by rewrite abs_miss.
Qed.

Lemma lru_GetOrAdd_abs c k v b :
  lru_wf c → (abs (lru_GetOrAdd c k v b).1, (lru_GetOrAdd c k v b).2) = spec_get_or_add (abs c) k v b.
Proof.
  intros H. unfold lru_GetOrAdd, spec_get_or_add. destruct (lruMap c !! k) as [e|] eqn:E; simpl.
  - by rewrite <-(move_to_front_abs c k e).
  - rewrite abs_miss by done. by destruct b.
Qed.

Lemma lru_Remove_abs c k : lru_wf c → (abs (lru_Remove c k).1, (lru_Remove c k).2) = spec_remove (abs c) k.
Proof.
  intros H. unfold lru_Remove, spec_remove. destruct (lruMap c !! k) as [e|] eqn:E; simpl.
  - destruct (wf_complete c H k e E) as [Hk He]. destruct (abs_get_Some c k e H E) as [G1 G2].
    pose proof (drop_elem_adel c _ e (list_of c (internal (eValue e))) H He (λ x Hx, Hx)) as D.
    rewrite Hk in D. unfold abs, list_Remove.
    destruct (internal (eValue e)) eqn:Ei; simpl in *; rewrite G1, ?G2, in_list_elem by done; simpl; by rewrite D.
  - pose proof (abs_get_None c k true H E) as G1. pose proof (abs_get_None c k false H E) as G2.
    simpl in *. by rewrite G1, G2.
Qed.

Lemma lru_least_abs c : lru_GetLeastRecentlyUsed c = spec_lru (abs c).
Proof.
  unfold lru_GetLeastRecentlyUsed, spec_lru, list_Back, abs. simpl. rewrite fmap_last.
  by destruct (last (lruList c)).
Qed.

(** ** The view of a client: the values by key *)

Definition lru_vals (c : Cache) : gmap string V := (λ e, evalue (eValue e)) <$> lruMap c.
Definition lru_evictable (c : Cache) (k : string) : Prop :=
  ∃ e, lruMap c !! k = Some e ∧ internal (eValue e) = false.

Lemma move_to_front_map c e : lruMap (move_to_front c e) = lruMap c.
Proof. unfold move_to_front. by destruct (internal _). Qed.

Lemma lru_New_vals : lru_vals lru_New = ∅.
Proof. apply fmap_empty. Qed.

Lemma lru_Get_vals c k : lru_vals (lru_Get c k).1 = lru_vals c ∧ (lru_Get c k).2 = lru_vals c !! k.
Proof.
  unfold lru_Get, lru_vals. rewrite lookup_fmap.
  destruct (lruMap c !! k); simpl; by rewrite ?move_to_front_map.
Qed.

Lemma lru_GetOrAdd_hit c k v w b :
  lru_vals c !! k = Some w →
  lru_vals (lru_GetOrAdd c k v b).1 = lru_vals c ∧ (lru_GetOrAdd c k v b).2 = (w, false).
Proof.
  unfold lru_GetOrAdd, lru_vals. rewrite lookup_fmap.
  destruct (lruMap c !! k); intros; simplify_eq/=. by rewrite move_to_front_map.
Qed.

Lemma lru_GetOrAdd_miss c k v b :
  lru_vals c !! k = None →
  lru_vals (lru_GetOrAdd c k v b).1 = <[k := v]> (lru_vals c) ∧ (lru_GetOrAdd c k v b).2 = (v, true).
Proof.
  unfold lru_GetOrAdd, lru_vals. rewrite lookup_fmap.
  destruct (lruMap c !! k); intros; simplify_eq/=. destruct b; simpl; by rewrite fmap_insert.
Qed.

Lemma lru_Remove_vals c k :
  lru_vals (lru_Remove c k).1 = delete k (lru_vals c) ∧ (lru_Remove c k).2 = lru_vals c !! k.
Proof.
  unfold lru_Remove, lru_vals. rewrite lookup_fmap. destruct (lruMap c !! k) eqn:E; simpl.
  - destruct (internal _); simpl; by rewrite fmap_delete.
  - split; [|done]. rewrite delete_id; [done|]. by rewrite lookup_fmap, E.
Qed.

Lemma lru_Remove_evictable c k k' : lru_evictable (lru_Remove c k).1 k' ↔ lru_evictable c k' ∧ k' ≠ k.
Proof.
  assert (lruMap (lru_Remove c k).1 = delete k (lruMap c)) as E.
  { unfold lru_Remove. destruct (lruMap c !! k) as [e|] eqn:E; [by destruct (internal (eValue e))|].
    by rewrite delete_id. }
  unfold lru_evictable. rewrite E. setoid_rewrite lookup_delete_Some. naive_solver.
Qed.

Definition lru_internal (c : Cache) (k : string) : Prop :=
  ∃ e, lruMap c !! k = Some e ∧ internal (eValue e) = true.

Lemma lru_internal_kept c k : lru_internal c k → ¬ lru_evictable c k.
Proof. intros (e & E & H) (e' & E' & H'). congruence. Qed.

Lemma lru_GetOrAdd_internal c k k' v b : lru_internal c k → lru_internal (lru_GetOrAdd c k' v b).1 k.
Proof.
  intros (e & E & H). exists e. split; [|done]. unfold lru_GetOrAdd. destruct (lruMap c !! k') as [e'|] eqn:E'; simpl.
  - by rewrite move_to_front_map.
  - destruct b; simpl; rewrite lookup_insert_ne; congruence.
Qed.

Lemma lru_GetOrAdd_external c k k' v : lru_internal (lru_GetOrAdd c k' v false).1 k → lru_internal c k.
Proof.
  intros (e & E & H). unfold lru_GetOrAdd in E. destruct (lruMap c !! k') as [e'|] eqn:E'; simpl in E.
  - rewrite move_to_front_map in E. by exists e.
  - apply lookup_insert_Some in E as [[_ <-]|[_ E]]; [done|by exists e].
Qed.

Lemma lru_Get_internal c k k' : lru_internal (lru_Get c k').1 k → lru_internal c k.
Proof.
  intros (e & E & H). exists e. unfold lru_Get in E. destruct (lruMap c !! k'); simpl in E; [|done].
  by rewrite move_to_front_map in E.
Qed.

Lemma lru_Remove_internal c k k' : lru_internal (lru_Remove c k').1 k → lru_internal c k.
Proof.
  intros (e & E & H). exists e. unfold lru_Remove in E. destruct (lruMap c !! k') as [e'|]; simpl in E; [|done].
  destruct (internal (eValue e')); simpl in E; by apply lookup_delete_Some in E as [_ E].
Qed.

Lemma lru_external_evictable c k v : lru_vals c !! k = Some v → ¬ lru_internal c k → lru_evictable c k.
Proof.
  unfold lru_vals. rewrite lookup_fmap. destruct (lruMap c !! k) as [e|] eqn:E; [|done]. intros _ Hn.
  exists e. split; [done|]. destruct (internal (eValue e)) eqn:Ei; [|done]. destruct Hn. by exists e.
Qed.

Lemma lru_least_Some c k v :
  lru_wf c → lru_GetLeastRecentlyUsed c = (k, Some v) → lru_vals c !! k = Some v ∧ lru_evictable c k.
Proof.
  intros H. unfold lru_GetLeastRecentlyUsed, list_Back, lru_vals, lru_evictable.
  destruct (last (lruList c)) as [e|] eqn:E; [|done]. intros [= <- <-].
  destruct (wf_sound c H false e) as [Hi Hm]; [by apply last_Some_elem_of|].
  split; [by rewrite lookup_fmap, Hm|by eauto].
Qed.

Lemma lru_least_None c k :
  lru_wf c → lru_GetLeastRecentlyUsed c = (k, None) → ∀ k', ¬ lru_evictable c k'.
Proof.
  intros H. unfold lru_GetLeastRecentlyUsed, list_Back.
  destruct (last (lruList c)) as [e|] eqn:E; [done|]. intros _ k' (e & Hm & Hi).
  destruct (wf_complete c H k' e Hm) as [_ He]. rewrite Hi in He. simpl in He.
  apply last_None in E. rewrite E in He. by apply elem_of_nil in He.
Qed.

Lemma lru_length c : lru_wf c → (length (lruList c) ≤ size (lru_vals c))%nat.
Proof.
  intros H. unfold lru_vals. rewrite map_size_fmap.
  rewrite <-(length_fmap kv). rewrite <-(length_fmap fst).
  pose proof (keys_nodup c false H) as ND. simpl in ND.
  set (ks := (kv <$> lruList c).*1) in *.
  assert (list_to_set ks ⊆ dom (lruMap c)) as Hsub.
  { intros k. rewrite elem_of_list_to_set, elem_of_dom. subst ks.
    rewrite <-list_fmap_compose, list_elem_of_fmap. intros (e & -> & He). simpl.
    destruct (wf_sound c H false e He) as [_ ->]. by eexists. }
  apply subseteq_size in Hsub. rewrite size_list_to_set, size_dom in Hsub by done. lia.
Qed.

Lemma lru_GetAll_spec c v : v ∈ lru_GetAll c ↔ ∃ k, lru_vals c !! k = Some v.
Proof.
  unfold lru_GetAll, lru_vals. rewrite list_elem_of_fmap. split.
  - intros (e & -> & ([k e'] & -> & Hm%elem_of_map_to_list)%list_elem_of_fmap).
    exists k. by rewrite lookup_fmap, Hm.
  - intros (k & Hk). rewrite lookup_fmap in Hk. destruct (lruMap c !! k) as [e|] eqn:E; simplify_eq/=.
    exists e. split; [done|]. apply list_elem_of_fmap. exists (k, e). by rewrite elem_of_map_to_list.
Qed.

(** ** Histories

    A history lists the calls made on a fresh cache, the latest first. *)

Inductive call := CGetOrAdd (k : string) (v : V) (isInternal : bool) | CGet (k : string) | CRemove (k : string).

Definition step (c : Cache) (o : call) : Cache :=
  match o with
  | CGetOrAdd k v b => (lru_GetOrAdd c k v b).1
  | CGet k => (lru_Get c k).1
  | CRemove k => (lru_Remove c k).1
  end.

Definition run (h : list call) : Cache := foldr (λ o c, step c o) lru_New h.

Definition uses (o : call) (k : string) : bool :=
  match o with CGetOrAdd k' _ _ | CGet k' => k' =ₛ k | CRemove _ => false end.

(** The position of the latest call that used [k]; 0 when there is none. *)
Fixpoint last_use (h : list call) (k : string) : nat :=
  match h with
  | [] => 0
  | o :: h' => if uses o k then S (length h') else last_use h' k
  end.

Lemma step_wf c o : lru_wf c → lru_wf (step c o).
Proof. destruct o; simpl; auto using lru_GetOrAdd_wf, lru_Get_wf, lru_Remove_wf. Qed.

Lemma run_wf h : lru_wf (run h).
Proof. induction h; simpl; auto using lru_New_wf, step_wf. Qed.

Lemma last_use_bound h k : (last_use h k ≤ length h)%nat.
Proof. induction h; simpl; [lia|]. destruct (uses _ _); lia. Qed.

(** Keys of the LRU list of a specification state, most recent first. *)
Definition recency (h : list call) (l : alist) : Prop :=
  StronglySorted (λ p q, (last_use h q.1 < last_use h p.1)%nat) l.

Lemma recency_skip h o l :
  (∀ p, p ∈ l → uses o p.1 = false) → recency h l → recency (o :: h) l.
Proof.
  intros Hu H. unfold recency in *. induction H as [|p l H IH Hp]; constructor.
  - apply IH. intros q Hq. apply Hu. by right.
  - rewrite Forall_forall in *. intros q Hq. simpl. rewrite !Hu by (by constructor). by apply Hp.
Qed.

Lemma StronglySorted_filter {A} (R : relation A) (P : A → Prop) `{!∀ x, Decision (P x)} l :
  StronglySorted R l → StronglySorted R (filter P l).
Proof.
  induction 1 as [|x l Hl IH Hx]; [constructor|]. rewrite filter_cons. case_decide; [|done].
  constructor; [done|]. rewrite Forall_forall in *. intros y [_ Hy]%list_elem_of_filter. auto.
Qed.

Lemma recency_front h o k v l :
  (∀ k', uses o k' = true ↔ k' = k) → recency h (adel k l) → recency (o :: h) ((k, v) :: adel k l).
Proof.
  intros Hu H. assert (∀ p, p ∈ adel k l → uses o p.1 = false) as Hn.
  { intros p [Hp _]%elem_of_adel. destruct (uses o p.1) eqn:E; [|done]. by apply Hu in E. }
  constructor; [by apply recency_skip|]. apply Forall_forall. intros p Hp. simpl.
  rewrite (Hn p Hp). rewrite (proj2 (Hu k)) by done. pose proof (last_use_bound h p.1). lia.
Qed.

Lemma adel_id k (l : alist) : aget k l = None → adel k l = l.
Proof.
  intros H. rewrite aget_None in H. unfold adel. induction l as [|p l IH]; [done|].
  rewrite filter_cons, decide_True by (apply H; left). f_equal. apply IH. intros q Hq. apply H. by right.
Qed.

Lemma recency_get h o k s :
  (∀ k', uses o k' = true ↔ k' = k) → recency h (sLru s) →
  (spec_get s k).2 ≠ None → (∀ p, p ∈ sLru s → p.1 = k → aget k (sInternal s) = None) →
  recency (o :: h) (sLru (spec_get s k).1).
Proof.
  intros Hu H Hsome Hdisj. unfold spec_get in *. destruct (aget k (sInternal s)) eqn:Ei.
  - simpl. apply recency_skip; [|done]. intros p Hp.
    destruct (uses o p.1) eqn:E; [|done]. apply Hu in E. by specialize (Hdisj p Hp E).
  - destruct (aget k (sLru s)); [|done]. simpl. apply recency_front; [done|].
    by apply StronglySorted_filter.
Qed.

Lemma abs_disjoint c k p :
  lru_wf c → p ∈ sLru (abs c) → p.1 = k → aget k (sInternal (abs c)) = None.
Proof.
  intros H (e & -> & He)%list_elem_of_fmap Hk. unfold kv in Hk; simpl in Hk.
  destruct (wf_sound c H false e He) as [Hi Hm]. rewrite Hk in Hm.
  destruct (abs_get_Some c k e H Hm) as [_ Hn]. by rewrite Hi in Hn.
Qed.

Lemma run_recency h : recency h (sLru (abs (run h))).
Proof.
  induction h as [|o h IH]; [constructor|]. simpl. pose proof (run_wf h) as W.
  set (c := run h) in *. clearbody c. destruct o as [k v b|k|k]; simpl.
  - pose proof (lru_GetOrAdd_abs c k v b W) as A.
    assert (∀ k', uses (CGetOrAdd k v b) k' = true ↔ k' = k) as Hu.
    { intros k'. simpl. rewrite String.eqb_eq. naive_solver. }
    apply (f_equal (λ r, sLru r.1)) in A. simpl in A. rewrite A. unfold spec_get_or_add.
    destruct (spec_get (abs c) k) as [s' [w|]] eqn:G; simpl.
    + pose proof (recency_get h _ k (abs c) Hu IH) as R. rewrite G in R. simpl in R.
      apply R; [done|]. intros p. by apply abs_disjoint.
    + unfold spec_get in G. destruct (aget k (sInternal (abs c))) eqn:G1; [done|].
      destruct (aget k (sLru (abs c))) eqn:G2; [done|]. destruct b; simpl.
      * apply recency_skip; [|done]. intros p Hp. rewrite aget_None in G2.
        destruct (k =ₛ p.1) eqn:E; [|done]. apply String.eqb_eq in E. by destruct (G2 p Hp).
      * replace (kv <$> lruList c) with (adel k (sLru (abs c))) by (by apply adel_id).
        apply recency_front; [done|]. by rewrite adel_id.
  - pose proof (lru_Get_abs c k W) as A. apply (f_equal (λ r, (sLru r.1, r.2))) in A. simpl in A.
    injection A as A1 A2. rewrite A1. destruct (spec_get (abs c) k) as [s' [w|]] eqn:G; simpl in *.
    + pose proof (recency_get h (CGet k) k (abs c)) as R. rewrite G in R. simpl in R.
      apply R; [intros k'; rewrite String.eqb_eq; naive_solver|done|done|]. intros p. by apply abs_disjoint.
    + unfold spec_get in G. destruct (aget k (sInternal (abs c))) eqn:G1; [done|].
      destruct (aget k (sLru (abs c))) eqn:G2; [done|]. simplify_eq.
      apply recency_skip; [|done]. intros p Hp. rewrite aget_None in G2. simpl.
      destruct (k =ₛ p.1) eqn:E; [|done]. apply String.eqb_eq in E. by destruct (G2 p Hp).
  - pose proof (lru_Remove_abs c k W) as A. apply (f_equal (λ r, sLru r.1)) in A. simpl in A.
    rewrite A. unfold spec_remove.
    repeat case_match; simpl; apply recency_skip; try done. by apply StronglySorted_filter.
Qed.

(** C3: every method of the cache implements the abstract specification: on a cache
    satisfying the invariant the call keeps the invariant, the abstract state after the
    call is the specification's, and so is the result. *)
Theorem lru_refines c :
  lru_wf c →
  (∀ k v b, let r := lru_GetOrAdd c k v b in
     lru_wf r.1 ∧ (abs r.1, r.2) = spec_get_or_add (abs c) k v b) ∧
  (∀ k, let r := lru_Get c k in lru_wf r.1 ∧ (abs r.1, r.2) = spec_get (abs c) k) ∧
  (∀ k, let r := lru_Remove c k in lru_wf r.1 ∧ (abs r.1, r.2) = spec_remove (abs c) k) ∧
  lru_GetLeastRecentlyUsed c = spec_lru (abs c).
Proof.
  intros H. split_and!; [intros k v b|intros k|intros k|]; cbv zeta; try split;
    auto using lru_GetOrAdd_wf, lru_GetOrAdd_abs, lru_Get_wf, lru_Get_abs, lru_Remove_wf, lru_Remove_abs, lru_least_abs.
Qed.

(** After any sequence of calls on a fresh cache, the key offered by
    GetLeastRecentlyUsed is cached and evictable, and every other evictable key was used
    more recently; nothing is offered exactly when no evictable key is cached. *)
Theorem lru_evicts_least_recently_used h :
  match lru_GetLeastRecentlyUsed (run h) with
  | (k, Some v) =>
      lru_vals (run h) !! k = Some v ∧ lru_evictable (run h) k ∧
      ∀ k', lru_evictable (run h) k' → k' ≠ k → (last_use h k < last_use h k')%nat
  | (_, None) => ∀ k', ¬ lru_evictable (run h) k'
  end.
Proof.
  pose proof (run_wf h) as W. destruct (lru_GetLeastRecentlyUsed (run h)) as [k [v|]] eqn:E;
    [|by eapply lru_least_None].
  destruct (lru_least_Some _ _ _ W E) as [? ?]. split; [done|]. split; [done|].
  intros k' (e' & Hm' & Hi') Hne. pose proof (run_recency h) as R.
  rewrite lru_least_abs in E. unfold spec_lru in E. unfold recency in R.
  destruct (wf_complete _ W _ _ Hm') as [Hk' He']. rewrite Hi' in He'. simpl in He'.
  assert (kv e' ∈ sLru (abs (run h))) as Hin by (apply list_elem_of_fmap; eauto).
  destruct (last (sLru (abs (run h)))) as [[k0 v0]|] eqn:El; [|done]. injection E as -> ->.
  apply last_Some in El as [l' El]. rewrite El in R, Hin.
  apply elem_of_app in Hin as [Hin|Hin%list_elem_of_singleton].
  - apply (StronglySorted_app_1_elem_of _ _ _ _ (k, v) R) in Hin; [|by left].
    unfold kv in Hin. simpl in Hin. by rewrite Hk' in Hin.
  - injection Hin as ? ?. congruence.
Qed.
End LruCache.
Arguments Cache : clear implicits.
Arguments entry : clear implicits.
Arguments element : clear implicits.
Arguments call : clear implicits.

(** Witness of [lru_refines]: the invariant holds of a cache with one internal and one
    evictable element. *)
Lemma lru_refines_witness :
  let c := run [CGetOrAdd "b" 2 false; CGetOrAdd "a" 1 true] in
  lru_wf c ∧ lru_GetLeastRecentlyUsed c = ("b"%string, Some 2).
Proof.
  split; [apply run_wf|].
  rewrite (proj2 (proj2 (proj2 (lru_refines _ (run_wf [CGetOrAdd "b" 2 false; CGetOrAdd "a" 1 true]))))).
  vm_compute. reflexivity.
Defined.
