(* ===== verification/Pointers.v ===== *)
(** * Records behind pointers

    The caches keep pointers to mutable records in an LRU cache.  A record is reached by
    the key it is cached under and, during an operation, by a pointer obtained earlier; the
    code marks a record [deleted] when it takes it out of the cache.  This file models the
    shared store as a heap and proves the frame properties the cache proofs use:
    [pointers_ok] says that the pointers in the cache are never shared between keys and
    lead to records of which [P] holds for their key, and [view_of] is the cache's content
    as a map from keys to the part [file] of the records. *)

From S2P Require Import Prelude LruCache.
Local Open Scope Z_scope.

(** [*p], for a pointer the program never leaves dangling. *)
Definition load {V} (dead : V) (heap : gmap nat V) (l : nat) : V := default dead (heap !! l).

Section Pointers.
Context {V A : Type} (dead : V) (P : string → V → Prop) (file : V → A).
Implicit Types (heap : gmap nat V) (cache : Cache nat) (next l : nat) (k : string) (v : V).

Definition view_of (heap : gmap nat V) (cache : Cache nat) : gmap string A :=
  (λ l, file (load dead heap l)) <$> lru_vals cache.

Record pointers_ok (heap : gmap nat V) (cache : Cache nat) (next : nat) : Prop := {
  po_lru : lru_wf cache;
  po_live k l : lru_vals cache !! k = Some l → ∃ v, heap !! l = Some v ∧ P k v;
  po_inj k k' l : lru_vals cache !! k = Some l → lru_vals cache !! k' = Some l → k = k';
  po_fresh l : is_Some (heap !! l) → (l < next)%nat
}.

Lemma view_lookup heap cache k l :
  lru_vals cache !! k = Some l → view_of heap cache !! k = Some (file (load dead heap l)).
Proof. intros E. unfold view_of. by rewrite lookup_fmap, E. Qed.

Lemma view_lookup_None heap cache k : view_of heap cache !! k = None ↔ lru_vals cache !! k = None.
Proof. unfold view_of. rewrite lookup_fmap. by destruct (lru_vals cache !! k). Qed.

Lemma view_lookup_Some heap cache k p :
  view_of heap cache !! k = Some p ↔ ∃ l, lru_vals cache !! k = Some l ∧ p = file (load dead heap l).
Proof. clear P. unfold view_of. rewrite lookup_fmap. destruct (lru_vals cache !! k); simpl; naive_solver. Qed.

Lemma load_Some heap l v : heap !! l = Some v → load dead heap l = v.
Proof. intros E. unfold load. by rewrite E. Qed.

Lemma load_insert heap l l' v :
  load dead (<[l := v]> heap) l' = if decide (l = l') then v else load dead heap l'.
Proof.
  unfold load. destruct (decide (l = l')) as [->|]; [by rewrite lookup_insert_eq|by rewrite lookup_insert_ne].
Qed.

Lemma load_live heap cache next k l :
  pointers_ok heap cache next → lru_vals cache !! k = Some l → P k (load dead heap l) ∧ is_Some (heap !! l).
Proof. intros O E. destruct (po_live _ _ _ O k l E) as (v & Hv & ?). rewrite (load_Some _ _ v); eauto. Qed.

(** Writing through a pointer changes the view at its own key only. *)
Lemma view_write heap cache next k l v :
  pointers_ok heap cache next → lru_vals cache !! k = Some l →
  view_of (<[l := v]> heap) cache = <[k := file v]> (view_of heap cache).
Proof.
  intros O E. apply map_eq. intros k'. unfold view_of. rewrite lookup_insert, !lookup_fmap.
  destruct (decide (k = k')) as [<-|Hne]; [by rewrite E; simpl; rewrite load_insert, decide_True|].
  destruct (lru_vals cache !! k') as [l'|] eqn:E'; simpl; [|done]. rewrite load_insert, decide_False; [done|].
  intros <-. by eapply Hne, po_inj.
Qed.

Lemma fresh_write heap cache next k l v l' :
  pointers_ok heap cache next → lru_vals cache !! k = Some l → is_Some (<[l := v]> heap !! l') → (l' < next)%nat.
Proof.
  intros O E. destruct (load_live _ _ _ _ _ O E) as [_ Hl].
  destruct (decide (l = l')) as [<-|]; [intros _; by apply (po_fresh _ _ _ O)|].
  rewrite lookup_insert_ne by done. apply (po_fresh _ _ _ O).
Qed.

Lemma pointers_write heap cache next k l v :
  pointers_ok heap cache next → lru_vals cache !! k = Some l → P k v → pointers_ok (<[l := v]> heap) cache next.
Proof.
  intros O E Hv. pose proof O as [O1 O2 O3 O4]. split; [done| |done|intros; by eapply fresh_write].
  intros k' l' E'. destruct (decide (l = l')) as [<-|].
  - exists v. rewrite lookup_insert_eq. split; [done|]. by rewrite (O3 k' k l E' E).
  - rewrite lookup_insert_ne by done. by apply O2.
Qed.

(** Removing a key: whatever happens to its record is not seen any more. *)
Lemma view_remove heap cache next k l v :
  pointers_ok heap cache next → lru_vals cache !! k = Some l →
  view_of (<[l := v]> heap) (lru_Remove cache k).1 = delete k (view_of heap cache).
Proof.
  intros O E. pose proof (view_write heap cache next k l v O E) as W. unfold view_of in *.
  rewrite (proj1 (lru_Remove_vals cache k)), fmap_delete, W. apply delete_insert_eq.
Qed.

Lemma pointers_remove heap cache next k l v :
  pointers_ok heap cache next → lru_vals cache !! k = Some l →
  pointers_ok (<[l := v]> heap) (lru_Remove cache k).1 next.
Proof.
  intros O E. pose proof O as [O1 O2 O3 O4].
  split; [by apply lru_Remove_wf| | |intros; by eapply fresh_write];
    setoid_rewrite (proj1 (lru_Remove_vals cache k)); setoid_rewrite lookup_delete_Some.
  - intros k' l' [Hne E']. rewrite lookup_insert_ne; [by apply O2|]. intros <-. by eapply Hne, O3.
  - intros k1 k2 l' [_ E1] [_ E2]. by eapply O3.
Qed.

(** A record at the fresh pointer is not seen until it is filed. *)
Lemma fresh_pointer heap cache next k l : pointers_ok heap cache next → lru_vals cache !! k = Some l → l ≠ next.
Proof. intros O E. destruct (load_live _ _ _ _ _ O E) as (_ & H%(po_fresh _ _ _ O)). lia. Qed.

Lemma pointers_alloc heap cache next v :
  pointers_ok heap cache next →
  pointers_ok (<[next := v]> heap) cache (S next) ∧ view_of (<[next := v]> heap) cache = view_of heap cache.
Proof.
  intros O. pose proof O as [O1 O2 O3 O4]. split; [split; [done| |done|]|].
  - intros k l E. pose proof (fresh_pointer _ _ _ _ _ O E). rewrite lookup_insert_ne by done. by apply O2.
  - intros l. destruct (decide (next = l)) as [<-|]; [lia|]. rewrite lookup_insert_ne by done. intros ?%O4. lia.
  - apply map_eq. intros k. unfold view_of. rewrite !lookup_fmap. destruct (lru_vals cache !! k) as [l|] eqn:E; simpl; [|done].
    pose proof (fresh_pointer _ _ _ _ _ O E). by rewrite load_insert, decide_False by done.
Qed.

Lemma pointers_file heap cache next k b v :
  pointers_ok heap cache next → lru_vals cache !! k = None → P k v →
  let cache' := (lru_GetOrAdd cache k next b).1 in
  pointers_ok (<[next := v]> heap) cache' (S next) ∧
  view_of (<[next := v]> heap) cache' = <[k := file v]> (view_of heap cache) ∧ lru_vals cache' !! k = Some next.
Proof.
  intros O E Hv cache'. destruct (pointers_alloc _ _ _ v O) as [[O1 O2 O3 O4] W].
  destruct (lru_GetOrAdd_miss cache k next b E) as [Ev _]. fold cache' in Ev. split_and!.
  - split; [by apply lru_GetOrAdd_wf| | |done]; rewrite Ev.
    + intros k' l' [[<- <-]|[Hne E']]%lookup_insert_Some; [exists v; by rewrite lookup_insert_eq|by apply O2].
    + intros k1 k2 l' [[<- <-]|[N1 E1]]%lookup_insert_Some [[<- Hl]|[N2 E2]]%lookup_insert_Some; [done|..|by eapply O3];
        [by destruct (fresh_pointer _ _ _ _ _ O E2)|subst l'; by destruct (fresh_pointer _ _ _ _ _ O E1)].
  - unfold view_of in *. rewrite Ev, fmap_insert, W. by rewrite load_insert, decide_True.
  - by rewrite Ev, lookup_insert_eq.
Qed.

Lemma pointers_touch heap cache next k b v l :
  pointers_ok heap cache next → lru_vals cache !! k = Some l →
  let cache' := (lru_GetOrAdd cache k next b).1 in
  pointers_ok (<[next := v]> heap) cache' (S next) ∧
  view_of (<[next := v]> heap) cache' = view_of heap cache ∧ lru_vals cache' = lru_vals cache ∧
  load dead (<[next := v]> heap) l = load dead heap l.
Proof.
  intros O E cache'. destruct (pointers_alloc _ _ _ v O) as [[O1 O2 O3 O4] W].
  destruct (lru_GetOrAdd_hit cache k next l b E) as [Ev _]. fold cache' in Ev. split_and!.
  - split; [by apply lru_GetOrAdd_wf|by rewrite Ev|by rewrite Ev|done].
  - unfold view_of in *. by rewrite Ev.
  - done.
  - rewrite load_insert, decide_False; [done|]. intros <-. by eapply fresh_pointer.
Qed.

Lemma pointers_New : pointers_ok ∅ lru_New 0 ∧ view_of ∅ lru_New = ∅.
Proof.
  assert (∀ k l, lru_vals (lru_New (V:=nat)) !! k = Some l → False) as H by (intros k l; by rewrite lru_New_vals, lookup_empty).
  split; [split; [apply lru_New_wf|..]|].
  - by intros k l ?%H.
  - by intros k k' l ?%H.
  - intros l [x Hx]. by rewrite lookup_empty in Hx.
  - unfold view_of. by rewrite lru_New_vals, fmap_empty.
Qed.

(** A cache operation that only reorders. *)
Lemma pointers_reorder heap cache cache' next :
  pointers_ok heap cache next → lru_wf cache' → lru_vals cache' = lru_vals cache →
  pointers_ok heap cache' next ∧ view_of heap cache' = view_of heap cache.
Proof.
  intros [O1 O2 O3 O4] Wf Ev. split; [split; [done|by rewrite Ev|by rewrite Ev|done]|]. unfold view_of. by rewrite Ev.
Qed.
End Pointers.
#[export] Hint Resolve po_lru : rains.
