(* ===== verification/Cbor.v ===== *)
(** * Decoded CBOR values

    The program exchanges data with the third-party CBOR library (borat) as trees of
    Go values: the [MarshalCBOR] methods hand a [[]interface{}] or a
    [map[int]interface{}] to the writer, the [Unmarshal*] methods receive one from
    the reader.  This file models those trees, the type assertions on them, and the
    one thing the program uses of the byte level: the contents of the buffer after
    [WriteArray]. *)

From S2P Require Import Prelude.
Local Open Scope Z_scope.

(** A value behind [interface{}] as the reader produces it.  Go integers of every
    width are [int] on the reading side. *)
Inductive cval :=
| CInt (z : Z)
| CStr (s : string)
| CBytes (b : list Z)
| CArr (l : list cval)
| CMap (m : list (Z * cval))
| CNil.

(** Type assertions [v, ok := x.(T)]. *)
Definition as_int (c : cval) : option Z := match c with CInt z => Some z | _ => None end.
Definition as_str (c : cval) : option string := match c with CStr s => Some s | _ => None end.
Definition as_bytes (c : cval) : option (list Z) := match c with CBytes b => Some b | _ => None end.
Definition as_arr (c : cval) : option (list cval) := match c with CArr l => Some l | _ => None end.
Definition as_map (c : cval) : option (list (Z * cval)) := match c with CMap m => Some m | _ => None end.

(** [map[int]interface{}]: lookup gives [nil] for a missing key, on which every type
    assertion fails. *)
Fixpoint imap_get (m : list (Z * cval)) (k : Z) : option cval :=
  match m with
  | [] => None
  | (k', v) :: m' => if k' =? k then Some v else imap_get m' k
  end.

(** [m[k] = v] *)
Fixpoint imap_set (m : list (Z * cval)) (k : Z) (v : cval) : list (Z * cval) :=
  match m with
  | [] => [(k, v)]
  | (k', v') :: m' => if k' =? k then (k, v) :: m' else (k', v') :: imap_set m' k v
  end.

(** [if cond { m[k] = v }] *)
Definition imap_set_if (b : bool) (m : list (Z * cval)) (k : Z) (v : cval) : list (Z * cval) :=
  if b then imap_set m k v else m.

Lemma imap_get_set m k v k' : imap_get (imap_set m k v) k' = if k =? k' then Some v else imap_get m k'.
Proof.
  induction m as [|[a w] m IH]; simpl; [done|].
  destruct (Z.eqb_spec a k) as [->|Hne]; simpl.
  - by destruct (k =? k').
  - rewrite IH. destruct (Z.eqb_spec a k') as [->|]; [|done].
    destruct (Z.eqb_spec k k'); [congruence|done].
Qed.

Lemma imap_get_set_if b m k v k' :
  imap_get (imap_set_if b m k v) k' = if b && (k =? k') then Some v else imap_get m k'.
Proof. destruct b; simpl; [apply imap_get_set|done]. Qed.

Create Rewrite HintDb cbor_maps.
#[export] Hint Rewrite imap_get_set imap_get_set_if andb_false_r andb_true_r : cbor_maps.

(** Evaluate lookups in a map built by a sequence of assignments. *)
Ltac simplify_imap := repeat (progress (autorewrite with cbor_maps; cbn [andb Z.eqb Pos.eqb])).

(** ** The byte level

    [cbor_array es] is the content of the buffer after [w.WriteArray(es)], where an
    element is the outcome of its own marshaller: when a marshaller fails the
    error returned by [WriteArray] is dropped by the callers modelled here and the
    buffer keeps what was written so far. *)
Class CborWriter := {
  cbor_array : list (outcome cval) → list Z
}.

(** What the program relies on: complete encodings are byte strings and are
    injective. *)
Class CborWriterLaws `{CborWriter} : Prop := {
  cbor_array_bytes es : Forall (λ z, 0 ≤ z < 256) (cbor_array es);
  cbor_array_inj xs ys : cbor_array (Ok <$> xs) = cbor_array (Ok <$> ys) → xs = ys
}.

(** [buffer.String()] *)
Fixpoint string_of_bytes (b : list Z) : string :=
  match b with
  | [] => EmptyString
  | z :: b' => String (Ascii.ascii_of_N (Z.to_N z)) (string_of_bytes b')
  end.

Lemma bytes_of_string_of_bytes b : Forall (λ z, 0 ≤ z < 256) b → bytes_of_string (string_of_bytes b) = b.
Proof.
  induction 1 as [|z b Hz Hb IH]; simpl; [done|]. f_equal; [|done].
  rewrite Ascii.N_ascii_embedding by lia. lia.
Qed.

Lemma string_of_bytes_inj b b' :
  Forall (λ z, 0 ≤ z < 256) b → Forall (λ z, 0 ≤ z < 256) b' →
  string_of_bytes b = string_of_bytes b' → b = b'.
Proof.
  intros H H' E. rewrite <-(bytes_of_string_of_bytes b), <-(bytes_of_string_of_bytes b') by done. by rewrite E.
Qed.
