(* ===== verification/Keys.v ===== *)
(** * Algorithm identifiers, public keys, tokens and signatures

    Models attic/internal/pkg/algorithmTypes/algorithmTypes.go (with the generated
    [String] of signature_string.go), attic/internal/pkg/keys/keys.go (with the generated
    keyspaceid_string.go), attic/internal/pkg/token/token.go and
    attic/internal/pkg/signature/signature.go.

    The ed25519 primitives and the CBOR writer are parameters ([Ed25519], [CborWriter]).
    The theorems: [PublicKey.CompareTo] is a total order whose 0 is equality,
    [PublicKey.Hash] determines the key, signatures survive the CBOR round trip, and
    what [SignData] signs is exactly what [VerifySignature] checks. *)

From S2P Require Import Prelude Cbor.
Local Open Scope Z_scope.

(** ** algorithmTypes *)

(** [type Signature int] and [type Hash int] are integers with named constants. *)
Abbreviation SigAlgo := Z (only parsing).
Abbreviation HashAlgo := Z (only parsing).

Definition Ed25519 : SigAlgo := 1.
Definition Ed448 : SigAlgo := 2.

Definition NoHashAlgo : HashAlgo := 0.
Definition Sha256 : HashAlgo := 1.
Definition Sha384 : HashAlgo := 2.
Definition Sha512 : HashAlgo := 3.
Definition Shake256 : HashAlgo := 4.
Definition Fnv64 : HashAlgo := 5.
Definition Fnv128 : HashAlgo := 6.

Definition SigAlgo_String (i : SigAlgo) : string :=
  if i =? Ed25519 then "Ed25519"
  else if i =? Ed448 then "Ed448"
  else ("Signature(" +:+ dec i +:+ ")")%string.

Definition AtoSig (str : string) : outcome SigAlgo :=
  if bool_decide (str ∈ [SigAlgo_String Ed25519; "ed25519"; "ED25519"; dec Ed25519]) then Ok Ed25519
  else if bool_decide (str ∈ [SigAlgo_String Ed448; "ed448"; "ED448"; dec Ed448]) then Ok Ed448
  else Err (str +:+ " is not a signature algorithm type").

(** ** encoding/hex *)

Definition hex_digit (n : Z) : Ascii.ascii :=
  Ascii.ascii_of_N (Z.to_N (if n <? 10 then 48 + n else 87 + n)).

Fixpoint hex_EncodeToString (b : list Z) : string :=
  match b with
  | [] => EmptyString
  | z :: b' => String (hex_digit (z / 16)) (String (hex_digit (z mod 16)) (hex_EncodeToString b'))
  end.

(** ** keys *)

Abbreviation KeySpaceID := Z (only parsing).
Definition RainsKeySpace : KeySpaceID := 0.

Definition KeySpaceID_String (i : KeySpaceID) : string :=
  if i =? 0 then "RainsKeySpace" else ("KeySpaceID(" +:+ dec i +:+ ")")%string.

Record PublicKeyID := mkPublicKeyID {
  Algorithm : SigAlgo;
  KeySpace : KeySpaceID;
  KeyPhase : Z
}.

(** The [Key interface{}] field: an [ed25519.PublicKey], nil, or a value of another
    dynamic type. *)
Inductive KeyVal := KeyEd25519 (b : list Z) | KeyNil | KeyOther (dyn : string).

Record PublicKey := mkPublicKey {
  pkID : PublicKeyID;
  pkValidSince : Z;
  pkValidUntil : Z;
  pkKey : KeyVal
}.

#[export] Instance PublicKeyID_eq_dec : EqDecision PublicKeyID.
Proof. solve_decision. Defined.
#[export] Instance KeyVal_eq_dec : EqDecision KeyVal.
Proof. solve_decision. Defined.
#[export] Instance PublicKey_eq_dec : EqDecision PublicKey.
Proof. solve_decision. Defined.

Definition PublicKeyID_String (p : PublicKeyID) : string :=
  ("AT=" +:+ SigAlgo_String (Algorithm p) +:+ " KS=" +:+ KeySpaceID_String (KeySpace p)
   +:+ " KP=" +:+ dec (KeyPhase p))%string.

Definition PublicKeyID_Hash (p : PublicKeyID) : string :=
  (dec (Algorithm p) +:+ "," +:+ dec (KeySpace p) +:+ "," +:+ dec (KeyPhase p))%string.

Definition KeyVal_cmp (k1 k2 : KeyVal) : Z :=
  match k1, k2 with
  | KeyEd25519 b1, KeyEd25519 b2 => bytes_cmp b1 b2
  | _, _ => 0
  end.

Definition PublicKey_CompareTo (p pkey : PublicKey) : Z :=
  int_cmp (Algorithm (pkID p)) (Algorithm (pkID pkey)) <?>
  int_cmp (KeySpace (pkID p)) (KeySpace (pkID pkey)) <?>
  int_cmp (pkValidSince p) (pkValidSince pkey) <?>
  int_cmp (pkValidUntil p) (pkValidUntil pkey) <?>
  int_cmp (KeyPhase (pkID p)) (KeyPhase (pkID pkey)) <?>
  KeyVal_cmp (pkKey p) (pkKey pkey).

Definition key_string (k : KeyVal) : string :=
  match k with KeyEd25519 b => hex_EncodeToString b | _ => "" end.

Definition PublicKey_String (p : PublicKey) : string :=
  ("{" +:+ PublicKeyID_String (pkID p) +:+ " VS=" +:+ dec (pkValidSince p)
   +:+ " VU=" +:+ dec (pkValidUntil p) +:+ " data=" +:+ key_string (pkKey p) +:+ "}")%string.

Definition PublicKey_Hash (p : PublicKey) : string :=
  (PublicKeyID_Hash (pkID p) +:+ "," +:+ dec (pkValidSince p) +:+ "," +:+ dec (pkValidUntil p)
   +:+ "," +:+ key_string (pkKey p))%string.

(** Keys whose [Key] field is an ed25519 key, the only kind the program creates. *)
Definition ed25519_key (p : PublicKey) : Prop := ∃ b, pkKey p = KeyEd25519 b ∧ Forall (λ z, 0 ≤ z < 256) b.

(** ** token *)

(** [type Token [16]byte] *)
Abbreviation Token := (list Z) (only parsing).
Definition Token_String (t : Token) : string := hex_EncodeToString t.
Definition Token_Compare (a b : Token) : Z := bytes_cmp a b.
Definition token_wf (t : Token) : Prop := length t = 16%nat ∧ Forall (λ z, 0 ≤ z < 256) t.

(** ** signature *)

Record MetaData := mkMetaData {
  mdPublicKeyID : PublicKeyID;
  mdValidSince : Z;
  mdValidUntil : Z
}.

(** The [Data interface{}] field: nil, a byte slice, or another dynamic type. *)
Inductive SigData := DataNil | DataBytes (b : list Z) | DataOther (dyn : string).

Record Sig := mkSig {
  sigPublicKeyID : PublicKeyID;
  sigValidSince : Z;
  sigValidUntil : Z;
  sigData : SigData;
  sigSign : bool
}.

#[export] Instance MetaData_eq_dec : EqDecision MetaData.
Proof. solve_decision. Defined.
#[export] Instance SigData_eq_dec : EqDecision SigData.
Proof. solve_decision. Defined.
#[export] Instance Sig_eq_dec : EqDecision Sig.
Proof. solve_decision. Defined.
#[export] Instance PublicKeyID_countable : Countable PublicKeyID.
Proof.
  apply (inj_countable' (λ p, (Algorithm p, KeySpace p, KeyPhase p)) (λ '(a, k, p), mkPublicKeyID a k p)).
  by intros [].
Defined.
#[export] Instance MetaData_countable : Countable MetaData.
Proof.
  apply (inj_countable' (λ m, (mdPublicKeyID m, mdValidSince m, mdValidUntil m)) (λ '(a, k, p), mkMetaData a k p)).
  by intros [].
Defined.

Definition zeroPublicKeyID : PublicKeyID := mkPublicKeyID 0 0 0.
Definition zeroSig : Sig := mkSig zeroPublicKeyID 0 0 DataNil false.

(** The receiver is overwritten field by field; [sign] keeps its value. *)
Definition Sig_UnmarshalArray (sig : Sig) (inp : list cval) : outcome Sig :=
  match inp with
  | [i0; i1; i2; i3; i4; i5] =>
      algo ← or_err (as_int i0) "cbor encoding of the algorithm should be an int";
      keySpace ← or_err (as_int i1) "cbor encoding of the key space should be an int";
      keyPhase ← or_err (as_int i2) "cbor encoding of the key phase should be an int";
      validSince ← or_err (as_int i3) "cbor encoding of the validSince should be an int";
      validUntil ← or_err (as_int i4) "cbor encoding of the validUntil should be an int";
      data ← or_err (as_bytes i5) "cbor encoding of the data should be a byte array";
      Ok (mkSig (mkPublicKeyID algo keySpace keyPhase) validSince validUntil (DataBytes data) (sigSign sig))
  | _ => Err ("expected 6 items in input array but got " +:+ dec (Z.of_nat (length inp)))
  end.

(** The array handed to the CBOR writer. *)
Definition Sig_MarshalArray (sig : Sig) : list cval :=
  [CInt (Algorithm (sigPublicKeyID sig)); CInt (KeySpace (sigPublicKeyID sig));
   CInt (KeyPhase (sigPublicKeyID sig)); CInt (sigValidSince sig); CInt (sigValidUntil sig);
   match sigData sig with
   | DataBytes data => if bool_decide (data ≠ []) && negb (sigSign sig) then CBytes data else CBytes []
   | _ => CBytes []
   end].

Definition Sig_MarshalCBOR (sig : Sig) : outcome cval := Ok (CArr (Sig_MarshalArray sig)).

Definition Sig_MetaData (sig : Sig) : MetaData :=
  mkMetaData (sigPublicKeyID sig) (sigValidSince sig) (sigValidUntil sig).

(** The type assertion [sig.Data.([]byte)] panics on any other dynamic type. *)
Definition Sig_bytes (d : SigData) : outcome (list Z) :=
  match d with DataBytes b => Ok b | _ => Panic "interface conversion" end.

Definition Sig_String (sig : Sig) : outcome string :=
  data ← (if Algorithm (sigPublicKeyID sig) =? Ed25519
          then match sigData sig with
               | DataNil => Ok "nil"%string
               | d => b ← Sig_bytes d; Ok (hex_EncodeToString b)
               end
          else Ok "notYetImplementedInStringMethod"%string);
  Ok ("{KS=" +:+ dec (KeySpace (sigPublicKeyID sig)) +:+ " AT=" +:+ dec (Algorithm (sigPublicKeyID sig))
      +:+ " VS=" +:+ dec (sigValidSince sig) +:+ " VU=" +:+ dec (sigValidUntil sig)
      +:+ " KP=" +:+ dec (KeyPhase (sigPublicKeyID sig)) +:+ " data=" +:+ data +:+ "}")%string.

Definition Sig_meta_cmp (sig s : Sig) : Z :=
  int_cmp (Algorithm (sigPublicKeyID sig)) (Algorithm (sigPublicKeyID s)) <?>
  int_cmp (KeySpace (sigPublicKeyID sig)) (KeySpace (sigPublicKeyID s)) <?>
  int_cmp (KeyPhase (sigPublicKeyID sig)) (KeyPhase (sigPublicKeyID s)) <?>
  int_cmp (sigValidSince sig) (sigValidSince s) <?>
  int_cmp (sigValidUntil sig) (sigValidUntil s).

Definition Sig_CompareTo (sig s : Sig) : outcome Z :=
  let c := Sig_meta_cmp sig s in
  if c =? 0 then
    if Algorithm (sigPublicKeyID sig) =? Ed25519
    then b1 ← Sig_bytes (sigData sig); b2 ← Sig_bytes (sigData s); Ok (bytes_cmp b1 b2)
    else Ok 0
  else Ok c.

(** The ed25519 library. *)
Class Ed25519Lib := {
  ed25519_Sign : list Z → list Z → list Z;            (* private key, message *)
  ed25519_Verify : list Z → list Z → list Z → bool;   (* public key, message, signature *)
  ed25519_Public : list Z → list Z                    (* public half of a private key *)
}.

(** Its documented contract: a signature verifies under the matching public key. *)
Class Ed25519Laws `{Ed25519Lib} : Prop := {
  ed25519_correct sk m : ed25519_Verify (ed25519_Public sk) m (ed25519_Sign sk m) = true;
  ed25519_nonempty sk m : ed25519_Sign sk m ≠ []
}.

(** crypto/sha256: what a fresh hasher returns after writing the bytes. *)
Class Sha256Lib := { sha256_Sum256 : list Z → list Z }.
(** A sum has 32 bytes. *)
Class Sha256Laws `{Sha256Lib} : Prop := {
  sha256_length b : length (sha256_Sum256 b) = 32%nat
}.

(** Private keys behind [interface{}]. *)
Inductive PrivKeyVal := PrivEd25519 (b : list Z) | PrivNil | PrivOther (dyn : string).

Section Signing.
Context `{!Ed25519Lib, !CborWriter}.

(** The signature's own encoding is appended to the encoding of the section. *)
Definition Sig_encoding (sig : Sig) (encoding : list Z) : list Z :=
  encoding ++ cbor_array (Ok <$> Sig_MarshalArray sig).

Definition Sig_set_data (sig : Sig) (d : SigData) : Sig :=
  mkSig (sigPublicKeyID sig) (sigValidSince sig) (sigValidUntil sig) d (sigSign sig).
Definition Sig_set_sign (sig : Sig) (b : bool) : Sig :=
  mkSig (sigPublicKeyID sig) (sigValidSince sig) (sigValidUntil sig) (sigData sig) b.

Definition Sig_SignData (sig : Sig) (privateKey : PrivKeyVal) (encoding : list Z) : outcome Sig :=
  match privateKey with
  | PrivNil => Err "privateKey is nil"
  | _ =>
      let encoding' := Sig_encoding sig encoding in
      if Algorithm (sigPublicKeyID sig) =? Ed25519 then
        match privateKey with
        | PrivEd25519 pkey => Ok (Sig_set_data sig (DataBytes (ed25519_Sign pkey encoding')))
        | _ => Err "could not assert type ed25519.PrivateKey"
        end
      else Err ("signature algorithm type not supported: " +:+ SigAlgo_String (Algorithm (sigPublicKeyID sig)))
  end.

(** The receiver is a pointer: its [sign] flag is set before the encoding and reset
    only on the path that calls [ed25519.Verify]. *)
Definition Sig_VerifySignature (sig : Sig) (publicKey : KeyVal) (encoding : list Z) : outcome (Sig * bool) :=
  match sigData sig, publicKey with
  | DataNil, _ => Ok (sig, false)
  | _, KeyNil => Ok (sig, false)
  | d, _ =>
      let sig1 := Sig_set_sign sig true in
      let encoding' := Sig_encoding sig1 encoding in
      if Algorithm (sigPublicKeyID sig) =? Ed25519 then
        match publicKey with
        | KeyEd25519 pkey =>
            b ← Sig_bytes d;
            Ok (Sig_set_sign sig1 false, ed25519_Verify pkey encoding' b)
        | _ => Ok (sig1, false)
        end
      else Ok (sig1, false)
  end.
End Signing.

(** ** Lemmas *)

#[export] Instance PublicKey_CompareTo_on : CmpEqOn ed25519_key PublicKey_CompareTo.
Proof.
  split.
  - unfold PublicKey_CompareTo. solve_cmp_on.
    split.
    + intros x y (b & Hx & _) (b' & Hy & _). rewrite Hx, Hy. simpl. by apply (cmp_sign (cmp:=bytes_cmp)).
    + intros x y (b & Hx & _) (b' & Hy & _). rewrite Hx, Hy. simpl. by apply (cmp_anti (cmp:=bytes_cmp)).
    + intros x y z (b & Hx & _) (b' & Hy & _) (b'' & Hz & _). rewrite Hx, Hy, Hz. simpl. by apply (cmp_trans (cmp:=bytes_cmp)).
  - intros [[a k p] vs vu kv] [[a' k' p'] vs' vu' kv'] (b & Hb & _) (b' & Hb' & _) E.
    unfold PublicKey_CompareTo in E. simpl in *. subst kv kv'. split_lex. simpl in *.
    fields_equal. by subst.
Qed.

Lemma hex_digit_inj m n : 0 ≤ m < 16 → 0 ≤ n < 16 → hex_digit m = hex_digit n → m = n.
Proof.
  intros Hm Hn H. unfold hex_digit in H. apply (f_equal Ascii.N_of_ascii) in H.
  revert H. destruct (Z.ltb_spec m 10), (Z.ltb_spec n 10);
    rewrite 2!Ascii.N_ascii_embedding by lia; lia.
Qed.

Lemma hex_inj b b' :
  Forall (λ z, 0 ≤ z < 256) b → Forall (λ z, 0 ≤ z < 256) b' →
  hex_EncodeToString b = hex_EncodeToString b' → b = b'.
Proof.
  intros H. revert b'. induction H as [|z b Hz Hb IH]; intros b' [|z' b'' Hz' Hb']; simpl; try done.
  intros [= E1 E2 E3]. f_equal; [|by apply IH].
  assert (∀ y, 0 ≤ y < 256 → 0 ≤ y / 16 < 16 ∧ 0 ≤ y mod 16 < 16) as R.
  { intros y Hy. split; [|apply Z.mod_pos_bound; lia]. split; [apply Z.div_pos; lia|].
    apply Z.div_lt_upper_bound; lia. }
  apply hex_digit_inj in E1; [|apply R; done..]. apply hex_digit_inj in E2; [|apply R; done..].
  rewrite (Z.div_mod z 16), (Z.div_mod z' 16) by lia. lia.
Qed.

Lemma dec_no_comma z : no_char ","%char (dec z).
Proof. apply dec_no_char. solve_not_digit. Qed.

Lemma PublicKeyID_Hash_inj p q r s :
  (PublicKeyID_Hash p +:+ "," +:+ r = PublicKeyID_Hash q +:+ "," +:+ s)%string → p = q ∧ r = s.
Proof.
  unfold PublicKeyID_Hash. rewrite !str_app_assoc. intros E.
  apply sep_inj in E as [E1%(inj dec) E]; [|apply dec_no_comma..].
  apply sep_inj in E as [E2%(inj dec) E]; [|apply dec_no_comma..].
  apply sep_inj in E as [E3%(inj dec) E]; [|apply dec_no_comma..].
  destruct p, q; simpl in *; by subst.
Qed.

Lemma PublicKey_Hash_inj p q :
  ed25519_key p → ed25519_key q → PublicKey_Hash p = PublicKey_Hash q → p = q.
Proof.
  intros (b & Hb & Rb) (b' & Hb' & Rb') E. unfold PublicKey_Hash in E.
  apply PublicKeyID_Hash_inj in E as [E1 E].
  apply sep_inj in E as [E2%(inj dec) E]; [|apply dec_no_comma..].
  apply sep_inj in E as [E3%(inj dec) E]; [|apply dec_no_comma..].
  rewrite Hb, Hb' in E. simpl in E. apply hex_inj in E; [|done..].
  destruct p, q; simpl in *; by subst.
Qed.

(** ** Theorems *)

(** On ed25519 keys [PublicKey.CompareTo] is a total order (the sign of a
    transitive, antisymmetric relation) and returns 0 only for equal keys, and
    [PublicKey.Hash] determines the key. *)
Theorem PublicKey_order_and_hash p q r :
  ed25519_key p → ed25519_key q → ed25519_key r →
  (PublicKey_CompareTo p q = 0 ↔ p = q) ∧
  PublicKey_CompareTo q p = - PublicKey_CompareTo p q ∧
  (PublicKey_CompareTo p q ≤ 0 → PublicKey_CompareTo q r ≤ 0 → PublicKey_CompareTo p r ≤ 0) ∧
  (PublicKey_Hash p = PublicKey_Hash q ↔ p = q).
Proof.
  intros Hp Hq Hr. split_and!.
  - split; [by apply cmp_zero|]. intros ->. pose proof (cmp_anti (cmp:=PublicKey_CompareTo) q q Hq Hq). lia.
  - by apply cmp_anti.
  - by apply cmp_trans.
  - split; [by apply PublicKey_Hash_inj|by intros ->].
Qed.

Lemma PublicKey_order_and_hash_witness :
  let p n := mkPublicKey (mkPublicKeyID Ed25519 RainsKeySpace n) 0 10 (KeyEd25519 [1; 2; 3]) in
  PublicKey_CompareTo (p 2) (p 1) = - PublicKey_CompareTo (p 1) (p 2) ∧ PublicKey_Hash (p 1) ≠ PublicKey_Hash (p 2).
Proof.
  intros p. assert (∀ n, ed25519_key (p n)) as H.
  { intros n. exists [1; 2; 3]. split; [done|]. repeat constructor; lia. }
  destruct (PublicKey_order_and_hash (p 1) (p 2) (p 2)) as (_ & H1 & _ & H2); [apply H..|].
  split; [exact H1|]. intros E. apply H2 in E. discriminate.
Defined.

(** A signature read back from the array its marshaller wrote has the same key
    identifier and validity; its data are the same bytes, and are dropped exactly while
    the [sign] flag is set. *)
Theorem Sig_roundtrip sig0 sig b :
  sigData sig = DataBytes b →
  Sig_UnmarshalArray sig0 (Sig_MarshalArray sig) =
    Ok (mkSig (sigPublicKeyID sig) (sigValidSince sig) (sigValidUntil sig)
          (DataBytes (if sigSign sig then [] else b)) (sigSign sig0)).
Proof.
  intros Hd. destruct sig as [[a k p] vs vu d s]. simpl in *. rewrite Hd. simpl.
  destruct (bool_decide_reflect (b ≠ [])) as [|Hb]; simpl; [by destruct s|].
  assert (b = []) as -> by (by destruct b as [|??]; [|exfalso; apply Hb]). by destruct s.
Qed.

Lemma Sig_roundtrip_witness :
  Sig_UnmarshalArray zeroSig (Sig_MarshalArray (mkSig (mkPublicKeyID 1 0 1) 5 9 (DataBytes [7]) false)) =
  Ok (mkSig (mkPublicKeyID 1 0 1) 5 9 (DataBytes [7]) false).
Proof. apply (Sig_roundtrip zeroSig (mkSig (mkPublicKeyID 1 0 1) 5 9 (DataBytes [7]) false) [7]). reflexivity. Defined.

(** Signing and verifying agree: a signature without data, signed with an ed25519 key
    over an encoding, verifies under the public half of that key over the same encoding,
    and verification leaves the signature as it was. *)
Lemma Sign_then_Verify `{!Ed25519Lib, !CborWriter, !Ed25519Laws} sig sk encoding :
  Algorithm (sigPublicKeyID sig) = Ed25519 → sigData sig = DataNil → sigSign sig = false →
  ∃ sig', Sig_SignData sig (PrivEd25519 sk) encoding = Ok sig' ∧
          Sig_VerifySignature sig' (KeyEd25519 (ed25519_Public sk)) encoding = Ok (sig', true).
Proof.
  intros Ha Hd Hs. destruct sig as [id vs vu d s]. simpl in *. subst d s.
  unfold Sig_SignData. simpl. rewrite Ha. simpl. eexists. split; [done|].
  unfold Sig_VerifySignature. simpl. rewrite Ha. simpl. unfold Sig_set_sign. simpl. do 2 f_equal.
  unfold Sig_encoding, Sig_MarshalArray. simpl. rewrite andb_false_r. apply ed25519_correct.
Qed.

(** A toy instance: a signature is the message prefixed by the key. *)
Definition toy_ed25519 : Ed25519Lib := {|
  ed25519_Sign sk m := 0 :: sk ++ m;
  ed25519_Verify pk m s := bool_decide (s = 0 :: pk ++ m);
  ed25519_Public sk := sk
|}.
Lemma toy_ed25519_laws : @Ed25519Laws toy_ed25519.
Proof. split; intros; [by apply bool_decide_eq_true_2|done]. Qed.
Definition toy_cbor : CborWriter := {| cbor_array es := [Z.of_nat (length es)] |}.

Lemma Sign_then_Verify_witness :
  let sig := mkSig (mkPublicKeyID Ed25519 0 1) 5 9 DataNil false in
  ∃ sig', @Sig_SignData toy_ed25519 toy_cbor sig (PrivEd25519 [3]) [1; 2] = Ok sig' ∧
          @Sig_VerifySignature toy_ed25519 toy_cbor sig' (KeyEd25519 [3]) [1; 2] = Ok (sig', true).
Proof.
  apply (@Sign_then_Verify toy_ed25519 toy_cbor toy_ed25519_laws
           (mkSig (mkPublicKeyID Ed25519 0 1) 5 9 DataNil false) [3] [1; 2]); reflexivity.
Defined.

Definition toy_sha : Sha256Lib := {| sha256_Sum256 b := replicate 32 (Z.of_nat (length b) mod 256) |}.
Lemma toy_sha_laws : @Sha256Laws toy_sha.
Proof. split. intros b. apply length_replicate. Qed.
