(* ===== verification/Object.v ===== *)
(** * Objects

    Models attic/internal/pkg/object/object.go (and the generated [Type.String] of
    type_string.go): the typed values an assertion carries, their CBOR encoding,
    their order and the command-line names of the types.

    [addr.IA] and its byte encoding belong to the SCION library and are parameters
    ([ObjLib]); so is the CBOR writer's treatment of an arbitrary dynamic value, which
    a redirection object hands to it unchecked. *)

From S2P Require Import Prelude Cbor Keys.
Local Open Scope Z_scope.

(** ** Types *)

(** [type Type int] *)
Abbreviation OType := Z (only parsing).
Definition OTName : OType := 1.
Definition OTIP6Addr : OType := 2.
Definition OTIP4Addr : OType := 3.
Definition OTRedirection : OType := 4.
Definition OTDelegation : OType := 5.
Definition OTNameset : OType := 6.
Definition OTCertInfo : OType := 7.
Definition OTServiceInfo : OType := 8.
Definition OTRegistrar : OType := 9.
Definition OTRegistrant : OType := 10.
Definition OTInfraKey : OType := 11.
Definition OTExtraKey : OType := 12.
Definition OTNextKey : OType := 13.
Definition OTScionAddr : OType := 14.

Definition PTUnspecified : Z := 0.
Definition PTTLS : Z := 1.
Definition PTRhine : Z := 4.
Definition CUTrustAnchor : Z := 2.
Definition CUEndEntity : Z := 3.
Definition CUZoneAuth : Z := 5.

Record ObjName := mkObjName { onName : string; onTypes : list OType }.
Record Certificate := mkCertificate { certType : Z; certUsage : Z; certHashAlgo : Z; certData : list Z }.
Record ServiceInfo := mkServiceInfo { siName : string; siPort : Z; siPriority : Z }.

(** An ISD-AS number of the SCION library: an ISD and an AS part. *)
Record IA := mkIA { iaI : Z; iaA : Z }.
Definition ia_valid (ia : IA) : Prop := in_uint16 (iaI ia) ∧ 0 ≤ iaA ia < 2 ^ 48.
Record SCIONAddress := mkSCIONAddress { saIA : IA; saIP : list Z }.

(** The [Value interface{}] of an object by its dynamic type; [VOther] is a value of
    any other dynamic type the CBOR reader produces. *)
Inductive Value :=
| VName (n : ObjName)
| VString (s : string)
| VIP (ip : list Z)
| VScion (a : SCIONAddress)
| VPublicKey (k : PublicKey)
| VNamesetExpr (s : string)
| VCertificate (c : Certificate)
| VServiceInfo (si : ServiceInfo)
| VOther (c : cval).

Record Object := mkObject { objType : OType; objValue : Value }.

(** What the object model uses of the SCION address library and of the writer. *)
Definition IABytes : Z := 8.
Class ObjLib := {
  IA_Write : IA → list Z;
  IAFromRaw : list Z → IA;
  write_any : Value → outcome cval
}.
Class ObjLibLaws `{ObjLib} : Prop := {
  IA_Write_length ia : Z.of_nat (length (IA_Write ia)) = IABytes;
  IAFromRaw_Write ia rest : ia_valid ia → IAFromRaw (IA_Write ia ++ rest) = ia;
  write_any_string s : write_any (VString s) = Ok (CStr s)
}.

(** The reader's dynamic value as an object value. *)
Definition value_of_cval (c : cval) : Value := match c with CStr s => VString s | c => VOther c end.

Section Objects.
Context {OL : ObjLib}.

(** ** SCION addresses *)

Definition SCIONAddress_Pack (a : SCIONAddress) : list Z := IA_Write (saIA a) ++ saIP a.

Definition SCIONAddressFromRaw (buf : list Z) : outcome SCIONAddress :=
  if negb (Z.of_nat (length buf) =? IABytes + 4) && negb (Z.of_nat (length buf) =? IABytes + 16)
  then Err "invalid scion address, bad length"
  else Ok (mkSCIONAddress (IAFromRaw buf) (drop (Z.to_nat IABytes) buf)).

(** ** CBOR *)

Definition arg_int (inp : list cval) (i : Z) (msg : string) : outcome Z :=
  c ← at_index inp i; or_err (as_int c) msg.
Definition arg_str (inp : list cval) (i : Z) (msg : string) : outcome string :=
  c ← at_index inp i; or_err (as_str c) msg.
Definition arg_bytes (inp : list cval) (i : Z) (msg : string) : outcome (list Z) :=
  c ← at_index inp i; or_err (as_bytes c) msg.
Definition arg_arr (inp : list cval) (i : Z) (msg : string) : outcome (list cval) :=
  c ← at_index inp i; or_err (as_arr c) msg.

(** [switch algorithmTypes.Signature(alg)]: only ed25519 keys are read. *)
Definition arg_key (inp : list cval) (alg : Z) (msg : string) : outcome (list Z) :=
  if alg =? Ed25519 then arg_bytes inp 3 msg
  else Err ("unsupported algorithm: " +:+ dec alg).

Definition read_name (inp : list cval) : outcome Value :=
  name ← arg_str inp 1 "cbor object encoding of name not a string";
  ots ← arg_arr inp 2 "cbor object encoding of name not an array";
  types ← traverse (λ ot, or_err (as_int ot) "cbor object encoding of name not an array") ots;
  Ok (VName (mkObjName name types)).

Definition read_ip (inp : list cval) : outcome Value :=
  v ← arg_bytes inp 1 "cbor object encoding of ip6 not a byte array"; Ok (VIP v).

Definition read_scion (inp : list cval) : outcome Value :=
  v ← arg_bytes inp 1 "wrong object value for OTScionAddr";
  match SCIONAddressFromRaw v with
  | Ok a => Ok (VScion a)
  | _ => Err "failed to unmarshal OTScionAddr"
  end.

Definition read_deleg (inp : list cval) : outcome Value :=
  alg ← arg_int inp 1 "cbor object encoding of deleg algo not an int";
  kp ← arg_int inp 2 "cbor object encoding of deleg phase not an int";
  key ← arg_key inp alg "cbor object encoding of deleg key not a byte array";
  Ok (VPublicKey (mkPublicKey (mkPublicKeyID alg RainsKeySpace kp) 0 0 (KeyEd25519 key))).

Definition read_cert (inp : list cval) : outcome Value :=
  proto ← arg_int inp 1 "cbor object encoding of cert proto not an int";
  usage ← arg_int inp 2 "cbor object encoding of cert usage not an int";
  hash ← arg_int inp 3 "cbor object encoding of cert hash not an int";
  data ← arg_bytes inp 4 "cbor object encoding of cert data not a byte array";
  Ok (VCertificate (mkCertificate proto usage hash data)).

(** [uint16(port)] and [uint(prio)] truncate. *)
Definition read_srv (inp : list cval) : outcome Value :=
  name ← arg_str inp 1 "cbor object encoding of serv name not an string";
  port ← arg_int inp 2 "cbor object encoding of serv port not an int";
  prio ← arg_int inp 3 "cbor object encoding of serv prio not an int";
  Ok (VServiceInfo (mkServiceInfo name (uint16_wrap port) (uint64_wrap prio))).

Definition read_infra (inp : list cval) : outcome Value :=
  alg ← arg_int inp 1 "cbor object encoding of infra algo not an int";
  kp ← arg_int inp 2 "cbor object encoding of infra phase not an int";
  key ← arg_key inp alg "cbor object encoding of infra key not a byte array";
  Ok (VPublicKey (mkPublicKey (mkPublicKeyID alg RainsKeySpace kp) 0 0 (KeyEd25519 key))).

Definition read_extra (inp : list cval) : outcome Value :=
  alg ← arg_int inp 1 "cbor object encoding of extra algo not an int";
  ks ← arg_int inp 2 "cbor object encoding of extra keyspace not an int";
  key ← arg_key inp alg "cbor object encoding of extra key not a byte array";
  Ok (VPublicKey (mkPublicKey (mkPublicKeyID alg ks 0) 0 0 (KeyEd25519 key))).

Definition read_next (inp : list cval) : outcome Value :=
  alg ← arg_int inp 1 "cbor object encoding of nextKey algo not an int";
  kp ← arg_int inp 2 "cbor object encoding of nextKey phase not an int";
  vs ← arg_int inp 4 "cbor object encoding of nextKey validSince not an int";
  vu ← arg_int inp 5 "cbor object encoding of nextKey validUntil not an int";
  key ← arg_key inp alg "cbor object encoding of nextKey key not a byte array";
  Ok (VPublicKey (mkPublicKey (mkPublicKeyID alg RainsKeySpace kp) vs vu (KeyEd25519 key))).

Definition read_value (t : OType) (inp : list cval) : outcome Value :=
  if t =? OTName then read_name inp
  else if t =? OTIP6Addr then read_ip inp
  else if t =? OTIP4Addr then read_ip inp
  else if t =? OTScionAddr then read_scion inp
  else if t =? OTRedirection then c ← at_index inp 1; Ok (value_of_cval c)
  else if t =? OTDelegation then read_deleg inp
  else if t =? OTNameset then
    v ← arg_str inp 1 "cbor object encoding of nameset not a string"; Ok (VNamesetExpr v)
  else if t =? OTCertInfo then read_cert inp
  else if t =? OTServiceInfo then read_srv inp
  else if t =? OTRegistrar then
    v ← arg_str inp 1 "cbor object encoding of serv name not an string"; Ok (VString v)
  else if t =? OTRegistrant then
    v ← arg_str inp 1 "cbor object encoding of serv name not an string"; Ok (VString v)
  else if t =? OTInfraKey then read_infra inp
  else if t =? OTExtraKey then read_extra inp
  else if t =? OTNextKey then read_next inp
  else Err "unknown object type in unmarshalling object".

Definition Object_UnmarshalArray (inp : list cval) : outcome Object :=
  t ← arg_int inp 0 "cbor object encoding first element (type) must be an int";
  v ← read_value t inp;
  Ok (mkObject t v).

Definition pubkeyToCBORBytes (p : PublicKey) : outcome (list Z) :=
  if Algorithm (pkID p) =? Ed25519
  then match pkKey p with KeyEd25519 b => Ok b | _ => Panic "interface conversion" end
  else Panic "Unsupported algorithm.".

Definition is_key (t : OType) (v : Value) : outcome PublicKey :=
  match v with
  | VPublicKey k => Ok k
  | _ => Err ("expected value of type " +:+ dec t +:+ " to be PublicKey")
  end.

(** The array handed to the writer. *)
Definition Object_MarshalArray (obj : Object) : outcome (list cval) :=
  let t := objType obj in
  let v := objValue obj in
  if t =? OTName then
    match v with
    | VName no => Ok [CInt OTName; CStr (onName no); CArr (CInt <$> onTypes no)]
    | _ => Err "expected OTName to be Name"
    end
  else if t =? OTIP6Addr then
    match v with VIP a => Ok [CInt OTIP6Addr; CBytes a] | _ => Err "expected OTIP6Addr to be net.IP" end
  else if t =? OTIP4Addr then
    match v with VIP a => Ok [CInt OTIP4Addr; CBytes a] | _ => Err "expected OTIP4Addr to be net.IP" end
  else if t =? OTScionAddr then
    match v with
    | VScion a => Ok [CInt OTScionAddr; CBytes (SCIONAddress_Pack a)]
    | _ => Err "expected OTSCIONAddr to be *SCIONAddressress"
    end
  else if t =? OTRedirection then c ← write_any v; Ok [CInt OTRedirection; c]
  else if t =? OTDelegation then
    pkey ← is_key t v; b ← pubkeyToCBORBytes pkey;
    Ok [CInt OTDelegation; CInt (Algorithm (pkID pkey)); CInt (KeyPhase (pkID pkey)); CBytes b]
  else if t =? OTNameset then
    match v with
    | VNamesetExpr nse => Ok [CInt OTNameset; CStr nse]
    | _ => Err "expected OTNameset value to be NamesetExpr"
    end
  else if t =? OTCertInfo then
    match v with
    | VCertificate co =>
        Ok [CInt OTCertInfo; CInt (certType co); CInt (certUsage co); CInt (certHashAlgo co); CBytes (certData co)]
    | _ => Err "expected OTCertInfo object to be Certificate"
    end
  else if t =? OTServiceInfo then
    match v with
    | VServiceInfo si => Ok [CInt OTServiceInfo; CStr (siName si); CInt (siPort si); CInt (siPriority si)]
    | _ => Err "expected OTServiceInfo object to be ServiceInfo"
    end
  else if t =? OTRegistrar then
    match v with VString s => Ok [CInt OTRegistrar; CStr s] | _ => Err "expected OTRegistrar object to be string" end
  else if t =? OTRegistrant then
    match v with VString s => Ok [CInt OTRegistrant; CStr s] | _ => Err "expected OTRegistrant object to be string" end
  else if t =? OTInfraKey then
    pkey ← is_key t v; b ← pubkeyToCBORBytes pkey;
    Ok [CInt OTInfraKey; CInt (Algorithm (pkID pkey)); CInt (KeyPhase (pkID pkey)); CBytes b]
  else if t =? OTExtraKey then
    pkey ← is_key t v; b ← pubkeyToCBORBytes pkey;
    Ok [CInt OTExtraKey; CInt (Algorithm (pkID pkey)); CInt (KeySpace (pkID pkey)); CBytes b]
  else if t =? OTNextKey then
    pkey ← is_key t v; b ← pubkeyToCBORBytes pkey;
    Ok [CInt OTNextKey; CInt (Algorithm (pkID pkey)); CInt (KeyPhase (pkID pkey)); CBytes b;
        CInt (pkValidSince pkey); CInt (pkValidUntil pkey)]
  else Err ("unknown object type: " +:+ dec t).

Definition Object_MarshalCBOR (obj : Object) : outcome cval :=
  l ← Object_MarshalArray obj; Ok (CArr l).

(** ** Order *)

(** [Types] is shared between the copies of an object, so sorting the copy sorts the
    original. *)
Definition Object_Sort (o : Object) : outcome Object :=
  let o' := match objValue o with
            | VName n => mkObject (objType o) (VName (mkObjName (onName n) (sort_slice Z.ltb (onTypes n))))
            | _ => o
            end in
  if objType o =? OTExtraKey
  then Panic "Sort not implemented for external key. Format not yet defined"
  else Ok o'.

Definition ObjName_CompareTo (n nameObj : ObjName) : Z :=
  str_cmp (onName n) (onName nameObj) <?> list_cmp int_cmp (onTypes n) (onTypes nameObj).

Definition Certificate_CompareTo (c cert : Certificate) : Z :=
  int_cmp (certType c) (certType cert) <?> int_cmp (certUsage c) (certUsage cert) <?>
  int_cmp (certHashAlgo c) (certHashAlgo cert) <?> bytes_cmp (certData c) (certData cert).

Definition ServiceInfo_CompareTo (s serviceInfo : ServiceInfo) : Z :=
  str_cmp (siName s) (siName serviceInfo) <?> int_cmp (siPort s) (siPort serviceInfo) <?>
  int_cmp (siPriority s) (siPriority serviceInfo).

(** Values of different dynamic types, and of unsupported ones, compare as equal (the
    mismatch is only logged). *)
Definition Value_cmp (v1 v2 : Value) : Z :=
  match v1, v2 with
  | VName n1, VName n2 => ObjName_CompareTo n1 n2
  | VString s1, VString s2 => str_cmp s1 s2
  | VIP a1, VIP a2 => bytes_cmp a1 a2
  | VScion a1, VScion a2 => bytes_cmp (SCIONAddress_Pack a1) (SCIONAddress_Pack a2)
  | VPublicKey k1, VPublicKey k2 => PublicKey_CompareTo k1 k2
  | VNamesetExpr s1, VNamesetExpr s2 => str_cmp s1 s2
  | VCertificate c1, VCertificate c2 => Certificate_CompareTo c1 c2
  | VServiceInfo s1, VServiceInfo s2 => ServiceInfo_CompareTo s1 s2
  | _, _ => 0
  end.

Definition Object_CompareTo (o object : Object) : Z :=
  int_cmp (objType o) (objType object) <?> Value_cmp (objValue o) (objValue object).
End Objects.

(** ** Names of types *)

Definition AllTypes : list OType :=
  [OTName; OTIP6Addr; OTIP4Addr; OTRedirection; OTDelegation; OTNameset; OTCertInfo; OTServiceInfo;
   OTRegistrar; OTRegistrant; OTInfraKey; OTExtraKey; OTNextKey; OTScionAddr].

Definition ParseTypes (qType : string) : outcome (list OType) :=
  if qType =ₛ "name" then Ok [OTName]
  else if qType =ₛ "ip6" then Ok [OTIP6Addr]
  else if qType =ₛ "ip4" then Ok [OTIP4Addr]
  else if qType =ₛ "scion" then Ok [OTScionAddr]
  else if qType =ₛ "redir" then Ok [OTRedirection]
  else if qType =ₛ "deleg" then Ok [OTDelegation]
  else if qType =ₛ "nameset" then Ok [OTNameset]
  else if qType =ₛ "cert" then Ok [OTCertInfo]
  else if qType =ₛ "srv" then Ok [OTServiceInfo]
  else if qType =ₛ "regr" then Ok [OTRegistrar]
  else if qType =ₛ "regt" then Ok [OTRegistrant]
  else if qType =ₛ "infra" then Ok [OTInfraKey]
  else if qType =ₛ "extra" then Ok [OTExtraKey]
  else if qType =ₛ "next" then Ok [OTNextKey]
  else if qType =ₛ "any" then Ok AllTypes
  else Err (qType +:+ " is not a query option").

(** The generated names, indexed from 1. *)
Definition Type_names : list string :=
  ["OTName"; "OTIP6Addr"; "OTIP4Addr"; "OTRedirection"; "OTDelegation"; "OTNameset"; "OTCertInfo";
   "OTServiceInfo"; "OTRegistrar"; "OTRegistrant"; "OTInfraKey"; "OTExtraKey"; "OTNextKey"; "OTScionAddr"].

Definition Type_String (t : OType) : string :=
  let i := int64_wrap (t - 1) in
  if (i <? 0) || (Z.of_nat (length Type_names) <=? i) then ("Type(" +:+ dec (int64_wrap (i + 1)) +:+ ")")%string
  else default ""%string (Type_names !! Z.to_nat i).

Definition CLIString (t : OType) : string :=
  if t =? OTName then "name"
  else if t =? OTIP6Addr then "ip6"
  else if t =? OTIP4Addr then "ip4"
  else if t =? OTScionAddr then "scion"
  else if t =? OTRedirection then "redir"
  else if t =? OTDelegation then "deleg"
  else if t =? OTNameset then "nameset"
  else if t =? OTCertInfo then "cert"
  else if t =? OTServiceInfo then "srv"
  else if t =? OTRegistrar then "regr"
  else if t =? OTRegistrant then "regt"
  else if t =? OTInfraKey then "infra"
  else if t =? OTExtraKey then "extra"
  else if t =? OTNextKey then "next"
  else Type_String t.

(** ** Well-typed objects *)

Definition is_key_type (t : OType) : Prop := t = OTDelegation ∨ t = OTInfraKey ∨ t = OTExtraKey ∨ t = OTNextKey.
Definition is_string_type (t : OType) : Prop := t = OTRedirection ∨ t = OTRegistrar ∨ t = OTRegistrant.

(** The dynamic type of the value fits the object type. *)
Definition value_typed (t : OType) (v : Value) : Prop :=
  match v with
  | VName _ => t = OTName
  | VString _ => is_string_type t
  | VIP _ => t = OTIP6Addr ∨ t = OTIP4Addr
  | VScion _ => t = OTScionAddr
  | VPublicKey _ => is_key_type t
  | VNamesetExpr _ => t = OTNameset
  | VCertificate _ => t = OTCertInfo
  | VServiceInfo _ => t = OTServiceInfo
  | VOther _ => t = OTRedirection
  end.

Definition value_supported (v : Value) : Prop :=
  match v with
  | VPublicKey k => ed25519_key k
  | VScion a => ia_valid (saIA a)
  | VOther _ => False
  | _ => True
  end.

(** The objects the order is meant for: the value has the type's dynamic type, keys are
    ed25519 keys and a redirection is a string. *)
Definition object_wf (o : Object) : Prop := value_typed (objType o) (objValue o) ∧ value_supported (objValue o).

(** Values that fit the fields of the encoding. *)
Definition value_encodable (v : Value) : Prop :=
  match v with
  | VScion a => ia_valid (saIA a) ∧ (length (saIP a) = 4%nat ∨ length (saIP a) = 16%nat)
  | VPublicKey k => Algorithm (pkID k) = Ed25519 ∧ ∃ b, pkKey k = KeyEd25519 b
  | VServiceInfo si => in_uint16 (siPort si) ∧ 0 ≤ siPriority si ≤ MaxInt64
  | VOther _ => False
  | _ => True
  end.

(** The encoding of a key object carries only some fields of the key: the others are
    reset by the round trip. *)
Definition canon_key (t : OType) (k : PublicKey) : PublicKey :=
  let id := pkID k in
  if t =? OTExtraKey then mkPublicKey (mkPublicKeyID (Algorithm id) (KeySpace id) 0) 0 0 (pkKey k)
  else if t =? OTNextKey then
    mkPublicKey (mkPublicKeyID (Algorithm id) RainsKeySpace (KeyPhase id)) (pkValidSince k) (pkValidUntil k) (pkKey k)
  else mkPublicKey (mkPublicKeyID (Algorithm id) RainsKeySpace (KeyPhase id)) 0 0 (pkKey k).

Definition canon (o : Object) : Object :=
  match objValue o with
  | VPublicKey k => mkObject (objType o) (VPublicKey (canon_key (objType o) k))
  | _ => o
  end.

Definition value_shape (v : Value) : nat :=
  match v with
  | VName _ => 0 | VString _ => 1 | VIP _ => 2 | VScion _ => 3 | VPublicKey _ => 4
  | VNamesetExpr _ => 5 | VCertificate _ => 6 | VServiceInfo _ => 7 | VOther _ => 8
  end.

(** ** Lemmas *)

Section ObjectFacts.
Context {OL : ObjLib} {OLL : ObjLibLaws}.

Lemma Pack_inj a b :
  ia_valid (saIA a) → ia_valid (saIA b) → SCIONAddress_Pack a = SCIONAddress_Pack b → a = b.
Proof.
  unfold SCIONAddress_Pack. intros Ha Hb E. assert (saIA a = saIA b) as Hia.
  { rewrite <-(IAFromRaw_Write (saIA a) (saIP a)), <-(IAFromRaw_Write (saIA b) (saIP b)) by done. by rewrite E. }
  rewrite Hia in E. apply (app_inv_head (IA_Write (saIA b))) in E. destruct a, b; simpl in *; by subst.
Qed.

Lemma FromRaw_Pack a :
  ia_valid (saIA a) → length (saIP a) = 4%nat ∨ length (saIP a) = 16%nat →
  SCIONAddressFromRaw (SCIONAddress_Pack a) = Ok a.
Proof.
  intros Hv H. unfold SCIONAddressFromRaw, SCIONAddress_Pack. rewrite length_app.
  pose proof (IA_Write_length (saIA a)) as L. unfold IABytes in *.
  assert (∀ n, (Z.of_nat (length (IA_Write (saIA a)) + length (saIP a)) =? 8 + n) = (Z.of_nat (length (saIP a)) =? n)) as ->.
  { intros n. apply eq_bool_prop_intro. rewrite !Is_true_true, !Z.eqb_eq. lia. }
  assert (∀ n, (Z.of_nat (length (IA_Write (saIA a)) + length (saIP a)) =? 8 + n) = (Z.of_nat (length (saIP a)) =? n)) as ->.
  { intros n. apply eq_bool_prop_intro. rewrite !Is_true_true, !Z.eqb_eq. lia. }
  rewrite IAFromRaw_Write by done. replace (Z.to_nat 8) with (length (IA_Write (saIA a))) by lia.
  rewrite drop_app_length. destruct H as [-> | ->]; by destruct a.
Qed.

Lemma wf_same_shape x y :
  object_wf x → object_wf y → objType x = objType y → value_shape (objValue x) = value_shape (objValue y).
Proof.
  intros [Hx Sx] [Hy Sy] E. destruct x as [t v], y as [t' v']. simpl in *. subst t'.
  destruct v, v'; simpl in *; unfold is_key_type, is_string_type in *; try done;
    exfalso; repeat match goal with H : _ ∨ _ |- _ => destruct H end; subst; discriminate.
Qed.

Lemma ObjName_CompareTo_on : CmpEqOn any ObjName_CompareTo.
Proof.
  assert (∀ n : ObjName, any n → Forall any (onTypes n)) as F by (intros; by apply Forall_true).
  split.
  - apply CmpOn_lex; [by apply (CmpOn_by _ any onName str_cmp); [apply _|]|].
    apply (CmpOn_by _ (Forall any) onTypes (list_cmp int_cmp)); [apply _|done].
  - intros [n ts] [n' ts'] _ _ E. apply lex_then_zero in E as [E1 E2]. simpl in *.
    apply cmp_zero in E1; [|done..].
    apply (cmp_zero (P:=Forall any) (cmp:=list_cmp int_cmp)) in E2; [|by apply Forall_true..]. by subst.
Qed.

Lemma Certificate_CompareTo_on : CmpEqOn any Certificate_CompareTo.
Proof.
  split.
  - unfold Certificate_CompareTo. solve_cmp_on.
  - intros [] [] _ _ E. unfold Certificate_CompareTo in E. split_lex. simpl in *.
    fields_equal. by subst.
Qed.

Lemma ServiceInfo_CompareTo_on : CmpEqOn any ServiceInfo_CompareTo.
Proof.
  split.
  - unfold ServiceInfo_CompareTo. solve_cmp_on.
  - intros [] [] _ _ E. unfold ServiceInfo_CompareTo in E. split_lex. simpl in *.
    fields_equal. by subst.
Qed.

#[local] Existing Instances ObjName_CompareTo_on Certificate_CompareTo_on ServiceInfo_CompareTo_on.

#[export] Instance Object_CompareTo_on : CmpEqOn object_wf Object_CompareTo.
Proof.
  assert (∀ x y, object_wf x → object_wf y → int_cmp (objType x) (objType y) = 0 →
    value_shape (objValue x) = value_shape (objValue y)) as Sh.
  { intros x y Hx Hy E%cmp_zero; [|done..]. by apply wf_same_shape. }
  split.
  - apply CmpOn_lex_dep; [by apply (CmpOn_by _ any objType int_cmp); [apply _|]|..].
    + intros x y Hx Hy E. pose proof (Sh x y Hx Hy E) as S. destruct Hx as [_ Hx], Hy as [_ Hy].
      destruct (objValue x), (objValue y); try discriminate S; simpl in *; [by apply cmp_sign..|done].
    + intros x y Hx Hy E. pose proof (Sh x y Hx Hy E) as S. destruct Hx as [_ Hx], Hy as [_ Hy].
      destruct (objValue x), (objValue y); try discriminate S; simpl in *; [by apply cmp_anti..|done].
    + intros x y z Hx Hy Hz E E'. pose proof (Sh x y Hx Hy E) as S. pose proof (Sh y z Hy Hz E') as S'.
      destruct Hx as [_ Hx], Hy as [_ Hy], Hz as [_ Hz].
      destruct (objValue x), (objValue y); try discriminate S;
        destruct (objValue z); try discriminate S'; simpl in *; first [done|by apply cmp_trans].
  - intros x y Hx Hy E. apply lex_then_zero in E as [E1 E2].
    pose proof (Sh x y Hx Hy E1) as S. apply cmp_zero in E1; [|done..].
    destruct Hx as [_ Hx], Hy as [_ Hy]. destruct x as [t v], y as [t' v']; simpl in *. subst t'. f_equal.
    destruct v, v'; try discriminate S; simpl in *; f_equal; try (by apply cmp_zero in E2); try done.
    apply cmp_zero in E2; [|done..]. by apply Pack_inj.
Qed.

Lemma traverse_ints ts msg : traverse (λ ot, or_err (as_int ot) msg) (CInt <$> ts) = Ok ts.
Proof. rewrite <-(map_id ts) at 2. apply (traverse_map _ CInt (λ x, x)). by apply Forall_true. Qed.

Lemma roundtrip_value o :
  value_typed (objType o) (objValue o) → value_encodable (objValue o) →
  ∃ l, Object_MarshalArray o = Ok l ∧ Object_UnmarshalArray l = Ok (canon o).
Proof.
  destruct o as [t v]. unfold Object_MarshalArray, Object_UnmarshalArray, canon. simpl.
  destruct v as [[n ts]|s|ip|a|k|s|c|[n p pr]|c]; simpl; intros Ht He.
  - subst t. eexists; split; [done|]. simpl. unfold read_value, read_name; simpl.
    by rewrite traverse_ints.
  - destruct Ht as [->|[->| ->]]; simpl; rewrite ?write_any_string; by eexists.
  - destruct Ht as [-> | ->]; by eexists.
  - subst t. eexists; split; [done|]. simpl. unfold read_value, read_scion; simpl. destruct He. by rewrite FromRaw_Pack.
  - destruct He as (Ha & b & Hb). unfold pubkeyToCBORBytes, canon_key.
    destruct Ht as [->|[->|[->| ->]]]; simpl; rewrite Ha, Hb; simpl; eexists; split; done.
  - subst t. by eexists.
  - subst t. destruct c. by eexists.
  - subst t. destruct He as [Hp [Hq Hq']]. eexists; split; [done|]. simpl. unfold read_value, read_srv; simpl.
    rewrite uint16_wrap_id, uint64_wrap_id; [done|unfold in_uint64, MaxInt64 in *; lia|done].
  - done.
Qed.

Lemma canon_typed o : value_typed (objType o) (objValue o) → value_typed (objType (canon o)) (objValue (canon o)).
Proof. destruct o as [t v]. by destruct v. Qed.

Lemma canon_idem o : canon (canon o) = canon o.
Proof.
  destruct o as [t v]. unfold canon. destruct v as [| | | |[[a ks kp] vs vu key]| | | |]; simpl; try done.
  unfold canon_key. simpl. by destruct (t =? OTExtraKey), (t =? OTNextKey).
Qed.

Lemma read_value_typed t inp v : read_value t inp = Ok v → value_typed t v.
Proof.
  unfold read_value. repeat (match goal with |- context [?a =? ?b] => destruct (Z.eqb_spec a b) as [->|] end);
    try (unfold read_name, read_ip, read_scion, read_deleg, read_cert, read_srv, read_infra, read_extra, read_next;
         intros H; simplify_outcome; try (case_match; simplify_eq); simpl; unfold is_key_type, is_string_type; tauto).
  intros H. simplify_outcome. destruct a; simpl; unfold is_string_type; tauto.
Qed.

(** The number of array elements read for a type. *)
Definition arity (t : OType) : nat :=
  if bool_decide (t = OTName) then 3
  else if bool_decide (t = OTDelegation ∨ t = OTInfraKey ∨ t = OTExtraKey ∨ t = OTServiceInfo) then 4
  else if bool_decide (t = OTCertInfo) then 5
  else if bool_decide (t = OTNextKey) then 6
  else 2.

Lemma at_index_ok {A} (l : list A) i : 0 ≤ i < Z.of_nat (length l) → ∃ x, at_index l i = Ok x.
Proof.
  intros H. unfold at_index. rewrite decide_True by lia.
  destruct (lookup_lt_is_Some_2 l (Z.to_nat i)) as [x ->]; [lia|]. by eexists.
Qed.

Definition np {A} (m : outcome A) : Prop := is_panic m = false.
Lemma np_bind {A B} (m : outcome A) (f : A → outcome B) : np m → (∀ a, m = Ok a → np (f a)) → np (m ≫= f).
Proof. destruct m; unfold np; simpl; auto. Qed.
Lemma np_or_err {A} (o : option A) msg : np (or_err o msg).
Proof. by destruct o. Qed.
Lemma np_at {A} (l : list A) i : 0 ≤ i < Z.of_nat (length l) → np (at_index l i).
Proof. intros [x ->]%at_index_ok. done. Qed.
Lemma np_traverse {A B} (f : A → outcome B) l : (∀ x, np (f x)) → np (traverse f l).
Proof.
  intros H. induction l; simpl; [done|]. apply np_bind; [done|]. intros. apply np_bind; [done|]. done.
Qed.
Lemma np_key inp alg msg : 4 ≤ Z.of_nat (length inp) → np (arg_key inp alg msg).
Proof.
  intros. unfold arg_key, arg_bytes. destruct (_ =? _); [|done].
  apply np_bind; [apply np_at; lia|]. intros. apply np_or_err.
Qed.

Ltac solve_np :=
  repeat first [ apply np_bind; [|intros ? _] | apply np_or_err | apply np_key; lia | apply np_traverse; intros ?
               | apply np_at; lia | done ].

Lemma read_value_no_panic t inp : (arity t ≤ length inp)%nat → np (read_value t inp).
Proof.
  unfold read_value. intros H. revert H.
  repeat (match goal with |- context [?a =? ?b] => destruct (Z.eqb_spec a b) as [->|] end); try (intros _; done);
    match goal with |- context [arity ?t] => let n := eval vm_compute in (arity t) in change (arity t) with n end;
    intros H;
    unfold read_name, read_ip, read_scion, read_deleg, read_cert, read_srv, read_infra, read_extra, read_next,
      arg_int, arg_str, arg_bytes, arg_arr; solve_np.
  all: try (destruct (SCIONAddressFromRaw _); done).
Qed.

(** ** Theorems *)

(** Every object that fits its type and the encoding's fields is written without
    error, and reading the written array gives the object back, up to the key fields the
    encoding does not carry (which the round trip resets once and for all). *)
Theorem Object_roundtrip o :
  value_typed (objType o) (objValue o) → value_encodable (objValue o) →
  ∃ l, Object_MarshalArray o = Ok l ∧ Object_UnmarshalArray l = Ok (canon o) ∧ canon (canon o) = canon o.
Proof.
  intros Ht He. destruct (roundtrip_value o Ht He) as (l & H1 & H2). eauto using canon_idem.
Qed.


(** On well-typed objects [Object.CompareTo] is a total order that identifies only
    equal objects, so the slice [sort.Slice] produces with it is unique: every sorted
    permutation of the objects is the same slice. *)
Theorem Object_sort_canonical l k :
  Forall object_wf l → k ≡ₚ l → StronglySorted (λ x y, Object_CompareTo x y ≤ 0) k →
  k = sort_slice (λ x y, Object_CompareTo x y <? 0) l ∧
  (∀ x y, x ∈ l → y ∈ l → Object_CompareTo x y = 0 ↔ x = y).
Proof.
  intros Hl Hk Hs. split; [by eapply (sort_slice_unique object_wf Object_CompareTo)|].
  rewrite Forall_forall in Hl. intros x y Hx%Hl Hy%Hl. split; [by apply cmp_zero|].
  intros ->. pose proof (cmp_anti (cmp:=Object_CompareTo) y y Hy Hy). lia.
Qed.
End ObjectFacts.

(** The command-line name of every type parses back to that type, the names are
    pairwise different, [any] stands for all types, and every other string is refused. *)
Theorem ParseTypes_CLIString :
  (∀ t, t ∈ AllTypes → ParseTypes (CLIString t) = Ok [t]) ∧
  NoDup (CLIString <$> AllTypes) ∧
  ParseTypes "any" = Ok AllTypes ∧
  (∀ s, s ≠ "any" → s ∉ (CLIString <$> AllTypes) → is_err (ParseTypes s) = true).
Proof.
  split_and!.
  - intros t Ht. unfold AllTypes in Ht. repeat (apply elem_of_cons in Ht as [->|Ht]; [reflexivity|]).
    by apply elem_of_nil in Ht.
  - apply (bool_decide_unpack _). vm_compute. done.
  - done.
  - intros s Ha Hn. unfold ParseTypes.
    repeat (match goal with |- context [s =ₛ ?n] => destruct (String.eqb_spec s n) as [->|] end; [exfalso; apply Hn; vm_compute; repeat constructor || set_solver |]); try done.
Qed.

(** A concrete SCION library for the witnesses: the ISD in two and the AS in six bytes,
    most significant byte first. *)
Definition be_bytes (n : nat) (z : Z) : list Z := (λ i, (z / 256 ^ Z.of_nat i) mod 256) <$> reverse (seq 0 n).
Definition be_value (b : list Z) : Z := foldl (λ acc z, acc * 256 + z) 0 b.

Definition be_objlib : ObjLib := {|
  IA_Write ia := be_bytes 2 (iaI ia) ++ be_bytes 6 (iaA ia);
  IAFromRaw b := mkIA (be_value (take 2 b)) (be_value (take 6 (drop 2 b)));
  write_any v := match v with VString s => Ok (CStr s) | VOther c => Ok c | _ => Err "unsupported" end
|}.

Lemma be_objlib_laws : @ObjLibLaws be_objlib.
Proof.
  split.
  - done.
  - intros [i a] rest [Hi Ha]. unfold in_uint16 in Hi. simpl in *. unfold be_value. simpl. f_equal.
    + change (256 ^ Z.of_nat 1) with 256. change (256 ^ Z.of_nat 0) with 1. rewrite Z.div_1_r.
      rewrite (Z.mod_small (i / 256)) by (split; [apply Z.div_pos; lia|apply Z.div_lt_upper_bound; lia]).
      pose proof (Z.div_mod i 256). lia.
    + change (256 ^ Z.of_nat 0) with 1. rewrite Z.div_1_r.
      change (Z.of_nat 5) with 5. change (Z.of_nat 4) with 4. change (Z.of_nat 3) with 3.
      change (Z.of_nat 2) with 2. change (Z.of_nat 1) with 1.
      assert (∀ k, 0 ≤ k → a / 256 ^ (k + 1) = a / 256 ^ k / 256) as D.
      { intros k Hk. rewrite Z.pow_add_r, Z.pow_1_r by lia. rewrite Z.div_div; [done|lia|lia]. }
      pose proof (D 0) as D0. pose proof (D 1) as D1. pose proof (D 2) as D2. pose proof (D 3) as D3. pose proof (D 4) as D4.
      change (256 ^ 0) with 1 in D0. rewrite Z.div_1_r in D0. simpl (_ + 1) in *.
      change (0 + 1) with 1 in D0. change (1 + 1) with 2 in D1. change (2 + 1) with 3 in D2.
      change (3 + 1) with 4 in D3. change (4 + 1) with 5 in D4.
      rewrite (Z.mod_small (a / 256 ^ 5)).
      2: { split; [apply Z.div_pos; lia|]. apply Z.div_lt_upper_bound; [lia|].
           change (256 ^ 5 * 256) with (2 ^ 48). lia. }
      pose proof (Z.div_mod a 256). pose proof (Z.div_mod (a / 256 ^ 1) 256). pose proof (Z.div_mod (a / 256 ^ 2) 256).
      pose proof (Z.div_mod (a / 256 ^ 3) 256). pose proof (Z.div_mod (a / 256 ^ 4) 256). lia.
  - done.
Qed.

Lemma Object_roundtrip_witness :
  let o := mkObject OTScionAddr (VScion (mkSCIONAddress (mkIA 17 42) [10; 0; 0; 1])) in
  ∃ l, @Object_MarshalArray be_objlib o = Ok l ∧ @Object_UnmarshalArray be_objlib l = Ok (canon o) ∧
       canon (canon o) = canon o.
Proof.
  apply (@Object_roundtrip be_objlib be_objlib_laws); [reflexivity|].
  split; [vm_compute; repeat split; congruence|by left].
Defined.

Lemma Object_sort_canonical_witness :
  let a := mkObject OTIP4Addr (VIP [10; 0; 0; 1]) in
  let b := mkObject OTName (VName (mkObjName "x" [OTIP4Addr])) in
  [b; a] = sort_slice (λ x y, @Object_CompareTo be_objlib x y <? 0) [a; b].
Proof.
  apply (@Object_sort_canonical be_objlib be_objlib_laws).
  - constructor; [split; [right; reflexivity|exact I]|]. constructor; [split; [reflexivity|exact I]|constructor].
  - apply perm_swap.
  - repeat constructor; vm_compute; congruence.
Defined.


Lemma ParseTypes_CLIString_witness :
  ParseTypes (CLIString OTNextKey) = Ok [OTNextKey] ∧ is_err (ParseTypes "mx") = true.
Proof.
  split.
  - apply (proj1 ParseTypes_CLIString). apply (bool_decide_unpack _). vm_compute. exact I.
  - apply (proj2 (proj2 (proj2 ParseTypes_CLIString))); [discriminate|].
    apply (bool_decide_unpack _). vm_compute. exact I.
Defined.
