(* ===== verification/Query.v ===== *)
(** * Queries

    Models attic/internal/pkg/query/query.go: the query section, its CBOR encoding and
    its order. *)

From S2P Require Import Prelude Cbor Object.
Local Open Scope Z_scope.

(** [type Option int] *)
Definition QOMinE2ELatency : Z := 1.
Definition QOMinLastHopAnswerSize : Z := 2.
Definition QOMinInfoLeakage : Z := 3.
Definition QOCachedAnswersOnly : Z := 4.
Definition QOExpiredAssertionsOk : Z := 5.
Definition QOTokenTracing : Z := 6.
Definition QONoVerificationDelegation : Z := 7.
Definition QONoProactiveCaching : Z := 8.
Definition QOMaxFreshness : Z := 9.

(** [query.Name] *)
Record QueryName := mkQueryName {
  qContext : string;
  qName : string;
  qTypes : list Z;
  qExpiration : Z;
  qOptions : list Z;
  qKeyPhase : Z;
  qCurrentTime : Z
}.

#[export] Instance QueryName_eq_dec : EqDecision QueryName.
Proof. solve_decision. Defined.

(** [if v, ok := m[k].(T); ok { ... } else { return errors.New(msg) }] *)
Definition field {A} (as_T : cval → option A) (m : list (Z * cval)) (k : Z) (msg : string) : outcome A :=
  or_err (imap_get m k ≫= as_T) msg.

Definition Query_UnmarshalMap (m : list (Z * cval)) : outcome QueryName :=
  ctx ← field as_str m 6 "cbor query map does not contain a context name";
  name ← field as_str m 8 "cbor query map does not contain a fqdn name";
  types ← field as_arr m 10 "cbor query map does not contain a types array";
  types' ← traverse (λ qt, or_err (as_int qt) "cbor query encoding of a type array's element should be an int") types;
  exp ← field as_int m 12 "cbor query map does not contain an expiration";
  opts ← field as_arr m 13 "cbor query map does not contain a query options array";
  opts' ← traverse (λ o, or_err (as_int o) "cbor query encoding of a option array's element should be an int") opts;
  ct ← field as_int m 14 "cbor query map does not contain the current time";
  kp ← field as_int m 17 "cbor query encoding of the key phase should be an int";
  Ok (mkQueryName ctx name types' exp opts' kp ct).

Definition Query_MarshalMap (q : QueryName) : list (Z * cval) :=
  let m := imap_set [] 6 (CStr (qContext q)) in
  let m := imap_set m 8 (CStr (qName q)) in
  let m := imap_set m 10 (CArr (CInt <$> qTypes q)) in
  let m := imap_set m 12 (CInt (qExpiration q)) in
  let m := imap_set m 13 (CArr (CInt <$> qOptions q)) in
  let m := imap_set m 14 (CInt (qCurrentTime q)) in
  imap_set m 17 (CInt (qKeyPhase q)).

Definition Query_GetContext (q : QueryName) : string := qContext q.
Definition Query_GetExpiration (q : QueryName) : Z := qExpiration q.

Fixpoint containsOption (option : Z) (options : list Z) : bool :=
  match options with
  | [] => false
  | opt :: options' => if opt =? option then true else containsOption option options'
  end.

Definition Query_ContainsOption (q : QueryName) (option : Z) : bool := containsOption option (qOptions q).

Definition Query_Sort (q : QueryName) : QueryName :=
  mkQueryName (qContext q) (qName q) (qTypes q) (qExpiration q) (sort_slice Z.ltb (qOptions q)) (qKeyPhase q) (qCurrentTime q).

Definition Query_CompareTo (q query : QueryName) : Z :=
  str_cmp (qContext q) (qContext query) <?>
  str_cmp (qName q) (qName query) <?>
  len_cmp (qTypes q) (qTypes query) <?>
  elems_cmp int_cmp (qTypes q) (qTypes query) <?>
  int_cmp (qExpiration q) (qExpiration query) <?>
  len_cmp (qOptions q) (qOptions query) <?>
  elems_cmp int_cmp (qOptions q) (qOptions query) <?>
  int_cmp (qCurrentTime q) (qCurrentTime query) <?>
  int_cmp (qKeyPhase q) (qKeyPhase query).

(** ** Lemmas *)

Lemma containsOption_spec o os : containsOption o os = true ↔ o ∈ os.
Proof.
  induction os as [|x os IH]; simpl; [by rewrite elem_of_nil|]. rewrite elem_of_cons.
  destruct (Z.eqb_spec x o); naive_solver.
Qed.

Lemma Query_roundtrip q : Query_UnmarshalMap (Query_MarshalMap q) = Ok q.
Proof.
  destruct q. unfold Query_UnmarshalMap, Query_MarshalMap, field. simpl. by rewrite !traverse_ints.
Qed.

Lemma lex_then_assoc a b c : (a <?> b) <?> c = a <?> b <?> c.
Proof. unfold lex_then. destruct (Z.eqb_spec a 0); [done|]. by rewrite (proj2 (Z.eqb_neq a 0)). Qed.

(** The chain written with [list_cmp] for the two slices. *)
Lemma Query_CompareTo_lists q r :
  Query_CompareTo q r =
    str_cmp (qContext q) (qContext r) <?> str_cmp (qName q) (qName r) <?>
    list_cmp int_cmp (qTypes q) (qTypes r) <?> int_cmp (qExpiration q) (qExpiration r) <?>
    list_cmp int_cmp (qOptions q) (qOptions r) <?> int_cmp (qCurrentTime q) (qCurrentTime r) <?>
    int_cmp (qKeyPhase q) (qKeyPhase r).
Proof. unfold Query_CompareTo, list_cmp. by rewrite !lex_then_assoc. Qed.

Lemma any_Forall {A} (l : list A) : Forall any l.
Proof. by apply Forall_true. Qed.
#[export] Hint Resolve any_Forall : rains core.

#[export] Instance Query_CompareTo_on : CmpEqOn any Query_CompareTo.
Proof.
  split.
  - eapply CmpOn_ext; [intros; apply Query_CompareTo_lists|].
    repeat (apply CmpOn_lex; [first [by solve_cmp_on|apply (CmpOn_by _ (Forall any) _ (list_cmp int_cmp)); [apply _|auto]]|]).
    by solve_cmp_on.
  - intros [] [] _ _. rewrite Query_CompareTo_lists. intros H. split_lex. simpl in *. fields_equal.
    repeat match goal with
    | H : list_cmp int_cmp _ _ = 0 |- _ => apply (cmp_zero (P:=Forall any)) in H; [|done..]
    end. by subst.
Qed.
