(* ===== verification/BloomFilter.v ===== *)
(** * Bloom filters

    Models attic/internal/pkg/section/bloomfilter.go on top of [BitArray].  The hash
    functions (SHAKE256, FNV) are parameters ([BloomLib]).  The theorems: an addition
    succeeds on every non-empty filter with a supported hash, after it the filter
    contains the added entry and everything it contained before (no false negatives),
    and [CompareTo] orders filters of one length but is not antisymmetric across
    lengths. *)

From S2P Require Import Prelude Cbor Keys BitArray.
Local Open Scope Z_scope.

(** [type BloomFilterAlgo int] *)
Definition BloomKM12 : Z := 1.
Definition BloomKM16 : Z := 2.
Definition BloomKM20 : Z := 3.
Definition BloomKM24 : Z := 4.

Definition NumberOfHashes (b : Z) : Z :=
  if b =? BloomKM12 then 12
  else if b =? BloomKM16 then 16
  else if b =? BloomKM20 then 20
  else if b =? BloomKM24 then 24
  else -1.

Record BloomFilter := mkBloomFilter { bfAlgorithm : Z; bfHash : HashAlgo; bfFilter : BitArray }.

#[export] Instance BloomFilter_eq_dec : EqDecision BloomFilter.
Proof. solve_decision. Defined.

(** The hash functions: [sha3.ShakeSum256] filling 64 bytes, [fnv.New64] and the 16
    bytes of [fnv.New128]. *)
Class BloomLib := {
  ShakeSum256 : list Z → list Z;
  fnv_Sum64 : list Z → Z;
  fnv_Sum128 : list Z → list Z
}.

(** [binary.BigEndian.Uint64]: the first eight bytes, most significant first. *)
Definition BigEndian_Uint64 (b : list Z) : Z := foldl (λ acc z, acc * 256 + z) 0 (take 8 b).

Section Bloom.
Context {BL : BloomLib} {CW : CborWriter}.

Definition encoding (name zone context : string) (t : Z) : list Z :=
  cbor_array [Ok (CStr name); Ok (CStr zone); Ok (CStr context); Ok (CInt t)].

(** [uint64(int(val))] is the identity where [int] has 64 bits. *)
Definition calcHash (hashType : HashAlgo) (enc : list Z) : outcome (Z * Z) :=
  if hashType =? Shake256 then
    let val := BigEndian_Uint64 (ShakeSum256 enc) in
    Ok (uint64_wrap (int64_wrap val), uint64_wrap (int64_wrap (Z.shiftr val 32)))
  else if hashType =? Fnv64 then
    let val := fnv_Sum64 enc in
    Ok (uint64_wrap (int64_wrap val), uint64_wrap (int64_wrap (Z.shiftr val 32)))
  else if hashType =? Fnv128 then
    let val := fnv_Sum128 enc in
    Ok (BigEndian_Uint64 (take 8 val), BigEndian_Uint64 (take 8 (drop 8 val)))
  else Err "Unsupported hash algorithm type for bloom filter".

(** [int((hash1 + uint64(i)*hash2) % uint64(8*len(b.Filter)))] *)
Definition bit_pos (hash1 hash2 : Z) (filter : BitArray) (i : Z) : outcome Z :=
  let m := uint64_wrap (int64_wrap (8 * Z.of_nat (length filter))) in
  if m =? 0 then Panic "integer divide by zero"
  else Ok (int64_wrap (uint64_wrap (hash1 + uint64_wrap (i * hash2)) mod m)).

Fixpoint contains_loop (filter : BitArray) (hash1 hash2 : Z) (idx : list Z) : outcome bool :=
  match idx with
  | [] => Ok true
  | i :: idx' =>
      p ← bit_pos hash1 hash2 filter i;
      val ← GetBit filter p;
      if (val : bool) then contains_loop filter hash1 hash2 idx' else Ok false
  end.

Definition BloomFilter_Contains (b : BloomFilter) (name zone context : string) (t : Z) : outcome bool :=
  '(hash1, hash2) ← calcHash (bfHash b) (encoding name zone context t);
  contains_loop (bfFilter b) hash1 hash2 (seqZ 1 (NumberOfHashes (bfAlgorithm b))).

Fixpoint add_loop (filter : BitArray) (hash1 hash2 : Z) (idx : list Z) : outcome BitArray :=
  match idx with
  | [] => Ok filter
  | i :: idx' =>
      p ← bit_pos hash1 hash2 filter i;
      filter' ← SetBit filter p;
      add_loop filter' hash1 hash2 idx'
  end.

(** The receiver is a copy that shares the filter's bytes. *)
Definition BloomFilter_Add (b : BloomFilter) (name zone context : string) (t : Z) : outcome BloomFilter :=
  '(hash1, hash2) ← calcHash (bfHash b) (encoding name zone context t);
  f ← add_loop (bfFilter b) hash1 hash2 (seqZ 1 (NumberOfHashes (bfAlgorithm b)));
  Ok (mkBloomFilter (bfAlgorithm b) (bfHash b) f).
End Bloom.

Definition BloomFilter_UnmarshalArray (inp : list cval) : outcome BloomFilter :=
  match inp with
  | [i0; i1; i2] =>
      algo ← or_err (as_int i0) "cbor encoding of the algorithm should be an int";
      hash ← or_err (as_int i1) "cbor encoding of the hash should be an int";
      filter ← or_err (as_bytes i2) "cbor encoding of the filter should be an byte array";
      Ok (mkBloomFilter algo hash filter)
  | _ => Err ("cbor array encoding of bloom filter idx not of length 3. actual=" +:+ dec (Z.of_nat (length inp)))
  end.

Definition BloomFilter_MarshalArray (b : BloomFilter) : list cval :=
  [CInt (bfAlgorithm b); CInt (bfHash b); CBytes (bfFilter b)].

(** The second length test repeats the first one, so it never holds. *)
Definition BloomFilter_CompareTo (b bloomFilter : BloomFilter) : Z :=
  int_cmp (bfAlgorithm b) (bfAlgorithm bloomFilter) <?>
  int_cmp (bfHash b) (bfHash bloomFilter) <?>
  (if Z.of_nat (length (bfFilter b)) <? Z.of_nat (length (bfFilter bloomFilter)) then -1
   else if Z.of_nat (length (bfFilter b)) <? Z.of_nat (length (bfFilter bloomFilter)) then 1
   else bytes_cmp (bfFilter b) (bfFilter bloomFilter)).

(** Filters of at least one byte whose bit count is an [int]. *)
Definition filter_ok (f : BitArray) : Prop := f ≠ [] ∧ Z.of_nat (length f) < 2 ^ 60.
Definition hash_supported (h : HashAlgo) : Prop := h = Shake256 ∨ h = Fnv64 ∨ h = Fnv128.

(** ** Lemmas *)

Lemma BloomFilter_roundtrip b : BloomFilter_UnmarshalArray (BloomFilter_MarshalArray b) = Ok b.
Proof. by destruct b. Qed.

Section BloomFacts.
Context {BL : BloomLib} {CW : CborWriter}.

Lemma bit_pos_ok h1 h2 f i :
  filter_ok f → ∃ p, bit_pos h1 h2 f i = Ok p ∧ 0 ≤ p < nbits f.
Proof.
  intros [Hne Hl]. unfold bit_pos, nbits.
  assert (0 < Z.of_nat (length f)) by (destruct f; [done|simpl; lia]).
  rewrite int64_wrap_id, uint64_wrap_id by (unfold in_int64, in_uint64; lia).
  destruct (Z.eqb_spec (8 * Z.of_nat (length f)) 0); [lia|]. eexists; split; [done|].
  pose proof (Z.mod_pos_bound (uint64_wrap (h1 + uint64_wrap (i * h2))) (8 * Z.of_nat (length f))).
  rewrite int64_wrap_id by (unfold in_int64; lia). lia.
Qed.

Lemma bit_pos_length h1 h2 f f' i : length f = length f' → bit_pos h1 h2 f i = bit_pos h1 h2 f' i.
Proof. unfold bit_pos. by intros ->. Qed.

Lemma calcHash_ok h enc : hash_supported h → ∃ r, calcHash h enc = Ok r.
Proof. intros [->|[->| ->]]; by eexists. Qed.

(** A filter [f'] above [f]: same length and every bit of [f]. *)
Definition above (f f' : BitArray) : Prop :=
  length f' = length f ∧ ∀ j, 0 ≤ j < nbits f → BitArray_spec f j → BitArray_spec f' j.

Lemma above_refl f : above f f.
Proof. done. Qed.
Lemma above_trans f g h : above f g → above g h → above f h.
Proof.
  intros [L1 A1] [L2 A2]. split; [congruence|]. intros j Hj Hf. apply A2; [|by apply A1].
  unfold nbits in *. by rewrite L1.
Qed.
Lemma above_ok f f' : above f f' → filter_ok f → filter_ok f'.
Proof. intros [L _] [Hne Hl]. split; [|by rewrite L]. intros ->. by destruct f. Qed.

(** All the bits tested for one entry are set. *)
Definition all_set (f : BitArray) (h1 h2 : Z) (idx : list Z) : Prop :=
  ∀ i p, i ∈ idx → bit_pos h1 h2 f i = Ok p → BitArray_spec f p.

Lemma all_set_above f f' h1 h2 idx : filter_ok f → above f f' → all_set f h1 h2 idx → all_set f' h1 h2 idx.
Proof.
  intros Hf [L A] H i p Hi Hp. rewrite (bit_pos_length _ _ _ f) in Hp by done.
  destruct (bit_pos_ok h1 h2 f i Hf) as (q & Hq & Hr). assert (p = q) as -> by congruence.
  apply A; [done|]. by eapply H.
Qed.

Lemma contains_loop_spec f h1 h2 idx :
  filter_ok f → ∃ v, contains_loop f h1 h2 idx = Ok v ∧ (v = true ↔ all_set f h1 h2 idx).
Proof.
  intros Hf. induction idx as [|i idx IH]; simpl.
  - eexists; split; [done|]. split; [|done]. intros _ i p Hi. by apply elem_of_nil in Hi.
  - destruct (bit_pos_ok h1 h2 f i Hf) as (p & Hp & Hr). rewrite Hp. simpl.
    destruct (GetBit_spec f p Hr) as (v & -> & Hv). simpl. destruct v.
    + destruct IH as (w & -> & Hw). eexists; split; [done|]. rewrite Hw. split.
      * intros H j q [->|Hj]%elem_of_cons Hq; [|by eapply H].
        assert (p = q) as <- by congruence. by apply Hv.
      * intros H j q Hj. apply H. by right.
    + eexists; split; [done|]. split; [done|]. intros H. apply Hv. apply (H i p); [by left|done].
Qed.

Lemma add_loop_spec f h1 h2 idx :
  filter_ok f → ∃ f', add_loop f h1 h2 idx = Ok f' ∧ above f f' ∧ all_set f' h1 h2 idx.
Proof.
  revert f. induction idx as [|i idx IH]; intros f Hf; simpl.
  - eexists; split; [done|]. split; [apply above_refl|]. intros i p Hi. by apply elem_of_nil in Hi.
  - destruct (bit_pos_ok h1 h2 f i Hf) as (p & Hp & Hr). rewrite Hp. simpl.
    destruct (SetBit_spec f p Hr) as (g & -> & Lg & Hg). simpl.
    assert (above f g) as Afg.
    { split; [done|]. intros j Hj Hs. apply Hg; auto. }
    destruct (IH g) as (f' & -> & Agf & Hall); [by eapply above_ok|].
    eexists; split; [done|]. split; [by eapply above_trans|].
    intros j q [->|Hj]%elem_of_cons Hq; [|by eapply Hall].
    destruct (above_trans _ _ _ Afg Agf) as [L _].
    rewrite (bit_pos_length _ _ _ f) in Hq by done. assert (p = q) as <- by congruence.
    destruct Agf as [_ A]. unfold nbits in *. rewrite Lg in A. apply A; [done|]. apply Hg; auto.
Qed.

(** One addition succeeds, is reported, and leaves everything reported before reported. *)
Lemma BloomFilter_Add_Contains b name zone context t :
  filter_ok (bfFilter b) → hash_supported (bfHash b) →
  ∃ b', BloomFilter_Add b name zone context t = Ok b' ∧
        BloomFilter_Contains b' name zone context t = Ok true ∧
        (∀ name' zone' context' t',
           BloomFilter_Contains b name' zone' context' t' = Ok true →
           BloomFilter_Contains b' name' zone' context' t' = Ok true) ∧
        filter_ok (bfFilter b') ∧ bfAlgorithm b' = bfAlgorithm b ∧ bfHash b' = bfHash b.
Proof.
  intros Hf Hh. unfold BloomFilter_Add, BloomFilter_Contains.
  destruct (calcHash_ok _ (encoding name zone context t) Hh) as [[h1 h2] Hc]. rewrite Hc. simpl.
  destruct (add_loop_spec (bfFilter b) h1 h2 (seqZ 1 (NumberOfHashes (bfAlgorithm b))) Hf)
    as (f' & -> & Hab & Hall). simpl.
  assert (filter_ok f') as Hf' by (by eapply above_ok).
  eexists; split; [done|]. simpl. rewrite Hc. simpl. split_and!; try done.
  - destruct (contains_loop_spec f' h1 h2 (seqZ 1 (NumberOfHashes (bfAlgorithm b))) Hf') as (v & -> & Hv).
    f_equal. by apply Hv.
  - intros n z c t'. destruct (calcHash_ok _ (encoding n z c t') Hh) as [[g1 g2] ->]. simpl.
    destruct (contains_loop_spec (bfFilter b) g1 g2 (seqZ 1 (NumberOfHashes (bfAlgorithm b))) Hf) as (v & -> & Hv).
    destruct (contains_loop_spec f' g1 g2 (seqZ 1 (NumberOfHashes (bfAlgorithm b))) Hf') as (w & -> & Hw).
    intros [= ->]. f_equal. apply Hw. apply (all_set_above (bfFilter b)); [done|done|]. by apply Hv.
Qed.

(** Additions in sequence, as [Pshard.AddAssertion] makes them; an entry is the name, zone,
    context and type. *)
Fixpoint add_entries (b : BloomFilter) (es : list (string * string * string * Z)) : outcome BloomFilter :=
  match es with
  | [] => Ok b
  | (name, zone, context, t) :: es' =>
      b' ← BloomFilter_Add b name zone context t; add_entries b' es'
  end.

(** Adding any sequence of entries to a non-empty filter with a supported hash always
    succeeds; the resulting filter reports every entry added and every entry the filter
    reported before, so a Bloom filter never denies something that was added. *)
Theorem BloomFilter_no_false_negative b es :
  filter_ok (bfFilter b) → hash_supported (bfHash b) →
  ∃ b', add_entries b es = Ok b' ∧
        (∀ name zone context t, (name, zone, context, t) ∈ es →
           BloomFilter_Contains b' name zone context t = Ok true) ∧
        (∀ name zone context t, BloomFilter_Contains b name zone context t = Ok true →
           BloomFilter_Contains b' name zone context t = Ok true) ∧
        bfAlgorithm b' = bfAlgorithm b ∧ bfHash b' = bfHash b ∧ filter_ok (bfFilter b').
Proof.
  revert b. induction es as [|[[[n z] c] t] es IH]; intros b Hf Hh; simpl.
  { exists b. split_and!; try done. intros * H. by apply elem_of_nil in H. }
  destruct (BloomFilter_Add_Contains b n z c t Hf Hh) as (b1 & -> & H1 & H2 & Hf1 & Ha1 & Hh1). simpl.
  destruct (IH b1) as (b2 & -> & H3 & H4 & Ha2 & Hh2 & Hf2); [done|by rewrite Hh1|].
  exists b2. split_and!; try done; [|auto|congruence|congruence].
  intros * [[= -> -> -> ->]|H]%elem_of_cons; auto.
Qed.
End BloomFacts.

(** [CompareTo] is a total order on filters of the same length, identifying equal
    filters only; between filters of different lengths it is not antisymmetric: there are
    two filters each of which is smaller than the other. *)
Theorem BloomFilter_CompareTo_order :
  (∀ n, CmpEqOn (λ b, length (bfFilter b) = n) BloomFilter_CompareTo) ∧
  ∃ b b', BloomFilter_CompareTo b b' = -1 ∧ BloomFilter_CompareTo b' b = -1.
Proof.
  split.
  - intros n.
    assert (∀ b b', length (bfFilter b) = n → length (bfFilter b') = n → BloomFilter_CompareTo b b' =
      int_cmp (bfAlgorithm b) (bfAlgorithm b') <?> int_cmp (bfHash b) (bfHash b') <?> bytes_cmp (bfFilter b) (bfFilter b')) as E.
    { intros b b' Hb Hb'. unfold BloomFilter_CompareTo. by rewrite Hb, Hb', Z.ltb_irrefl. }
    split.
    + eapply CmpOn_ext; [exact E|]. apply (CmpOn_weaken _ any); [solve_cmp_on|done].
    + intros x y Hx Hy. rewrite E by done. intros H. destruct x, y. split_lex. simpl in *.
      fields_equal. by subst.
  - exists (mkBloomFilter 1 4 [1]), (mkBloomFilter 1 4 [0; 0]). done.
Qed.

(** Toy hash functions for the witness: the sum of the bytes. *)
Definition toy_bloom : BloomLib := {|
  ShakeSum256 b := [foldr Z.add 0 b mod 256; 1; 2; 3; 4; 5; 6; 7];
  fnv_Sum64 b := foldr Z.add 0 b;
  fnv_Sum128 b := [foldr Z.add 0 b mod 256]
|}.

Lemma BloomFilter_no_false_negative_witness :
  let b := mkBloomFilter BloomKM12 Shake256 [0; 0; 0; 0] in
  ∃ b', @add_entries toy_bloom toy_cbor b [("www", "ethz.ch.", ".", 3); ("ns", "ethz.ch.", ".", 2)]%string = Ok b' ∧
        @BloomFilter_Contains toy_bloom toy_cbor b' "www" "ethz.ch." "." 3 = Ok true.
Proof.
  destruct (@BloomFilter_no_false_negative toy_bloom toy_cbor (mkBloomFilter BloomKM12 Shake256 [0; 0; 0; 0])
    [("www", "ethz.ch.", ".", 3); ("ns", "ethz.ch.", ".", 2)]%string) as (b' & H1 & H2 & _).
  - split; [discriminate|vm_compute; reflexivity].
  - left; reflexivity.
  - exists b'. split; [exact H1|]. apply H2. left.
Defined.
