(* ===== verification/Section.v ===== *)
(** * Sections

    Models attic/internal/pkg/section: interval.go, util.go, assertion.go, shard.go,
    pshard.go, zone.go and notification.go.  A pointer to a section is the section
    itself; a method that writes through its receiver returns the new section.  The
    wall clock is an argument ([now], nanoseconds), read once per call. *)

From S2P Require Import Prelude Cbor Keys Object Query BitArray BloomFilter.
Local Open Scope Z_scope.

(** ** interval.go *)

Class Interval (A : Type) := { Begin : A → string; End : A → string }.

Definition Intersect {A B} `{Interval A, Interval B} (a : A) (b : B) : bool :=
  if (Begin a =ₛ End a) && (Begin b =ₛ End b) && negb (Begin a =ₛ "") && negb (Begin b =ₛ "")
  then Begin a =ₛ Begin b
  else if Begin a =ₛ "" then (Begin b =ₛ "") || (End a =ₛ "") || (Begin b <ₛ End a)
  else if End a =ₛ "" then (End b =ₛ "") || (Begin a <ₛ End b)
  else if Begin b =ₛ "" then (End b =ₛ "") || (Begin a <ₛ End b)
  else if End b =ₛ "" then Begin b <ₛ End a
  else (Begin a <ₛ End b) && (Begin b <ₛ End a).

Inductive TotalInterval := mkTotalInterval.
#[export] Instance TotalInterval_Interval : Interval TotalInterval := {| Begin _ := ""%string; End _ := ""%string |}.

Record StringInterval := mkStringInterval { siStr : string }.
#[export] Instance StringInterval_Interval : Interval StringInterval := {| Begin := siStr; End := siStr |}.

(** ** util.go *)

(** [time.Now().Add(maxValidity).Unix()] *)
Definition unix_after (now maxValidity : Z) : Z := (now + maxValidity) / 1000000000.

Definition UpdateValidity (now validSince validUntil oldValidSince oldValidUntil maxValidity : Z) : Z * Z :=
  let oldValidSince := if oldValidSince =? 0 then MaxInt64 else oldValidSince in
  let since :=
    if validSince <? oldValidSince
    then if unix_after now maxValidity <? validSince then unix_after now maxValidity else validSince
    else oldValidSince in
  let until :=
    if oldValidUntil <? validUntil
    then if unix_after now maxValidity <? validUntil then unix_after now maxValidity else validUntil
    else oldValidUntil in
  (since, until).

(** ** Signatures of a section *)

Definition filterSigs (signatures : list Sig) (keySpace : KeySpaceID) : list Sig :=
  filter (λ sig, KeySpace (sigPublicKeyID sig) = keySpace) signatures.

(** [append(s[:i], s[i+1:]...)] *)
Definition delete_at {A} (l : list A) (i : Z) : outcome (list A) :=
  if (0 <=? i) && (i <? Z.of_nat (length l))
  then Ok (take (Z.to_nat i) l ++ drop (S (Z.to_nat i)) l)
  else Panic "slice bounds out of range".

Definition read_sigs (msg : string) (sigs : list cval) : outcome (list Sig) :=
  traverse (λ sig, sigVal ← or_err (as_arr sig) msg; Sig_UnmarshalArray zeroSig sigVal) sigs.

Definition write_sigs (sigs : list Sig) : cval := CArr ((λ s, CArr (Sig_MarshalArray s)) <$> sigs).

(** ** assertion.go *)

Record Assertion := mkAssertion {
  aSignatures : list Sig;
  aSubjectName : string;
  aSubjectZone : string;
  aContext : string;
  aContent : list Object;
  aValidSince : Z;
  aValidUntil : Z;
  aSign : bool
}.

Definition zeroAssertion : Assertion := mkAssertion [] "" "" "" [] 0 0 false.

Section Assertions.
Context {OL : ObjLib}.

Definition Assertion_UnmarshalMap (a : Assertion) (m : list (Z * cval)) : outcome Assertion :=
  sigs ← (match imap_get m 0 ≫= as_arr with
          | Some sigs => read_sigs "cbor assertion signatures entry is not an array" sigs
          | None => Ok (aSignatures a)
          end);
  sn ← field as_str m 3 "cbor assertion map does not contain a subject name";
  let sz := default (aSubjectZone a) (imap_get m 4 ≫= as_str) in
  let ctx := default (aContext a) (imap_get m 6 ≫= as_str) in
  objs ← or_err (imap_get m 7) "cbor assertion map does not contain an object array";
  objs' ← or_panic (as_arr objs) "interface conversion";
  content ← traverse (λ obj, o ← or_panic (as_arr obj) "interface conversion"; Object_UnmarshalArray o) objs';
  Ok (mkAssertion sigs sn sz ctx content (aValidSince a) (aValidUntil a) (aSign a)).

Definition Assertion_MarshalMap (a : Assertion) : outcome (list (Z * cval)) :=
  content ← traverse Object_MarshalCBOR (aContent a);
  let m := imap_set_if (bool_decide (aSignatures a ≠ []) && negb (aSign a)) [] 0 (write_sigs (aSignatures a)) in
  let m := imap_set_if (negb (aSubjectName a =ₛ "")) m 3 (CStr (aSubjectName a)) in
  let m := imap_set_if (negb (aSubjectZone a =ₛ "")) m 4 (CStr (aSubjectZone a)) in
  let m := imap_set_if (negb (aContext a =ₛ "")) m 6 (CStr (aContext a)) in
  Ok (imap_set m 7 (CArr content)).

Definition Assertion_MarshalCBOR (a : Assertion) : outcome cval := m ← Assertion_MarshalMap a; Ok (CMap m).

Definition Assertion_AllSigs (a : Assertion) : list Sig := aSignatures a.
Definition Assertion_Sigs (a : Assertion) (keySpace : KeySpaceID) : list Sig := filterSigs (aSignatures a) keySpace.

Definition Assertion_set_sigs (a : Assertion) (sigs : list Sig) : Assertion :=
  mkAssertion sigs (aSubjectName a) (aSubjectZone a) (aContext a) (aContent a) (aValidSince a) (aValidUntil a) (aSign a).
Definition Assertion_AddSig (a : Assertion) (sig : Sig) : Assertion := Assertion_set_sigs a (aSignatures a ++ [sig]).
Definition Assertion_DeleteSig (a : Assertion) (i : Z) : outcome Assertion :=
  sigs ← delete_at (aSignatures a) i; Ok (Assertion_set_sigs a sigs).
Definition Assertion_DeleteAllSigs (a : Assertion) : Assertion := Assertion_set_sigs a [].

Definition Assertion_GetContext (a : Assertion) : string := aContext a.
Definition Assertion_GetSubjectZone (a : Assertion) : string := aSubjectZone a.

Definition Assertion_FQDN (a : Assertion) : string :=
  if aSubjectName a =ₛ "@" then aSubjectZone a
  else if aSubjectZone a =ₛ "." then (aSubjectName a +:+ aSubjectZone a)%string
  else (aSubjectName a +:+ "." +:+ aSubjectZone a)%string.

(** [Copy] also serves [SetContext] and [SetSubjectZone], which overwrite one of the
    two fields. *)
Definition Assertion_Copy (a : Assertion) (context subjectZone : string) : Assertion :=
  mkAssertion (aSignatures a) (aSubjectName a) subjectZone context (aContent a) (aValidSince a) (aValidUntil a) (aSign a).
Definition Assertion_SetContext (a : Assertion) (ctx : string) : Assertion := Assertion_Copy a ctx (aSubjectZone a).
Definition Assertion_SetSubjectZone (a : Assertion) (zone : string) : Assertion := Assertion_Copy a (aContext a) zone.
Definition Assertion_RemoveContextAndSubjectZone (a : Assertion) : Assertion := Assertion_Copy a "" "".

Definition Assertion_set_validity (a : Assertion) (v : Z * Z) : Assertion :=
  mkAssertion (aSignatures a) (aSubjectName a) (aSubjectZone a) (aContext a) (aContent a) v.1 v.2 (aSign a).
Definition Assertion_UpdateValidity (now : Z) (a : Assertion) (validSince validUntil maxValidity : Z) : Assertion :=
  Assertion_set_validity a (UpdateValidity now validSince validUntil (aValidSince a) (aValidUntil a) maxValidity).
Definition Assertion_SetValidSince (a : Assertion) (validSince : Z) : Assertion :=
  Assertion_set_validity a (validSince, aValidUntil a).
Definition Assertion_SetValidUntil (a : Assertion) (validUntil : Z) : Assertion :=
  Assertion_set_validity a (aValidSince a, validUntil).

(** The buffer after [w.WriteArray([]interface{}{1, a})]; a panic of the marshaller is
    a panic of [Hash]. *)
Definition section_hash `{!CborWriter} (tag : Z) (m : outcome cval) : outcome string :=
  match m with
  | Panic msg => Panic msg
  | m => Ok (string_of_bytes (cbor_array [Ok (CInt tag); m]))
  end.
Definition Assertion_Hash `{!CborWriter} (a : Assertion) : outcome string := section_hash 1 (Assertion_MarshalCBOR a).

Definition Assertion_EqualContextZoneName (a assertion : Assertion) : bool :=
  (aContext a =ₛ aContext assertion) && (aSubjectZone a =ₛ aSubjectZone assertion) &&
  (aSubjectName a =ₛ aSubjectName assertion).

Definition Assertion_Sort (a : Assertion) : outcome Assertion :=
  content ← traverse Object_Sort (aContent a);
  Ok (mkAssertion (aSignatures a) (aSubjectName a) (aSubjectZone a) (aContext a)
        (sort_slice (λ x y, Object_CompareTo x y <? 0) content) (aValidSince a) (aValidUntil a) (aSign a)).

Definition Assertion_CompareTo (a assertion : Assertion) : Z :=
  str_cmp (aSubjectName a) (aSubjectName assertion) <?>
  str_cmp (aSubjectZone a) (aSubjectZone assertion) <?>
  str_cmp (aContext a) (aContext assertion) <?>
  len_cmp (aContent a) (aContent assertion) <?>
  elems_cmp Object_CompareTo (aContent a) (aContent assertion).

Definition Assertion_IsConsistent (a : Assertion) : bool := true.
End Assertions.

#[export] Instance Assertion_Interval : Interval Assertion := {| Begin := aSubjectName; End := aSubjectName |}.

Definition Assertion_SetSign (b : bool) (a : Assertion) : Assertion :=
  mkAssertion (aSignatures a) (aSubjectName a) (aSubjectZone a) (aContext a) (aContent a) (aValidSince a) (aValidUntil a) b.
Definition Assertion_AddSigInMarshaller (a : Assertion) : Assertion := Assertion_SetSign false a.
Definition Assertion_DontAddSigInMarshaller (a : Assertion) : Assertion := Assertion_SetSign true a.

(** The map [map[signature.MetaData]bool] is only ever set to true: a set. *)
Definition extractNeededKeys (sigs : list Sig) (keysNeeded : gset MetaData) : gset MetaData :=
  foldl (λ acc sig, {[ Sig_MetaData sig ]} ∪ acc) keysNeeded (filterSigs sigs RainsKeySpace).
Definition Assertion_NeededKeys (a : Assertion) (keysNeeded : gset MetaData) : gset MetaData :=
  extractNeededKeys (aSignatures a) keysNeeded.

(** ** shard.go *)

Record Shard := mkShard {
  sSignatures : list Sig;
  sSubjectZone : string;
  sContext : string;
  sRangeFrom : string;
  sRangeTo : string;
  sContent : list Assertion;
  sValidSince : Z;
  sValidUntil : Z;
  sSign : bool
}.

Definition zeroShard : Shard := mkShard [] "" "" "" "" [] 0 0 false.

Section Shards.
Context {OL : ObjLib}.

(** [srange[0].(string)], [srange[1].(string)] *)
Definition read_range (m : list (Z * cval)) (what : string) : outcome (string * string) :=
  srange ← field as_arr m 11 ("cbor " +:+ what +:+ " map does not contain a range");
  c0 ← at_index srange 0;
  begin ← or_err (as_str c0) ("cbor " +:+ what +:+ " encoding of rangeFrom should be a string");
  c1 ← at_index srange 1;
  stop ← or_err (as_str c1) ("cbor " +:+ what +:+ " encoding of rangeEnd should be a string");
  Ok (begin, stop).

Definition read_content (msg : string) (cont : list cval) : outcome (list Assertion) :=
  traverse (λ obj, a ← or_err (as_map obj) msg; Assertion_UnmarshalMap zeroAssertion a) cont.

Definition Shard_UnmarshalMap (s : Shard) (m : list (Z * cval)) : outcome Shard :=
  sigs ← field as_arr m 0 "cbor shard map does not contain a signature";
  sigs' ← read_sigs "cbor shard signatures entry is not an array" sigs;
  zone ← field as_str m 4 "cbor shard map does not contain a subject zone";
  ctx ← field as_str m 6 "cbor shard map does not contain a context";
  '(from, to) ← read_range m "shard";
  cont ← field as_arr m 23 "cbor shard map does not contain a content";
  content ← read_content "cbor shard content entry is not a map" cont;
  Ok (mkShard sigs' zone ctx from to content (sValidSince s) (sValidUntil s) (sSign s)).

Definition Shard_MarshalMap (s : Shard) : outcome (list (Z * cval)) :=
  content ← traverse Assertion_MarshalCBOR (sContent s);
  let m := imap_set_if (bool_decide (sSignatures s ≠ []) && negb (sSign s)) [] 0 (write_sigs (sSignatures s)) in
  let m := imap_set_if (negb (sSubjectZone s =ₛ "")) m 4 (CStr (sSubjectZone s)) in
  let m := imap_set_if (negb (sContext s =ₛ "")) m 6 (CStr (sContext s)) in
  let m := imap_set m 11 (CArr [CStr (sRangeFrom s); CStr (sRangeTo s)]) in
  Ok (imap_set m 23 (CArr content)).
Definition Shard_MarshalCBOR (s : Shard) : outcome cval := m ← Shard_MarshalMap s; Ok (CMap m).

Definition Shard_AllSigs (s : Shard) : list Sig := sSignatures s.
Definition Shard_Sigs (s : Shard) (keySpace : KeySpaceID) : list Sig := filterSigs (sSignatures s) keySpace.
Definition Shard_set_sigs (s : Shard) (sigs : list Sig) : Shard :=
  mkShard sigs (sSubjectZone s) (sContext s) (sRangeFrom s) (sRangeTo s) (sContent s) (sValidSince s) (sValidUntil s) (sSign s).
Definition Shard_AddSig (s : Shard) (sig : Sig) : Shard := Shard_set_sigs s (sSignatures s ++ [sig]).
Definition Shard_DeleteSig (s : Shard) (i : Z) : outcome Shard :=
  sigs ← delete_at (sSignatures s) i; Ok (Shard_set_sigs s sigs).
Definition Shard_DeleteAllSigs (s : Shard) : Shard := Shard_set_sigs s [].
Definition Shard_GetContext (s : Shard) : string := sContext s.
Definition Shard_GetSubjectZone (s : Shard) : string := sSubjectZone s.

Definition Shard_set_content (s : Shard) (content : list Assertion) : Shard :=
  mkShard (sSignatures s) (sSubjectZone s) (sContext s) (sRangeFrom s) (sRangeTo s) content (sValidSince s) (sValidUntil s) (sSign s).
Definition Shard_AddCtxAndZoneToContent (s : Shard) : Shard :=
  Shard_set_content s ((λ a, Assertion_Copy a (sContext s) (sSubjectZone s)) <$> sContent s).
Definition Shard_RemoveCtxAndZoneFromContent (s : Shard) : Shard :=
  Shard_set_content s (Assertion_RemoveContextAndSubjectZone <$> sContent s).
Definition Shard_Copy (s : Shard) (context subjectZone : string) : Shard :=
  mkShard (sSignatures s) subjectZone context (sRangeFrom s) (sRangeTo s) (sContent s) (sValidSince s) (sValidUntil s) (sSign s).

Definition Shard_set_validity (s : Shard) (v : Z * Z) : Shard :=
  mkShard (sSignatures s) (sSubjectZone s) (sContext s) (sRangeFrom s) (sRangeTo s) (sContent s) v.1 v.2 (sSign s).
Definition Shard_UpdateValidity (now : Z) (s : Shard) (validSince validUntil maxValidity : Z) : Shard :=
  Shard_set_validity s (UpdateValidity now validSince validUntil (sValidSince s) (sValidUntil s) maxValidity).

Definition Shard_SetValidSince (s : Shard) (validSince : Z) : Shard := Shard_set_validity s (validSince, sValidUntil s).
Definition Shard_SetValidUntil (s : Shard) (validUntil : Z) : Shard := Shard_set_validity s (sValidSince s, validUntil).

Definition Shard_Hash `{!CborWriter} (s : Shard) : outcome string := section_hash 2 (Shard_MarshalCBOR s).

Definition Shard_Sort (s : Shard) : outcome Shard :=
  content ← traverse Assertion_Sort (sContent s);
  Ok (Shard_set_content s (sort_slice (λ x y, Assertion_CompareTo x y <? 0) content)).

Definition Shard_CompareTo (s shard : Shard) : Z :=
  str_cmp (sSubjectZone s) (sSubjectZone shard) <?>
  str_cmp (sContext s) (sContext shard) <?>
  str_cmp (sRangeFrom s) (sRangeFrom shard) <?>
  str_cmp (sRangeTo s) (sRangeTo shard) <?>
  len_cmp (sContent s) (sContent shard) <?>
  elems_cmp Assertion_CompareTo (sContent s) (sContent shard).

Definition Shard_InRange (s : Shard) (subjectName : string) : bool :=
  ((sRangeFrom s =ₛ "<") && (sRangeTo s =ₛ ">")) || ((sRangeFrom s =ₛ "<") && (subjectName <ₛ sRangeTo s)) ||
  ((sRangeTo s =ₛ ">") && (sRangeFrom s <ₛ subjectName)) ||
  ((sRangeFrom s <ₛ subjectName) && (subjectName <ₛ sRangeTo s)) ||
  ((sRangeFrom s =ₛ "") && (sRangeTo s =ₛ "")) || ((sRangeFrom s =ₛ "") && (subjectName <ₛ sRangeTo s)) ||
  ((sRangeTo s =ₛ "") && (sRangeFrom s <ₛ subjectName)).

Definition hasContextOrSubjectZone (a : Assertion) : bool :=
  negb (aSubjectZone a =ₛ "") || negb (aContext a =ₛ "").

Fixpoint shard_consistent_loop (s : Shard) (content : list Assertion) : bool :=
  match content with
  | [] => true
  | a :: content' =>
      if hasContextOrSubjectZone a then false
      else if negb (Shard_InRange s (aSubjectName a)) then false
      else shard_consistent_loop s content'
  end.
Definition Shard_IsConsistent (s : Shard) : bool := shard_consistent_loop s (sContent s).

Definition Shard_NeededKeys (s : Shard) (keysNeeded : gset MetaData) : gset MetaData :=
  foldl (λ acc a, Assertion_NeededKeys a acc) (extractNeededKeys (sSignatures s) keysNeeded) (sContent s).

Definition Shard_SetSign (b : bool) (s : Shard) : Shard :=
  mkShard (sSignatures s) (sSubjectZone s) (sContext s) (sRangeFrom s) (sRangeTo s)
    (Assertion_SetSign b <$> sContent s) (sValidSince s) (sValidUntil s) b.
Definition Shard_AddSigInMarshaller (s : Shard) : Shard := Shard_SetSign false s.
Definition Shard_DontAddSigInMarshaller (s : Shard) : Shard := Shard_SetSign true s.
End Shards.

#[export] Instance Shard_Interval : Interval Shard := {| Begin := sRangeFrom; End := sRangeTo |}.

(** ** pshard.go *)

Record Pshard := mkPshard {
  pSignatures : list Sig;
  pSubjectZone : string;
  pContext : string;
  pRangeFrom : string;
  pRangeTo : string;
  pBloomFilter : BloomFilter;
  pValidSince : Z;
  pValidUntil : Z;
  pSign : bool
}.

Definition zeroPshard : Pshard := mkPshard [] "" "" "" "" (mkBloomFilter 0 0 []) 0 0 false.

(** [strings.HasSuffix] and [strings.TrimSuffix] *)
Definition HasSuffix (s suffix : string) : bool :=
  let n := String.length s in
  let k := String.length suffix in
  (k <=? n)%nat && (String.substring (n - k) k s =ₛ suffix).
Definition TrimSuffix (s suffix : string) : string :=
  if HasSuffix s suffix then String.substring 0 (String.length s - String.length suffix) s else s.

Definition Pshard_UnmarshalMap (s : Pshard) (m : list (Z * cval)) : outcome Pshard :=
  sigs ← field as_arr m 0 "cbor pshard map does not contain a signature";
  sigs' ← read_sigs "cbor pshard signatures entry is not an array" sigs;
  zone ← field as_str m 4 "cbor pshard map does not contain a subject zone";
  ctx ← field as_str m 6 "cbor pshard map does not contain a context";
  '(from, to) ← read_range m "pshard";
  ds ← field as_arr m 23 "cbor pshard map does not contain a bloom filter";
  bf ← BloomFilter_UnmarshalArray ds;
  Ok (mkPshard sigs' zone ctx from to bf (pValidSince s) (pValidUntil s) (pSign s)).

Definition Pshard_MarshalMap (s : Pshard) : list (Z * cval) :=
  let m := imap_set_if (bool_decide (pSignatures s ≠ []) && negb (pSign s)) [] 0 (write_sigs (pSignatures s)) in
  let m := imap_set_if (negb (pSubjectZone s =ₛ "")) m 4 (CStr (pSubjectZone s)) in
  let m := imap_set_if (negb (pContext s =ₛ "")) m 6 (CStr (pContext s)) in
  let m := imap_set m 11 (CArr [CStr (pRangeFrom s); CStr (pRangeTo s)]) in
  imap_set m 23 (CArr (BloomFilter_MarshalArray (pBloomFilter s))).
Definition Pshard_MarshalCBOR (s : Pshard) : outcome cval := Ok (CMap (Pshard_MarshalMap s)).

Definition Pshard_AllSigs (s : Pshard) : list Sig := pSignatures s.
Definition Pshard_Sigs (s : Pshard) (keySpace : KeySpaceID) : list Sig := filterSigs (pSignatures s) keySpace.
Definition Pshard_set_sigs (s : Pshard) (sigs : list Sig) : Pshard :=
  mkPshard sigs (pSubjectZone s) (pContext s) (pRangeFrom s) (pRangeTo s) (pBloomFilter s) (pValidSince s) (pValidUntil s) (pSign s).
Definition Pshard_AddSig (s : Pshard) (sig : Sig) : Pshard := Pshard_set_sigs s (pSignatures s ++ [sig]).
Definition Pshard_DeleteSig (s : Pshard) (i : Z) : outcome Pshard :=
  sigs ← delete_at (pSignatures s) i; Ok (Pshard_set_sigs s sigs).
Definition Pshard_DeleteAllSigs (s : Pshard) : Pshard := Pshard_set_sigs s [].
Definition Pshard_GetContext (s : Pshard) : string := pContext s.
Definition Pshard_GetSubjectZone (s : Pshard) : string := pSubjectZone s.

Definition Pshard_set_validity (s : Pshard) (v : Z * Z) : Pshard :=
  mkPshard (pSignatures s) (pSubjectZone s) (pContext s) (pRangeFrom s) (pRangeTo s) (pBloomFilter s) v.1 v.2 (pSign s).
Definition Pshard_UpdateValidity (now : Z) (s : Pshard) (validSince validUntil maxValidity : Z) : Pshard :=
  Pshard_set_validity s (UpdateValidity now validSince validUntil (pValidSince s) (pValidUntil s) maxValidity).

Definition Pshard_SetValidSince (s : Pshard) (validSince : Z) : Pshard := Pshard_set_validity s (validSince, pValidUntil s).
Definition Pshard_SetValidUntil (s : Pshard) (validUntil : Z) : Pshard := Pshard_set_validity s (pValidSince s, validUntil).

Definition Pshard_Hash `{!CborWriter} (s : Pshard) : outcome string := section_hash 3 (Pshard_MarshalCBOR s).

Definition Pshard_InRange (s : Pshard) (subjectName : string) : bool :=
  ((pRangeFrom s =ₛ "") && (pRangeTo s =ₛ "")) || ((pRangeFrom s =ₛ "") && (subjectName <ₛ pRangeTo s)) ||
  ((pRangeTo s =ₛ "") && (pRangeFrom s <ₛ subjectName)) ||
  ((pRangeFrom s <ₛ subjectName) && (subjectName <ₛ pRangeTo s)).

Definition Pshard_IsConsistent (s : Pshard) : bool := true.
Definition Pshard_NeededKeys (s : Pshard) (keysNeeded : gset MetaData) : gset MetaData :=
  extractNeededKeys (pSignatures s) keysNeeded.
Definition Pshard_SetSign (b : bool) (s : Pshard) : Pshard :=
  mkPshard (pSignatures s) (pSubjectZone s) (pContext s) (pRangeFrom s) (pRangeTo s) (pBloomFilter s) (pValidSince s) (pValidUntil s) b.
Definition Pshard_AddSigInMarshaller (s : Pshard) : Pshard := Pshard_SetSign false s.
Definition Pshard_DontAddSigInMarshaller (s : Pshard) : Pshard := Pshard_SetSign true s.
Definition Pshard_Copy (s : Pshard) (context subjectZone : string) : Pshard :=
  mkPshard (pSignatures s) subjectZone context (pRangeFrom s) (pRangeTo s) (pBloomFilter s) (pValidSince s) (pValidUntil s) (pSign s).

Definition Pshard_CompareTo (s pshard : Pshard) : Z :=
  str_cmp (pSubjectZone s) (pSubjectZone pshard) <?>
  str_cmp (pContext s) (pContext pshard) <?>
  str_cmp (pRangeFrom s) (pRangeFrom pshard) <?>
  str_cmp (pRangeTo s) (pRangeTo pshard) <?>
  BloomFilter_CompareTo (pBloomFilter s) (pBloomFilter pshard).

#[export] Instance Pshard_Interval : Interval Pshard := {| Begin := pRangeFrom; End := pRangeTo |}.

Section PshardBloom.
Context {BL : BloomLib} {CW : CborWriter}.

(** An error of [Contains] counts as "may exist". *)
Fixpoint nonexistent_loop (s : Pshard) (name : string) (types : list Z) : outcome bool :=
  match types with
  | [] => Ok true
  | t :: types' =>
      match BloomFilter_Contains (pBloomFilter s) name (pSubjectZone s) (pContext s) t with
      | Ok false => nonexistent_loop s name types'
      | Ok true | Err _ => Ok false
      | Panic msg => Panic msg
      end
  end.

(** The suffix test is written without a negation. *)
Definition Pshard_IsNonexistent (s : Pshard) (q : QueryName) : outcome bool :=
  if negb (qContext q =ₛ pContext s) then Err "query has different context"
  else if HasSuffix (qName q) (pSubjectZone s) then Err "query has different suffix"
  else
    let name := TrimSuffix (qName q) (pSubjectZone s) in
    if negb (Pshard_InRange s name) then Err "query is not in pshard's range"
    else nonexistent_loop s name (qTypes q).

Fixpoint add_types (bf : BloomFilter) (name zone ctx : string) (objs : list Object) : outcome BloomFilter :=
  match objs with
  | [] => Ok bf
  | o :: objs' => bf' ← BloomFilter_Add bf name zone ctx (objType o); add_types bf' name zone ctx objs'
  end.

Definition Pshard_AddAssertion (s : Pshard) (a : Assertion) : outcome Pshard :=
  if negb (aContext a =ₛ pContext s) then Err "assertion has different context"
  else if negb (aSubjectZone a =ₛ pSubjectZone s) then Err "assertion has different zone"
  else if negb (Pshard_InRange s (aSubjectName a)) then Err "assertion is not in pshard's range"
  else
    bf ← add_types (pBloomFilter s) (aSubjectName a) (aSubjectZone a) (aContext a) (aContent a);
    Ok (mkPshard (pSignatures s) (pSubjectZone s) (pContext s) (pRangeFrom s) (pRangeTo s) bf
          (pValidSince s) (pValidUntil s) (pSign s)).
End PshardBloom.

(** ** zone.go *)

Record Zone := mkZone {
  zSignatures : list Sig;
  zSubjectZone : string;
  zContext : string;
  zContent : list Assertion;
  zValidSince : Z;
  zValidUntil : Z;
  zSign : bool
}.

Definition zeroZone : Zone := mkZone [] "" "" [] 0 0 false.

Section Zones.
Context {OL : ObjLib}.

Definition Zone_UnmarshalMap (z : Zone) (m : list (Z * cval)) : outcome Zone :=
  sigs ← field as_arr m 0 "cbor zone map does not contain a signature";
  sigs' ← read_sigs "cbor zone signatures entry is not an array" sigs;
  zone ← field as_str m 4 "cbor zone map does not contain a subject zone";
  ctx ← field as_str m 6 "cbor zone map does not contain a context";
  cont ← field as_arr m 23 "cbor zone map does not contain a content";
  content ← read_content "cbor zone content entry is not a map" cont;
  Ok (mkZone sigs' zone ctx content (zValidSince z) (zValidUntil z) (zSign z)).

Definition Zone_MarshalMap (z : Zone) : outcome (list (Z * cval)) :=
  content ← traverse Assertion_MarshalCBOR (zContent z);
  let m := imap_set [] 23 (CArr content) in
  let m := imap_set_if (bool_decide (zSignatures z ≠ []) && negb (zSign z)) m 0 (write_sigs (zSignatures z)) in
  let m := imap_set m 4 (CStr (zSubjectZone z)) in
  Ok (imap_set m 6 (CStr (zContext z))).
Definition Zone_MarshalCBOR (z : Zone) : outcome cval := m ← Zone_MarshalMap z; Ok (CMap m).

Definition Zone_AllSigs (z : Zone) : list Sig := zSignatures z.
Definition Zone_Sigs (z : Zone) (keySpace : KeySpaceID) : list Sig := filterSigs (zSignatures z) keySpace.
Definition Zone_set_sigs (z : Zone) (sigs : list Sig) : Zone :=
  mkZone sigs (zSubjectZone z) (zContext z) (zContent z) (zValidSince z) (zValidUntil z) (zSign z).
Definition Zone_AddSig (z : Zone) (sig : Sig) : Zone := Zone_set_sigs z (zSignatures z ++ [sig]).
Definition Zone_DeleteSig (z : Zone) (i : Z) : outcome Zone :=
  sigs ← delete_at (zSignatures z) i; Ok (Zone_set_sigs z sigs).
Definition Zone_DeleteAllSigs (z : Zone) : Zone := Zone_set_sigs z [].
Definition Zone_GetContext (z : Zone) : string := zContext z.
Definition Zone_GetSubjectZone (z : Zone) : string := zSubjectZone z.

Definition Zone_set_content (z : Zone) (content : list Assertion) : Zone :=
  mkZone (zSignatures z) (zSubjectZone z) (zContext z) content (zValidSince z) (zValidUntil z) (zSign z).
Definition Zone_AddCtxAndZoneToContent (z : Zone) : Zone :=
  Zone_set_content z ((λ s, Assertion_SetSubjectZone (Assertion_SetContext s (zContext z)) (zSubjectZone z)) <$> zContent z).
Definition Zone_RemoveCtxAndZoneFromContent (z : Zone) : Zone :=
  Zone_set_content z (Assertion_RemoveContextAndSubjectZone <$> zContent z).

Definition Zone_set_validity (z : Zone) (v : Z * Z) : Zone :=
  mkZone (zSignatures z) (zSubjectZone z) (zContext z) (zContent z) v.1 v.2 (zSign z).
Definition Zone_UpdateValidity (now : Z) (z : Zone) (validSince validUntil maxValidity : Z) : Zone :=
  Zone_set_validity z (UpdateValidity now validSince validUntil (zValidSince z) (zValidUntil z) maxValidity).

Definition Zone_SetValidSince (z : Zone) (validSince : Z) : Zone := Zone_set_validity z (validSince, zValidUntil z).
Definition Zone_SetValidUntil (z : Zone) (validUntil : Z) : Zone := Zone_set_validity z (zValidSince z, validUntil).

Definition Zone_Hash `{!CborWriter} (z : Zone) : outcome string := section_hash 4 (Zone_MarshalCBOR z).

Definition Zone_Sort (z : Zone) : outcome Zone :=
  content ← traverse Assertion_Sort (zContent z);
  Ok (Zone_set_content z (sort_slice (λ x y, Assertion_CompareTo x y <? 0) content)).

Definition Zone_CompareTo (z zone : Zone) : Z :=
  str_cmp (zSubjectZone z) (zSubjectZone zone) <?>
  str_cmp (zContext z) (zContext zone) <?>
  len_cmp (zContent z) (zContent zone) <?>
  elems_cmp Assertion_CompareTo (zContent z) (zContent zone).

Fixpoint zone_consistent_loop (content : list Assertion) : bool :=
  match content with
  | [] => true
  | a :: content' => if hasContextOrSubjectZone a then false else zone_consistent_loop content'
  end.
Definition Zone_IsConsistent (z : Zone) : bool := zone_consistent_loop (zContent z).

Definition Zone_NeededKeys (z : Zone) (keysNeeded : gset MetaData) : gset MetaData :=
  foldl (λ acc a, Assertion_NeededKeys a acc) (extractNeededKeys (zSignatures z) keysNeeded) (zContent z).
Definition Zone_SetSign (b : bool) (z : Zone) : Zone :=
  mkZone (zSignatures z) (zSubjectZone z) (zContext z) (Assertion_SetSign b <$> zContent z) (zValidSince z) (zValidUntil z) b.
Definition Zone_AddSigInMarshaller (z : Zone) : Zone := Zone_SetSign false z.
Definition Zone_DontAddSigInMarshaller (z : Zone) : Zone := Zone_SetSign true z.
End Zones.

#[export] Instance Zone_Interval : Interval Zone := {| Begin _ := ""%string; End _ := ""%string |}.

(** ** notification.go *)

(** [type NotificationType int] *)
Definition NTHeartbeat : Z := 100.
Definition NTCapHashNotKnown : Z := 399.
Definition NTBadMessage : Z := 400.
Definition NTRcvInconsistentMsg : Z := 403.
Definition NTNoAssertionsExist : Z := 404.
Definition NTMsgTooLarge : Z := 413.
Definition NTUnspecServerErr : Z := 500.
Definition NTServerNotCapable : Z := 501.
Definition NTNoAssertionAvail : Z := 504.

Record Notification := mkNotification { nToken : Token; nType : Z; nData : string }.

#[export] Instance Notification_eq_dec : EqDecision Notification.
Proof. solve_decision. Defined.

(** [tok, ok := m[2].([]byte); if !ok || len(tok) != 16] *)
Definition read_token (m : list (Z * cval)) (msg : string) : outcome Token :=
  tok ← field as_bytes m 2 msg;
  if Z.of_nat (length tok) =? 16 then Ok tok else Err msg.

Definition Notification_UnmarshalMap (m : list (Z * cval)) : outcome Notification :=
  tok ← read_token m "cbor notification encoding of the token should be a byte array of length 16";
  not ← field as_int m 21 "cbor notification map does not contain type";
  data ← field as_str m 22 "cbor notification map does not contain data";
  Ok (mkNotification tok not data).

Definition Notification_MarshalMap (n : Notification) : list (Z * cval) :=
  let m := imap_set [] 2 (CBytes (nToken n)) in
  let m := imap_set m 21 (CInt (nType n)) in
  imap_set m 22 (CStr (nData n)).
Definition Notification_MarshalCBOR (n : Notification) : outcome cval := Ok (CMap (Notification_MarshalMap n)).

Definition Notification_CompareTo (n notification : Notification) : Z :=
  Token_Compare (nToken n) (nToken notification) <?>
  int_cmp (nType n) (nType notification) <?>
  str_cmp (nData n) (nData notification).

(** ** Suffixes *)

Lemma str_length_app s t : String.length (s +:+ t) = (String.length s + String.length t)%nat.
Proof. induction s as [|c s IH]; [done|]. simpl. by f_equal. Qed.
Lemma substring_app s t : String.substring (String.length s) (String.length t) (s +:+ t) = t.
Proof. induction s as [|c s IH]; [|exact IH]. simpl. induction t as [|c t IH]; [done|]. simpl. by f_equal. Qed.
Lemma HasSuffix_app s t : HasSuffix (s +:+ t)%string t = true.
Proof.
  unfold HasSuffix. rewrite str_length_app. apply andb_true_iff. split; [apply Nat.leb_le; lia|].
  replace (String.length s + String.length t - String.length t)%nat with (String.length s) by lia.
  apply String.eqb_eq, substring_app.
Qed.
