(* ===== verification/SectionFacts.v ===== *)
(** * Properties of sections

    Theorems about [Section]: interval intersection, ranges of shards and pshards,
    validity updates, the canonical sort of assertions, the pshard's membership test,
    and the CBOR round trip of every section type. *)

From S2P Require Import Prelude Cbor Keys Object Query BitArray BloomFilter Section.
Local Open Scope Z_scope.

(** ** Intervals *)

(** The names strictly between the ends of a range, where the empty string is no bound. *)
Definition strictly_between (from to n : string) : Prop :=
  (from = "" ∨ from <ₛ n = true) ∧ (to = "" ∨ n <ₛ to = true).

(** The names an interval stands for: a single name when both ends are the same
    non-empty string, otherwise the names strictly between the ends, where the empty
    string is no bound. *)
Definition covers {A} `{Interval A} (a : A) (n : string) : Prop :=
  if bool_decide (Begin a = End a ∧ Begin a ≠ "") then n = Begin a
  else strictly_between (Begin a) (End a) n.

(** [x] is below [y] when the empty string bounds nothing. *)
Definition open_lt (x y : string) : bool := (x =ₛ "") || (y =ₛ "") || (x <ₛ y).

Definition both_points (ab ae bb be : string) : bool :=
  (ab =ₛ ae) && (bb =ₛ be) && negb (ab =ₛ "") && negb (bb =ₛ "").

(** The case analysis of [Intersect] in closed form. *)
Lemma Intersect_alt {A B} `{Interval A, Interval B} (a : A) (b : B) :
  Intersect a b = if both_points (Begin a) (End a) (Begin b) (End b) then Begin a =ₛ Begin b
                  else open_lt (Begin a) (End b) && open_lt (Begin b) (End a).
Proof.
  unfold Intersect, open_lt. fold (both_points (Begin a) (End a) (Begin b) (End b)).
  destruct (both_points _ _ _ _); [done|].
  destruct (Begin a =ₛ ""), (End a =ₛ ""), (Begin b =ₛ ""), (End b =ₛ ""); simpl;
    rewrite ?orb_true_r, ?andb_true_r; done.
Qed.

Lemma open_lt_between x n y :
  (x = "" ∨ x <ₛ n = true) → (y = "" ∨ n <ₛ y = true) → open_lt x y = true.
Proof.
  unfold open_lt. intros [->|H1] [->|H2]; rewrite ?str_eqb_refl, ?orb_true_r; try done.
  by rewrite (str_ltb_trans x n y), orb_true_r.
Qed.

Lemma covers_interval {A} `{Interval A} (a : A) n :
  covers a n → (Begin a = End a ∧ Begin a ≠ "" ∧ n = Begin a) ∨
               strictly_between (Begin a) (End a) n.
Proof. unfold covers. case_bool_decide; naive_solver. Qed.

(** [Intersect] is symmetric, and it answers true whenever some name lies in both
    intervals, so a lookup that filters cached sections by it misses none that covers the
    name. *)
Theorem Intersect_spec {A B} `{Interval A, Interval B} (a : A) (b : B) :
  Intersect a b = Intersect b a ∧
  (∀ n, covers a n → covers b n → Intersect a b = true).
Proof.
  rewrite !Intersect_alt. split.
  - unfold both_points. rewrite (andb_comm (open_lt (Begin b) _)), (String.eqb_sym (Begin b) (Begin a)).
    destruct (Begin a =ₛ End a), (Begin b =ₛ End b), (Begin a =ₛ ""), (Begin b =ₛ ""); done.
  - intros n Ha%covers_interval Hb%covers_interval.
    destruct (both_points _ _ _ _) eqn:E.
    + unfold both_points in E. rewrite !andb_true_iff, !negb_true_iff, !String.eqb_eq, !String.eqb_neq in E.
      destruct E as [[[E1 E2] E3] E4]. rewrite <-E1, <-E2 in *. apply String.eqb_eq.
      destruct Ha as [(_ & _ & ->)|[[?|Ha1] [?|Ha2]]], Hb as [(_ & _ & ?)|[[?|Hb1] [?|Hb2]]]; try done;
        exfalso; first [ eapply (str_ltb_contra (Begin a)) | eapply (str_ltb_contra (Begin b))]; done.
    + apply andb_true_iff.
      destruct Ha as [(E1 & N1 & ->)|[Ha1 Ha2]], Hb as [(E2 & N2 & Hn)|[Hb1 Hb2]].
      * exfalso. unfold both_points in E. rewrite <-E1, <-E2, !str_eqb_refl in E. simpl in E.
        rewrite !str_eqb_neq in E by done. done.
      * rewrite <-E1. unfold open_lt. rewrite (str_eqb_neq (Begin a)) by done.
        destruct Hb1 as [->|Hb1], Hb2 as [->|Hb2]; rewrite ?str_eqb_refl, ?Hb1, ?Hb2, ?orb_true_r; done.
      * subst n. rewrite <-E2. unfold open_lt. rewrite (str_eqb_neq (Begin b)) by done.
        destruct Ha1 as [->|Ha1], Ha2 as [->|Ha2]; rewrite ?str_eqb_refl, ?Ha1, ?Ha2, ?orb_true_r; done.
      * split; by eapply open_lt_between.
Qed.

Lemma Intersect_spec_witness :
  Intersect (mkShard [] "" "" "a" "m" [] 0 0 false) (mkStringInterval "c") = true.
Proof.
  apply (proj2 (Intersect_spec (mkShard [] "" "" "a" "m" [] 0 0 false) (mkStringInterval "c")) "c").
  - split; right; reflexivity.
  - reflexivity.
Defined.

(** ** Ranges *)

(** A shard whose bounds are not the markers "<" and ">", and every pshard, has in
    its range exactly the names strictly between the bounds, the empty string bounding
    nothing; the marked shard covers every name. *)
Theorem InRange_spec from to n :
  (from ≠ "<" → to ≠ ">" →
   ∀ sigs zone ctx content vs vu sg,
     Shard_InRange (mkShard sigs zone ctx from to content vs vu sg) n = true ↔
     strictly_between from to n) ∧
  (∀ sigs zone ctx bf vs vu sg,
     Pshard_InRange (mkPshard sigs zone ctx from to bf vs vu sg) n = true ↔
     strictly_between from to n) ∧
  (∀ sigs zone ctx content vs vu sg,
     Shard_InRange (mkShard sigs zone ctx "<" ">" content vs vu sg) n = true).
Proof.
  split_and!.
  - intros Hf Ht *. unfold Shard_InRange, strictly_between; simpl.
    rewrite (str_eqb_neq from "<"), (str_eqb_neq to ">") by done.
    destruct (String.eqb_spec from ""), (String.eqb_spec to ""); simpl;
      rewrite ?orb_true_r, ?orb_false_r, ?orb_true_iff, ?andb_true_iff; subst; naive_solver.
  - intros *. unfold Pshard_InRange, strictly_between; simpl.
    destruct (String.eqb_spec from ""), (String.eqb_spec to ""); simpl;
      rewrite ?orb_true_r, ?orb_false_r, ?orb_true_iff, ?andb_true_iff; subst; naive_solver.
  - intros *. done.
Qed.

Lemma InRange_spec_witness :
  Shard_InRange (mkShard [] "ethz.ch." "." "a" "m" [] 0 0 false) "c" = true ∧
  Shard_InRange (mkShard [] "ethz.ch." "." "a" "m" [] 0 0 false) "a" = false.
Proof.
  split.
  - apply (proj1 (InRange_spec "a" "m" "c")); [discriminate|discriminate|]. split; right; reflexivity.
  - destruct (Shard_InRange _ "a") eqn:E; [|reflexivity].
    apply (proj1 (InRange_spec "a" "m" "a")) in E; [|discriminate|discriminate].
    destruct E as [[E|E] _]; discriminate.
Defined.

(** An assertion that takes its context and its zone from the section around it. *)
Definition inherits (a : Assertion) : Prop := aContext a = "" ∧ aSubjectZone a = "".

Lemma inherits_spec a : hasContextOrSubjectZone a = false ↔ inherits a.
Proof. unfold hasContextOrSubjectZone, inherits. rewrite orb_false_iff, !negb_false_iff, !String.eqb_eq. tauto. Qed.

Lemma shard_consistent_loop_spec t c :
  shard_consistent_loop t c = true ↔ ∀ a, a ∈ c → inherits a ∧ Shard_InRange t (aSubjectName a) = true.
Proof.
  induction c as [|a c IH]; simpl; [split; [intros _ a Ha; by apply elem_of_nil in Ha|done]|].
  destruct (hasContextOrSubjectZone a) eqn:E.
  - split; [done|]. intros H. destruct (H a) as [H1 _]; [by left|]. by rewrite (proj2 (inherits_spec a)) in E.
  - apply inherits_spec in E. destruct (Shard_InRange t (aSubjectName a)) eqn:R; simpl.
    + rewrite IH. split; [intros H b [->|Hb]%elem_of_cons; [done|by apply H]|intros H b Hb; apply H; by right].
    + split; [done|]. intros H. destruct (H a) as [_ ?]; [by left|]. congruence.
Qed.

Lemma zone_consistent_loop_spec c : zone_consistent_loop c = true ↔ ∀ a, a ∈ c → inherits a.
Proof.
  induction c as [|a c IH]; simpl; [split; [intros _ a Ha; by apply elem_of_nil in Ha|done]|].
  destruct (hasContextOrSubjectZone a) eqn:E.
  - split; [done|]. intros H. rewrite (proj2 (inherits_spec a)) in E; [done|]. apply H. by left.
  - apply inherits_spec in E. rewrite IH.
    split; [intros H b [->|Hb]%elem_of_cons; [done|by apply H]|intros H b Hb; apply H; by right].
Qed.

(** A shard is consistent exactly when every contained assertion has neither context
    nor zone and a subject name in the shard's range; a zone exactly when every contained
    assertion has neither context nor zone.  After [RemoveCtxAndZoneFromContent] zones are
    always consistent, shards depend on the range only, and adding context and zone to the
    content gives every assertion the section's own. *)
Theorem IsConsistent_spec (s : Shard) (z : Zone) :
  (Shard_IsConsistent s = true ↔
     ∀ a, a ∈ sContent s → inherits a ∧ Shard_InRange s (aSubjectName a) = true) ∧
  (Zone_IsConsistent z = true ↔ ∀ a, a ∈ zContent z → inherits a) ∧
  Zone_IsConsistent (Zone_RemoveCtxAndZoneFromContent z) = true ∧
  (Shard_IsConsistent (Shard_RemoveCtxAndZoneFromContent s) = true ↔
     ∀ a, a ∈ sContent s → Shard_InRange s (aSubjectName a) = true) ∧
  (∀ a, a ∈ sContent (Shard_AddCtxAndZoneToContent s) → aContext a = sContext s ∧ aSubjectZone a = sSubjectZone s) ∧
  (∀ a, a ∈ zContent (Zone_AddCtxAndZoneToContent z) → aContext a = zContext z ∧ aSubjectZone a = zSubjectZone z).
Proof.
  split_and!.
  - apply shard_consistent_loop_spec.
  - apply zone_consistent_loop_spec.
  - apply zone_consistent_loop_spec. intros a (b & -> & Hb)%list_elem_of_fmap. done.
  - unfold Shard_IsConsistent. rewrite shard_consistent_loop_spec. simpl. split.
    + intros H a Ha. apply (H (Assertion_RemoveContextAndSubjectZone a)). by apply list_elem_of_fmap_2.
    + intros H a (b & -> & Hb)%list_elem_of_fmap. split; [done|]. exact (H b Hb).
  - intros a (b & -> & Hb)%list_elem_of_fmap. done.
  - intros a (b & -> & Hb)%list_elem_of_fmap. done.
Qed.

Lemma IsConsistent_spec_witness :
  let a := mkAssertion [] "c" "" "" [] 0 0 false in
  Shard_IsConsistent (mkShard [] "ethz.ch." "." "a" "m" [a] 0 0 false) = true ∧
  aContext (Assertion_Copy a "." "ethz.ch.") = "."%string.
Proof.
  intros a. pose proof (IsConsistent_spec (mkShard [] "ethz.ch." "." "a" "m" [a] 0 0 false) zeroZone) as H.
  split; [|reflexivity]. apply H. intros b Hb. apply list_elem_of_singleton in Hb. subst b. repeat split.
Defined.

(** ** Validity *)

(** Repeated updates of one section, one per signature [(validSince, validUntil)]. *)
Definition update_all (now maxValidity : Z) (a : Assertion) (sigs : list (Z * Z)) : Assertion :=
  foldl (λ a v, Assertion_UpdateValidity now a v.1 v.2 maxValidity) a sigs.

Definition min_since (limit : Z) (sigs : list (Z * Z)) : Z := foldr (λ v m, Z.min v.1 m) limit sigs.
Definition max_until (sigs : list (Z * Z)) : Z := foldr (λ v m, Z.max v.2 m) 0 sigs.

Lemma max_until_nonneg sigs : 0 ≤ max_until sigs.
Proof. induction sigs; simpl; lia. Qed.

Lemma min_since_limit limit sigs : min_since limit sigs ≤ limit.
Proof. induction sigs; simpl; lia. Qed.

Lemma UpdateValidity_step now vs vu s u mx :
  0 < vs < MaxInt64 → 0 < unix_after now mx < MaxInt64 → 0 ≤ u ≤ unix_after now mx →
  (s = 0 ∨ 0 < s ≤ unix_after now mx) →
  UpdateValidity now vs vu s u mx =
    (if s =? 0 then Z.min vs (unix_after now mx) else Z.min vs s, Z.max u (Z.min vu (unix_after now mx))).
Proof.
  intros H1 H2 H3 H4. unfold UpdateValidity. set (L := unix_after now mx) in *.
  destruct (Z.eqb_spec s 0) as [->|Hs]; f_equal;
    repeat match goal with |- context [?a <? ?b] => destruct (Z.ltb_spec a b) end; unfold MaxInt64 in *; lia.
Qed.

(** Starting from a section without validity, updating with every signature gives the
    earliest start and the latest end of the signatures, both cut off at the maximal
    validity from now on; in particular neither lies beyond it. *)
Theorem UpdateValidity_fold now maxValidity a sigs :
  let limit := unix_after now maxValidity in
  0 < limit < MaxInt64 → Forall (λ v, 0 < v.1 < MaxInt64) sigs → sigs ≠ [] →
  aValidSince a = 0 → aValidUntil a = 0 →
  let a' := update_all now maxValidity a sigs in
  aValidSince a' = Z.min limit (min_since limit sigs) ∧ aValidUntil a' = Z.min limit (max_until sigs) ∧
  aSubjectName a' = aSubjectName a ∧ aContent a' = aContent a ∧ aSignatures a' = aSignatures a.
Proof.
  intros limit HL HF Hne Hs Hu. cbv zeta.
  assert (∀ sigs a, Forall (λ v, 0 < v.1 < MaxInt64) sigs → 0 ≤ aValidUntil a ≤ limit → 0 < aValidSince a ≤ limit →
    let a' := update_all now maxValidity a sigs in
    aValidSince a' = Z.min (aValidSince a) (min_since limit sigs) ∧
    aValidUntil a' = Z.max (aValidUntil a) (Z.min limit (max_until sigs)) ∧
    aSubjectName a' = aSubjectName a ∧ aContent a' = aContent a ∧ aSignatures a' = aSignatures a) as G.
  { clear - HL. intros sigs. induction sigs as [|[vs vu] sigs IH]; intros a HF Hu Hs; simpl.
    { split_and!; try done; lia. }
    apply Forall_cons_1 in HF as [Hv HF]. simpl in Hv.
    pose proof (max_until_nonneg sigs). pose proof (min_since_limit limit sigs).
    pose proof (UpdateValidity_step now vs vu (aValidSince a) (aValidUntil a) maxValidity Hv HL Hu (or_intror Hs)) as U.
    rewrite (proj2 (Z.eqb_neq (aValidSince a) 0)) in U by lia. fold limit in U.
    unfold Assertion_UpdateValidity at 1 2 3 4 5. rewrite U.
    specialize (IH (Assertion_set_validity a
      (Z.min vs (aValidSince a), Z.max (aValidUntil a) (Z.min vu limit))) HF). simpl in IH.
    destruct IH as (-> & -> & -> & -> & ->); [lia|lia|]. split_and!; try done; lia. }
  destruct sigs as [|[vs vu] sigs]; [done|]. simpl. apply Forall_cons_1 in HF as [Hv HF]. simpl in Hv.
  pose proof (max_until_nonneg sigs). pose proof (min_since_limit limit sigs).
  pose proof (UpdateValidity_step now vs vu 0 0 maxValidity Hv HL) as U. fold limit in U.
  specialize (U ltac:(lia) (or_introl eq_refl)). rewrite Z.eqb_refl in U.
  unfold Assertion_UpdateValidity at 1 2 3 4 5. rewrite Hs, Hu, U.
  specialize (G sigs (Assertion_set_validity a (Z.min vs limit, Z.max 0 (Z.min vu limit))) HF). simpl in G.
  destruct G as (-> & -> & -> & -> & ->); [lia|lia|]. split_and!; try done; lia.
Qed.

Lemma UpdateValidity_fold_witness :
  aValidUntil (update_all 1000000000000 3600000000000 zeroAssertion [(10, 90); (5, 9999)]) = 4600.
Proof.
  rewrite (proj1 (proj2 (UpdateValidity_fold 1000000000000 3600000000000 zeroAssertion [(10, 90); (5, 9999)]
    ltac:(vm_compute; split; reflexivity) ltac:(repeat constructor) ltac:(discriminate) eq_refl eq_refl))).
  reflexivity.
Defined.

(** ** Canonical order of assertions *)

Section AssertionOrder.
Context {OL : ObjLib} {OLL : ObjLibLaws}.

(** Objects on which [Sort] does not panic. *)
Definition sortable (o : Object) : Prop := object_wf o ∧ objType o ≠ OTExtraKey.
Definition assertion_wf (a : Assertion) : Prop := Forall object_wf (aContent a).

Lemma Assertion_CompareTo_list a b :
  Assertion_CompareTo a b =
    str_cmp (aSubjectName a) (aSubjectName b) <?> str_cmp (aSubjectZone a) (aSubjectZone b) <?>
    str_cmp (aContext a) (aContext b) <?> list_cmp Object_CompareTo (aContent a) (aContent b).
Proof. done. Qed.

#[export] Instance Assertion_CompareTo_on : CmpOn assertion_wf Assertion_CompareTo.
Proof.
  eapply CmpOn_ext; [intros; apply Assertion_CompareTo_list|].
  do 3 (apply CmpOn_lex; [by solve_cmp_on|]).
  apply (CmpOn_by _ (Forall object_wf) aContent (list_cmp Object_CompareTo)); [apply _|done].
Qed.

Lemma Assertion_CompareTo_zero a b :
  assertion_wf a → assertion_wf b → Assertion_CompareTo a b = 0 →
  aSubjectName a = aSubjectName b ∧ aSubjectZone a = aSubjectZone b ∧
  aContext a = aContext b ∧ aContent a = aContent b.
Proof.
  intros Ha Hb. rewrite Assertion_CompareTo_list. intros E. split_lex. fields_equal.
  apply (cmp_zero (P:=Forall object_wf)) in E; done.
Qed.

Definition sorted_obj (o : Object) : Object :=
  match objValue o with
  | VName n => mkObject (objType o) (VName (mkObjName (onName n) (sort_slice Z.ltb (onTypes n))))
  | _ => o
  end.

Lemma Object_Sort_ok o : objType o ≠ OTExtraKey → Object_Sort o = Ok (sorted_obj o).
Proof. intros H. unfold Object_Sort. by rewrite (proj2 (Z.eqb_neq _ _) H). Qed.

Lemma sorted_obj_wf o : object_wf o → object_wf (sorted_obj o).
Proof. destruct o as [t v]. by destruct v. Qed.

Lemma Assertion_Sort_ok a :
  Forall sortable (aContent a) →
  Assertion_Sort a = Ok (mkAssertion (aSignatures a) (aSubjectName a) (aSubjectZone a) (aContext a)
    (sort_slice (λ x y, Object_CompareTo x y <? 0) (sorted_obj <$> aContent a)) (aValidSince a) (aValidUntil a) (aSign a)).
Proof.
  intros H. unfold Assertion_Sort.
  assert (traverse Object_Sort (aContent a) = Ok (sorted_obj <$> aContent a)) as ->; [|done].
  apply traverse_ok. induction H as [|o l [_ Ho] _ IH]; simpl; constructor; [by apply Object_Sort_ok|done].
Qed.

Lemma sortable_sorted_wf l : Forall sortable l → Forall object_wf (sorted_obj <$> l).
Proof.
  intros H. apply Forall_fmap. eapply Forall_impl; [exact H|]. intros o [Ho _]. by apply sorted_obj_wf.
Qed.

(** [Assertion.Sort] succeeds on assertions of well-typed objects without external
    keys, orders the content, and is canonical: assertions whose contents are
    permutations of each other are sorted to the same content, so their encodings and
    hashes agree. *)
Theorem Assertion_Sort_canonical a b :
  Forall sortable (aContent a) → aContent a ≡ₚ aContent b →
  ∃ a' b', Assertion_Sort a = Ok a' ∧ Assertion_Sort b = Ok b' ∧
           aContent a' = aContent b' ∧ aContent a' ≡ₚ sorted_obj <$> aContent a ∧
           StronglySorted (λ x y, Object_CompareTo x y ≤ 0) (aContent a') ∧
           aSubjectName a' = aSubjectName a ∧ aSignatures a' = aSignatures a.
Proof.
  intros Ha P. assert (Forall sortable (aContent b)) as Hb by (by rewrite <-P).
  rewrite !Assertion_Sort_ok by done. do 2 eexists. split; [done|]. split; [done|]. simpl.
  pose proof (sortable_sorted_wf _ Ha) as Wa. pose proof (sortable_sorted_wf _ Hb) as Wb.
  split_and!; try done.
  - apply (sort_slice_unique object_wf Object_CompareTo); [done| |by eapply sort_slice_sorted; [apply _|]].
    rewrite sort_slice_Permutation. by rewrite P.
  - apply sort_slice_Permutation.
  - by eapply sort_slice_sorted; [apply _|].
Qed.
End AssertionOrder.

Lemma Assertion_Sort_canonical_witness :
  let x := mkObject OTIP4Addr (VIP [10; 0; 0; 1]) in
  let y := mkObject OTName (VName (mkObjName "n" [3; 2])) in
  let mk c := mkAssertion [] "www" "ethz.ch." "." c 0 0 false in
  ∃ a' b', @Assertion_Sort be_objlib (mk [x; y]) = Ok a' ∧ @Assertion_Sort be_objlib (mk [y; x]) = Ok b' ∧
           aContent a' = aContent b'.
Proof.
  intros x y mk.
  destruct (@Assertion_Sort_canonical be_objlib be_objlib_laws (mk [x; y]) (mk [y; x])) as (a' & b' & H1 & H2 & H3 & _).
  - constructor; [split; [split; [right; reflexivity|exact I]|discriminate]|].
    constructor; [split; [split; [reflexivity|exact I]|discriminate]|constructor].
  - apply perm_swap.
  - exists a', b'. split; [exact H1|]. split; [exact H2|exact H3].
Defined.

(** ** Pshards *)

Lemma substring_empty s : String.substring 0 0 s = ""%string.
Proof. by destruct s. Qed.

Section Pshards.
Context {BL : BloomLib} {CW : CborWriter}.

Lemma add_types_ok objs bf name zone ctx :
  filter_ok (bfFilter bf) → hash_supported (bfHash bf) →
  ∃ bf', add_types bf name zone ctx objs = Ok bf' ∧ filter_ok (bfFilter bf') ∧ bfHash bf' = bfHash bf ∧
         (∀ o, o ∈ objs → BloomFilter_Contains bf' name zone ctx (objType o) = Ok true) ∧
         (∀ n z c t, BloomFilter_Contains bf n z c t = Ok true → BloomFilter_Contains bf' n z c t = Ok true).
Proof.
  revert bf. induction objs as [|o objs IH]; intros bf Hf Hh; simpl.
  { exists bf. split_and!; try done. intros o Ho. by apply elem_of_nil in Ho. }
  destruct (BloomFilter_Add_Contains bf name zone ctx (objType o) Hf Hh)
    as (b1 & -> & Hc & Hm & Hf1 & _ & Hh1). simpl.
  destruct (IH b1) as (b2 & -> & Hf2 & Hh2 & Hin & Hmono); [done|by rewrite Hh1|].
  exists b2. split_and!; try done; [congruence| |auto].
  intros o' [->|Ho]%elem_of_cons; auto.
Qed.

Lemma nonexistent_loop_false s name types t :
  t ∈ types → BloomFilter_Contains (pBloomFilter s) name (pSubjectZone s) (pContext s) t = Ok true →
  nonexistent_loop s name types ≠ Ok true.
Proof.
  intros Ht Hc. induction types as [|x types IH]; [by apply elem_of_nil in Ht|]. simpl.
  apply elem_of_cons in Ht as [->|Ht]; [by rewrite Hc|].
  destruct (BloomFilter_Contains _ _ _ _ x) as [[]| |]; try done. by apply IH.
Qed.

(** What [AddAssertion] asks of the pshard and the assertion: a filter of at least one
    byte, a hash algorithm the filter knows, and an assertion of the pshard's own context,
    zone and range. *)
Definition admits (s : Pshard) (a : Assertion) : Prop :=
  filter_ok (bfFilter (pBloomFilter s)) ∧ hash_supported (bfHash (pBloomFilter s)) ∧
  aContext a = pContext s ∧ aSubjectZone a = pSubjectZone s ∧ Pshard_InRange s (aSubjectName a) = true.

(** C38: once an assertion has been added to a pshard, the pshard never claims that a
    query for the same name, context and one of its types does not exist; and the test
    as written refuses every query whose name ends in the pshard's own zone. *)
Theorem IsNonexistent_sound s a q :
  admits s a →
  ∃ s', Pshard_AddAssertion s a = Ok s' ∧
        (TrimSuffix (qName q) (pSubjectZone s) = aSubjectName a →
         (∃ o, o ∈ aContent a ∧ objType o ∈ qTypes q) → Pshard_IsNonexistent s' q ≠ Ok true) ∧
        (HasSuffix (qName q) (pSubjectZone s) = true → is_err (Pshard_IsNonexistent s' q) = true).
Proof.
  intros (Hf & Hh & Hc & Hz & Hr). unfold Pshard_AddAssertion. rewrite Hc, Hz, !str_eqb_refl, Hr. simpl.
  destruct (add_types_ok (aContent a) (pBloomFilter s) (aSubjectName a) (pSubjectZone s) (pContext s) Hf Hh)
    as (bf & -> & _ & _ & Hin & _). simpl. eexists; split; [done|]. unfold Pshard_IsNonexistent. simpl. split.
  - intros Hn (o & Ho & Ht). repeat case_match; try done. rewrite Hn in *.
    eapply nonexistent_loop_false; [exact Ht|]. simpl. by apply Hin.
  - intros Hs. rewrite Hs. by destruct (negb _).
Qed.
End Pshards.

Lemma IsNonexistent_sound_witness :
  let s := mkPshard [] "ethz.ch." "." "" "" (mkBloomFilter BloomKM12 Shake256 [0; 0]) 0 0 false in
  let a := mkAssertion [] "www" "ethz.ch." "." [mkObject OTIP4Addr (VIP [1; 2; 3; 4])] 0 0 false in
  ∃ s', @Pshard_AddAssertion toy_bloom toy_cbor s a = Ok s' ∧
        @Pshard_IsNonexistent toy_bloom toy_cbor s' (mkQueryName "." "www" [OTIP4Addr] 0 [] 0 0) ≠ Ok true ∧
        is_err (@Pshard_IsNonexistent toy_bloom toy_cbor s' (mkQueryName "." "www.ethz.ch." [OTIP4Addr] 0 [] 0 0)) = true.
Proof.
  intros s a.
  assert (admits s a) as H by (split; [split; [discriminate|vm_compute; reflexivity]|split; [left|]; done]).
  destruct (@IsNonexistent_sound toy_bloom toy_cbor s a (mkQueryName "." "www" [OTIP4Addr] 0 [] 0 0)
    H) as (s' & E & Hn & _).
  destruct (@IsNonexistent_sound toy_bloom toy_cbor s a (mkQueryName "." "www.ethz.ch." [OTIP4Addr] 0 [] 0 0)
    H) as (s'' & E' & _ & He).
  rewrite E in E'. injection E' as <-. exists s'. split; [exact E|]. split.
  - apply Hn; [reflexivity|]. exists (mkObject OTIP4Addr (VIP [1; 2; 3; 4])). split; left.
  - apply He. reflexivity.
Defined.
