(* ===== verification/Message.v ===== *)
(** * Messages

    Models attic/internal/pkg/message/message.go: the message, its CBOR encoding and
    decoding; and the message constructors and signature-window computation of
    attic/internal/pkg/util/rainslibUtil.go. *)

From S2P Require Import Prelude Cbor Keys Object Query BitArray BloomFilter Section.
Local Open Scope Z_scope.

(** [section.Section] behind the interface: the dynamic types the program uses. *)
Inductive AnySection :=
| SecAssertion (a : Assertion)
| SecShard (s : Shard)
| SecPshard (p : Pshard)
| SecZone (z : Zone)
| SecQuery (q : QueryName)
| SecNotification (n : Notification).

Record Message := mkMessage {
  mCapabilities : list string;
  mToken : Token;
  mContent : list AnySection;
  mSignatures : list Sig
}.

(** [message.Message{}]: the token is an array of sixteen bytes. *)
Definition zeroMessage : Message := mkMessage [] (replicate 16 0) [] [].

Definition rainsTag : Z := 0xE99BA8.
Definition NoCapability : string := "urn:x-rains:nocapability".
Definition TLSOverTCP : string := "urn:x-rains:tlssrv".

(** The reader and the writer of the CBOR library: a stream is what is left to read; the
    writer appends to what was written. *)
Class CborStream := {
  stream : Type;
  ReadTag : stream → outcome (Z * stream);
  ReadIntMapUntagged : stream → outcome (list (Z * cval) * stream);
  WriteTag : Z → stream → outcome stream;
  WriteIntMap : list (Z * cval) → stream → outcome stream;
  empty_stream : stream
}.

(** A tag and a map written to an empty stream are accepted and read back. *)
Class CborStreamLaws `{CborStream} : Prop := {
  stream_roundtrip tag m : ∃ w1 w2 r1 r2,
    WriteTag tag empty_stream = Ok w1 ∧ WriteIntMap m w1 = Ok w2 ∧
    ReadTag w2 = Ok (tag, r1) ∧ ReadIntMapUntagged r1 = Ok (m, r2)
}.

Section Messages.
Context {OL : ObjLib}.

(** The [switch t] of the decoder: an unknown section type is skipped. *)
Definition read_section (t : Z) (val : list (Z * cval)) : outcome (option AnySection) :=
  if t =? 1 then a ← Assertion_UnmarshalMap zeroAssertion val; Ok (Some (SecAssertion a))
  else if t =? 2 then s ← Shard_UnmarshalMap zeroShard val; Ok (Some (SecShard s))
  else if t =? 3 then s ← Pshard_UnmarshalMap zeroPshard val; Ok (Some (SecPshard s))
  else if t =? 4 then z ← Zone_UnmarshalMap zeroZone val; Ok (Some (SecZone z))
  else if t =? 5 then q ← Query_UnmarshalMap val; Ok (Some (SecQuery q))
  else if t =? 23 then n ← Notification_UnmarshalMap val; Ok (Some (SecNotification n))
  else Ok None.

Definition read_elem (elem : cval) : outcome (option AnySection) :=
  elem' ← or_err (as_arr elem) "cbor msg encoding of a content array's entry should be an array";
  e0 ← at_index elem' 0;
  t ← or_err (as_int e0) "cbor msg encoding of a section must start with its type";
  e1 ← at_index elem' 1;
  val ← or_err (as_map e1) "cbor msg encoding of a section must end with a map";
  read_section t val.

(** [for _, elem := range content { ...; rm.Content = append(rm.Content, ...) }] *)
Fixpoint read_sections (acc : list AnySection) (content : list cval) : outcome (list AnySection) :=
  match content with
  | [] => Ok acc
  | elem :: content' => s ← read_elem elem; read_sections (acc ++ option_list s) content'
  end.

Definition Message_UnmarshalMap (rm : Message) (m : list (Z * cval)) : outcome Message :=
  sigs ← (match imap_get m 0 ≫= as_arr with
          | Some sigs => read_sigs "cbor zone signatures entry is not an array" sigs
          | None => Ok (mSignatures rm)
          end);
  caps ← (match imap_get m 1 ≫= as_arr with
          | Some caps => traverse (λ cap, or_err (as_str cap)
              "cbor msg encoding of a capability array's element should be a string") caps
          | None => Ok (mCapabilities rm)
          end);
  tok ← read_token m "cbor message encoding of the token should be a byte array of length 16";
  content ← field as_arr m 23 "cbor msg encoding of the content should be an array";
  sections ← read_sections (mContent rm) content;
  Ok (mkMessage caps tok sections sigs).

Definition Message_UnmarshalCBOR `{!CborStream} (rm : Message) (r : stream) : outcome Message :=
  '(tag, r) ← ReadTag r;
  if negb (tag =? rainsTag) then Err "expected tag for RAINS message"
  else
    '(m, r) ← ReadIntMapUntagged r;
    Message_UnmarshalMap rm m.

(** [[2]interface{}{t, sect}], with the section's own marshaller. *)
Definition section_tag (sect : AnySection) : Z :=
  match sect with
  | SecAssertion _ => 1 | SecShard _ => 2 | SecPshard _ => 3 | SecZone _ => 4 | SecQuery _ => 5 | SecNotification _ => 23
  end.
Definition section_MarshalMap (sect : AnySection) : outcome (list (Z * cval)) :=
  match sect with
  | SecAssertion a => Assertion_MarshalMap a
  | SecShard s => Shard_MarshalMap s
  | SecPshard s => Ok (Pshard_MarshalMap s)
  | SecZone z => Zone_MarshalMap z
  | SecQuery q => Ok (Query_MarshalMap q)
  | SecNotification n => Ok (Notification_MarshalMap n)
  end.
Definition write_elem (sect : AnySection) : outcome cval :=
  m ← section_MarshalMap sect; Ok (CArr [CInt (section_tag sect); CMap m]).

Definition Message_MarshalMap (rm : Message) : outcome (list (Z * cval)) :=
  msgsect ← traverse write_elem (mContent rm);
  let m := imap_set_if (bool_decide (mSignatures rm ≠ [])) [] 0 (write_sigs (mSignatures rm)) in
  let m := imap_set_if (bool_decide (mCapabilities rm ≠ [])) m 1 (CArr (CStr <$> mCapabilities rm)) in
  let m := imap_set m 2 (CBytes (mToken rm)) in
  Ok (imap_set m 23 (CArr msgsect)).

Definition Message_MarshalCBOR `{!CborStream} (rm : Message) (w : stream) : outcome stream :=
  w ← WriteTag rainsTag w;
  m ← Message_MarshalMap rm;
  WriteIntMap m w.
End Messages.

(** ** rainslibUtil.go *)

Definition NewQueryMessage (name context : string) (expTime : Z) (objType queryOptions : list Z) (token : Token) : Message :=
  mkMessage [] token [SecQuery (mkQueryName context name objType expTime queryOptions 0 0)] [].

(** [newToken] is what [token.New()] returns. *)
Definition NewNotificationsMessage (newToken : Token) (tokens : list Token) (types : list Z) (data : list string)
    : outcome Message :=
  if negb ((length tokens =? length types)%nat && (length types =? length data)%nat)
  then Err "input slices have not the same length"
  else
    content ← traverse (λ i, tok ← at_index tokens (Z.of_nat i); t ← at_index types (Z.of_nat i);
                             d ← at_index data (Z.of_nat i); Ok (SecNotification (mkNotification tok t d)))
                       (seq 0 (length tokens));
    Ok (mkMessage [] newToken content []).

Definition NewNotificationMessage (newToken tok : Token) (t : Z) (data : string) : Message :=
  match NewNotificationsMessage newToken [tok] [t] [data] with Ok msg => msg | _ => zeroMessage end.

Fixpoint overlap_loop (until : Z) (bySince : list Sig) : option Z :=
  match bySince with
  | [] => Some until
  | s :: bySince' =>
      if until <? sigValidSince s then None
      else overlap_loop (if until <? sigValidUntil s then sigValidUntil s else until) bySince'
  end.

(** The body after [sort.Slice]. *)
Definition overlap_sorted (bySince : list Sig) : Z * Z :=
  match bySince with
  | [] => (0, 0)
  | first :: rest =>
      match overlap_loop (sigValidUntil first) rest with
      | Some until => (sigValidSince first, until)
      | None => (0, 0)
      end
  end.

Definition GetOverlapValidityForSignatures (sigs : list Sig) : Z * Z :=
  overlap_sorted (sort_slice (λ s t, sigValidSince s <? sigValidSince t) sigs).

(** ** What the wire keeps of a section

    Validity is not encoded, key objects lose the fields [canon] resets, and the sender's
    [sign] flag must be clear for signatures to be written. *)

Definition sig_ok (s : Sig) : Prop := sigSign s = false ∧ ∃ b, sigData s = DataBytes b.
Definition object_ok (o : Object) : Prop := value_typed (objType o) (objValue o) ∧ value_encodable (objValue o).
Definition assertion_ok (a : Assertion) : Prop :=
  aSign a = false ∧ aSubjectName a ≠ "" ∧ Forall sig_ok (aSignatures a) ∧ Forall object_ok (aContent a).
Definition assertion_wire (a : Assertion) : Assertion :=
  mkAssertion (aSignatures a) (aSubjectName a) (aSubjectZone a) (aContext a) (canon <$> aContent a) 0 0 false.

(** Shards, pshards and zones are only decoded with signatures, zone and context. *)
Definition section_ok (s : AnySection) : Prop :=
  match s with
  | SecAssertion a => assertion_ok a
  | SecShard s => sSign s = false ∧ sSignatures s ≠ [] ∧ Forall sig_ok (sSignatures s) ∧ sSubjectZone s ≠ "" ∧
      sContext s ≠ "" ∧ Forall assertion_ok (sContent s)
  | SecPshard s => pSign s = false ∧ pSignatures s ≠ [] ∧ Forall sig_ok (pSignatures s) ∧ pSubjectZone s ≠ "" ∧
      pContext s ≠ ""
  | SecZone z => zSign z = false ∧ zSignatures z ≠ [] ∧ Forall sig_ok (zSignatures z) ∧ Forall assertion_ok (zContent z)
  | SecQuery _ => True
  | SecNotification n => length (nToken n) = 16%nat
  end.
Definition section_wire (s : AnySection) : AnySection :=
  match s with
  | SecAssertion a => SecAssertion (assertion_wire a)
  | SecShard s => SecShard (mkShard (sSignatures s) (sSubjectZone s) (sContext s) (sRangeFrom s) (sRangeTo s)
      (assertion_wire <$> sContent s) 0 0 false)
  | SecPshard s => SecPshard (mkPshard (pSignatures s) (pSubjectZone s) (pContext s) (pRangeFrom s) (pRangeTo s)
      (pBloomFilter s) 0 0 false)
  | SecZone z => SecZone (mkZone (zSignatures z) (zSubjectZone z) (zContext z) (assertion_wire <$> zContent z) 0 0 false)
  | s => s
  end.
Definition message_ok (m : Message) : Prop :=
  length (mToken m) = 16%nat ∧ Forall sig_ok (mSignatures m) ∧ Forall section_ok (mContent m).

Lemma bool_decide_ne_nil {A} (l : list A) `{!Decision (l ≠ [])} : l ≠ [] → bool_decide (l ≠ []) = true.
Proof. intros. by apply bool_decide_eq_true_2. Qed.

Lemma Sig_wire s : sig_ok s → Sig_UnmarshalArray zeroSig (Sig_MarshalArray s) = Ok s.
Proof.
  intros [Hs [b Hb]]. destruct s as [[a k p] vs vu d s]. simpl in *. subst. simpl.
  destruct b; done.
Qed.

Lemma read_sigs_wire msg sigs :
  Forall sig_ok sigs → read_sigs msg ((λ s, CArr (Sig_MarshalArray s)) <$> sigs) = Ok sigs.
Proof.
  intros H. unfold read_sigs. rewrite <-(map_id sigs) at 2. apply (traverse_map _ _ (λ s, s)).
  eapply Forall_impl; [done|]. intros s Hs. simpl. by apply Sig_wire.
Qed.

Section Wire.
Context {OL : ObjLib} {OLL : ObjLibLaws}.

(** Writing the elements of a slice and reading them back. *)
Lemma traverse_wire {A B} (P : A → Prop) (write : A → outcome cval) (read : cval → outcome B) (wire : A → B) l :
  (∀ x, P x → ∃ c, write x = Ok c ∧ read c = Ok (wire x)) → Forall P l →
  ∃ cs, traverse write l = Ok cs ∧ traverse read cs = Ok (wire <$> l).
Proof.
  intros Hw. induction 1 as [|x l Hx Hl (cs & E1 & E2)]; [by exists []|].
  destruct (Hw x Hx) as (c & F1 & F2). exists (c :: cs). simpl. by rewrite F1, E1, F2; simpl; rewrite E2.
Qed.

Lemma Assertion_wire a : assertion_ok a →
  ∃ m, Assertion_MarshalMap a = Ok m ∧ Assertion_UnmarshalMap zeroAssertion m = Ok (assertion_wire a).
Proof.
  intros (Hs & Hn & Hsig & Hobj).
  destruct (traverse_wire object_ok Object_MarshalCBOR
    (λ obj, o ← or_panic (as_arr obj) "interface conversion"; Object_UnmarshalArray o) canon (aContent a)) as (cs & E1 & E2).
  { intros o [H1 H2]. destruct (roundtrip_value o H1 H2) as (l & R1 & R2). exists (CArr l).
    unfold Object_MarshalCBOR. by rewrite R1. }
  { done. }
  unfold Assertion_MarshalMap. rewrite E1. simpl. eexists; split; [done|].
  unfold Assertion_UnmarshalMap, field. simplify_imap.
  rewrite Hs, (str_eqb_neq (aSubjectName a) "") by done. simpl.
  destruct (bool_decide_reflect (aSignatures a ≠ [])) as [Hne|He]; simpl.
  - rewrite read_sigs_wire by done. simpl. rewrite E2. simpl. unfold assertion_wire.
    destruct (String.eqb_spec (aSubjectZone a) "") as [->|], (String.eqb_spec (aContext a) "") as [->|]; simpl; done.
  - rewrite E2. simpl. unfold assertion_wire. assert (aSignatures a = []) as -> by (destruct (aSignatures a); [done|by destruct He]).
    destruct (String.eqb_spec (aSubjectZone a) "") as [->|], (String.eqb_spec (aContext a) "") as [->|]; simpl; done.
Qed.

Lemma content_wire msg l : Forall assertion_ok l →
  ∃ cs, traverse Assertion_MarshalCBOR l = Ok cs ∧ read_content msg cs = Ok (assertion_wire <$> l).
Proof.
  apply (traverse_wire assertion_ok Assertion_MarshalCBOR). intros a (m & E1 & E2)%Assertion_wire.
  exists (CMap m). unfold Assertion_MarshalCBOR. by rewrite E1.
Qed.

Lemma section_roundtrip s : section_ok s →
  ∃ m, section_MarshalMap s = Ok m ∧ read_section (section_tag s) m = Ok (Some (section_wire s)).
Proof.
  destruct s as [a|s|s|z|q|n]; simpl.
  - intros (m & E1 & E2)%Assertion_wire. exists m. split; [done|]. unfold read_section. simpl. by rewrite E2.
  - intros (Hs & Hne & Hsig & Hz & Hc & Hcont).
    destruct (content_wire "cbor shard content entry is not a map" _ Hcont) as (cs & E1 & E2).
    unfold Shard_MarshalMap. rewrite E1. simpl. eexists; split; [done|].
    unfold read_section. simpl. unfold Shard_UnmarshalMap, field, read_range, field. simplify_imap.
    rewrite Hs, bool_decide_ne_nil, !(str_eqb_neq _ "") by done. simpl.
    rewrite read_sigs_wire by done. simpl. by rewrite E2.
  - intros (Hs & Hne & Hsig & Hz & Hc). eexists; split; [done|].
    unfold read_section. simpl. unfold Pshard_UnmarshalMap, Pshard_MarshalMap, field, read_range, field. simplify_imap.
    rewrite Hs, bool_decide_ne_nil, !(str_eqb_neq _ "") by done. simpl.
    rewrite read_sigs_wire by done. simpl. by destruct (pBloomFilter s).
  - intros (Hs & Hne & Hsig & Hcont).
    destruct (content_wire "cbor zone content entry is not a map" _ Hcont) as (cs & E1 & E2).
    unfold Zone_MarshalMap. rewrite E1. simpl. eexists; split; [done|].
    unfold read_section. simpl. unfold Zone_UnmarshalMap, field. simplify_imap.
    rewrite Hs, bool_decide_ne_nil by done. simpl.
    rewrite read_sigs_wire by done. simpl. by rewrite E2.
  - intros _. eexists; split; [done|]. unfold read_section. simpl. by rewrite Query_roundtrip.
  - intros Ht. eexists; split; [done|]. unfold read_section. simpl.
    unfold Notification_UnmarshalMap, read_token. simpl. rewrite Ht. simpl. by destruct n.
Qed.

Lemma read_sections_wire acc l : Forall section_ok l →
  ∃ cs, traverse write_elem l = Ok cs ∧ read_sections acc cs = Ok (acc ++ (section_wire <$> l)).
Proof.
  intros H. revert acc. induction H as [|s l Hs Hl IH]; intros acc; simpl.
  { exists []. simpl. by rewrite app_nil_r. }
  destruct (section_roundtrip s Hs) as (m & E1 & E2). destruct (IH (acc ++ [section_wire s])) as (cs & F1 & F2).
  rewrite F1. unfold write_elem at 1. rewrite E1. simpl. eexists; split; [done|]. simpl.
  unfold read_elem. simpl. rewrite E2. simpl. rewrite F2. by rewrite <-app_assoc.
Qed.

Lemma strings_wire msg l : traverse (λ cap, or_err (as_str cap) msg) (CStr <$> l) = Ok l.
Proof. rewrite <-(map_id l) at 2. apply (traverse_map _ CStr (λ x, x)). by apply Forall_true. Qed.

Lemma Message_wire `{!CborStream, !CborStreamLaws} rm : message_ok rm →
  ∃ w, Message_MarshalCBOR rm empty_stream = Ok w ∧
       Message_UnmarshalCBOR zeroMessage w =
         Ok (mkMessage (mCapabilities rm) (mToken rm) (section_wire <$> mContent rm) (mSignatures rm)).
Proof.
  intros (Ht & Hs & Hc). destruct (read_sections_wire [] _ Hc) as (cs & E1 & E2).
  unfold Message_MarshalCBOR, Message_MarshalMap. rewrite E1. simpl.
  match goal with |- context [WriteIntMap ?m _] =>
    destruct (stream_roundtrip rainsTag m) as (w1 & w2 & r1 & r2 & W1 & W2 & R1 & R2) end.
  rewrite W1. simpl. rewrite W2. simpl. exists w2. split; [done|].
  unfold Message_UnmarshalCBOR. rewrite R1. simpl. rewrite R2. simpl.
  unfold Message_UnmarshalMap, read_token, field. simplify_imap. simpl. rewrite Ht. simpl.
  destruct (bool_decide_reflect (mSignatures rm ≠ [])) as [|Hns]; simpl.
  - rewrite read_sigs_wire by done. simpl.
    destruct (bool_decide_reflect (mCapabilities rm ≠ [])) as [|Hnc]; simpl.
    + rewrite strings_wire. simpl. by rewrite E2.
    + rewrite E2. simpl. by destruct (mCapabilities rm); [|destruct Hnc].
  - assert (mSignatures rm = []) as -> by (by destruct (mSignatures rm); [|destruct Hns]).
    destruct (bool_decide_reflect (mCapabilities rm ≠ [])) as [|Hnc]; simpl.
    + rewrite strings_wire. simpl. by rewrite E2.
    + rewrite E2. simpl. by destruct (mCapabilities rm); [|destruct Hnc].
Qed.

(** C1: a well-formed message written by [MarshalCBOR] is read back by [UnmarshalCBOR]:
    token, capabilities and signatures are preserved, the sections arrive in order with
    their contents, up to the validity (which is not transmitted) and the fields of key
    objects that are not part of the encoding. *)
Theorem Message_roundtrip `{!CborStream, !CborStreamLaws} rm : message_ok rm →
  ∃ w, Message_MarshalCBOR rm empty_stream = Ok w ∧
       Message_UnmarshalCBOR zeroMessage w =
         Ok (mkMessage (mCapabilities rm) (mToken rm) (section_wire <$> mContent rm) (mSignatures rm)).
Proof. apply Message_wire. Qed.
End Wire.

(** ** Decoding arbitrary input *)

(** The arrays of a decoded tree are long enough for the decoder's index expressions. *)
Definition obj_shaped (c : cval) : Prop :=
  ∃ inp x, as_arr c = Some inp ∧ head inp = Some x ∧ ∀ t, as_int x = Some t → (arity t ≤ length inp)%nat.
Definition assertion_shaped (m : list (Z * cval)) : Prop :=
  ∀ c, imap_get m 7 = Some c → ∃ l, as_arr c = Some l ∧ Forall obj_shaped l.
Definition content_shaped (m : list (Z * cval)) : Prop :=
  ∀ l, imap_get m 23 ≫= as_arr = Some l → ∀ c a, c ∈ l → as_map c = Some a → assertion_shaped a.
Definition range_shaped (m : list (Z * cval)) : Prop :=
  ∀ l, imap_get m 11 ≫= as_arr = Some l → (2 ≤ length l)%nat.
Definition section_shaped (t : Z) (m : list (Z * cval)) : Prop :=
  (t = 1 → assertion_shaped m) ∧ (t = 2 → content_shaped m ∧ range_shaped m) ∧ (t = 3 → range_shaped m) ∧
  (t = 4 → content_shaped m).
Definition elem_shaped (c : cval) : Prop :=
  ∀ l, as_arr c = Some l → (2 ≤ length l)%nat ∧ ∀ t m, l !! 0%nat = Some (CInt t) → l !! 1%nat = Some (CMap m) → section_shaped t m.
Definition message_shaped (m : list (Z * cval)) : Prop :=
  ∀ l, imap_get m 23 ≫= as_arr = Some l → Forall elem_shaped l.

(** Every object of the section has a value of its type. *)
Definition assertion_typed (a : Assertion) : Prop := Forall (λ o, value_typed (objType o) (objValue o)) (aContent a).
Definition section_typed (s : AnySection) : Prop :=
  match s with
  | SecAssertion a => assertion_typed a
  | SecShard s => Forall assertion_typed (sContent s)
  | SecZone z => Forall assertion_typed (zContent z)
  | SecNotification n => length (nToken n) = 16%nat
  | _ => True
  end.

Section Decode.
Context {OL : ObjLib} {OLL : ObjLibLaws}.

Lemma np_traverse_elems {A B} (f : A → outcome B) l : (∀ x, x ∈ l → np (f x)) → np (traverse f l).
Proof.
  induction l as [|x l IH]; intros H; simpl; [done|]. apply np_bind; [apply H; by left|]. intros y _.
  apply np_bind; [apply IH; intros z Hz; apply H; by right|]. done.
Qed.

Lemma np_read_sigs msg l : np (read_sigs msg l).
Proof.
  apply np_traverse. intros c. apply np_bind; [apply np_or_err|]. intros inp _. unfold Sig_UnmarshalArray.
  repeat (case_match; try done). repeat (apply np_bind; [apply np_or_err|intros ? _]). done.
Qed.

Lemma np_field {A} (as_T : cval → option A) m k msg : np (field as_T m k msg).
Proof. apply np_or_err. Qed.

Ltac np_step := first [apply np_bind; [|intros ? ?] | apply np_field | apply np_read_sigs | apply np_or_err | done].

Lemma np_object c : obj_shaped c →
  np (o ← or_panic (as_arr c) "interface conversion"; Object_UnmarshalArray o).
Proof.
  intros (inp & x & -> & Hx & Ht). simpl. destruct inp as [|y inp]; [done|]. simpl in Hx. simplify_eq.
  unfold Object_UnmarshalArray. apply np_bind; [apply np_or_err|]. intros t Hi.
  apply np_bind; [|done]. apply read_value_no_panic, Ht. unfold arg_int in Hi. simpl in Hi.
  by apply or_err_Ok in Hi.
Qed.

Lemma np_assertion a m : assertion_shaped m → np (Assertion_UnmarshalMap a m).
Proof.
  intros H. unfold Assertion_UnmarshalMap. apply np_bind; [case_match; np_step|]. intros ? _. np_step; [np_step|].
  destruct (imap_get m 7) as [c|] eqn:E; simpl; [|done]. destruct (H c E) as (l & -> & Hl). simpl.
  apply np_bind; [|done]. apply np_traverse_elems. intros o Ho. rewrite Forall_forall in Hl. by apply np_object, Hl.
Qed.

Lemma np_content msg m l : content_shaped m → imap_get m 23 ≫= as_arr = Some l → np (read_content msg l).
Proof.
  intros H E. apply np_traverse_elems. intros c Hc. apply np_bind; [apply np_or_err|]. intros a Ha.
  apply np_assertion, (H l E c a Hc). by apply or_err_Ok in Ha.
Qed.

Lemma field_Some {A} (as_T : cval → option A) m k msg x : field as_T m k msg = Ok x → imap_get m k ≫= as_T = Some x.
Proof. apply or_err_Ok. Qed.

Lemma np_range m what : range_shaped m → np (read_range m what).
Proof.
  intros H. unfold read_range. np_step; [np_step|]. apply field_Some, H in H0.
  repeat (apply np_bind; [first [apply np_or_err|apply np_at; lia]|intros ? _]). done.
Qed.

Ltac np_step' :=
  first [ by apply np_range | by eapply np_content; [|by eapply field_Some] | np_step | case_match ].

Lemma np_section t m : section_shaped t m → np (read_section t m).
Proof.
  intros (H1 & H2 & H3 & H4). unfold read_section.
  repeat match goal with |- context [t =? ?k] => destruct (Z.eqb_spec t k) end.
  - apply np_bind; [by apply np_assertion, H1|done].
  - apply np_bind; [|done]. destruct (H2 e) as [Hc Hr]. unfold Shard_UnmarshalMap. repeat np_step'.
  - apply np_bind; [|done]. specialize (H3 e). unfold Pshard_UnmarshalMap, BloomFilter_UnmarshalArray. repeat np_step'.
  - apply np_bind; [|done]. specialize (H4 e). unfold Zone_UnmarshalMap. repeat np_step'.
  - apply np_bind; [|done]. unfold Query_UnmarshalMap. repeat np_step; by (apply np_traverse; intros; apply np_or_err).
  - apply np_bind; [|done]. unfold Notification_UnmarshalMap, read_token. repeat np_step. by case_match.
  - done.
Qed.

Lemma np_sections acc l : Forall elem_shaped l → np (read_sections acc l).
Proof.
  intros H. revert acc. induction H as [|c l Hc Hl IH]; intros acc; simpl; [done|].
  apply np_bind; [|intros; apply IH]. unfold read_elem. apply np_bind; [apply np_or_err|]. intros e He.
  assert (as_arr c = Some e) as Ha by (by apply or_err_Ok in He).
  destruct (Hc e Ha) as [Hlen Hsec]. destruct e as [|x [|y e]]; simpl in Hlen; [lia|lia|]. simpl.
  destruct x; simpl; try done. destruct y; simpl; try done. by apply np_section, Hsec.
Qed.

Lemma traverse_Forall {A B} (P : B → Prop) (f : A → outcome B) l k :
  (∀ x y, f x = Ok y → P y) → traverse f l = Ok k → Forall P k.
Proof. intros H E%traverse_ok. induction E; constructor; eauto. Qed.

Lemma assertion_unmarshal_typed a m a' : Assertion_UnmarshalMap a m = Ok a' → assertion_typed a'.
Proof.
  unfold Assertion_UnmarshalMap. intros H. simplify_outcome. eapply traverse_Forall; [|done].
  intros c o Ho. simpl in Ho. simplify_outcome. unfold Object_UnmarshalArray in Ho. simplify_outcome.
  by eapply read_value_typed.
Qed.

Lemma content_typed msg l k : read_content msg l = Ok k → Forall assertion_typed k.
Proof.
  apply traverse_Forall. intros c a Ha. simpl in Ha. simplify_outcome. by eapply assertion_unmarshal_typed.
Qed.

Lemma read_section_typed t m s : read_section t m = Ok (Some s) → section_typed s.
Proof.
  unfold read_section. repeat match goal with |- context [t =? ?k] => destruct (Z.eqb_spec t k) end; intros H;
    simplify_outcome; simpl; try done.
  - by eapply assertion_unmarshal_typed.
  - unfold Shard_UnmarshalMap in *. simplify_outcome; case_match; simplify_outcome. simpl. by eapply content_typed.
  - unfold Zone_UnmarshalMap in *. simplify_outcome. simpl. by eapply content_typed.
  - unfold Notification_UnmarshalMap, read_token in *. simplify_outcome. simpl.
    match goal with H : (if ?b then _ else _) = _ |- _ => destruct b eqn:E; simplify_eq end. lia.
Qed.

Lemma read_sections_typed acc l k : read_sections acc l = Ok k → ∃ new, k = acc ++ new ∧ Forall section_typed new.
Proof.
  revert acc. induction l as [|c l IH]; intros acc H; simpl in H.
  - simplify_eq. exists []. by rewrite app_nil_r.
  - simplify_outcome. apply IH in H as (new & -> & Hnew). exists (option_list a ++ new). split; [by rewrite app_assoc|].
    apply Forall_app. split; [|done]. destruct a as [s|]; simpl; [|done]. constructor; [|done].
    unfold read_elem in Heqo. simplify_outcome. by eapply read_section_typed.
Qed.

End Decode.

(** ** The signatures' common window *)

Definition sig_covers (s : Sig) (t : Z) : Prop := sigValidSince s ≤ t ≤ sigValidUntil s.

(** The windows fall into two non-empty groups, one ending before the other begins. *)
Definition has_gap (sigs : list Sig) : Prop :=
  ∃ x y, x < y ∧ (∀ s, s ∈ sigs → sigValidUntil s ≤ x ∨ y ≤ sigValidSince s) ∧
    (∃ s, s ∈ sigs ∧ sigValidUntil s ≤ x) ∧ (∃ s, s ∈ sigs ∧ y ≤ sigValidSince s).

Lemma overlap_loop_Some l start u0 u :
  start ≤ u0 → Forall (λ s, start ≤ sigValidSince s ≤ sigValidUntil s) l → overlap_loop u0 l = Some u →
  u0 ≤ u ∧ ∀ t, start ≤ t ≤ u ↔ start ≤ t ≤ u0 ∨ ∃ s, s ∈ l ∧ sig_covers s t.
Proof.
  revert u0. induction l as [|s l IH]; intros u0 Hs HF H; simpl in H.
  { simplify_eq. split; [lia|]. intros t. split; [by left|]. intros [?|(s & Hs' & _)]; [done|by apply elem_of_nil in Hs']. }
  apply Forall_cons_1 in HF as [Hc HF]. destruct (Z.ltb_spec u0 (sigValidSince s)); [done|].
  apply IH in H as [Hu Ht]; [|case_match; lia|done].
  assert (∀ t, start ≤ t ≤ (if u0 <? sigValidUntil s then sigValidUntil s else u0) ↔ start ≤ t ≤ u0 ∨ sig_covers s t) as Hm.
  { intros t. unfold sig_covers. destruct (Z.ltb_spec u0 (sigValidUntil s)); lia. }
  split; [destruct (Z.ltb_spec u0 (sigValidUntil s)); lia|].
  intros t. rewrite Ht, Hm. setoid_rewrite elem_of_cons. naive_solver.
Qed.

Lemma overlap_loop_None l u0 :
  StronglySorted (λ s t, sigValidSince s ≤ sigValidSince t) l → overlap_loop u0 l = None →
  ∃ x y, x < y ∧ u0 ≤ x ∧ (∀ s, s ∈ l → sigValidUntil s ≤ x ∨ y ≤ sigValidSince s) ∧ ∃ s, s ∈ l ∧ y ≤ sigValidSince s.
Proof.
  intros Hs. revert u0. induction Hs as [|s l Hl IH Hs]; intros u0 H; simpl in H; [done|].
  destruct (Z.ltb_spec u0 (sigValidSince s)).
  - exists u0, (sigValidSince s). split_and!; [lia|lia| |exists s; split; [by left|lia]].
    intros t [->|Ht]%elem_of_cons; [lia|]. rewrite Forall_forall in Hs. right. by apply Hs.
  - apply IH in H as (x & y & Hxy & Hx & Hall & s' & Hs' & Hy). exists x, y.
    destruct (Z.ltb_spec u0 (sigValidUntil s)); (split_and!; [lia|lia| |exists s'; split; [by right|done]]);
      (intros t [->|Ht]%elem_of_cons; [left; lia|by apply Hall]).
Qed.

(** For signatures with non-empty windows, and however [sort.Slice] orders equal
    starts, [GetOverlapValidityForSignatures] returns exactly the union of the windows when
    they leave no gap, and [(0, 0)] only when there is one. *)
Theorem GetOverlapValidity_union sigs bySince :
  sigs ≠ [] → Forall (λ s, sigValidSince s ≤ sigValidUntil s) sigs →
  bySince ≡ₚ sigs → StronglySorted (λ s t, sigValidSince s ≤ sigValidSince t) bySince →
  ((∀ t, (overlap_sorted bySince).1 ≤ t ≤ (overlap_sorted bySince).2 ↔ ∃ s, s ∈ sigs ∧ sig_covers s t) ∨
   (has_gap sigs ∧ overlap_sorted bySince = (0, 0))) ∧
  (¬ has_gap sigs → GetOverlapValidityForSignatures sigs = overlap_sorted bySince).
Proof.
  intros Hne HF HP HS.
  assert (∀ l, l ≡ₚ sigs → StronglySorted (λ s t, sigValidSince s ≤ sigValidSince t) l →
    (∃ start until, overlap_sorted l = (start, until) ∧ start ≤ until ∧ ∀ t, start ≤ t ≤ until ↔ ∃ s, s ∈ sigs ∧ sig_covers s t) ∨
    (has_gap sigs ∧ overlap_sorted l = (0, 0))) as G.
  { clear HP HS bySince. intros l HP HS. rewrite <-HP in HF. assert (∀ s, s ∈ sigs ↔ s ∈ l) as Hin by (intros; by rewrite HP).
    destruct HS as [|first rest HS Hmin]; [by apply Permutation_nil_l in HP|].
    apply Forall_cons_1 in HF as [Hf HF]. simpl. destruct (overlap_loop _ rest) as [u|] eqn:E.
    - left. apply (overlap_loop_Some rest (sigValidSince first)) in E as [Hu Ht]; [|done|].
      + do 2 eexists. split_and!; [done|lia|]. intros t. rewrite Ht. setoid_rewrite Hin. setoid_rewrite elem_of_cons.
        unfold sig_covers. naive_solver.
      + apply Forall_forall. intros s Hs. rewrite Forall_forall in HF, Hmin. by auto.
    - right. split; [|done]. apply overlap_loop_None in E as (x & y & Hxy & Hx & Hall & s & Hs & Hy); [|done].
      exists x, y. split_and!; [done| |exists first|exists s]; [..|by rewrite Hin; split; [left|]|by rewrite Hin; split; [right|]].
      intros t [->|Ht]%Hin%elem_of_cons; [by left|by apply Hall]. }
  split.
  - destruct (G bySince HP HS) as [(a & b & -> & _ & H)|?]; [by left|by right].
  - intros Hng. destruct (G bySince HP HS) as [(a & b & E & Hab & H)|[? _]]; [|done].
    destruct (G _ (sort_slice_Permutation (λ s t, sigValidSince s <? sigValidSince t) sigs) (sort_by_key_sorted sigValidSince sigs))
      as [(a' & b' & E' & Hab' & H')|[? _]]; [|done].
    unfold GetOverlapValidityForSignatures. rewrite E, E'.
    assert (∀ t, a ≤ t ≤ b ↔ a' ≤ t ≤ b') as K by (intros; by rewrite H, H').
    pose proof (K a). pose proof (K b). pose proof (K a'). pose proof (K b'). f_equal; lia.
Qed.

Lemma GetOverlapValidity_union_witness :
  let s since until := mkSig zeroPublicKeyID since until (DataBytes []) false in
  GetOverlapValidityForSignatures [s 3 7; s 1 4] = (1, 7) ∧ GetOverlapValidityForSignatures [s 5 7; s 1 4] = (0, 0) ∧
  ((∀ t, 1 ≤ t ≤ 7 ↔ ∃ x, x ∈ [s 3 7; s 1 4] ∧ sig_covers x t) ∨ (has_gap [s 3 7; s 1 4] ∧ (1, 7) = (0, 0))).
Proof.
  intros s. split; [reflexivity|]. split; [reflexivity|].
  refine (proj1 (GetOverlapValidity_union [s 3 7; s 1 4] [s 1 4; s 3 7] _ _ _ _)).
  - discriminate.
  - repeat constructor; simpl; lia.
  - apply perm_swap.
  - repeat constructor; simpl; lia.
Defined.

(** A stream that keeps the last tag and map written. *)
Definition toy_stream : CborStream := {|
  stream := option Z * option (list (Z * cval));
  ReadTag r := match r.1 with Some t => Ok (t, r) | None => Err "EOF" end;
  ReadIntMapUntagged r := match r.2 with Some m => Ok (m, r) | None => Err "EOF" end;
  WriteTag t w := Ok (Some t, w.2);
  WriteIntMap m w := Ok (w.1, Some m);
  empty_stream := (None, None)
|}.
Lemma toy_stream_laws : @CborStreamLaws toy_stream.
Proof. constructor. intros tag m. by repeat eexists. Qed.

Lemma Message_roundtrip_witness :
  let a := mkAssertion [mkSig zeroPublicKeyID 1 2 (DataBytes [7]) false] "www" "ethz.ch." "." [mkObject OTRegistrar (VString "x")] 5 6 false in
  let rm := mkMessage [TLSOverTCP] (replicate 16 1) [SecAssertion a] [] in
  ∃ w, @Message_MarshalCBOR be_objlib toy_stream rm (@empty_stream toy_stream) = Ok w ∧
    @Message_UnmarshalCBOR be_objlib toy_stream zeroMessage w =
      Ok (mkMessage [TLSOverTCP] (replicate 16 1) [SecAssertion (Assertion_set_validity a (0, 0))] []).
Proof.
  intros a rm. apply (@Message_roundtrip be_objlib be_objlib_laws toy_stream toy_stream_laws rm).
  split; [reflexivity|]. split; [constructor|]. constructor; [|constructor].
  split; [reflexivity|]. split; [discriminate|]. split; (constructor; [|constructor]).
  - split; [reflexivity|]. exists [7]. reflexivity.
  - split; [right; left; reflexivity|exact I].
Defined.
