(* ===== verification/Siglib.v ===== *)
(** * Signing and checking sections

    Models attic/internal/pkg/siglib/rainsSiglib.go, with [GetRhineCertFromAssertion] of
    attic/internal/pkg/util/rainslibUtil.go.  What siglib needs of a section is the
    interface [section.WithSig]: the class [WithSig], whose laws ([WithSigLaws]) the four
    section types discharge, so that the loops over the signatures are verified once.

    A pointer to a section is the section itself; a function that writes through it
    returns the section it leaves behind, on its early returns too.  The wall clock is an
    argument ([now], nanoseconds), read once per call.  The CBOR encoder's bytes, the
    ed25519 primitives and the x509 library are parameters. *)

From S2P Require Import Prelude Cbor Keys Object Query BitArray BloomFilter Section Message.
Local Open Scope Z_scope.

(** ** String fields *)

(** [\s] of package regexp: tab, newline, form feed, carriage return, space. *)
Definition is_space (c : Ascii.ascii) : bool :=
  let n := Ascii.N_of_ascii c in
  (n =? 9)%N || (n =? 10)%N || (n =? 12)%N || (n =? 13)%N || (n =? 32)%N.
Definition is_colon (c : Ascii.ascii) : bool := (Ascii.N_of_ascii c =? 58)%N.

(** The last position of a match: [\s], or the end of the text. *)
Definition at_boundary (s : string) : bool :=
  match s with EmptyString => true | String c _ => is_space c end.

(** [\S+:] and the boundary; [some] tells that [\S+] has matched a character. *)
Fixpoint marker_rest (some : bool) (s : string) : bool :=
  match s with
  | EmptyString => false
  | String c s' => (some && is_colon c && at_boundary s') || (negb (is_space c) && marker_rest true s')
  end.

(** A match somewhere in [s]; [start] tells that the text before is empty or ends in [\s]. *)
Fixpoint find_marker (start : bool) (s : string) : bool :=
  match s with
  | EmptyString => false
  | String c s' => (start && is_colon c && marker_rest false s') || find_marker (is_space c) s'
  end.

Definition containsZoneFileType (input : string) : bool := find_marker true input.

(** The type assertions [obj.Value.(string)] panic on another dynamic type; those of the
    form [v, ok := ...] do not.  Any object type but the fourteen is refused. *)
Definition value_string (v : Value) : outcome string :=
  match v with VString s => Ok s | _ => Panic "interface conversion" end.
Definition value_nameset (v : Value) : outcome string :=
  match v with VNamesetExpr s => Ok s | _ => Panic "interface conversion" end.

Definition checkObjectField (obj : Object) : outcome bool :=
  let t := objType obj in
  if t =? OTName then
    Ok (match objValue obj with VName nameObj => negb (containsZoneFileType (onName nameObj)) | _ => true end)
  else if bool_decide (t ∈ [OTRedirection; OTRegistrar; OTRegistrant]) then
    s ← value_string (objValue obj); Ok (negb (containsZoneFileType s))
  else if t =? OTNameset then
    s ← value_nameset (objValue obj); Ok (negb (containsZoneFileType s))
  else if t =? OTServiceInfo then
    Ok (match objValue obj with VServiceInfo srvInfo => negb (containsZoneFileType (siName srvInfo)) | _ => true end)
  else Ok (bool_decide (t ∈ [OTIP6Addr; OTIP4Addr; OTScionAddr; OTDelegation; OTCertInfo; OTInfraKey; OTExtraKey; OTNextKey])).

(** [for _, x := range l { if !f(x) { return false } }; return true] *)
Fixpoint all_ok {A} (f : A → outcome bool) (l : list A) : outcome bool :=
  match l with
  | [] => Ok true
  | x :: l' => b ← f x; if b : bool then all_ok f l' else Ok false
  end.
Definition checkObjectFields (objs : list Object) : outcome bool := all_ok checkObjectField objs.

Definition clean (context zone : string) : bool :=
  negb (containsZoneFileType context || containsZoneFileType zone).

Definition Assertion_CheckStringFields (s : Assertion) : outcome bool :=
  if containsZoneFileType (aSubjectName s) then Ok false
  else ok ← checkObjectFields (aContent s);
       if negb ok then Ok false else Ok (clean (aContext s) (aSubjectZone s)).

(** A pshard's context and zone are not looked at. *)
Definition CheckStringFields (s : AnySection) : outcome bool :=
  match s with
  | SecAssertion a => Assertion_CheckStringFields a
  | SecShard s =>
      if containsZoneFileType (sRangeFrom s) then Ok false
      else if containsZoneFileType (sRangeTo s) then Ok false
      else ok ← all_ok Assertion_CheckStringFields (sContent s);
           if negb ok then Ok false else Ok (clean (sContext s) (sSubjectZone s))
  | SecPshard s =>
      if containsZoneFileType (pRangeFrom s) then Ok false
      else if containsZoneFileType (pRangeTo s) then Ok false
      else Ok true
  | SecZone z =>
      ok ← all_ok Assertion_CheckStringFields (zContent z);
      if negb ok then Ok false else Ok (clean (zContext z) (zSubjectZone z))
  | SecQuery q =>
      if containsZoneFileType (qContext q) then Ok false
      else if containsZoneFileType (qName q) then Ok false
      else Ok true
  | SecNotification n => if containsZoneFileType (nData n) then Ok false else Ok true
  end.

Definition checkCapabilities (caps : list string) : bool := forallb (λ c, negb (containsZoneFileType c)) caps.
Definition checkMessageStringFields (msg : Message) : outcome bool :=
  if negb (checkCapabilities (mCapabilities msg)) then Ok false
  else all_ok CheckStringFields (mContent msg).

(** ** section.WithSig *)

Class WithSig (S : Type) := {
  toSection : S → AnySection;                      (* the dynamic type *)
  AllSigs : S → list Sig;
  AddSig : S → Sig → S;
  DeleteAllSigs : S → S;
  UpdateSecValidity : Z → S → Z → Z → Z → S;       (* now, validSince, validUntil, maxValidity *)
  MarshalCBOR : S → outcome cval;
  AddSigInMarshaller : S → S;
  DontAddSigInMarshaller : S → S
}.
Definition Sigs {S} `{!WithSig S} (s : S) : list Sig := filterSigs (AllSigs s) RainsKeySpace.

#[export] Instance Assertion_WithSig {OL : ObjLib} : WithSig Assertion := {|
  toSection := SecAssertion; AllSigs := Assertion_AllSigs; AddSig := Assertion_AddSig;
  DeleteAllSigs := Assertion_DeleteAllSigs; UpdateSecValidity := Assertion_UpdateValidity;
  MarshalCBOR := Assertion_MarshalCBOR; AddSigInMarshaller := Assertion_AddSigInMarshaller;
  DontAddSigInMarshaller := Assertion_DontAddSigInMarshaller
|}.
#[export] Instance Shard_WithSig {OL : ObjLib} : WithSig Shard := {|
  toSection := SecShard; AllSigs := Shard_AllSigs; AddSig := Shard_AddSig;
  DeleteAllSigs := Shard_DeleteAllSigs; UpdateSecValidity := Shard_UpdateValidity;
  MarshalCBOR := Shard_MarshalCBOR; AddSigInMarshaller := Shard_AddSigInMarshaller;
  DontAddSigInMarshaller := Shard_DontAddSigInMarshaller
|}.
#[export] Instance Pshard_WithSig : WithSig Pshard := {|
  toSection := SecPshard; AllSigs := Pshard_AllSigs; AddSig := Pshard_AddSig;
  DeleteAllSigs := Pshard_DeleteAllSigs; UpdateSecValidity := Pshard_UpdateValidity;
  MarshalCBOR := Pshard_MarshalCBOR; AddSigInMarshaller := Pshard_AddSigInMarshaller;
  DontAddSigInMarshaller := Pshard_DontAddSigInMarshaller
|}.
#[export] Instance Zone_WithSig {OL : ObjLib} : WithSig Zone := {|
  toSection := SecZone; AllSigs := Zone_AllSigs; AddSig := Zone_AddSig;
  DeleteAllSigs := Zone_DeleteAllSigs; UpdateSecValidity := Zone_UpdateValidity;
  MarshalCBOR := Zone_MarshalCBOR; AddSigInMarshaller := Zone_AddSigInMarshaller;
  DontAddSigInMarshaller := Zone_DontAddSigInMarshaller
|}.

(** The bytes the writer produces for a value on its own. *)
Class CborEncoder := { cbor_value : cval → outcome (list Z) }.

Record MaxCacheValidity := mkMaxCacheValidity {
  AssertionValidity : Z;
  ShardValidity : Z;
  PshardValidity : Z;
  ZoneValidity : Z
}.

Fixpoint getPublicKey (pkeys : list PublicKey) (sigMetaData : MetaData) : option PublicKey :=
  match pkeys with
  | [] => None
  | key :: pkeys' =>
      if (pkValidSince key <=? mdValidUntil sigMetaData) && (mdValidSince sigMetaData <=? pkValidUntil key)
      then Some key else getPublicKey pkeys' sigMetaData
  end.

(** [time.Now().Unix()] *)
Definition unix (now : Z) : Z := now / 1000000000.

Section Sections.
Context {S : Type} `{!WithSig S, !CborWriter, !CborEncoder, !Ed25519Lib}.

Definition encode (s : S) : outcome (list Z) := c ← MarshalCBOR s; cbor_value c.

Definition updateSectionValidity (now : Z) (sec : S)
    (pkeyValidSince pkeyValidUntil sigValidSince sigValidUntil : Z) (maxVal : MaxCacheValidity) : S :=
  let update maxValidity :=
    if pkeyValidSince <? sigValidSince then
      if pkeyValidUntil <? sigValidUntil
      then UpdateSecValidity now sec sigValidSince pkeyValidUntil maxValidity
      else UpdateSecValidity now sec sigValidSince sigValidUntil maxValidity
    else
      if pkeyValidUntil <? sigValidUntil
      then UpdateSecValidity now sec pkeyValidSince pkeyValidUntil maxValidity
      else UpdateSecValidity now sec pkeyValidSince sigValidUntil maxValidity in
  match toSection sec with
  | SecAssertion _ => update (AssertionValidity maxVal)
  | SecShard _ => update (ShardValidity maxVal)
  | SecPshard _ => update (PshardValidity maxVal)
  | SecZone _ => update (ZoneValidity maxVal)
  | _ => sec
  end.

(** The loop over the signatures. *)
Fixpoint check_sigs (now : Z) (pkeys : gmap PublicKeyID (list PublicKey)) (maxVal : MaxCacheValidity)
    (encoding : list Z) (s : S) (sigs : list Sig) : outcome (S * bool) :=
  match sigs with
  | [] => Ok (s, bool_decide (Sigs s ≠ []))
  | sig :: sigs' =>
      match pkeys !! sigPublicKeyID sig with
      | Some keys =>
          if sigValidUntil sig <? unix now then check_sigs now pkeys maxVal encoding s sigs'
          else match getPublicKey keys (Sig_MetaData sig) with
               | Some key =>
                   '(sig', ok) ← Sig_VerifySignature sig (pkKey key) encoding;
                   if negb ok then Ok (s, false)
                   else check_sigs now pkeys maxVal encoding
                          (updateSectionValidity now (AddSig s sig') (pkValidSince key) (pkValidUntil key)
                             (sigValidSince sig) (sigValidUntil sig) maxVal) sigs'
               | None => Ok (s, false)
               end
      | None => Ok (s, false)
      end
  end.

(** [pkeys] is [None] for the nil map. *)
Definition checkSectionSignatures (now : Z) (s : S) (pkeys : option (gmap PublicKeyID (list PublicKey)))
    (maxVal : MaxCacheValidity) : outcome (S * bool) :=
  match pkeys with
  | None => Ok (s, false)
  | Some pkeys =>
      let sigs := Sigs s in
      if bool_decide (sigs = []) then Ok (s, true)
      else
        ok ← CheckStringFields (toSection s);
        if negb ok then Ok (s, false)
        else
          let s := DeleteAllSigs s in
          match encode s with
          | Panic msg => Panic msg
          | Err _ => Ok (s, false)
          | Ok encoding => check_sigs now pkeys maxVal encoding s sigs
          end
  end.

(** The loop over the signatures: the section it leaves and the error it returns.  A key
    missing from [ks] is nil. *)
Fixpoint sign_sigs (ks : gmap PublicKeyID PrivKeyVal) (encoding : list Z) (s : S) (sigs : list Sig)
    : outcome (S * option string) :=
  match sigs with
  | [] => Ok (s, None)
  | sig :: sigs' =>
      match Sig_SignData sig (default PrivNil (ks !! sigPublicKeyID sig)) encoding with
      | Panic msg => Panic msg
      | Err e => Ok (s, Some e)
      | Ok sig' => sign_sigs ks encoding (AddSig s sig') sigs'
      end
  end.

Definition signSectionUnsafe (s : S) (ks : gmap PublicKeyID PrivKeyVal) : outcome (S * option string) :=
  match encode s with
  | Panic msg => Panic msg
  | Err e => Ok (s, Some ("Was not able to marshal section: " +:+ e)%string)
  | Ok encoding => sign_sigs ks encoding (DeleteAllSigs s) (Sigs s)
  end.

Definition CheckSignatureNotExpired (now : Z) (s : S) : bool :=
  forallb (λ sig, negb (sigValidUntil sig <? unix now)) (AllSigs s).
End Sections.

(** ** Sections with their content *)

(** The dynamic types behind [section.WithSig]. *)
Inductive SigSection :=
| WAssertion (a : Assertion)
| WShard (s : Shard)
| WPshard (p : Pshard)
| WZone (z : Zone).

Section Content.
Context {OL : ObjLib} `{!CborWriter, !CborEncoder, !Ed25519Lib}.

(** The loop over [s.Content]: the assertions it leaves, and whether it reached the end. *)
Fixpoint check_content (now : Z) (pkeys : option (gmap PublicKeyID (list PublicKey))) (maxVal : MaxCacheValidity)
    (content : list Assertion) : outcome (list Assertion * bool) :=
  match content with
  | [] => Ok ([], true)
  | a :: content' =>
      if bool_decide (Sigs a = []) then
        '(l, ok) ← check_content now pkeys maxVal content'; Ok (a :: l, ok)
      else
        '(a', ok) ← checkSectionSignatures now a pkeys maxVal;
        if negb ok then Ok (a' :: content', false)
        else '(l, ok) ← check_content now pkeys maxVal content'; Ok (a' :: l, ok)
  end.

(** A check that fails returns early: the [sign] flag stays set, and the content keeps the
    context and zone. *)
Definition CheckSectionSignatures (now : Z) (s : SigSection) (pkeys : option (gmap PublicKeyID (list PublicKey)))
    (maxVal : MaxCacheValidity) : outcome (SigSection * bool) :=
  match s with
  | WAssertion a =>
      '(a, ok) ← checkSectionSignatures now (DontAddSigInMarshaller a) pkeys maxVal;
      if negb ok then Ok (WAssertion a, false) else Ok (WAssertion (AddSigInMarshaller a), true)
  | WShard s =>
      '(s, ok) ← checkSectionSignatures now (DontAddSigInMarshaller s) pkeys maxVal;
      if negb ok then Ok (WShard s, false)
      else
        let s := Shard_AddCtxAndZoneToContent s in
        '(content, ok) ← check_content now pkeys maxVal (sContent s);
        let s := Shard_set_content s content in
        if negb ok then Ok (WShard s, false)
        else Ok (WShard (AddSigInMarshaller (Shard_RemoveCtxAndZoneFromContent s)), true)
  | WPshard s =>
      '(s, ok) ← checkSectionSignatures now (DontAddSigInMarshaller s) pkeys maxVal;
      if negb ok then Ok (WPshard s, false) else Ok (WPshard (AddSigInMarshaller s), true)
  | WZone z =>
      '(z, ok) ← checkSectionSignatures now (DontAddSigInMarshaller z) pkeys maxVal;
      if negb ok then Ok (WZone z, false)
      else
        let z := Zone_AddCtxAndZoneToContent z in
        '(content, ok) ← check_content now pkeys maxVal (zContent z);
        let z := Zone_set_content z content in
        if negb ok then Ok (WZone z, false)
        else Ok (WZone (AddSigInMarshaller (Zone_RemoveCtxAndZoneFromContent z)), true)
  end.

Fixpoint sign_content (ks : gmap PublicKeyID PrivKeyVal) (content : list Assertion)
    : outcome (list Assertion * option string) :=
  match content with
  | [] => Ok ([], None)
  | a :: content' =>
      if bool_decide (Sigs a = []) then '(l, err) ← sign_content ks content'; Ok (a :: l, err)
      else
        '(a', err) ← signSectionUnsafe a ks;
        match err with
        | Some e => Ok (a' :: content', Some e)
        | None => '(l, err) ← sign_content ks content'; Ok (a' :: l, err)
        end
  end.

Definition SignSectionUnsafe (s : SigSection) (ks : gmap PublicKeyID PrivKeyVal) : outcome (SigSection * option string) :=
  match s with
  | WAssertion a =>
      '(a, err) ← signSectionUnsafe (DontAddSigInMarshaller a) ks;
      match err with
      | Some e => Ok (WAssertion a, Some e)
      | None => Ok (WAssertion (AddSigInMarshaller a), None)
      end
  | WShard s =>
      '(s, err) ← signSectionUnsafe (DontAddSigInMarshaller s) ks;
      match err with
      | Some e => Ok (WShard s, Some e)
      | None =>
          let s := Shard_AddCtxAndZoneToContent s in
          '(content, err) ← sign_content ks (sContent s);
          let s := Shard_set_content s content in
          match err with
          | Some e => Ok (WShard s, Some e)
          | None => Ok (WShard (AddSigInMarshaller (Shard_RemoveCtxAndZoneFromContent s)), None)
          end
      end
  | WPshard s =>
      '(s, err) ← signSectionUnsafe (DontAddSigInMarshaller s) ks;
      match err with
      | Some e => Ok (WPshard s, Some e)
      | None => Ok (WPshard (AddSigInMarshaller s), None)
      end
  | WZone z =>
      '(z, err) ← signSectionUnsafe (DontAddSigInMarshaller z) ks;
      match err with
      | Some e => Ok (WZone z, Some e)
      | None =>
          let z := Zone_AddCtxAndZoneToContent z in
          '(content, err) ← sign_content ks (zContent z);
          let z := Zone_set_content z content in
          match err with
          | Some e => Ok (WZone z, Some e)
          | None => Ok (WZone (AddSigInMarshaller (Zone_RemoveCtxAndZoneFromContent z)), None)
          end
      end
  end.

(** [s.Sort()] of each type; a pshard has nothing to sort. *)
Definition SigSection_Sort (s : SigSection) : outcome SigSection :=
  match s with
  | WAssertion a => a' ← Assertion_Sort a; Ok (WAssertion a')
  | WShard s => s' ← Shard_Sort s; Ok (WShard s')
  | WPshard s => Ok (WPshard s)
  | WZone z => z' ← Zone_Sort z; Ok (WZone z')
  end.
Definition SigSection_section (s : SigSection) : AnySection :=
  match s with WAssertion a => SecAssertion a | WShard s => SecShard s | WPshard s => SecPshard s | WZone z => SecZone z end.
Definition SigSection_NotExpired (now : Z) (s : SigSection) : bool :=
  match s with
  | WAssertion a => CheckSignatureNotExpired now a
  | WShard s => CheckSignatureNotExpired now s
  | WPshard s => CheckSignatureNotExpired now s
  | WZone z => CheckSignatureNotExpired now z
  end.

Definition ValidSectionAndSignature (now : Z) (s : SigSection) : outcome (SigSection * bool) :=
  if negb (SigSection_NotExpired now s) then Ok (s, false)
  else
    ok ← CheckStringFields (SigSection_section s);
    if negb ok then Ok (s, false) else s' ← SigSection_Sort s; Ok (s', true).

(** ** RHINE certificates *)

(** crypto/x509: [x509_Verify cert zone] is the verification against the system's roots and
    the example CA of the source. *)
Class X509Lib := {
  x509_cert : Type;
  x509_ParseCertificate : list Z → outcome x509_cert;
  x509_Verify : x509_cert → string → bool;
  x509_NotBefore : x509_cert → Z;                  (* [NotBefore.Unix()] *)
  x509_PublicKey : x509_cert → KeyVal
}.

Definition noCert `{!X509Lib} : option x509_cert * string * PublicKeyID := (None, ""%string, zeroPublicKeyID).

(** [s.Signatures[0]] panics on an assertion without signatures. *)
Fixpoint rhine_cert_loop `{!X509Lib} (s : Assertion) (objs : list Object) : outcome (option x509_cert * string * PublicKeyID) :=
  match objs with
  | [] => Ok noCert
  | obj :: objs' =>
      match objValue obj with
      | VCertificate cert =>
          if (objType obj =? OTCertInfo) && (certType cert =? PTRhine) && (certUsage cert =? CUZoneAuth) then
            match x509_ParseCertificate (certData cert) with
            | Ok rhinecert =>
                sig ← at_index (aSignatures s) 0;
                Ok (Some rhinecert, aSubjectZone s, sigPublicKeyID sig)
            | _ => rhine_cert_loop s objs'
            end
          else rhine_cert_loop s objs'
      | _ => rhine_cert_loop s objs'
      end
  end.
Definition GetRhineCertFromAssertion `{!X509Lib} (s : Assertion) : outcome (option x509_cert * string * PublicKeyID) :=
  rhine_cert_loop s (aContent s).

(** [for _, a := range assertions { rhinecert, zone, id = ...; if rhinecert != nil { break } }] *)
Fixpoint zone_cert_loop `{!X509Lib} (cur : option x509_cert * string * PublicKeyID) (assertions : list Assertion)
    : outcome (option x509_cert * string * PublicKeyID) :=
  match assertions with
  | [] => Ok cur
  | a :: assertions' =>
      r ← GetRhineCertFromAssertion a;
      match r.1.1 with Some _ => Ok r | None => zone_cert_loop r assertions' end
  end.

(** The loop over the message: in the case of an assertion, [break] leaves the switch. *)
Fixpoint message_cert_loop `{!X509Lib} (cur : option x509_cert * string * PublicKeyID) (content : list AnySection)
    : outcome (option x509_cert * string * PublicKeyID) :=
  match content with
  | [] => Ok cur
  | SecAssertion s :: content' => r ← GetRhineCertFromAssertion s; message_cert_loop r content'
  | SecZone s :: content' => r ← zone_cert_loop cur (zContent s); message_cert_loop r content'
  | _ :: content' => message_cert_loop cur content'
  end.

Definition three_hours : Z := 3 * 60 * 60 * 1000000000.
Definition rhine_max : MaxCacheValidity := mkMaxCacheValidity three_hours three_hours three_hours three_hours.

(** [s.(section.WithSigForward)] *)
Definition as_with_sig (s : AnySection) : outcome SigSection :=
  match s with
  | SecAssertion a => Ok (WAssertion a)
  | SecShard s => Ok (WShard s)
  | SecPshard s => Ok (WPshard s)
  | SecZone z => Ok (WZone z)
  | _ => Panic "interface conversion"
  end.

(** The loop that checks every section: the content it leaves behind and its verdict. *)
Fixpoint verify_content (now : Z) (pkeys : option (gmap PublicKeyID (list PublicKey))) (content : list AnySection)
    : outcome (list AnySection * bool) :=
  match content with
  | [] => Ok ([], true)
  | s :: content' =>
      sec ← as_with_sig s;
      '(sec', ok) ← CheckSectionSignatures now sec pkeys rhine_max;
      if negb ok then Ok (SigSection_section sec' :: content', false)
      else '(l, ok) ← verify_content now pkeys content'; Ok (SigSection_section sec' :: l, ok)
  end.

Definition RhineCertVerification `{!X509Lib} (now : Z) (msg : Message) : outcome (Message * bool) :=
  '(rhinecert, zone, id) ← message_cert_loop noCert (mContent msg);
  match rhinecert with
  | None => Ok (msg, false)
  | Some rhinecert =>
      if negb (x509_Verify rhinecert zone) then Ok (msg, false)
      else
        let rainskey := mkPublicKey id (x509_NotBefore rhinecert) (unix_after now three_hours) (x509_PublicKey rhinecert) in
        '(content, ok) ← verify_content now (Some {[id := [rainskey]]}) (mContent msg);
        Ok (mkMessage (mCapabilities msg) (mToken msg) content (mSignatures msg), ok)
  end.
End Content.

(** ** The marker *)

(** Whether the text before a position, [start] and then [pre], is empty or ends in [\s]. *)
Fixpoint boundary_after (start : bool) (pre : string) : bool :=
  match pre with EmptyString => start | String c pre' => boundary_after (is_space c) pre' end.

Fixpoint no_space (s : string) : bool :=
  match s with EmptyString => true | String c s' => negb (is_space c) && no_space s' end.

(** [\s:\S+:\s|^:\S+:\s|\s:\S+:$|^:\S+:$] matches somewhere in [s], after [start]. *)
Definition marker_in (start : bool) (s : string) : Prop :=
  ∃ pre mid post, s = (pre +:+ ":" +:+ mid +:+ ":" +:+ post)%string ∧
    boundary_after start pre = true ∧ mid ≠ ""%string ∧ no_space mid = true ∧ at_boundary post = true.

Lemma is_colon_spec c : is_colon c = true ↔ c = ":"%char.
Proof.
  unfold is_colon. rewrite N.eqb_eq. split; [|by intros ->].
  intros H. rewrite <-(Ascii.ascii_N_embedding c), H. done.
Qed.

Lemma marker_rest_spec some s :
  marker_rest some s = true ↔
  ∃ mid post, s = (mid +:+ ":" +:+ post)%string ∧ (some = true ∨ mid ≠ ""%string) ∧
    no_space mid = true ∧ at_boundary post = true.
Proof.
  revert some. induction s as [|c s IH]; intros some; simpl.
  { split; [done|]. intros ([|] & ? & ? & _); done. }
  rewrite orb_true_iff, !andb_true_iff, is_colon_spec, negb_true_iff, IH. split.
  - intros [[[-> ->] Hb]|[Hc (mid & post & -> & _ & Hm & Hp)]].
    + exists ""%string, s. naive_solver.
    + exists (String c mid), post. simpl. rewrite Hc. naive_solver.
  - intros ([|c' mid] & post & E & Hs & Hm & Hp); simpl in *; injection E as -> ->.
    + left. naive_solver.
    + right. apply andb_true_iff in Hm as [Hc Hm]. apply negb_true_iff in Hc. split; [done|].
      exists mid, post. naive_solver.
Qed.

Lemma find_marker_spec start s : find_marker start s = true ↔ marker_in start s.
Proof.
  revert start. induction s as [|c s IH]; intros start; simpl.
  { split; [done|]. intros ([|] & ? & ? & ? & _); done. }
  rewrite orb_true_iff, !andb_true_iff, is_colon_spec, marker_rest_spec, IH. split.
  - intros [[[-> ->] (mid & post & -> & H & Hm & Hp)]|(pre & mid & post & -> & H)].
    + exists ""%string, mid, post. naive_solver.
    + by exists (String c pre), mid, post.
  - intros ([|c' pre] & mid & post & E & Hb & Hm & H); simpl in *; injection E as -> ->.
    + left. split; [done|]. exists mid, post. naive_solver.
    + right. by exists pre, mid, post.
Qed.

(** [containsZoneFileType] is the regular expression of the source: it holds exactly
    when the text has a part [:x:] with a non-empty [x] free of white space, at the start
    or after white space and at the end or before white space.  The check of a section's
    strings never looks at the context and the zone of a pshard. *)
Theorem containsZoneFileType_spec (input : string) (s : Pshard) (context zone : string) :
  (containsZoneFileType input = true ↔ marker_in true input) ∧
  CheckStringFields (SecPshard (Pshard_Copy s context zone)) = CheckStringFields (SecPshard s).
Proof. split; [apply find_marker_spec|done]. Qed.
