(* ===== verification/SiglibFacts.v ===== *)
(** * Properties of siglib

    Theorems about [Siglib]: what is signed is accepted ([sign_then_check]), what is
    accepted was verified ([CheckSectionSignatures_sound]), and the search for the RHINE
    certificate of a message.  The loops over the signatures are verified against the
    interface [WithSigLaws]. *)

From S2P Require Import Prelude Cbor Keys Object Query BitArray BloomFilter Section SectionFacts Message Siglib.
Local Open Scope Z_scope.

(** ** The interface *)

(** What the section types promise: signatures are a list that [AddSig] extends and
    [DeleteAllSigs] empties; [body] is what is left of a section without its signatures and
    its validity, and while the [sign] flag is set the marshaller sees nothing else; [inner]
    is the content, which these operations do not touch. *)
Class WithSigLaws (S : Type) `{!WithSig S} := {
  body : S → S;
  inner : S → list Assertion;
  signing : S → bool;
  AllSigs_AddSig s g : AllSigs (AddSig s g) = AllSigs s ++ [g];
  AllSigs_Delete s : AllSigs (DeleteAllSigs s) = [];
  AllSigs_Update now s vs vu mv : AllSigs (UpdateSecValidity now s vs vu mv) = AllSigs s;
  frame_AddSig s g : (body (AddSig s g), inner (AddSig s g)) = (body s, inner s);
  frame_Delete s : (body (DeleteAllSigs s), inner (DeleteAllSigs s)) = (body s, inner s);
  frame_Update now s vs vu mv :
    (body (UpdateSecValidity now s vs vu mv), inner (UpdateSecValidity now s vs vu mv)) = (body s, inner s);
  signing_body s : signing (body s) = signing s;
  signing_DontAdd s : signing (DontAddSigInMarshaller s) = true;
  Marshal_body s : signing s = true → MarshalCBOR (body s) = MarshalCBOR s;
  Check_body s : CheckStringFields (toSection (body s)) = CheckStringFields (toSection s)
}.

Definition assertion_body (a : Assertion) : Assertion :=
  mkAssertion [] (aSubjectName a) (aSubjectZone a) (aContext a) (aContent a) 0 0 (aSign a).

Lemma all_ok_fmap {A B} (f : B → outcome bool) (g : A → B) l : all_ok f (g <$> l) = all_ok (λ x, f (g x)) l.
Proof. induction l as [|x l IH]; [done|]. cbn. by rewrite IH. Qed.
Lemma all_ok_ext {A} (f g : A → outcome bool) l : (∀ x, f x = g x) → all_ok f l = all_ok g l.
Proof. intros H. induction l as [|x l IH]; [done|]. cbn. by rewrite H, IH. Qed.

Section Laws.
Context {OL : ObjLib}.

Lemma assertion_Marshal a : aSign a = true → Assertion_MarshalCBOR (assertion_body a) = Assertion_MarshalCBOR a.
Proof. intros Ha. unfold Assertion_MarshalCBOR, Assertion_MarshalMap. simpl. by rewrite Ha, !andb_false_r. Qed.

#[export] Instance Assertion_WithSigLaws : WithSigLaws Assertion.
Proof.
  refine (Build_WithSigLaws Assertion _ assertion_body (λ _, []) aSign _ _ _ _ _ _ _ _ assertion_Marshal _); done.
Defined.

Lemma content_Marshal l : forallb aSign l = true →
  traverse Assertion_MarshalCBOR (assertion_body <$> l) = traverse Assertion_MarshalCBOR l.
Proof.
  induction l as [|a l IH]; [done|]. rewrite fmap_cons. cbn [traverse forallb]. intros [Ha Hl]%andb_true_iff.
  rewrite IH by done. by rewrite assertion_Marshal.
Qed.

Lemma content_signing l : forallb aSign (assertion_body <$> l) = forallb aSign l.
Proof. induction l as [|a l IH]; [done|]. rewrite fmap_cons. cbn. by rewrite IH. Qed.
Lemma content_SetSign l : forallb aSign (Assertion_SetSign true <$> l) = true.
Proof. induction l as [|a l IH]; [done|]. rewrite fmap_cons. done. Qed.
Lemma content_Check l :
  all_ok Assertion_CheckStringFields (assertion_body <$> l) = all_ok Assertion_CheckStringFields l.
Proof. rewrite all_ok_fmap. by apply all_ok_ext. Qed.

Definition shard_body (s : Shard) : Shard :=
  mkShard [] (sSubjectZone s) (sContext s) (sRangeFrom s) (sRangeTo s) (assertion_body <$> sContent s) 0 0 (sSign s).
Definition zone_body (z : Zone) : Zone :=
  mkZone [] (zSubjectZone z) (zContext z) (assertion_body <$> zContent z) 0 0 (zSign z).
Definition pshard_body (s : Pshard) : Pshard :=
  mkPshard [] (pSubjectZone s) (pContext s) (pRangeFrom s) (pRangeTo s) (pBloomFilter s) 0 0 (pSign s).

#[export] Instance Shard_WithSigLaws : WithSigLaws Shard.
Proof.
  refine (Build_WithSigLaws Shard _ shard_body sContent (λ s , sSign s && forallb aSign (sContent s)) _ _ _ _ _ _ _ _ _ _); try done.
  - intros s. cbn. by rewrite content_signing.
  - intros s. cbn. by rewrite content_SetSign.
  - intros s [Hs Hc]%andb_true_iff. cbn. unfold Shard_MarshalCBOR, Shard_MarshalMap. simpl.
    by rewrite content_Marshal, Hs, !andb_false_r by done.
  - intros s. cbn. by rewrite content_Check.
Defined.

#[export] Instance Zone_WithSigLaws : WithSigLaws Zone.
Proof.
  refine (Build_WithSigLaws Zone _ zone_body zContent (λ z , zSign z && forallb aSign (zContent z)) _ _ _ _ _ _ _ _ _ _); try done.
  - intros s. cbn. by rewrite content_signing.
  - intros s. cbn. by rewrite content_SetSign.
  - intros s [Hs Hc]%andb_true_iff. cbn. unfold Zone_MarshalCBOR, Zone_MarshalMap. simpl.
    by rewrite content_Marshal, Hs, !andb_false_r by done.
  - intros s. cbn. by rewrite content_Check.
Defined.

#[export] Instance Pshard_WithSigLaws : WithSigLaws Pshard.
Proof.
  refine (Build_WithSigLaws Pshard _ pshard_body (λ _, []) pSign _ _ _ _ _ _ _ _ _ _); try done.
  - intros s Hs. cbn in *. unfold Pshard_MarshalCBOR, Pshard_MarshalMap. simpl. by rewrite Hs, !andb_false_r.
Defined.
End Laws.

(** What signing and checking leave alone. *)
Definition frame {S} `{!WithSig S, !WithSigLaws S} (s : S) : S * list Assertion := (body s, inner s).
Lemma frame_body {S} `{!WithSig S, !WithSigLaws S} (s t : S) : frame s = frame t → body s = body t.
Proof. by intros [= ??]. Qed.

(** ** One section *)

(** The signature [sig], not yet made, can be made with a key of [ks] and checked with the
    first key of [pkeys] whose validity overlaps its own. *)
Definition coverable `{!Ed25519Lib} (now : Z) (ks : gmap PublicKeyID PrivKeyVal)
    (pkeys : gmap PublicKeyID (list PublicKey)) (sig : Sig) : Prop :=
  let id := sigPublicKeyID sig in
  KeySpace id = RainsKeySpace ∧ Algorithm id = Ed25519 ∧ sigData sig = DataNil ∧ sigSign sig = false ∧
  unix now ≤ sigValidUntil sig ∧
  ∃ sk keys key, ks !! id = Some (PrivEd25519 sk) ∧ pkeys !! id = Some keys ∧
    getPublicKey keys (Sig_MetaData sig) = Some key ∧ pkKey key = KeyEd25519 (ed25519_Public sk).

(** The signature is current, and verifies over [enc] under the key [getPublicKey] picks. *)
Definition verified `{!Ed25519Lib, !CborWriter} (now : Z) (pkeys : gmap PublicKeyID (list PublicKey))
    (enc : list Z) (sig : Sig) : Prop :=
  unix now ≤ sigValidUntil sig ∧
  ∃ keys key pk b, pkeys !! sigPublicKeyID sig = Some keys ∧ getPublicKey keys (Sig_MetaData sig) = Some key ∧
    pkValidSince key ≤ sigValidUntil sig ∧ sigValidSince sig ≤ pkValidUntil key ∧
    Algorithm (sigPublicKeyID sig) = Ed25519 ∧ pkKey key = KeyEd25519 pk ∧ sigData sig = DataBytes b ∧
    ed25519_Verify pk (Sig_encoding (Sig_set_sign sig true) enc) b = true.

Lemma getPublicKey_overlap keys md key :
  getPublicKey keys md = Some key → pkValidSince key ≤ mdValidUntil md ∧ mdValidSince md ≤ pkValidUntil key.
Proof.
  induction keys as [|k keys IH]; simpl; [done|]. destruct (_ && _) eqn:E; [|done].
  intros [= ->]. apply andb_true_iff in E. lia.
Qed.

Lemma VerifySignature_true `{!Ed25519Lib, !CborWriter} sig k enc sig' :
  Sig_VerifySignature sig k enc = Ok (sig', true) →
  sig' = Sig_set_sign sig false ∧ Algorithm (sigPublicKeyID sig) = Ed25519 ∧
  ∃ pk b, k = KeyEd25519 pk ∧ sigData sig = DataBytes b ∧
          ed25519_Verify pk (Sig_encoding (Sig_set_sign sig true) enc) b = true.
Proof.
  unfold Sig_VerifySignature. destruct (sigData sig) as [|b|] eqn:D, k as [pk| |]; try done;
    destruct (Z.eqb_spec (Algorithm (sigPublicKeyID sig)) Ed25519); try done; simpl.
  intros [= <- E]. split; [by destruct sig|]. split; [done|]. by exists pk, b.
Qed.

Section Generic.
Context {S : Type} {WS : WithSig S} {WL : WithSigLaws S} {CW : CborWriter} {CE : CborEncoder} {ED : Ed25519Lib}.
Context (now : Z) (pkeys : gmap PublicKeyID (list PublicKey)) (maxVal : MaxCacheValidity).

Lemma updateSectionValidity_inert (s : S) a b c d :
  AllSigs (updateSectionValidity now s a b c d maxVal) = AllSigs s ∧
  frame (updateSectionValidity now s a b c d maxVal) = frame s.
Proof.
  unfold updateSectionValidity, frame.
  destruct (toSection s), (a <? c), (b <? d); rewrite ?AllSigs_Update, ?frame_Update; done.
Qed.

Lemma encode_body (s t : S) : signing s = true → body t = body s → encode t = encode s.
Proof.
  intros Hs E. unfold encode. rewrite <-(Marshal_body s), <-(Marshal_body t), E; [done| |done].
  by rewrite <-signing_body, E, signing_body.
Qed.

Lemma CheckStringFields_body (s t : S) : body t = body s → CheckStringFields (toSection t) = CheckStringFields (toSection s).
Proof. intros E. by rewrite <-(Check_body s), <-(Check_body t), E. Qed.

(** Verified signatures are accepted one after the other. *)
Lemma check_sigs_complete enc sigs (s : S) :
  Forall (λ g, sigSign g = false ∧ verified now pkeys enc g) sigs →
  ∃ s', check_sigs now pkeys maxVal enc s sigs = Ok (s', bool_decide (Sigs s' ≠ [])) ∧
        AllSigs s' = AllSigs s ++ sigs ∧ frame s' = frame s.
Proof.
  intros Hv. revert s. induction Hv as [|g sigs [Hg (Hn & keys & key & pk & b & H1 & H2 & _ & _ & Ha & Hk & Hd & Hv)] _ IH];
    intros s; simpl; [exists s; by rewrite app_nil_r|].
  rewrite H1, (proj2 (Z.ltb_ge _ _)), H2 by done. unfold Sig_VerifySignature.
  rewrite Hd, Hk, Ha. simpl. rewrite Hv. simpl.
  destruct (IH (updateSectionValidity now (AddSig s (Sig_set_sign (Sig_set_sign g true) false)) (pkValidSince key)
    (pkValidUntil key) (sigValidSince g) (sigValidUntil g) maxVal)) as (s' & -> & E1 & E2).
  destruct (updateSectionValidity_inert (AddSig s (Sig_set_sign (Sig_set_sign g true) false)) (pkValidSince key)
    (pkValidUntil key) (sigValidSince g) (sigValidUntil g)) as [F1 F2].
  exists s'. split; [done|]. rewrite E1, E2, F1, F2, AllSigs_AddSig, (frame_AddSig s _ : frame _ = _), <-app_assoc.
  split; [|done]. do 2 f_equal. destruct g; simpl in *; by subst.
Qed.

(** What is accepted was verified: the signatures kept are the current ones, in order. *)
Lemma check_sigs_sound enc sigs (s s' : S) :
  check_sigs now pkeys maxVal enc s sigs = Ok (s', true) →
  let kept := (λ g, Sig_set_sign g false) <$> filter (λ g, unix now ≤ sigValidUntil g) sigs in
  AllSigs s' = AllSigs s ++ kept ∧ frame s' = frame s ∧ Sigs s' ≠ [] ∧ Forall (verified now pkeys enc) kept.
Proof.
  revert s. induction sigs as [|g sigs IH]; intros s; simpl.
  { intros [= -> H%bool_decide_eq_true]. by rewrite app_nil_r. }
  destruct (pkeys !! _) as [keys|] eqn:E1; [|done].
  destruct (Z.ltb_spec (sigValidUntil g) (unix now)) as [Hlt|Hge].
  { rewrite filter_cons_False by lia. apply IH. }
  destruct (getPublicKey _ _) as [key|] eqn:E2; [|done].
  destruct (Sig_VerifySignature _ _ _) as [[g' []]| |] eqn:E3; simpl; try done.
  apply VerifySignature_true in E3 as (-> & Ha & pk & b & Hk & Hd & Hv).
  intros H%IH. destruct H as (H1 & H2 & H3 & H4).
  destruct (updateSectionValidity_inert (AddSig s (Sig_set_sign g false)) (pkValidSince key)
    (pkValidUntil key) (sigValidSince g) (sigValidUntil g)) as [F1 F2].
  rewrite F1, AllSigs_AddSig, <-app_assoc in H1. rewrite F2, (frame_AddSig s _ : frame _ = _) in H2.
  rewrite filter_cons_True by done. rewrite fmap_cons. split_and!; try done. constructor; [|done].
  split; [done|]. exists keys, key, pk, b. apply getPublicKey_overlap in E2 as E2'. by destruct E2'.
Qed.

Lemma Sigs_all (s : S) : Forall (λ g, KeySpace (sigPublicKeyID g) = RainsKeySpace) (AllSigs s) → Sigs s = AllSigs s.
Proof.
  unfold Sigs, filterSigs. intros H.
  induction H as [|g l Hg _ IH]; [done|]. rewrite filter_cons_True by done. by f_equal.
Qed.
End Generic.

Lemma coverable_verified {ED : Ed25519Lib} {CW : CborWriter} {EDL : Ed25519Laws} now ks pkeys enc sig :
  coverable now ks pkeys sig →
  ∃ sig', Sig_SignData sig (default PrivNil (ks !! sigPublicKeyID sig)) enc = Ok sig' ∧
          KeySpace (sigPublicKeyID sig') = RainsKeySpace ∧ sigSign sig' = false ∧
          Sig_MetaData sig' = Sig_MetaData sig ∧ verified now pkeys enc sig'.
Proof.
  intros (Hs & Ha & Hd & Hf & Hn & sk & keys & key & H1 & H2 & H3 & H4). rewrite H1. simpl.
  destruct (Sign_then_Verify sig sk enc Ha Hd Hf) as (sig' & E & V). exists sig'. split; [done|].
  apply VerifySignature_true in V as (_ & _ & pk & b & Hpk & Hb & Hv). injection Hpk as <-.
  unfold Sig_SignData in E. rewrite Ha in E. simpl in E. simplify_eq. simpl. split_and!; try done.
  split; [done|]. exists keys, key, (ed25519_Public sk), b. apply getPublicKey_overlap in H3 as H3'. by destruct H3'.
Qed.

Section SignAndCheck.
Context {S : Type} {WS : WithSig S} {WL : WithSigLaws S} {CW : CborWriter} {CE : CborEncoder} {ED : Ed25519Lib}.
Context {EDL : Ed25519Laws}.
Context (now : Z) (ks : gmap PublicKeyID PrivKeyVal) (pkeys : gmap PublicKeyID (list PublicKey)) (maxVal : MaxCacheValidity).

Lemma sign_sigs_ok enc sigs (s : S) :
  Forall (coverable now ks pkeys) sigs →
  ∃ s' sigs', sign_sigs ks enc s sigs = Ok (s', None) ∧ AllSigs s' = AllSigs s ++ sigs' ∧ frame s' = frame s ∧
    Sig_MetaData <$> sigs' = Sig_MetaData <$> sigs ∧
    Forall (λ g, KeySpace (sigPublicKeyID g) = RainsKeySpace ∧ sigSign g = false ∧ verified now pkeys enc g) sigs'.
Proof.
  intros Hc. revert s. induction Hc as [|g sigs Hg _ IH]; intros s; simpl.
  { exists s, []. by rewrite app_nil_r. }
  destruct (coverable_verified now ks pkeys enc g Hg) as (g' & -> & K & F & M & V).
  destruct (IH (AddSig s g')) as (s' & sigs' & -> & E1 & E2 & E3 & E4).
  exists s', (g' :: sigs'). rewrite E1, E2, AllSigs_AddSig, (frame_AddSig s _ : frame _ = _), <-app_assoc, !fmap_cons, M, E3.
  split_and!; try done. by constructor.
Qed.

(** A section that is ready to be signed and checked. *)
Definition ready (s : S) : Prop :=
  signing s = true ∧ Forall (coverable now ks pkeys) (AllSigs s) ∧
  CheckStringFields (toSection s) = Ok true ∧ is_ok (encode s) = true.

Lemma coverable_rains sigs :
  Forall (coverable now ks pkeys) sigs → Forall (λ g, KeySpace (sigPublicKeyID g) = RainsKeySpace) sigs.
Proof. intros Hc. eapply Forall_impl; [done|]. by intros g [? _]. Qed.

(** Any section with the signatures and the body that signing left is accepted. *)
Lemma section_sign_check s : ready s →
  ∃ s', signSectionUnsafe s ks = Ok (s', None) ∧ frame s' = frame s ∧
        Sig_MetaData <$> AllSigs s' = Sig_MetaData <$> AllSigs s ∧ Sigs s' = AllSigs s' ∧
        ∀ t, body t = body s → AllSigs t = AllSigs s' →
             ∃ t', checkSectionSignatures now t (Some pkeys) maxVal = Ok (t', true) ∧
                   frame t' = frame t ∧ AllSigs t' = AllSigs t.
Proof.
  intros (Hs & Hc & Hf & Henc). destruct (encode s) as [enc| |] eqn:He; try done.
  unfold signSectionUnsafe. rewrite He, Sigs_all by (by apply coverable_rains).
  destruct (sign_sigs_ok enc (AllSigs s) (DeleteAllSigs s) Hc) as (s' & sigs & -> & E1 & E2 & E3 & E4).
  rewrite AllSigs_Delete in E1. simpl in E1. rewrite (frame_Delete s : frame _ = _) in E2.
  assert (∀ u : S, AllSigs u = sigs → Sigs u = AllSigs u) as Hr.
  { intros u E. apply Sigs_all. rewrite E. eapply Forall_impl; [done|]. by intros g [? _]. }
  exists s'. rewrite E1. split_and!; [done..|by rewrite <-E1; apply Hr|].
  intros t Hb Ht. unfold checkSectionSignatures.
  rewrite (Hr t Ht), Ht, (CheckStringFields_body s t Hb), Hf. simpl.
  case_bool_decide as Hnil; [exists t; split_and!; [done..|by rewrite Ht]|].
  rewrite (encode_body s (DeleteAllSigs t)), He by (rewrite ?(frame_body _ _ (frame_Delete t)); done).
  destruct (check_sigs_complete now pkeys maxVal enc sigs (DeleteAllSigs t)) as (t' & -> & F1 & F2).
  { eapply Forall_impl; [done|]. by intros g (_ & ? & ?). }
  rewrite AllSigs_Delete in F1. simpl in F1. rewrite (frame_Delete t : frame _ = _) in F2.
  exists t'. split_and!; try done. do 2 f_equal. apply bool_decide_eq_true_2. rewrite (Hr t') by done. by rewrite F1.
Qed.
End SignAndCheck.

(** ** Sections with their content *)

Section Whole.
Context {OL : ObjLib} {CW : CborWriter} {CE : CborEncoder} {ED : Ed25519Lib} {EDL : Ed25519Laws}.
Context (now : Z) (ks : gmap PublicKeyID PrivKeyVal) (pkeys : gmap PublicKeyID (list PublicKey)) (maxVal : MaxCacheValidity).

Lemma content_sign_check l : Forall (ready now ks pkeys) l →
  ∃ l', sign_content ks l = Ok (l', None) ∧ assertion_body <$> l' = assertion_body <$> l ∧
        (λ a, Sig_MetaData <$> aSignatures a) <$> l' = (λ a, Sig_MetaData <$> aSignatures a) <$> l ∧
        ∀ t, assertion_body <$> t = assertion_body <$> l → aSignatures <$> t = aSignatures <$> l' →
             ∃ t', check_content now (Some pkeys) maxVal t = Ok (t', true) ∧ aSignatures <$> t' = aSignatures <$> t.
Proof.
  induction 1 as [|a l Ha _ (l' & E1 & E2 & E3 & E4)].
  { exists []. split_and!; try done. intros [|] Ht; [|done]. intros _. by exists []. }
  destruct (section_sign_check now ks pkeys maxVal a Ha) as (a' & F1 & F2%frame_body & F3 & F4 & F5).
  destruct Ha as (_ & Hr%coverable_rains & _). apply (Sigs_all (S:=Assertion)) in Hr. cbn [sign_content].
  case_bool_decide as Hnil.
  - exists (a :: l'). rewrite E1, !fmap_cons, E2, E3. split_and!; try done.
    intros [|b t]; [done|]. rewrite !fmap_cons. intros [Hb Ht]%(inj2 cons) [Hs Hts]%(inj2 cons).
    destruct (E4 t Ht Hts) as (t' & G1 & G2). exists (b :: t'). rewrite fmap_cons, G2. split; [|done].
    cbn [check_content]. rewrite bool_decide_eq_true_2; [by rewrite G1|].
    unfold Sigs. change (AllSigs b) with (aSignatures b). rewrite Hs. exact Hnil.
  - rewrite F1. simpl. rewrite E1. exists (a' :: l'). change (assertion_body a' = assertion_body a) in F2.
    change (Sig_MetaData <$> aSignatures a' = Sig_MetaData <$> aSignatures a) in F3.
    rewrite !fmap_cons, E2, E3, F2, F3. split_and!; try done. intros [|b t]; [done|]. rewrite !fmap_cons. intros [Hb Ht]%(inj2 cons) [Hs Hts]%(inj2 cons).
    destruct (E4 t Ht Hts) as (t' & G1 & G2). destruct (F5 b Hb Hs) as (b' & K1 & _ & K3).
    exists (b' :: t'). rewrite fmap_cons, G2. rewrite (K3 : aSignatures b' = aSignatures b). split; [|done].
    cbn [check_content]. rewrite K1. simpl. rewrite G1. case_bool_decide as Hb0; [|done]. simpl.
    exfalso. apply Hnil. rewrite Hr. unfold Sigs in Hb0. change (AllSigs b) with (aSignatures b) in Hb0.
    rewrite Hs in Hb0. change (Sigs a' = []) in Hb0. rewrite F4 in Hb0. change (aSignatures a' = []) in Hb0.
    rewrite Hb0 in F3. change (AllSigs a) with (aSignatures a). by destruct (aSignatures a).
Qed.

(** What the signer asks of a section: it and every assertion of its content, with the
    context and zone of the section, is [ready], and the content inherits them. *)
Definition ready_content (context zone : string) (content : list Assertion) : Prop :=
  Forall inherits content ∧
  Forall (λ a, ready now ks pkeys (Assertion_Copy (Assertion_SetSign true a) context zone)) content.
Definition signable (s : SigSection) : Prop :=
  match s with
  | WAssertion a => ready now ks pkeys (DontAddSigInMarshaller a)
  | WPshard s => ready now ks pkeys (DontAddSigInMarshaller s)
  | WShard s => ready now ks pkeys (DontAddSigInMarshaller s) ∧ ready_content (sContext s) (sSubjectZone s) (sContent s)
  | WZone z => ready now ks pkeys (DontAddSigInMarshaller z) ∧ ready_content (zContext z) (zSubjectZone z) (zContent z)
  end.

(** The signatures of a section and of its content. *)
Definition all_sigs (s : SigSection) : list (list Sig) :=
  match s with
  | WAssertion a => [aSignatures a]
  | WShard s => sSignatures s :: (aSignatures <$> sContent s)
  | WPshard s => [pSignatures s]
  | WZone z => zSignatures z :: (aSignatures <$> zContent z)
  end.

Lemma assertion_cycle ctx zone a b :
  inherits a → assertion_body b = assertion_body (Assertion_Copy (Assertion_SetSign true a) ctx zone) →
  let back := Assertion_SetSign true (Assertion_SetSign false (Assertion_RemoveContextAndSubjectZone b)) in
  assertion_body back = assertion_body (Assertion_SetSign true a) ∧
  assertion_body (Assertion_Copy back ctx zone) = assertion_body b.
Proof.
  intros [Hc Hz]. destruct a, b. unfold assertion_body. simpl in *. intros [= -> -> -> -> ->]. by subst.
Qed.

(** The content that signing leaves ([l']), taken through the flags and the context of the
    two functions, is the content that was signed. *)
Lemma content_cycle ctx zone content l' :
  Forall inherits content →
  assertion_body <$> l' = assertion_body <$> ((λ a, Assertion_Copy a ctx zone) <$> (Assertion_SetSign true <$> content)) →
  let back := Assertion_SetSign true <$> (Assertion_SetSign false <$> (Assertion_RemoveContextAndSubjectZone <$> l')) in
  assertion_body <$> back = assertion_body <$> (Assertion_SetSign true <$> content) ∧
  assertion_body <$> ((λ a, Assertion_Copy a ctx zone) <$> back) = assertion_body <$> l' ∧
  aSignatures <$> ((λ a, Assertion_Copy a ctx zone) <$> back) = aSignatures <$> l'.
Proof.
  intros Hi. revert l'. induction Hi as [|a content [Hc Hz] _ IH]; intros [|b l']; try done.
  rewrite !fmap_cons. intros [Hb Hl]%(inj2 cons). destruct (IH l' Hl) as (E1 & E2 & E3).
  destruct (assertion_cycle ctx zone a b) as [F1 F2]; [done|done|].
  cbn zeta in *. rewrite !fmap_cons, E1, E2, E3, F1, F2. done.
Qed.

Definition all_meta (s : SigSection) : list (list MetaData) := (λ l : list Sig, Sig_MetaData <$> l) <$> all_sigs s.

Lemma shard_sign_check s : signable (WShard s) →
  ∃ s' s'', SignSectionUnsafe (WShard s) ks = Ok (WShard s', None) ∧
    CheckSectionSignatures now (WShard s') (Some pkeys) maxVal = Ok (WShard s'', true) ∧
    all_sigs (WShard s'') = all_sigs (WShard s') ∧
    all_meta (WShard s') = all_meta (WShard s).
Proof.
  intros [Hs [Hi Hc]].
  destruct (section_sign_check now ks pkeys maxVal _ Hs) as (s1 & E1 & E2 & E3 & _ & E5).
  assert (E2' := E2). injection E2' as Ez Ec Ef Et Eb Esg Econt.
  destruct (content_sign_check ((λ a, Assertion_Copy a (sContext s) (sSubjectZone s)) <$> (Assertion_SetSign true <$> sContent s)))
    as (l' & L1 & L2 & L3 & L4); [by apply Forall_fmap, Forall_fmap|].
  destruct (content_cycle _ _ _ _ Hi L2) as (C1 & C2 & C3).
  set (s2 := Shard_AddSigInMarshaller (Shard_RemoveCtxAndZoneFromContent
               (Shard_set_content (Shard_AddCtxAndZoneToContent s1) l'))).
  destruct (E5 (DontAddSigInMarshaller s2)) as (t & T1 & T2 & T3); [|done|].
  { change (shard_body (Shard_SetSign true s2) = shard_body (Shard_SetSign true s)).
    unfold shard_body. simpl. by rewrite Ez, Ec, Ef, Et, C1. }
  injection T2 as Tz Tc _ _ _ _ Tcont.
  destruct (L4 ((λ a, Assertion_Copy a (sContext s) (sSubjectZone s)) <$> sContent t)) as (u & U1 & U2);
    [by rewrite Tcont, C2|by rewrite Tcont|].
  exists s2, (Shard_AddSigInMarshaller (Shard_RemoveCtxAndZoneFromContent
                (Shard_set_content (Shard_AddCtxAndZoneToContent t) u))).
  split; [|split; [|split]].
  - unfold SignSectionUnsafe. rewrite E1. cbn [mbind outcome_bind]. simpl. by rewrite Ec, Ez, Econt, L1.
  - unfold CheckSectionSignatures. rewrite T1. cbn [mbind outcome_bind]. simpl.
    by rewrite Tc, Tz, Ec, Ez, U1.
  - unfold all_sigs. simpl. change (sSignatures t = sSignatures s2) in T3. rewrite T3. f_equal.
    rewrite Tcont in U2. rewrite <-!list_fmap_compose in U2 |- *. exact U2.
  - unfold all_meta, all_sigs. rewrite !fmap_cons. f_equal; [exact E3|].
    etrans; [|etrans; [exact L3|]]; simpl; by rewrite <-!list_fmap_compose.
Qed.
Lemma zone_ctx z : zContent (Zone_AddCtxAndZoneToContent z) =
  (λ a, Assertion_Copy a (zContext z) (zSubjectZone z)) <$> zContent z.
Proof. done. Qed.

Lemma zone_sign_check s : signable (WZone s) →
  ∃ s' s'', SignSectionUnsafe (WZone s) ks = Ok (WZone s', None) ∧
    CheckSectionSignatures now (WZone s') (Some pkeys) maxVal = Ok (WZone s'', true) ∧
    all_sigs (WZone s'') = all_sigs (WZone s') ∧
    all_meta (WZone s') = all_meta (WZone s).
Proof.
  intros [Hs [Hi Hc]].
  destruct (section_sign_check now ks pkeys maxVal _ Hs) as (s1 & E1 & E2 & E3 & _ & E5).
  assert (E2' := E2). injection E2' as Ez Ec Eb Esg Econt.
  destruct (content_sign_check ((λ a, Assertion_Copy a (zContext s) (zSubjectZone s)) <$> (Assertion_SetSign true <$> zContent s)))
    as (l' & L1 & L2 & L3 & L4); [by apply Forall_fmap, Forall_fmap|].
  destruct (content_cycle _ _ _ _ Hi L2) as (C1 & C2 & C3).
  set (s2 := Zone_AddSigInMarshaller (Zone_RemoveCtxAndZoneFromContent
               (Zone_set_content (Zone_AddCtxAndZoneToContent s1) l'))).
  destruct (E5 (DontAddSigInMarshaller s2)) as (t & T1 & T2 & T3); [|done|].
  { change (zone_body (Zone_SetSign true s2) = zone_body (Zone_SetSign true s)).
    unfold zone_body. simpl. by rewrite Ez, Ec, C1. }
  injection T2 as Tz Tc _ _ Tcont.
  destruct (L4 ((λ a, Assertion_Copy a (zContext s) (zSubjectZone s)) <$> zContent t)) as (u & U1 & U2);
    [by rewrite Tcont, C2|by rewrite Tcont|].
  exists s2, (Zone_AddSigInMarshaller (Zone_RemoveCtxAndZoneFromContent
                (Zone_set_content (Zone_AddCtxAndZoneToContent t) u))).
  split; [|split; [|split]].
  - unfold SignSectionUnsafe. rewrite E1. cbn [mbind outcome_bind]. cbn zeta. by rewrite zone_ctx, Ec, Ez, Econt, L1.
  - unfold CheckSectionSignatures. rewrite T1. cbn [mbind outcome_bind]. cbn zeta.
    cbn [negb]. by rewrite zone_ctx, Tc, Tz; simpl; rewrite Ec, Ez, U1.
  - unfold all_sigs. simpl. change (zSignatures t = zSignatures s2) in T3. rewrite T3. f_equal.
    rewrite Tcont in U2. rewrite <-!list_fmap_compose in U2 |- *. exact U2.
  - unfold all_meta, all_sigs. rewrite !fmap_cons. f_equal; [exact E3|].
    etrans; [|etrans; [exact L3|]]; simpl; by rewrite <-!list_fmap_compose.
Qed.

Lemma assertion_sign_check a : signable (WAssertion a) →
  ∃ a' a'', SignSectionUnsafe (WAssertion a) ks = Ok (WAssertion a', None) ∧
    CheckSectionSignatures now (WAssertion a') (Some pkeys) maxVal = Ok (WAssertion a'', true) ∧
    all_sigs (WAssertion a'') = all_sigs (WAssertion a') ∧ all_meta (WAssertion a') = all_meta (WAssertion a) ∧
    assertion_body a' = assertion_body (Assertion_SetSign false a).
Proof.
  intros Hs. destruct (section_sign_check now ks pkeys maxVal _ Hs) as (a1 & E1 & E2%frame_body & E3 & _ & E5).
  destruct (E5 (DontAddSigInMarshaller (AddSigInMarshaller a1))) as (t & T1 & _ & T3); [|done|].
  { injection E2 as F1 F2 F3 F4 F5. cbn. unfold assertion_body. simpl. by rewrite F1, F2, F3, F4. }
  exists (AddSigInMarshaller a1), (AddSigInMarshaller t).
  unfold SignSectionUnsafe, CheckSectionSignatures. rewrite E1, T1. split_and!; try done.
  - by apply (f_equal (λ x, [x])).
  - by apply (f_equal (λ x, [x])).
  - injection E2 as F1 F2 F3 F4 F5. unfold assertion_body. cbn. by rewrite F1, F2, F3, F4.
Qed.
Lemma pshard_sign_check s : signable (WPshard s) →
  ∃ s' s'', SignSectionUnsafe (WPshard s) ks = Ok (WPshard s', None) ∧
    CheckSectionSignatures now (WPshard s') (Some pkeys) maxVal = Ok (WPshard s'', true) ∧
    all_sigs (WPshard s'') = all_sigs (WPshard s') ∧ all_meta (WPshard s') = all_meta (WPshard s).
Proof.
  intros Hs. destruct (section_sign_check now ks pkeys maxVal _ Hs) as (a1 & E1 & E2%frame_body & E3 & _ & E5).
  destruct (E5 (DontAddSigInMarshaller (AddSigInMarshaller a1))) as (t & T1 & _ & T3); [|done|].
  { injection E2 as F1 F2 F3 F4 F5 F6. cbn. unfold pshard_body. simpl. by rewrite F1, F2, F3, F4, F5. }
  exists (AddSigInMarshaller a1), (AddSigInMarshaller t).
  unfold SignSectionUnsafe, CheckSectionSignatures. rewrite E1, T1. split_and!; try done.
  - by apply (f_equal (λ x, [x])).
  - by apply (f_equal (λ x, [x])).
Qed.
Lemma sign_check_section s : signable s →
  ∃ s' s'', SignSectionUnsafe s ks = Ok (s', None) ∧
    CheckSectionSignatures now s' (Some pkeys) maxVal = Ok (s'', true) ∧
    all_sigs s'' = all_sigs s' ∧ all_meta s' = all_meta s.
Proof.
  destruct s as [a|s|s|z].
  - intros (s' & s'' & ? & ? & ? & ? & _)%assertion_sign_check. by exists (WAssertion s'), (WAssertion s'').
  - intros (s' & s'' & ? & ? & ? & ?)%shard_sign_check. by exists (WShard s'), (WShard s'').
  - intros (s' & s'' & ? & ? & ? & ?)%pshard_sign_check. by exists (WPshard s'), (WPshard s'').
  - intros (s' & s'' & ? & ? & ? & ?)%zone_sign_check. by exists (WZone s'), (WZone s'').
Qed.

(** C4: what [SignSectionUnsafe] signs, [CheckSectionSignatures] accepts: for an assertion,
    shard, pshard or zone whose signatures (and those of its content) are in the RAINS key
    space, not yet made and not expired, with a private key for each and a public key that
    overlaps in time, signing succeeds, checking the result under the public keys succeeds,
    and every signature survives the check. *)
Theorem sign_then_check s : signable s →
  ∃ s' s'', SignSectionUnsafe s ks = Ok (s', None) ∧
    CheckSectionSignatures now s' (Some pkeys) maxVal = Ok (s'', true) ∧
    all_sigs s'' = all_sigs s' ∧ all_meta s' = all_meta s.
Proof. apply sign_check_section. Qed.
End Whole.

(** ** Soundness *)

Section Sound.
Context {CW : CborWriter} {CE : CborEncoder} {ED : Ed25519Lib}.
Context (now : Z) (maxVal : MaxCacheValidity).

(** [s'] is what a successful check leaves of [s]: [s] itself when it has no signature of
    the RAINS key space; otherwise the section with the signatures that have not expired,
    of which there is at least one, each verified over the section's encoding. *)
Definition accepted {S} `{!WithSig S, !WithSigLaws S} (pkeys : gmap PublicKeyID (list PublicKey)) (s s' : S) : Prop :=
  (Sigs s = [] ∧ s' = s) ∨
  ∃ enc, encode (DeleteAllSigs s) = Ok enc ∧ CheckStringFields (toSection s) = Ok true ∧ frame s' = frame s ∧
    AllSigs s' = (λ g, Sig_set_sign g false) <$> filter (λ g, unix now ≤ sigValidUntil g) (Sigs s) ∧
    AllSigs s' ≠ [] ∧ Forall (verified now pkeys enc) (AllSigs s').

Lemma accepted_frame {S} `{!WithSig S, !WithSigLaws S} pkeys (s s' : S) : accepted pkeys s s' → frame s' = frame s.
Proof. intros [[_ ->]|(enc & _ & _ & ? & _)]; done. Qed.

Lemma section_sound {S} `{!WithSig S, !WithSigLaws S} (s s' : S) pkeys :
  checkSectionSignatures now s pkeys maxVal = Ok (s', true) → ∃ pk, pkeys = Some pk ∧ accepted pk s s'.
Proof.
  unfold checkSectionSignatures. destruct pkeys as [pk|]; [|done]. intros Hc. exists pk. split; [done|].
  case_bool_decide as Hnil; [left; by simplify_eq|]. right.
  destruct (CheckStringFields _) as [[]| |] eqn:E1; try done. cbn in Hc.
  destruct (encode _) as [enc| |] eqn:E2; try done. exists enc.
  apply check_sigs_sound in Hc as (F1 & F2 & F3 & F4). rewrite AllSigs_Delete in F1. simpl in F1.
  rewrite (frame_Delete s : frame _ = _) in F2. rewrite F1. split_and!; try done.
  rewrite <-F1. intros F. apply F3. unfold Sigs. by rewrite F.
Qed.

Context {OL : ObjLib}.

Lemma content_sound l l' pk : check_content now (Some pk) maxVal l = Ok (l', true) → Forall2 (accepted pk) l l'.
Proof.
  revert l'. induction l as [|a l IH]; intros l'; cbn [check_content]; [by intros [= <-]|].
  case_bool_decide as Hnil.
  - destruct (check_content _ _ _ l) as [[l1 []]| |] eqn:E; try done. intros [= <-].
    constructor; [by left|by apply IH].
  - destruct (checkSectionSignatures _ _ _ _) as [[a1 []]| |] eqn:E1; try done. cbn.
    destruct (check_content _ _ _ l) as [[l1 []]| |] eqn:E; try done. intros [= <-].
    apply section_sound in E1 as (? & [= <-] & E1). constructor; [done|by apply IH].
Qed.

Definition accepted_section (pk : gmap PublicKeyID (list PublicKey)) (s s' : SigSection) : Prop :=
  match s, s' with
  | WAssertion a, WAssertion a' => ∃ b, accepted pk (DontAddSigInMarshaller a) b ∧ a' = AddSigInMarshaller b
  | WPshard s, WPshard s' => ∃ t, accepted pk (DontAddSigInMarshaller s) t ∧ s' = AddSigInMarshaller t
  | WShard s, WShard s' => ∃ t content, accepted pk (DontAddSigInMarshaller s) t ∧
      Forall2 (accepted pk) (sContent (Shard_AddCtxAndZoneToContent (DontAddSigInMarshaller s))) content ∧
      s' = AddSigInMarshaller (Shard_RemoveCtxAndZoneFromContent (Shard_set_content t content))
  | WZone z, WZone z' => ∃ t content, accepted pk (DontAddSigInMarshaller z) t ∧
      Forall2 (accepted pk) (zContent (Zone_AddCtxAndZoneToContent (DontAddSigInMarshaller z))) content ∧
      z' = AddSigInMarshaller (Zone_RemoveCtxAndZoneFromContent (Zone_set_content t content))
  | _, _ => False
  end.

Lemma whole_sound s s' pkeys :
  CheckSectionSignatures now s pkeys maxVal = Ok (s', true) → ∃ pk, pkeys = Some pk ∧ accepted_section pk s s'.
Proof.
  destruct s as [a|s|s|z]; unfold CheckSectionSignatures;
    (destruct (checkSectionSignatures _ _ _ _) as [[t []]| |] eqn:E; cbn [mbind outcome_bind negb]; try done);
    apply section_sound in E as (pk & -> & E).
  - intros [= <-]. exists pk. split; [done|]. by exists t.
  - cbn zeta. destruct (check_content _ _ _ _) as [[l []]| |] eqn:E2; cbn [mbind outcome_bind negb]; try done.
    intros [= <-]. exists pk. split; [done|]. apply content_sound in E2. exists t, l. split_and!; try done.
    apply accepted_frame in E as F. injection F as Fz Fc _ _ _ _ Fcont. simpl in E2 |- *.
    by rewrite Fz, Fc, Fcont in E2.
  - intros [= <-]. exists pk. split; [done|]. by exists t.
  - cbn zeta. destruct (check_content _ _ _ _) as [[l []]| |] eqn:E2; cbn [mbind outcome_bind negb]; try done.
    intros [= <-]. exists pk. split; [done|]. apply content_sound in E2. exists t, l. split_and!; try done.
    apply accepted_frame in E as F. injection F as Fz Fc _ _ Fcont. rewrite zone_ctx in E2 |- *.
    by rewrite Fz, Fc, Fcont in E2.
Qed.

(** C5: whatever [CheckSectionSignatures] accepts was verified.  A section it accepts keeps
    its data; of its signatures in the RAINS key space exactly those that have not expired
    are left, in order, and each verifies over the section's encoding under a key that the
    caller supplied for its key identifier and that is valid at the same time; the same
    holds of every assertion in the content, with the section's context and zone.  A
    section without signatures is accepted as it is, and nothing is accepted without keys. *)
Theorem CheckSectionSignatures_sound s s' pkeys :
  CheckSectionSignatures now s pkeys maxVal = Ok (s', true) → ∃ pk, pkeys = Some pk ∧ accepted_section pk s s'.
Proof. apply whole_sound. Qed.
End Sound.

(** ** RHINE certificates *)

Section Rhine.
Context {OL : ObjLib} {CW : CborWriter} {CE : CborEncoder} {ED : Ed25519Lib} {XL : X509Lib}.

Lemma message_cert_loop_snoc cur content a :
  message_cert_loop cur (content ++ [SecAssertion a]) =
  (_ ← message_cert_loop cur content; GetRhineCertFromAssertion a).
Proof.
  revert cur. induction content as [|s content IH]; intros cur; simpl.
  { by destruct (GetRhineCertFromAssertion a). }
  destruct s as [b| | | | |]; simpl; try apply IH.
  - destruct (GetRhineCertFromAssertion b); simpl; [apply IH|done..].
  - destruct (zone_cert_loop _ _); simpl; [apply IH|done..].
Qed.

Lemma verify_content_sound now pk content content' :
  verify_content now (Some pk) content = Ok (content', true) →
  Forall2 (λ s s', ∃ w w', as_with_sig s = Ok w ∧ s' = SigSection_section w' ∧ accepted_section now pk w w')
    content content'.
Proof.
  revert content'. induction content as [|s content IH]; intros content'; cbn [verify_content]; [by intros [= <-]|].
  destruct (as_with_sig s) as [w| |] eqn:Ew; cbn [mbind outcome_bind]; try done.
  destruct (CheckSectionSignatures _ _ _ _) as [[w' []]| |] eqn:E; cbn [mbind outcome_bind negb]; try done.
  destruct (verify_content _ _ content) as [[l []]| |] eqn:El; cbn [mbind outcome_bind]; try done.
  intros [= <-]. apply whole_sound in E as (? & [= <-] & E). constructor; [by exists w, w'|by apply IH].
Qed.

(** A message that [RhineCertVerification] accepts carries a RHINE certificate that
    verifies for the zone of the assertion it was found in, and every section was accepted
    under the certificate's key.  The certificate is the one of the last section that was
    looked at: a message that ends in an assertion without one is refused, whatever
    certificates the sections before it carry. *)
Theorem RhineCertVerification_spec now msg :
  (∀ msg', RhineCertVerification now msg = Ok (msg', true) →
     ∃ cert zone id, message_cert_loop noCert (mContent msg) = Ok (Some cert, zone, id) ∧ x509_Verify cert zone = true ∧
       Forall2 (λ s s', ∃ w w', as_with_sig s = Ok w ∧ s' = SigSection_section w' ∧
                  accepted_section now
                    {[id := [mkPublicKey id (x509_NotBefore cert) (unix_after now three_hours) (x509_PublicKey cert)]]} w w')
         (mContent msg) (mContent msg')) ∧
  (∀ content a, mContent msg = content ++ [SecAssertion a] → is_ok (message_cert_loop noCert content) = true →
     GetRhineCertFromAssertion a = Ok noCert → RhineCertVerification now msg = Ok (msg, false)).
Proof.
  unfold RhineCertVerification. split.
  - intros msg'. destruct (message_cert_loop _ _) as [[[[cert|] zone] id]| |] eqn:E; cbn [mbind outcome_bind]; try done.
    destruct (x509_Verify cert zone) eqn:V; cbn [negb]; [|done].
    destruct (verify_content _ _ _) as [[l []]| |] eqn:El; cbn [mbind outcome_bind]; try done.
    intros [= <-]. exists cert, zone, id. apply verify_content_sound in El. done.
  - intros content a Hm Hc Ha. rewrite Hm, message_cert_loop_snoc.
    destruct (message_cert_loop _ content); try done. cbn [mbind outcome_bind]. by rewrite Ha.
Qed.
End Rhine.

(** ** Witnesses *)

Section Witnesses.
Local Existing Instance be_objlib.
Local Existing Instance toy_cbor.
Local Existing Instance toy_ed25519.
Local Existing Instance toy_ed25519_laws.
Local Instance toy_encoder : CborEncoder := {| cbor_value c := Ok (match c with CMap m => [Z.of_nat (length m)] | _ => [] end) |}.

Definition w_id : PublicKeyID := mkPublicKeyID Ed25519 RainsKeySpace 1.
Definition w_sig : Sig := mkSig w_id 0 100 DataNil false.
Definition w_ks : gmap PublicKeyID PrivKeyVal := {[w_id := PrivEd25519 [3]]}.
Definition w_pkeys : gmap PublicKeyID (list PublicKey) := {[w_id := [mkPublicKey w_id 0 200 (KeyEd25519 [3])]]}.
Definition w_max : MaxCacheValidity := rhine_max.
Definition w_shard_sec : SigSection :=
  WShard (mkShard [w_sig] "ethz.ch." "." "a" "z"
    [mkAssertion [w_sig] "www" "" "" [mkObject OTIP4Addr (VIP [1; 2; 3; 4])] 0 0 false] 0 0 false).

Lemma w_coverable : coverable 0 w_ks w_pkeys w_sig.
Proof.
  repeat (split; [done|]).
  exists [3], [mkPublicKey w_id 0 200 (KeyEd25519 [3])], (mkPublicKey w_id 0 200 (KeyEd25519 [3])).
  repeat split; vm_compute; reflexivity.
Qed.

Lemma w_ready {S} `{!WithSig S, !WithSigLaws S} (s : S) :
  signing s = true → AllSigs s = [w_sig] → CheckStringFields (toSection s) = Ok true → is_ok (encode s) = true →
  ready 0 w_ks w_pkeys s.
Proof. intros ? Hs ??. split_and!; try done. rewrite Hs. constructor; [apply w_coverable|done]. Qed.

Lemma w_signable : signable 0 w_ks w_pkeys w_shard_sec.
Proof.
  split; [by apply w_ready; vm_compute|]. split; (constructor; [|constructor]); [done|]. by apply w_ready; vm_compute.
Qed.

Lemma sign_then_check_witness :
  ∃ s' s'', SignSectionUnsafe w_shard_sec w_ks = Ok (s', None) ∧
    CheckSectionSignatures 0 s' (Some w_pkeys) w_max = Ok (s'', true) ∧ all_meta s' = [[Sig_MetaData w_sig]; [Sig_MetaData w_sig]].
Proof.
  destruct (sign_then_check 0 w_ks w_pkeys w_max w_shard_sec w_signable) as (s' & s'' & E1 & E2 & _ & E3).
  exists s', s''. split; [exact E1|]. split; [exact E2|]. rewrite E3. vm_compute. reflexivity.
Defined.

(** An assertion with a signature the toy library made, and what the check leaves of it. *)
Definition w_signed (f : bool) : Assertion :=
  mkAssertion [mkSig w_id 0 100 (DataBytes [0; 3; 4; 6]) false] "www" "ch." "." [] 0 (if f then 100 else 0) false.

Lemma CheckSectionSignatures_sound_witness :
  ∃ pk, Some w_pkeys = Some pk ∧ accepted_section 0 pk (WAssertion (w_signed false)) (WAssertion (w_signed true)).
Proof.
  apply (CheckSectionSignatures_sound 0 w_max (WAssertion (w_signed false)) (WAssertion (w_signed true)) (Some w_pkeys)).
  vm_compute. reflexivity.
Defined.

(** A toy x509 library: every byte string is a certificate, with itself as its key. *)
Local Instance toy_x509 : X509Lib := {|
  x509_cert := list Z; x509_ParseCertificate b := Ok b; x509_Verify _ _ := true;
  x509_NotBefore _ := 0; x509_PublicKey b := KeyEd25519 b
|}.
Definition w_rhine : Assertion :=
  mkAssertion [mkSig w_id 0 100 (DataBytes [0; 3; 4; 6]) false] "@" "ch." "."
    [mkObject OTCertInfo (VCertificate (mkCertificate PTRhine CUZoneAuth Sha256 [3]))] 0 0 false.

Lemma RhineCertVerification_spec_witness :
  let msg l := mkMessage [] (replicate 16 0) l [] in
  (∃ msg', RhineCertVerification 0 (msg [SecAssertion (w_signed false); SecAssertion w_rhine]) = Ok (msg', true) ∧
           Forall2 (λ s s', ∃ w w', as_with_sig s = Ok w ∧ s' = SigSection_section w' ∧
                      accepted_section 0 {[w_id := [mkPublicKey w_id 0 10800 (KeyEd25519 [3])]]} w w')
             [SecAssertion (w_signed false); SecAssertion w_rhine] (mContent msg')) ∧
  RhineCertVerification 0 (msg [SecAssertion w_rhine; SecAssertion (w_signed false)]) =
    Ok (msg [SecAssertion w_rhine; SecAssertion (w_signed false)], false).
Proof.
  intros msg. split.
  - destruct (RhineCertVerification 0 (msg [SecAssertion (w_signed false); SecAssertion w_rhine]))
      as [[msg' []]| |] eqn:E; try (vm_compute in E; discriminate).
    exists msg'. split; [reflexivity|].
    destruct (proj1 (RhineCertVerification_spec 0 _) msg' E) as (cert & zone & id & H1 & _ & H2).
    vm_compute in H1. injection H1 as <- <- <-. exact H2.
  - apply (proj2 (RhineCertVerification_spec 0 _) [SecAssertion w_rhine] (w_signed false)); reflexivity.
Defined.
End Witnesses.
