(* ===== verification/Merkle.v ===== *)
(** * Merkle trees over delegation intervals

    Models src/offlineauth/rhine/merkleTree.go, the leaf types of rhineTree.go and the
    authority levels of zone.go.

    Nodes point to their children and to their parent.  A tree owns its nodes: [nodes] is
    the list of allocated nodes and a pointer is an index into it, so that the same node can
    be reached twice (an odd level pairs its last node with itself).  [sha256]'s [Write]
    never returns an error, so the error results of the hash functions are left out.
    Recursion over the pointers has a depth limit; exceeding it is a stack overflow. *)

From S2P Require Import Prelude Cbor Keys.
Local Open Scope Z_scope.

(** ** zone.go *)

(** [type AuthorityLevel uint8] *)
Abbreviation AuthorityLevel := Z (only parsing).

Definition CheckINDSet (al : AuthorityLevel) : bool := Z.land 1 al =? 1.
Definition CheckEOISet (al : AuthorityLevel) : bool := Z.land 1 (Z.shiftr al 1) =? 1.
Definition CheckTERSet (al : AuthorityLevel) : bool := Z.land 1 (Z.shiftr al 2) =? 1.
Definition CheckDOLSet (al : AuthorityLevel) : bool := Z.land 1 (Z.shiftr al 3) =? 1.

Definition CheckLegalDelegationAuthority (parentAL childAL : AuthorityLevel) : bool :=
  if negb (CheckINDSet parentAL) then false
  else if CheckDOLSet parentAL then false
  else true.

(** [fmt.Sprintf("%b", al)]: the binary digits, without leading zeros. *)
Fixpoint bits (p : positive) (acc : list Z) : list Z :=
  match p with
  | xH => 49 :: acc
  | xO p' => bits p' (48 :: acc)
  | xI p' => bits p' (49 :: acc)
  end.
Definition AuthorityLevel_ToString (al : AuthorityLevel) : list Z :=
  match al with Zpos p => bits p [] | _ => [48] end.

(** ** rhineTree.go: leaves *)

(** [type DSLeafType int] *)
Definition SmallestPossibleZone : Z := 0.
Definition ExistingZone : Z := 1.
Definition GreatestPossibleZone : Z := 2.

Record DSLeafZone := mkDSLeafZone { zZone : string; zAlv : AuthorityLevel; zZoneType : Z }.
Record DSLeafContent := mkDSLeafContent { dStart : DSLeafZone; dEnd : DSLeafZone }.

#[export] Instance DSLeafZone_eq_dec : EqDecision DSLeafZone.
Proof. solve_decision. Defined.
#[export] Instance DSLeafContent_eq_dec : EqDecision DSLeafContent.
Proof. solve_decision. Defined.

(** [string(n)] of an integer: the UTF-8 encoding of the rune, or of U+FFFD. *)
Definition string_of_rune (n : Z) : list Z :=
  if (0 <=? n) && (n <? 0x80) then [n]
  else if (0x80 <=? n) && (n <? 0x800) then [0xC0 + n / 64; 0x80 + n mod 64]
  else if (0x800 <=? n) && (n <? 0x10000) && negb ((0xD800 <=? n) && (n <? 0xE000)) then
    [0xE0 + n / 4096; 0x80 + n / 64 mod 64; 0x80 + n mod 64]
  else if (0x10000 <=? n) && (n <=? 0x10FFFF) then
    [0xF0 + n / 262144; 0x80 + n / 4096 mod 64; 0x80 + n / 64 mod 64; 0x80 + n mod 64]
  else [0xEF; 0xBF; 0xBD].

Definition leaf_zone_bytes (z : DSLeafZone) : list Z :=
  bytes_of_string (zZone z) ++ AuthorityLevel_ToString (zAlv z) ++ string_of_rune (zZoneType z).

Definition Equals (l other : DSLeafContent) : bool :=
  (zZone (dStart l) =ₛ zZone (dStart other)) && (zAlv (dStart l) =? zAlv (dStart other)) &&
  (zZone (dEnd l) =ₛ zZone (dEnd other)) && (zAlv (dEnd l) =? zAlv (dEnd other)) &&
  ((zZoneType (dStart l) =? zZoneType (dStart other)) && (zZoneType (dEnd l) =? zZoneType (dEnd other))).

Definition GetNegativeInfinityZone : DSLeafZone := mkDSLeafZone "" 0 SmallestPossibleZone.
Definition GetPositiveInfinityZone : DSLeafZone := mkDSLeafZone "" 0 GreatestPossibleZone.
Definition GetEmptyContent : DSLeafContent := mkDSLeafContent GetNegativeInfinityZone GetPositiveInfinityZone.
Definition zeroContent : DSLeafContent := mkDSLeafContent (mkDSLeafZone "" 0 0) (mkDSLeafZone "" 0 0).

(** ** merkleTree.go *)

Record Node := mkNode {
  nParent : option nat;
  nLeft : option nat;
  nRight : option nat;
  nLeaf : bool;
  nDup : bool;
  nHash : list Z;
  nC : DSLeafContent
}.
Definition zeroNode : Node := mkNode None None None false false [] zeroContent.

Record MerkleTree := mkMerkleTree {
  mtNodes : list Node;
  mtRoot : nat;
  MerkleRootInternal : list Z;
  mtLeafs : list nat
}.

(** The node a pointer of the tree points to. *)
Definition node_at (h : list Node) (p : nat) : Node := default zeroNode (h !! p).
Definition hash_at (h : list Node) (p : nat) : list Z := nHash (node_at h p).

(** [n.Parent = q] *)
Definition set_parent (q : option nat) (n : Node) : Node :=
  mkNode q (nLeft n) (nRight n) (nLeaf n) (nDup n) (nHash n) (nC n).

Section Merkle.
Context {SL : Sha256Lib}.

Definition CalculateHash (l : DSLeafContent) : list Z :=
  sha256_Sum256 (leaf_zone_bytes (dStart l) ++ leaf_zone_bytes (dEnd l)).

Fixpoint verifyNode (depth : nat) (h : list Node) (p : nat) : outcome (list Z) :=
  match depth with
  | O => Panic "stack overflow"
  | S depth' =>
      let n := node_at h p in
      if nLeaf n then Ok (CalculateHash (nC n))
      else
        r ← or_panic (nRight n) "nil pointer dereference";
        rightBytes ← verifyNode depth' h r;
        l ← or_panic (nLeft n) "nil pointer dereference";
        leftBytes ← verifyNode depth' h l;
        Ok (sha256_Sum256 (leftBytes ++ rightBytes))
  end.

Definition calculateNodeHash (h : list Node) (p : nat) : outcome (list Z) :=
  let n := node_at h p in
  if nLeaf n then Ok (CalculateHash (nC n))
  else
    l ← or_panic (nLeft n) "nil pointer dereference";
    r ← or_panic (nRight n) "nil pointer dereference";
    Ok (sha256_Sum256 (hash_at h l ++ hash_at h r)).

(** A new node over two nodes, which get it as their parent. *)
Definition join (h : list Node) (l r : nat) : list Node :=
  let n := mkNode None (Some l) (Some r) false false (sha256_Sum256 (hash_at h l ++ hash_at h r)) zeroContent in
  alter (set_parent (Some (length h))) r (alter (set_parent (Some (length h))) l (h ++ [n])).

(** The loop over one level: the nodes of the next level, after [nodes]. *)
Fixpoint build_level (h : list Node) (nl nodes : list nat) : list Node * list nat :=
  match nl with
  | [] => (h, nodes)
  | [l] => (join h l l, nodes ++ [length h])
  | l :: r :: nl' => build_level (join h l r) nl' (nodes ++ [length h])
  end.

(** A level of two nodes is joined to the root. *)
Fixpoint buildIntermediate (depth : nat) (h : list Node) (nl : list nat) : outcome (list Node * nat) :=
  match depth with
  | O => Panic "stack overflow"
  | S depth' =>
      match nl with
      | [l; r] => Ok (join h l r, length h)
      | _ => let '(h', nodes) := build_level h nl [] in buildIntermediate depth' h' nodes
      end
  end.

Definition leaf_node (dup : bool) (c : DSLeafContent) : Node := mkNode None None None true dup (CalculateHash c) c.

(** The leaves, with the last one duplicated when their number is odd. *)
Definition leaf_nodes (cs : list DSLeafContent) : list Node :=
  let leafs := leaf_node false <$> cs in
  if (length leafs mod 2 =? 1)%nat
  then leafs ++ [leaf_node true (nC (default zeroNode (last leafs)))]
  else leafs.

Definition buildWithContent (cs : list DSLeafContent) : outcome (list Node * nat * list nat) :=
  match cs with
  | [] => Err "error: cannot construct tree with no content"
  | _ =>
      let leafs := leaf_nodes cs in
      let pointers := seq 0 (length leafs) in
      '(h, root) ← buildIntermediate (S (length leafs)) leafs pointers;
      Ok (h, root, pointers)
  end.

Definition NewTree (cs : list DSLeafContent) : outcome MerkleTree :=
  '(h, root, leafs) ← buildWithContent cs;
  Ok (mkMerkleTree h root (hash_at h root) leafs).
Definition NewTreeWithHashStrategy (cs : list DSLeafContent) : outcome MerkleTree := NewTree cs.
Definition RebuildTreeWith (m : MerkleTree) (cs : list DSLeafContent) : outcome MerkleTree :=
  '(h, root, leafs) ← buildWithContent cs;
  Ok (mkMerkleTree h root (hash_at h root) leafs).
Definition RebuildTree (m : MerkleTree) : outcome MerkleTree :=
  RebuildTreeWith m ((λ p, nC (node_at (mtNodes m) p)) <$> mtLeafs m).

Definition MerkleRoot (m : MerkleTree) : list Z := MerkleRootInternal m.

(** The loop to the root of [GetMerklePath]; a chain of parents is no longer than the tree. *)
Fixpoint climb (fuel : nat) (h : list Node) (current : nat) (currentParent : option nat)
    : outcome (list (list Z) * list Z) :=
  match currentParent with
  | None => Ok ([], [])
  | Some q =>
      match fuel with
      | O => Panic "parents form a cycle"
      | S fuel' =>
          let parent := node_at h q in
          l ← or_panic (nLeft parent) "nil pointer dereference";
          if bool_decide (hash_at h l = hash_at h current) then
            r ← or_panic (nRight parent) "nil pointer dereference";
            '(path, index) ← climb fuel' h q (nParent parent);
            Ok (hash_at h r :: path, 1 :: index)
          else
            '(path, index) ← climb fuel' h q (nParent parent);
            Ok (hash_at h l :: path, 0 :: index)
      end
  end.

Definition find_leaf (m : MerkleTree) (content : DSLeafContent) : option nat :=
  list_find (λ p, Equals (nC (node_at (mtNodes m) p)) content = true) (mtLeafs m) ≫= λ r, Some r.2.

(** [None] for the nil path of a content that is not in the tree. *)
Definition GetMerklePath (m : MerkleTree) (content : DSLeafContent) : outcome (option (list (list Z) * list Z)) :=
  match find_leaf m content with
  | None => Ok None
  | Some p =>
      r ← climb (length (mtNodes m)) (mtNodes m) p (nParent (node_at (mtNodes m) p)); Ok (Some r)
  end.

Definition VerifyTree (m : MerkleTree) : outcome bool :=
  calculated ← verifyNode (S (length (mtNodes m))) (mtNodes m) (mtRoot m);
  Ok (bool_decide (MerkleRootInternal m = calculated)).

Fixpoint verify_up (fuel : nat) (h : list Node) (currentParent : option nat) : outcome bool :=
  match currentParent with
  | None => Ok true
  | Some q =>
      match fuel with
      | O => Panic "parents form a cycle"
      | S fuel' =>
          let parent := node_at h q in
          r ← or_panic (nRight parent) "nil pointer dereference";
          rightBytes ← calculateNodeHash h r;
          l ← or_panic (nLeft parent) "nil pointer dereference";
          leftBytes ← calculateNodeHash h l;
          if bool_decide (sha256_Sum256 (leftBytes ++ rightBytes) = nHash parent)
          then verify_up fuel' h (nParent parent)
          else Ok false
      end
  end.

Definition VerifyContent (m : MerkleTree) (content : DSLeafContent) : outcome bool :=
  match find_leaf m content with
  | None => Ok false
  | Some p => verify_up (length (mtNodes m)) (mtNodes m) (nParent (node_at (mtNodes m) p))
  end.
End Merkle.
