(* ===== verification/MerkleFacts.v ===== *)
(** * Properties of Merkle trees

    Theorems about [Merkle]: a built tree is well formed and its root is that of the
    reference construction on lists of hashes; verification accepts it; paths lead from a
    content to the root. *)

From S2P Require Import Prelude Cbor Keys Merkle.

Section Facts.
Context {SL : Sha256Lib}.

(** ** Well-formed trees *)

(** Leaves carry the hash of their content and have no children, inner nodes carry the hash
    of their children's hashes; children are allocated before their parents, and a node is
    the parent of exactly its children. *)
Record merkle_wf (h : list Node) : Prop := {
  wf_leaf p n : h !! p = Some n → nLeaf n = true → nHash n = CalculateHash (nC n);
  wf_inner p n : h !! p = Some n → nLeaf n = false →
    ∃ l r, nLeft n = Some l ∧ nRight n = Some r ∧ l < p ∧ r < p ∧
           nHash n = sha256_Sum256 (hash_at h l ++ hash_at h r);
  wf_parent p n q : h !! p = Some n → nParent n = Some q →
    p < q ∧ ∃ nq, h !! q = Some nq ∧ nLeaf nq = false ∧ (nLeft nq = Some p ∨ nRight nq = Some p);
  wf_ends p n : h !! p = Some n → nLeaf n = true → nLeft n = None ∧ nRight n = None;
  wf_child q nq p : h !! q = Some nq → nLeft nq = Some p ∨ nRight nq = Some p → nParent (node_at h p) = Some q
}.

(** The nodes without a parent. *)
Definition orphans (h : list Node) (ps : list nat) : Prop :=
  ∀ p, p ∈ ps ↔ ∃ n, h !! p = Some n ∧ nParent n = None.

(** [h'] has the nodes of [h] up to their parents. *)
Definition extends (h h' : list Node) : Prop :=
  ∀ p n, h !! p = Some n → ∃ q, h' !! p = Some (set_parent q n).

Lemma set_parent_twice q q' n : set_parent q (set_parent q' n) = set_parent q n.
Proof. done. Qed.
Lemma set_parent_same n : set_parent (nParent n) n = n.
Proof. by destruct n. Qed.

#[local] Instance extends_refl : Reflexive extends.
Proof. intros h p n H. exists (nParent n). by rewrite set_parent_same. Qed.
#[local] Instance extends_trans : Transitive extends.
Proof. intros h1 h2 h3 H1 H2 p n (q & H)%H1. apply H2 in H as (q' & H). exists q'. by rewrite set_parent_twice in H. Qed.

Lemma node_at_lookup h p n : h !! p = Some n → node_at h p = n.
Proof. unfold node_at. by intros ->. Qed.

Lemma extends_hash h h' p : extends h h' → p < length h → hash_at h' p = hash_at h p.
Proof.
  intros H [n Hn]%lookup_lt_is_Some. destruct (H p n Hn) as [q Hq]. unfold hash_at.
  by rewrite (node_at_lookup h p n), (node_at_lookup h' p _ Hq).
Qed.

Lemma extends_hashes h h' ps : extends h h' → Forall (λ p, p < length h) ps → hash_at h' <$> ps = hash_at h <$> ps.
Proof. intros H Hps. apply list_fmap_ext. intros i p Hp. apply extends_hash; [done|]. by eapply Forall_lookup_1 in Hps. Qed.

Lemma extends_length h h' : extends h h' → length h ≤ length h'.
Proof.
  intros H. destruct (decide (length h = 0)) as [|Hne]; [lia|].
  destruct (lookup_lt_is_Some_2 h (length h - 1)) as [n Hn]; [lia|].
  destruct (H _ _ Hn) as [q Hq]. apply lookup_lt_Some in Hq. lia.
Qed.

(** ** Joining two nodes *)

Definition joined (h : list Node) (l r : nat) : Node :=
  mkNode None (Some l) (Some r) false false (sha256_Sum256 (hash_at h l ++ hash_at h r)) zeroContent.

Lemma join_length h l r : length (join h l r) = S (length h).
Proof. unfold join. rewrite !length_alter, length_app. simpl. lia. Qed.

Lemma join_new h l r : l < length h → r < length h → join h l r !! length h = Some (joined h l r).
Proof.
  intros Hl Hr. unfold join. rewrite !list_lookup_alter_ne by lia. by rewrite lookup_app_r, Nat.sub_diag by lia.
Qed.

Lemma join_old h l r p n : l < length h → r < length h → h !! p = Some n →
  join h l r !! p = Some (if decide (p = l ∨ p = r) then set_parent (Some (length h)) n else n).
Proof.
  intros Hl Hr Hp. unfold join. assert (p < length h) by (by eapply lookup_lt_Some).
  destruct (decide (p = r)) as [->|Nr].
  - rewrite list_lookup_alter_eq. destruct (decide (r = l)) as [->|Nl].
    + rewrite list_lookup_alter_eq, lookup_app_l, Hp by done. simpl. by rewrite decide_True by auto.
    + rewrite list_lookup_alter_ne, lookup_app_l, Hp by done. simpl. by rewrite decide_True by auto.
  - rewrite list_lookup_alter_ne by done. destruct (decide (p = l)) as [->|Nl].
    + rewrite list_lookup_alter_eq, lookup_app_l, Hp by done. simpl. by rewrite decide_True by auto.
    + rewrite list_lookup_alter_ne, lookup_app_l, Hp by done. by rewrite decide_False by naive_solver.
Qed.

Lemma join_inv h l r p n : l < length h → r < length h → join h l r !! p = Some n →
  (p = length h ∧ n = joined h l r) ∨
  (p < length h ∧ ∃ n0, h !! p = Some n0 ∧ n = if decide (p = l ∨ p = r) then set_parent (Some (length h)) n0 else n0).
Proof.
  intros Hl Hr H. assert (p < S (length h)) as Hp by (rewrite <-(join_length h l r); by eapply lookup_lt_Some).
  destruct (decide (p = length h)) as [->|Hne]; [left; rewrite join_new in H by done; by simplify_eq|right].
  destruct (lookup_lt_is_Some_2 h p) as [n0 Hn0]; [lia|]. split; [lia|]. exists n0. split; [done|].
  rewrite (join_old _ _ _ _ n0) in H by done. by simplify_eq.
Qed.

Lemma join_extends h l r : l < length h → r < length h → extends h (join h l r).
Proof.
  intros Hl Hr p n H. rewrite (join_old _ _ _ _ n) by done.
  destruct (decide (p = l ∨ p = r)); [by eexists|]. exists (nParent n). by rewrite set_parent_same.
Qed.

Lemma join_wf h l r : merkle_wf h → l < length h → r < length h →
  nParent (node_at h l) = None → nParent (node_at h r) = None → merkle_wf (join h l r).
Proof.
  intros W Hl Hr Pl Pr. pose proof (join_extends h l r Hl Hr) as Ex.
  assert (∀ p, p < length h → hash_at (join h l r) p = hash_at h p) as Hh by (intros; by apply extends_hash).
  split.
  - intros p n H Hn. apply join_inv in H as [[-> ->]|(Hp & n0 & H0 & ->)]; [done| |done|done].
    pose proof (wf_leaf h W p n0 H0). destruct (decide _); auto.
  - intros p n H Hn. apply join_inv in H as [[-> ->]|(Hp & n0 & H0 & ->)]; [| |done|done].
    + exists l, r. rewrite !Hh by done. split_and!; done.
    + assert (nLeaf n0 = false) as Hf by (by destruct (decide _)).
      destruct (wf_inner h W p n0 H0 Hf) as (a & b & E1 & E2 & La & Lb & E3).
      exists a, b. rewrite !Hh by lia. destruct (decide _); simpl; done.
  - intros p n q H Hn. apply join_inv in H as [[-> ->]|(Hp & n0 & H0 & ->)]; [done| |done|done].
    destruct (decide (p = l ∨ p = r)) as [Hlr|Hlr].
    + simpl in Hn. simplify_eq. split; [done|]. exists (joined h l r). split; [by apply join_new|]. split; [done|].
      simpl. destruct Hlr as [-> | ->]; auto.
    + destruct (wf_parent h W p n0 q H0 Hn) as (Hq & nq & E1 & E2 & E3). split; [done|].
      destruct (Ex q nq E1) as [q' E]. eexists. split; [exact E|]. done.
  - intros p n H Hn. apply join_inv in H as [[-> ->]|(Hp & n0 & H0 & ->)]; [done| |done|done].
    pose proof (wf_ends h W p n0 H0). destruct (decide _); auto.
  - intros q nq p H Hc. apply join_inv in H as [[-> ->]|(Hq & n0 & H0 & ->)]; [| |done|done].
    + assert (p = l ∨ p = r) as Hp by (simpl in Hc; naive_solver). assert (p < length h) as Hlt by naive_solver.
      destruct (lookup_lt_is_Some_2 h p Hlt) as [n Hn].
      rewrite (node_at_lookup _ _ _ (join_old _ _ _ _ _ Hl Hr Hn)). by rewrite decide_True.
    + assert (nLeft n0 = Some p ∨ nRight n0 = Some p) as Hc' by (by destruct (decide (q = l ∨ q = r))).
      pose proof (wf_child h W q n0 p H0 Hc') as Hpar. destruct (h !! p) as [n|] eqn:Hn; [|unfold node_at in Hpar; by rewrite Hn in Hpar].
      rewrite (node_at_lookup _ _ _ Hn) in Hpar. rewrite (node_at_lookup _ _ _ (join_old _ _ _ _ _ Hl Hr Hn)).
      rewrite decide_False; [done|]. intros [-> | ->].
      * by rewrite (node_at_lookup _ _ _ Hn), Hpar in Pl.
      * by rewrite (node_at_lookup _ _ _ Hn), Hpar in Pr.
Qed.

Lemma join_orphans h l r ps : l < length h → r < length h →
  (∀ p, p ∈ ps ∨ p = l ∨ p = r ↔ ∃ n, h !! p = Some n ∧ nParent n = None) → l ∉ ps → r ∉ ps →
  orphans (join h l r) (ps ++ [length h]).
Proof.
  intros Hl Hr Ho Nl Nr p. rewrite elem_of_app, list_elem_of_singleton. split.
  - intros [Hp| ->]; [|exists (joined h l r); split; [by apply join_new|done]].
    destruct (proj1 (Ho p)) as (n & Hn & Pn); [by left|].
    exists n. split; [|done]. rewrite (join_old _ _ _ _ n) by done. rewrite decide_False; [done|].
    intros [-> | ->]; done.
  - intros (n & Hn & Pn). apply join_inv in Hn as [[-> ->]|(Hp & n0 & H0 & ->)]; [by right| |done|done]. left.
    destruct (decide (p = l ∨ p = r)) as [|Hlr]; [done|]. destruct (proj2 (Ho p)) as [?|[?|?]]; naive_solver.
Qed.

(** ** Levels *)

(** The reference: the hashes of a level from those of the level below, and the root. *)
Fixpoint pair_hashes (hs : list (list Z)) : list (list Z) :=
  match hs with
  | [] => []
  | [x] => [sha256_Sum256 (x ++ x)]
  | x :: y :: hs' => sha256_Sum256 (x ++ y) :: pair_hashes hs'
  end.
Fixpoint root_hash (depth : nat) (hs : list (list Z)) : list Z :=
  match depth with
  | O => []
  | S depth' => match hs with [x; y] => sha256_Sum256 (x ++ y) | _ => root_hash depth' (pair_hashes hs) end
  end.

(** The nodes behind those of [h] are no leaves. *)
Definition inner_beyond (h h' : list Node) : Prop := ∀ p n, h' !! p = Some n → nLeaf n = true → p < length h.
Lemma inner_beyond_trans h h1 h2 : inner_beyond h h1 → extends h1 h2 → inner_beyond h1 h2 → inner_beyond h h2.
Proof.
  intros I1 E2 I2 p n Hn Hl. destruct (lookup_lt_is_Some_2 h1 p) as [m Hm]; [by eapply I2|].
  destruct (E2 p m Hm) as [q Hq]. rewrite Hn in Hq. simplify_eq. by eapply I1.
Qed.

(** What building does to the nodes. *)
Definition grown (h h' : list Node) (ps : list nat) : Prop :=
  merkle_wf h' ∧ orphans h' ps ∧ extends h h' ∧ inner_beyond h h'.

Lemma orphans_lt h ps : orphans h ps → Forall (λ p, p < length h) ps.
Proof. intros Ho. apply Forall_forall. intros p (n & Hn & _)%Ho. by eapply lookup_lt_Some. Qed.

Lemma orphan_parent h ps p : orphans h ps → p ∈ ps → nParent (node_at h p) = None.
Proof. intros Ho (n & Hn & Pn)%Ho. by rewrite (node_at_lookup h p n). Qed.

Lemma join_grown h l r rest :
  merkle_wf h → orphans h (l :: r :: rest) ∨ (l = r ∧ orphans h (l :: rest)) → l ∉ rest → r ∉ rest →
  grown h (join h l r) (rest ++ [length h]) ∧ hash_at (join h l r) (length h) = sha256_Sum256 (hash_at h l ++ hash_at h r).
Proof.
  intros W Ho Nl Nr.
  assert (∀ p, p ∈ rest ∨ p = l ∨ p = r ↔ ∃ n, h !! p = Some n ∧ nParent n = None) as Ho'.
  { destruct Ho as [Ho|[-> Ho]]; intros p; rewrite <-(Ho p), !elem_of_cons; tauto. }
  assert (∀ p, p = l ∨ p = r → p < length h ∧ nParent (node_at h p) = None) as Hlr.
  { intros p Hp. destruct (proj1 (Ho' p)) as (n & Hn & Pn); [tauto|].
    split; [by eapply lookup_lt_Some|by rewrite (node_at_lookup h p n)]. }
  destruct (Hlr l) as [Hl Pl], (Hlr r) as [Hr Pr]; [auto..|].
  split; [|unfold hash_at at 1; by rewrite (node_at_lookup _ _ _ (join_new h l r Hl Hr))].
  split; [by apply join_wf|]. split; [by apply join_orphans|]. split; [by apply join_extends|].
  intros p n H Hn. by apply join_inv in H as [[-> ->]|[? _]].
Qed.

Lemma NoDup_grow h ps : orphans h ps → NoDup ps → NoDup (ps ++ [length h]).
Proof.
  intros Ho%orphans_lt Hn. apply NoDup_app. split_and!; [done| |apply NoDup_singleton].
  intros p Hp ->%list_elem_of_singleton. rewrite Forall_forall in Ho. specialize (Ho _ Hp). lia.
Qed.

Lemma build_level_spec nl h nodes : merkle_wf h → orphans h (nl ++ nodes) → NoDup (nl ++ nodes) →
  let r := build_level h nl nodes in
  grown h r.1 r.2 ∧ NoDup r.2 ∧ length r.2 = length nodes + Nat.div2 (S (length nl)) ∧
  hash_at r.1 <$> r.2 = (hash_at h <$> nodes) ++ pair_hashes (hash_at h <$> nl).
Proof.
  revert h nodes. induction nl as [nl IH] using (well_founded_induction (well_founded_ltof _ length)).
  intros h nodes W Ho Hn. destruct nl as [|l [|r nl]]; simpl.
  - rewrite app_nil_r. split_and!; [|done|lia|done]. split_and!; try done. intros p n Hp _. by eapply lookup_lt_Some.
  - apply NoDup_cons in Hn as [Hl Hn]. destruct (join_grown h l l nodes W) as [G Hh]; [by right|done|done|].
    split_and!; [done|apply NoDup_app; split_and!; [done| |apply NoDup_singleton]|rewrite length_app; done|].
    { intros p Hp ->%list_elem_of_singleton. pose proof (orphans_lt _ _ Ho) as Hlt. rewrite Forall_forall in Hlt.
      specialize (Hlt (length h)). rewrite elem_of_app in Hlt. specialize (Hlt (or_intror Hp)). lia. }
    rewrite fmap_app. simpl. rewrite Hh. f_equal. apply extends_hashes; [apply G|].
    apply orphans_lt in Ho. by apply Forall_cons_1 in Ho as [_ Ho].
  - change ((l :: r :: nl) ++ nodes) with (l :: r :: (nl ++ nodes)) in Ho, Hn.
    assert (NoDup ((l :: r :: (nl ++ nodes)) ++ [length h])) as Hn' by (by apply NoDup_grow).
    simpl in Hn'. apply NoDup_cons in Hn' as [_ Hn']. apply NoDup_cons in Hn' as [_ Hn'].
    apply NoDup_cons in Hn as [Hl Hn]. apply NoDup_cons in Hn as [Hr Hn].
    assert (l ∉ nl ++ nodes) as Hl' by (intros ?; apply Hl; by right).
    pose proof (orphans_lt _ _ Ho) as Hlt. apply Forall_cons_1 in Hlt as [_ Hlt]. apply Forall_cons_1 in Hlt as [_ Hlt].
    apply Forall_app in Hlt as [Hlt1 Hlt2].
    destruct (join_grown h l r (nl ++ nodes) W) as [(W1 & O1 & E1 & I1) Hh]; [by left|done|done|].
    rewrite <-app_assoc in O1, Hn'.
    destruct (IH nl) with (h := join h l r) (nodes := nodes ++ [length h]) as ((W2 & O2 & E2 & I2) & N2 & L2 & H2);
      [unfold ltof; simpl; lia|done|done|done|].
    split_and!; [split_and!; [done|done|by etrans|by eapply inner_beyond_trans]|done|rewrite L2, length_app; simpl; lia|].
    rewrite H2, fmap_app, (extends_hashes h _ nodes), (extends_hashes h _ nl) by done. simpl.
    by rewrite Hh, <-app_assoc.
Qed.

Lemma buildIntermediate_spec depth h nl : merkle_wf h → orphans h nl → NoDup nl → 2 ≤ length nl → length nl ≤ depth →
  ∃ h' root, buildIntermediate depth h nl = Ok (h', root) ∧ grown h h' [root] ∧
             hash_at h' root = root_hash depth (hash_at h <$> nl).
Proof.
  revert h nl. induction depth as [|depth IH]; intros h nl W Ho Hn H2 Hd; [lia|].
  destruct (decide (length nl = 2)) as [E|E].
  - destruct nl as [|l [|r [|]]]; try done. simpl. do 2 eexists. split; [done|].
    apply NoDup_cons in Hn as [Hl Hn].
    destruct (join_grown h l r [] W) as [G Hh]; [by left|apply not_elem_of_nil..|]. done.
  - assert (buildIntermediate (S depth) h nl = buildIntermediate depth (build_level h nl []).1 (build_level h nl []).2) as ->.
    { destruct nl as [|l [|r [|x nl]]]; try (simpl in *; lia). cbn [buildIntermediate].
      by destruct (build_level h (l :: r :: x :: nl) []). }
    destruct (build_level_spec nl h []) as ((W1 & O1 & E1 & I1) & N1 & L1 & H1); [done|by rewrite app_nil_r..|].
    rewrite Nat.add_0_l in L1.
    assert (S (length nl) = 2 * Nat.div2 (S (length nl)) + Nat.b2n (Nat.odd (S (length nl)))) as Hdiv by apply Nat.div2_odd.
    assert (Nat.b2n (Nat.odd (S (length nl))) ≤ 1) by (by destruct (Nat.odd _); simpl; lia).
    destruct (IH (build_level h nl []).1 (build_level h nl []).2) as (h' & root & -> & (W2 & O2 & E2 & I2) & H3); [done..|rewrite L1; lia|rewrite L1; lia|].
    exists h', root. split; [done|]. split; [split_and!; [done|done|by etrans|by eapply inner_beyond_trans]|].
    rewrite H3, H1. simpl. destruct nl as [|l [|r [|x nl]]]; done.
Qed.

(** ** Building from contents *)

(** The contents of the leaves: the last one twice when their number is odd. *)
Definition pad (cs : list DSLeafContent) : list DSLeafContent :=
  if length cs mod 2 =? 1 then cs ++ option_list (last cs) else cs.

Lemma elem_of_pad cs c : c ∈ pad cs ↔ c ∈ cs.
Proof.
  unfold pad. destruct (_ =? _); [|done]. rewrite elem_of_app. split; [|by left]. intros [?|Hc]; [done|].
  destruct (last cs) as [x|] eqn:E; [|by apply elem_of_nil in Hc]. apply list_elem_of_singleton in Hc as ->.
  by apply last_Some_elem_of.
Qed.

Lemma pad_length cs : cs ≠ [] → 2 ≤ length (pad cs).
Proof.
  intros Hne. unfold pad. destruct (last cs) as [x|] eqn:E; [|by apply last_None in E].
  destruct (Nat.eqb_spec (length cs mod 2) 1) as [Ho|Ho]; [rewrite length_app; simpl|];
    destruct cs as [|a [|b cs]]; simpl in *; try done; lia.
Qed.

Lemma leaf_nodes_pad cs : ∃ dups, leaf_nodes cs = zip_with leaf_node dups (pad cs) ∧ length dups = length (pad cs).
Proof.
  unfold leaf_nodes, pad. rewrite length_fmap. assert (leaf_node false <$> cs = zip_with leaf_node (replicate (length cs) false) cs) as E.
  { induction cs as [|c cs IH]; [done|]. rewrite fmap_cons, IH. done. }
  destruct (_ =? _) eqn:Hodd; [|exists (replicate (length cs) false); by rewrite length_replicate].
  destruct (last cs) as [x|] eqn:Hl; [|apply last_None in Hl as ->; done].
  exists (replicate (length cs) false ++ [true]). rewrite fmap_last, Hl. simpl.
  rewrite E, zip_with_app by (by rewrite length_replicate). split; [done|].
  by rewrite !length_app, length_replicate.
Qed.

Lemma leaf_nodes_lookup cs p n : leaf_nodes cs !! p = Some n → ∃ dup c, n = leaf_node dup c ∧ pad cs !! p = Some c.
Proof.
  destruct (leaf_nodes_pad cs) as (dups & -> & _). rewrite lookup_zip_with.
  intros (d & E1 & E)%bind_Some. apply bind_Some in E as (c & E2 & [= <-]). by exists d, c.
Qed.

Lemma leaf_nodes_length cs : length (leaf_nodes cs) = length (pad cs).
Proof. destruct (leaf_nodes_pad cs) as (dups & -> & E). rewrite length_zip_with. lia. Qed.

Lemma leaf_nodes_fields {A} (f : Node → A) (g : DSLeafContent → A) cs :
  (∀ d c, f (leaf_node d c) = g c) → (λ p, f (node_at (leaf_nodes cs) p)) <$> seq 0 (length (leaf_nodes cs)) = g <$> pad cs.
Proof.
  intros Hf. apply list_eq. intros i. rewrite !list_lookup_fmap.
  destruct (decide (i < length (leaf_nodes cs))) as [Hi|Hi].
  - rewrite lookup_seq_lt by done. simpl. destruct (lookup_lt_is_Some_2 _ _ Hi) as [n Hn].
    rewrite (node_at_lookup _ _ _ Hn). apply leaf_nodes_lookup in Hn as (d & c & -> & ->). simpl. by rewrite Hf.
  - rewrite lookup_seq_ge by lia. rewrite leaf_nodes_length in Hi. by rewrite (lookup_ge_None_2 (pad cs)) by lia.
Qed.

Lemma leaf_nodes_wf cs : merkle_wf (leaf_nodes cs) ∧ orphans (leaf_nodes cs) (seq 0 (length (leaf_nodes cs))).
Proof.
  split; [split|].
  - intros p n (d & c & -> & _)%leaf_nodes_lookup _. done.
  - intros p n (d & c & -> & _)%leaf_nodes_lookup. done.
  - intros p n q (d & c & -> & _)%leaf_nodes_lookup. done.
  - intros p n (d & c & -> & _)%leaf_nodes_lookup. done.
  - intros q nq p (d & c & -> & _)%leaf_nodes_lookup. naive_solver.
  - intros p. rewrite elem_of_seq. split.
    + intros [_ Hp]. destruct (lookup_lt_is_Some_2 (leaf_nodes cs) p) as [n Hn]; [lia|].
      exists n. split; [done|]. by apply leaf_nodes_lookup in Hn as (d & c & -> & _).
    + intros (n & Hn & _). apply lookup_lt_Some in Hn. lia.
Qed.

(** A tree over [cs]: well formed, with one node without a parent, whose hash is the
    recorded root, whose leaves carry [cs] and are listed. *)
Definition merkle_ok (t : MerkleTree) (cs : list DSLeafContent) : Prop :=
  merkle_wf (mtNodes t) ∧ orphans (mtNodes t) [mtRoot t] ∧
  MerkleRootInternal t = hash_at (mtNodes t) (mtRoot t) ∧
  Forall (λ p, ∃ n, mtNodes t !! p = Some n ∧ nLeaf n = true) (mtLeafs t) ∧
  (∀ p n, mtNodes t !! p = Some n → nLeaf n = true → nC n ∈ cs) ∧
  ∀ c, c ∈ ((λ p, nC (node_at (mtNodes t) p)) <$> mtLeafs t) ↔ c ∈ cs.

Lemma NewTree_ok cs : cs ≠ [] →
  ∃ t, NewTree cs = Ok t ∧ merkle_ok t cs ∧
       MerkleRoot t = root_hash (S (length (pad cs))) (CalculateHash <$> pad cs).
Proof.
  intros Hne. destruct (leaf_nodes_wf cs) as [W O].
  destruct (buildIntermediate_spec (S (length (leaf_nodes cs))) (leaf_nodes cs) (seq 0 (length (leaf_nodes cs))))
    as (h & root & E & (W' & O' & Ex & In) & Hh); [done|done|apply NoDup_seq|..].
  { rewrite length_seq, leaf_nodes_length. by apply pad_length. }
  { rewrite length_seq. lia. }
  exists (mkMerkleTree h root (hash_at h root) (seq 0 (length (leaf_nodes cs)))).
  unfold NewTree, buildWithContent. destruct cs as [|c cs']; [done|]. set (cs := c :: cs') in *.
  cbn [mbind outcome_bind]. rewrite E. split; [done|]. split; [split_and!; try done; simpl|].
  - apply Forall_forall. intros p [_ Hp]%elem_of_seq. destruct (lookup_lt_is_Some_2 (leaf_nodes cs) p) as [n Hn]; [lia|].
    destruct (Ex p n Hn) as [q Hq]. eexists. split; [exact Hq|]. by apply leaf_nodes_lookup in Hn as (d & x & -> & _).
  - intros p n Hp Hl. destruct (lookup_lt_is_Some_2 (leaf_nodes cs) p) as [m Hm]; [by eapply In|].
    destruct (Ex p m Hm) as [q Hq]. rewrite Hp in Hq. simplify_eq. apply leaf_nodes_lookup in Hm as (d & x & -> & Hx).
    apply elem_of_pad. by eapply list_elem_of_lookup_2.
  - intros c0. rewrite <-(elem_of_pad cs), <-(list_fmap_id (pad cs)), <-(leaf_nodes_fields nC id) by done.
    match goal with |- _ ∈ ?l ↔ _ ∈ ?k => enough (l = k) as -> by done end. apply list_fmap_ext. intros i p [-> Hp]%lookup_seq.
    destruct (lookup_lt_is_Some_2 (leaf_nodes cs) (0 + i)) as [n Hn]; [lia|]. destruct (Ex _ n Hn) as [q Hq].
    by rewrite (node_at_lookup _ _ _ Hq), (node_at_lookup _ _ _ Hn).
  - simpl. rewrite Hh, leaf_nodes_length, <-leaf_nodes_length. unfold hash_at.
    by rewrite (leaf_nodes_fields nHash CalculateHash).
Qed.

(** ** Verification and paths *)

Lemma verifyNode_ok depth h p n : merkle_wf h → h !! p = Some n → p < depth → verifyNode depth h p = Ok (nHash n).
Proof.
  intros W. revert p n. induction depth as [|depth IH]; intros p n Hp Hd; [lia|]. simpl.
  rewrite (node_at_lookup h p n Hp). destruct (nLeaf n) eqn:E; [by rewrite (wf_leaf h W p n)|].
  destruct (wf_inner h W p n Hp E) as (l & r & -> & -> & Hl & Hr & ->). simpl.
  apply lookup_lt_Some in Hp.
  destruct (lookup_lt_is_Some_2 h l) as [nl Hnl]; [lia|]. destruct (lookup_lt_is_Some_2 h r) as [nr Hnr]; [lia|].
  rewrite (IH r nr), (IH l nl) by (done || lia). simpl. unfold hash_at.
  by rewrite (node_at_lookup h l nl), (node_at_lookup h r nr).
Qed.

Lemma calculateNodeHash_ok h p n : merkle_wf h → h !! p = Some n → calculateNodeHash h p = Ok (nHash n).
Proof.
  intros W Hp. unfold calculateNodeHash. rewrite (node_at_lookup h p n Hp).
  destruct (nLeaf n) eqn:E; [by rewrite (wf_leaf h W p n)|].
  by destruct (wf_inner h W p n Hp E) as (l & r & -> & -> & _ & _ & ->).
Qed.

(** The parent of a node, with both children. *)
Lemma parent_node h p n q : merkle_wf h → h !! p = Some n → nParent n = Some q →
  p < q < length h ∧ ∃ nq l r nl nr, h !! q = Some nq ∧ nLeft nq = Some l ∧ nRight nq = Some r ∧
    h !! l = Some nl ∧ h !! r = Some nr ∧ nHash nq = sha256_Sum256 (nHash nl ++ nHash nr) ∧ (l = p ∨ r = p).
Proof.
  intros W Hp Hq. destruct (wf_parent h W p n q Hp Hq) as (Hlt & nq & Hnq & Hf & Hc).
  apply lookup_lt_Some in Hnq as Hq'. split; [lia|].
  destruct (wf_inner h W q nq Hnq Hf) as (l & r & El & Er & Hl & Hr & Eh).
  destruct (lookup_lt_is_Some_2 h l) as [nl Hnl]; [lia|]. destruct (lookup_lt_is_Some_2 h r) as [nr Hnr]; [lia|].
  exists nq, l, r, nl, nr. split_and!; try done.
  - rewrite Eh. unfold hash_at. by rewrite (node_at_lookup h l nl), (node_at_lookup h r nr).
  - destruct Hc as [Hc|Hc]; simplify_eq; auto.
Qed.

Lemma verify_up_ok fuel h p n : merkle_wf h → h !! p = Some n → length h ≤ p + fuel → verify_up fuel h (nParent n) = Ok true.
Proof.
  intros W. revert p n. induction fuel as [|fuel IH]; intros p n Hp Hf.
  { apply lookup_lt_Some in Hp. lia. }
  destruct (nParent n) as [q|] eqn:E; [|done].
  destruct (parent_node h p n q W Hp E) as (Hq & nq & l & r & nl & nr & Hnq & El & Er & Hnl & Hnr & Eh & _).
  simpl. rewrite (node_at_lookup h q nq Hnq), El, Er. simpl.
  rewrite (calculateNodeHash_ok h r nr), (calculateNodeHash_ok h l nl) by done. simpl.
  rewrite bool_decide_eq_true_2 by done. apply (IH q nq); [done|lia].
Qed.

(** The hash of the root from that of a leaf, a path and the sides, as the comment of the
    path's producer describes it: 1 puts the sibling to the right. *)
Fixpoint recompute (hash : list Z) (path : list (list Z)) (index : list Z) : list Z :=
  match path, index with
  | p :: path', i :: index' => recompute (sha256_Sum256 (if (i =? 1)%Z then hash ++ p else p ++ hash)) path' index'
  | _, _ => hash
  end.

Lemma climb_ok fuel h root p n : merkle_wf h → orphans h [root] → h !! p = Some n → length h ≤ p + fuel →
  ∃ path index, climb fuel h p (nParent n) = Ok (path, index) ∧ length path = length index ∧
                recompute (nHash n) path index = hash_at h root.
Proof.
  intros W O. revert p n. induction fuel as [|fuel IH]; intros p n Hp Hf.
  { apply lookup_lt_Some in Hp. lia. }
  destruct (nParent n) as [q|] eqn:E.
  2:{ exists [], []. split_and!; try done. simpl. assert (p ∈ [root]) as ->%list_elem_of_singleton by (apply O; eauto).
      unfold hash_at. by rewrite (node_at_lookup h root n). }
  destruct (parent_node h p n q W Hp E) as (Hq & nq & l & r & nl & nr & Hnq & El & Er & Hnl & Hnr & Eh & Hc).
  destruct (IH q nq Hnq) as (path & index & E1 & E2 & E3); [lia|].
  cbn [climb]. rewrite (node_at_lookup h q nq Hnq), El, Er. simpl. unfold hash_at.
  rewrite (node_at_lookup h l nl), (node_at_lookup h r nr), (node_at_lookup h p n) by done. rewrite E1. simpl.
  case_bool_decide as Hh.
  - do 2 eexists. split_and!; [done|simpl; lia|]. simpl. by rewrite <-Hh, <-Eh.
  - do 2 eexists. split_and!; [done|simpl; lia|]. simpl.
    assert (n = nr) as -> by (destruct Hc as [-> | ->]; congruence). by rewrite <-Eh.
Qed.

Lemma Equals_spec c d : Equals c d = true ↔ c = d.
Proof.
  destruct c as [[z1 a1 t1] [z2 a2 t2]], d as [[z3 a3 t3] [z4 a4 t4]]. unfold Equals. simpl.
  rewrite !andb_true_iff, !String.eqb_eq, !Z.eqb_eq. split; [intros; by destruct_and!; subst|naive_solver].
Qed.

Lemma find_leaf_Some t cs c : merkle_ok t cs → c ∈ cs →
  ∃ p n, find_leaf t c = Some p ∧ mtNodes t !! p = Some n ∧ nHash n = CalculateHash c.
Proof.
  intros (W & _ & _ & Hl & _ & Hc) Hin. apply Hc in Hin.
  apply list_elem_of_fmap in Hin as (p & -> & Hp). unfold find_leaf.
  destruct (list_find_elem_of (λ p0, Equals (nC (node_at (mtNodes t) p0)) (nC (node_at (mtNodes t) p)) = true) (mtLeafs t) p)
    as [[i q] Hq]; [done|by apply Equals_spec|].
  rewrite Hq. simpl. apply list_find_Some in Hq as (Hi & Hq%Equals_spec & _).
  rewrite Forall_forall in Hl. destruct (Hl q) as (n & Hn & Hleaf); [by eapply list_elem_of_lookup_2|].
  exists q, n. split_and!; try done. rewrite (wf_leaf _ W q n Hn Hleaf). by rewrite <-Hq, (node_at_lookup _ q n).
Qed.

Lemma find_leaf_None t cs c : merkle_ok t cs → c ∉ cs → find_leaf t c = None.
Proof.
  intros (_ & _ & _ & _ & _ & Hc) Hin. unfold find_leaf.
  destruct (list_find _ _) as [[i q]|] eqn:Hq; [|done]. exfalso. apply Hin.
  apply list_find_Some in Hq as (Hi & Hq%Equals_spec & _). apply Hc. rewrite <-Hq.
  apply (list_elem_of_fmap_2 (λ p, nC (node_at (mtNodes t) p))). by eapply list_elem_of_lookup_2.
Qed.

Lemma path_ok t cs c : merkle_ok t cs → c ∈ cs →
  ∃ path index, GetMerklePath t c = Ok (Some (path, index)) ∧ length path = length index ∧
                recompute (CalculateHash c) path index = MerkleRoot t.
Proof.
  intros Ht Hin. destruct (find_leaf_Some t cs c Ht Hin) as (p & n & E & Hn & Hh).
  destruct Ht as (W & O & Hr & _). unfold GetMerklePath. rewrite E, (node_at_lookup _ p n Hn).
  destruct (climb_ok (length (mtNodes t)) (mtNodes t) (mtRoot t) p n) as (path & index & -> & E2 & E3); [done..|lia|].
  exists path, index. split; [done|]. split; [done|]. unfold MerkleRoot. by rewrite <-Hh, E3, Hr.
Qed.

(** ** Theorems *)

(** C6: [NewTree] refuses an empty list and otherwise builds a tree whose root is the
    reference root: the hashes of the contents, the last one doubled when their number is
    odd, paired level by level.  [VerifyTree] accepts the tree, and [VerifyContent] accepts
    exactly the contents it was built from. *)
Theorem NewTree_spec cs :
  (cs = [] → is_err (NewTree cs) = true) ∧
  (cs ≠ [] → ∃ t, NewTree cs = Ok t ∧ merkle_ok t cs ∧
     MerkleRoot t = root_hash (S (length (pad cs))) (CalculateHash <$> pad cs) ∧
     VerifyTree t = Ok true ∧ ∀ c, VerifyContent t c = Ok (bool_decide (c ∈ cs))).
Proof.
  split; [by intros ->|]. intros (t & E & Ht & Hr)%NewTree_ok. exists t. split_and!; try done.
  - destruct Ht as (W & O & Hi & _). destruct (proj1 (O (mtRoot t))) as (n & Hn & _); [by left|].
    unfold VerifyTree. apply lookup_lt_Some in Hn as Hlt. rewrite (verifyNode_ok _ _ _ n) by (done || lia). simpl.
    do 2 f_equal. apply bool_decide_eq_true_2. rewrite Hi. unfold hash_at. by rewrite (node_at_lookup _ _ n).
  - intros c. unfold VerifyContent. case_bool_decide as Hin.
    + destruct (find_leaf_Some t cs c Ht Hin) as (p & n & -> & Hn & _). rewrite (node_at_lookup _ p n Hn).
      eapply verify_up_ok; [apply Ht|done|lia].
    + by rewrite (find_leaf_None t cs c).
Qed.

(** [GetMerklePath] of a content of the tree gives as many hashes as sides, and hashing
    the content with them from the leaf upwards gives the Merkle root; for any other
    content it gives no path. *)
Theorem GetMerklePath_spec cs t c : NewTree cs = Ok t →
  if decide (c ∈ cs)
  then ∃ path index, GetMerklePath t c = Ok (Some (path, index)) ∧ length path = length index ∧
                     recompute (CalculateHash c) path index = MerkleRoot t
  else GetMerklePath t c = Ok None.
Proof.
  intros E. destruct (decide (cs = [])) as [->|Hne]; [done|].
  destruct (NewTree_ok cs Hne) as (t' & E' & Ht & _). rewrite E in E'. simplify_eq.
  destruct (decide (c ∈ cs)) as [Hin|Hin]; [by eapply path_ok|].
  unfold GetMerklePath. by rewrite (find_leaf_None t' cs c).
Qed.
End Facts.

(** ** Witnesses *)

Definition w_content (name : string) : DSLeafContent := mkDSLeafContent (mkDSLeafZone name 1 1) (mkDSLeafZone "z" 1 1).
Definition w_contents : list DSLeafContent := [w_content "a"; w_content "b"; w_content "c"].

Lemma NewTree_spec_witness :
  ∃ t, @NewTree toy_sha w_contents = Ok t ∧ @VerifyContent toy_sha t (w_content "c") = Ok true ∧
       @VerifyContent toy_sha t (w_content "d") = Ok false.
Proof.
  destruct (proj2 (@NewTree_spec toy_sha w_contents)) as (t & E & _ & _ & _ & Hc); [discriminate|].
  exists t. split; [exact E|]. split; rewrite Hc; vm_compute; reflexivity.
Defined.

Lemma GetMerklePath_spec_witness :
  ∃ t path index, @NewTree toy_sha w_contents = Ok t ∧ GetMerklePath t (w_content "b") = Ok (Some (path, index)) ∧
    @recompute toy_sha (@CalculateHash toy_sha (w_content "b")) path index = MerkleRoot t.
Proof.
  destruct (@NewTree toy_sha w_contents) as [t| |] eqn:E; try (vm_compute in E; discriminate).
  pose proof (@GetMerklePath_spec toy_sha w_contents t (w_content "b") E) as H.
  destruct (decide _) as [_|N]; [|exfalso; apply N; right; left].
  destruct H as (path & index & H1 & _ & H2). exists t, path, index. split; [reflexivity|]. split; [exact H1|exact H2].
Defined.
