(* ===== verification/RhineTree.v ===== *)
(** * Delegation status trees

    Models src/offlineauth/rhine/rhineTree.go: the ordered list of delegation intervals of a
    zone, and proofs of presence and absence of a delegation in the Merkle tree over it; and
    the summaries of dsa.go. *)

From S2P Require Import Prelude Cbor Keys Merkle MerkleFacts.
Local Open Scope Z_scope.

(** [type MPathProofType int] *)
Definition ProofOfPresence : Z := 0.
Definition ProofOfAbsence : Z := 1.

Record MPathProof := mkMPathProof {
  Path : list (list Z);
  Index : list Z;
  Lcontent : DSLeafContent;
  Ptype : Z
}.

(** dsa.go; [Exp] is the instant in nanoseconds. *)
Record DSA := mkDSA {
  dsaZone : string;
  dsaAlv : AuthorityLevel;
  dsaExp : Z;
  dsaCert : list Z;
  dsaAcc : MerkleTree;
  dsaSubzones : list DSLeafContent;
  dsaSignature : list Z
}.
Record DAcc := mkDAcc { daZone : string; Roothash : list Z }.
Record DSum := mkDSum { dsDacc : DAcc; dsAlv : AuthorityLevel; dsCert : list Z; dsExp : Z }.

Definition GetDAcc (dsa : DSA) : DAcc := mkDAcc (dsaZone dsa) (hash_at (mtNodes (dsaAcc dsa)) (mtRoot (dsaAcc dsa))).
Definition GetDSum (dsa : DSA) : DSum := mkDSum (GetDAcc dsa) (dsaAlv dsa) (dsaCert dsa) (dsaExp dsa).

(** ** The ordered intervals *)

Definition set_end (zone : DSLeafZone) (l : DSLeafContent) : DSLeafContent := mkDSLeafContent (dStart l) zone.

(** [zone.Zone < leafc.Start.Zone && leafc.Start.ZoneType == ExistingZone] *)
Definition goes_before (zone : DSLeafZone) (leafc : DSLeafContent) : bool :=
  (zZone zone <ₛ zZone (dStart leafc)) && (zZoneType (dStart leafc) =? ExistingZone).

(** The loop: the first leaf that the zone goes before, or the end of the slice.  The write
    to [c[i-1]] panics for [i = 0]. *)
Definition insert_zone_loop (c : list DSLeafContent) (zone : DSLeafZone) : outcome (list DSLeafContent) :=
  match list_find (λ leafc, goes_before zone leafc = true) c with
  | Some (O, _) => Panic "index out of range"
  | Some (S j, leafc) =>
      Ok (alter (set_end zone) j (take (S j) c ++ mkDSLeafContent zone (dStart leafc) :: drop (S j) c))
  | None => Ok (alter (set_end zone) (length c - 1)%nat (c ++ [mkDSLeafContent zone GetPositiveInfinityZone]))
  end.

Definition InsertNewDSLeafZone (c : list DSLeafContent) (zone : DSLeafZone) : outcome (list DSLeafContent) :=
  if (length c <=? 1)%nat
  then Ok (c ++ [mkDSLeafContent GetNegativeInfinityZone zone; mkDSLeafContent zone GetPositiveInfinityZone])
  else insert_zone_loop c zone.

(** ** Proofs *)

Definition largerThanStart (sz : DSLeafContent) (zname : string) : bool :=
  (zZoneType (dStart sz) =? SmallestPossibleZone) ||
  ((zZoneType (dStart sz) =? ExistingZone) && (zZone (dStart sz) <ₛ zname)).
Definition smallerThanEnd (sz : DSLeafContent) (zname : string) : bool :=
  (zZoneType (dEnd sz) =? GreatestPossibleZone) ||
  ((zZoneType (dEnd sz) =? ExistingZone) && (zname <ₛ zZone (dEnd sz))).

Definition leaf_contents (m : MerkleTree) : list DSLeafContent := (λ p, nC (node_at (mtNodes m) p)) <$> mtLeafs m.

Section Proofs.
Context {SL : Sha256Lib}.

(** A missing path is the nil slice. *)
Definition path_of (m : MerkleTree) (c : DSLeafContent) (ptype : Z) : outcome MPathProof :=
  r ← GetMerklePath m c;
  let '(pa, ind) := default ([], []) r in
  Ok (mkMPathProof pa ind c ptype).

(** The loop: the first leaf that starts at the zone.  [None] when the last leaf was reached;
    over no leaves at all the loop does not run and the zero content is looked up. *)
Fixpoint find_start (leafs : list DSLeafContent) (zname : string) : option DSLeafContent :=
  match leafs with
  | [] => None
  | sz :: leafs' => if zZone (dStart sz) =ₛ zname then Some sz else find_start leafs' zname
  end.

(** [None] stands for the results nil and false. *)
Definition GetMPathProofPresence (m : MerkleTree) (zname : string) : outcome (option MPathProof) :=
  match mtLeafs m with
  | [] => p ← path_of m zeroContent ProofOfPresence; Ok (Some p)
  | _ =>
      match find_start (leaf_contents m) zname with
      | Some c => p ← path_of m c ProofOfPresence; Ok (Some p)
      | None => Ok None
      end
  end.

(** The loop: [None] at a leaf that starts at the zone, otherwise the last leaf around it. *)
Fixpoint find_gap (c : DSLeafContent) (leafs : list DSLeafContent) (zname : string) : option DSLeafContent :=
  match leafs with
  | [] => Some c
  | sz :: leafs' =>
      if zZone (dStart sz) =ₛ zname then None
      else find_gap (if largerThanStart sz zname && smallerThanEnd sz zname then sz else c) leafs' zname
  end.

Definition GetMPathProofAbsence (m : MerkleTree) (zname : string) : outcome (option MPathProof) :=
  match find_gap zeroContent (leaf_contents m) zname with
  | Some c => p ← path_of m c ProofOfAbsence; Ok (Some p)
  | None => Ok None
  end.

(** The loop over the path: one hasher, which is never reset, so each sum covers everything
    [written] to it. *)
Fixpoint mpath_loop (written hash : list Z) (path : list (list Z)) (index : list Z) : outcome (list Z) :=
  match path with
  | [] => Ok hash
  | p :: path' =>
      match index with
      | [] => Panic "index out of range"
      | i :: index' =>
          let written := written ++ (if i =? 1 then hash ++ p else p ++ hash) in
          mpath_loop written (sha256_Sum256 written) path' index'
      end
  end.

Definition VerifyMPathProof (p : MPathProof) (roothash : list Z) (zname : string) : outcome bool :=
  let check :=
    hash ← mpath_loop [] (CalculateHash (Lcontent p)) (Path p) (Index p); Ok (bool_decide (roothash = hash)) in
  if Ptype p =? ProofOfPresence then
    if negb (zZone (dStart (Lcontent p)) =ₛ zname) then Ok false else check
  else if Ptype p =? ProofOfAbsence then
    if negb (largerThanStart (Lcontent p) zname && smallerThanEnd (Lcontent p) zname) then Ok false else check
  else Err "Unknown proof type".
End Proofs.

(** ** The chain of intervals *)

(** The intervals from [s] through [zs] to the end. *)
Fixpoint chain_from (s : DSLeafZone) (zs : list DSLeafZone) : list DSLeafContent :=
  match zs with
  | [] => [mkDSLeafContent s GetPositiveInfinityZone]
  | z :: zs' => mkDSLeafContent s z :: chain_from z zs'
  end.
Definition chain (zs : list DSLeafZone) : list DSLeafContent := chain_from GetNegativeInfinityZone zs.

(** Insertion by name, after the zones of the same name. *)
Fixpoint insert_by_name (z : DSLeafZone) (zs : list DSLeafZone) : list DSLeafZone :=
  match zs with
  | [] => [z]
  | x :: zs' => if zZone z <ₛ zZone x then z :: zs else x :: insert_by_name z zs'
  end.

Definition existing (z : DSLeafZone) : Prop := zZoneType z = ExistingZone.
Definition by_name (x y : DSLeafZone) : Prop := zZone y <ₛ zZone x = false.

Lemma chain_from_cons s zs : ∃ e c, chain_from s zs = mkDSLeafContent s e :: c.
Proof. destruct zs; simpl; eauto. Qed.

(** The loop passes over a leaf when neither it nor the next one stops it. *)
Lemma insert_zone_loop_cons a s zs z :
  goes_before z a = false → goes_before z (mkDSLeafContent s s) = false →
  insert_zone_loop (a :: chain_from s zs) z = (c ← insert_zone_loop (chain_from s zs) z; Ok (a :: c)).
Proof.
  intros Ha Hs. unfold insert_zone_loop. simpl. rewrite decide_False by (by rewrite Ha).
  destruct (chain_from_cons s zs) as (e & c & E). rewrite E.
  destruct (list_find _ _) as [[[|j] x]|] eqn:F; simpl.
  - apply list_find_Some in F as (F1 & F2 & _). simpl in F1. simplify_eq. unfold goes_before in *. simpl in *. congruence.
  - done.
  - by rewrite Nat.sub_0_r.
Qed.

Lemma insert_zone_loop_chain zs s z :
  Forall existing zs → goes_before z (mkDSLeafContent s s) = false →
  insert_zone_loop (chain_from s zs) z = Ok (chain_from s (insert_by_name z zs)).
Proof.
  intros Hz. revert s. induction Hz as [|x zs Hx _ IH]; intros s Hs.
  { unfold insert_zone_loop. simpl. by rewrite decide_False by (unfold goes_before in *; simpl in *; congruence). }
  cbn [chain_from insert_by_name]. destruct (zZone z <ₛ zZone x) eqn:E.
  - unfold insert_zone_loop. simpl.
    rewrite decide_False by (unfold goes_before in *; simpl in *; congruence).
    destruct (chain_from_cons x zs) as (e & c & Ec). rewrite Ec. simpl.
    rewrite decide_True; [done|]. unfold goes_before. simpl. by rewrite E, (Hx : zZoneType x = _).
  - assert (goes_before z (mkDSLeafContent x x) = false) as Hg by (unfold goes_before; simpl; by rewrite E).
    rewrite insert_zone_loop_cons, IH by done. done.
Qed.

Lemma insert_by_name_Permutation z zs : insert_by_name z zs ≡ₚ z :: zs.
Proof.
  induction zs as [|x zs IH]; simpl; [done|]. destruct (_ <ₛ _); [done|]. rewrite IH. apply Permutation_swap.
Qed.

Lemma insert_by_name_sorted z zs : StronglySorted by_name zs → StronglySorted by_name (insert_by_name z zs).
Proof.
  induction 1 as [|x zs Hs IH Hx]; simpl; [repeat constructor|]. destruct (zZone z <ₛ zZone x) eqn:E.
  - constructor; [by constructor|]. constructor.
    + unfold by_name. destruct (zZone x <ₛ zZone z) eqn:E'; [|done]. by destruct (str_ltb_contra _ _ E E').
    + eapply Forall_impl; [exact Hx|]. intros y Hy. unfold by_name in *.
      destruct (zZone y <ₛ zZone z) eqn:E'; [|done]. by rewrite (str_ltb_trans _ _ _ E' E) in Hy.
  - constructor; [done|]. rewrite insert_by_name_Permutation. by constructor.
Qed.

Lemma insert_into_chain zs z : Forall existing zs → zs ≠ [] → InsertNewDSLeafZone (chain zs) z = Ok (chain (insert_by_name z zs)).
Proof.
  intros Hz Hne. unfold InsertNewDSLeafZone. destruct zs as [|x zs]; [done|].
  assert (length (chain (x :: zs)) <=? 1 = false)%nat as ->.
  { unfold chain. simpl. destruct (chain_from_cons x zs) as (e & c & ->). by destruct c. }
  apply insert_zone_loop_chain; [done|]. unfold goes_before. simpl. apply andb_false_r.
Qed.

(** Inserting a delegated zone into the intervals of a zone with delegations gives the
    intervals with the zone inserted by name, which stay sorted; a first zone makes the
    intervals below and above it.  In the tree of a zone without delegations, the single
    interval from minus to plus infinity, the old interval is kept next to the new ones. *)
Theorem InsertNewDSLeafZone_chain zs z :
  Forall existing zs →
  InsertNewDSLeafZone [] z = Ok (chain [z]) ∧
  (zs ≠ [] → InsertNewDSLeafZone (chain zs) z = Ok (chain (insert_by_name z zs))) ∧
  insert_by_name z zs ≡ₚ z :: zs ∧
  (StronglySorted by_name zs → StronglySorted by_name (insert_by_name z zs)) ∧
  InsertNewDSLeafZone (chain []) z = Ok (GetEmptyContent :: chain [z]).
Proof.
  intros Hz. split_and!; [done|by apply insert_into_chain|apply insert_by_name_Permutation|apply insert_by_name_sorted|done].
Qed.

(** ** Proofs over a chain *)

(** The interval lies around the name. *)
Definition gap (c : DSLeafContent) (zname : string) : Prop :=
  largerThanStart c zname = true ∧ smallerThanEnd c zname = true.

Lemma chain_elem s zs c : c ∈ chain_from s zs → dStart c = s ∨ dStart c ∈ zs.
Proof.
  revert s. induction zs as [|x zs IH]; intros s; simpl; rewrite elem_of_cons; intros [->|Hc]; simpl; auto.
  - by apply elem_of_nil in Hc.
  - right. rewrite elem_of_cons. by apply IH.
Qed.

Lemma chain_starts s zs z : z ∈ zs → ∃ c, c ∈ chain_from s zs ∧ dStart c = z.
Proof.
  revert s. induction zs as [|x zs IH]; intros s; [by intros ?%elem_of_nil|]. rewrite elem_of_cons. intros [->|Hz]; simpl.
  - destruct (chain_from_cons x zs) as (e & c & ->). exists (mkDSLeafContent x e). split; [by right; left|done].
  - destruct (IH x Hz) as (c & Hc & E). exists c. split; [by right|done].
Qed.

(** Every name that no zone of the chain has lies in one of its intervals. *)
Lemma chain_gap s zs zname :
  Forall existing zs → largerThanStart (mkDSLeafContent s s) zname = true → zname ∉ (zZone <$> zs) →
  ∃ c, c ∈ chain_from s zs ∧ gap c zname.
Proof.
  intros Hz. revert s. induction Hz as [|x zs Hx _ IH]; intros s Hs Hn; simpl.
  { eexists. split; [by left|]. by split. }
  rewrite fmap_cons, not_elem_of_cons in Hn. destruct Hn as [Hne Hn].
  destruct (zname <ₛ zZone x) eqn:E.
  - eexists. split; [by left|]. split; [done|]. unfold smallerThanEnd. simpl. by rewrite E, (Hx : zZoneType x = _).
  - destruct (IH x) as (c & Hc & Hg); [|done|exists c; split; [by right|done]].
    unfold largerThanStart. simpl. rewrite (Hx : zZoneType x = _). simpl.
    destruct (str_ltb_total zname (zZone x)) as [?|[?|?]]; [congruence|done|done].
Qed.

(** No interval of a sorted chain lies around the name of one of its zones. *)
Lemma chain_gap_sound zs c zname :
  Forall existing zs → StronglySorted by_name zs → c ∈ chain zs → gap c zname → zname ∉ (zZone <$> zs).
Proof.
  intros He Hs Hc [Hl Hr]. unfold chain in Hc.
  assert (∀ s l, Forall existing l → StronglySorted by_name l → c ∈ chain_from s l → zname ∉ (zZone <$> l)) as Hgen; [|by eapply Hgen].
  clear zs He Hs Hc. intros s l. revert s.
  induction l as [|x l IH]; intros s He Hs Hc; [apply not_elem_of_nil|].
  apply Forall_cons_1 in He as [Hx He]. apply StronglySorted_inv in Hs as [Hs Hlt]. rewrite Forall_forall in Hlt, He.
  rewrite fmap_cons, not_elem_of_cons. simpl in Hc. apply elem_of_cons in Hc as [->|Hc].
  - unfold smallerThanEnd in Hr. simpl in Hr. rewrite (Hx : zZoneType x = _) in Hr. simpl in Hr.
    split; [intros ->; by rewrite str_ltb_irrefl in Hr|]. intros (z & -> & Hz)%list_elem_of_fmap.
    specialize (Hlt z Hz). unfold by_name in Hlt. congruence.
  - split; [|eapply IH; [by apply Forall_forall|done|done]]. intros ->.
    assert (existing (dStart c) ∧ (dStart c = x ∨ by_name x (dStart c))) as [Hd Hd'].
    { destruct (chain_elem _ _ _ Hc) as [->|Hin]; [by split; [|left]|]. split; [by apply He|right; by apply Hlt]. }
    unfold largerThanStart in Hl. rewrite (Hd : zZoneType (dStart c) = _) in Hl. simpl in Hl.
    destruct Hd' as [Hd'|Hd']; [rewrite Hd', str_ltb_irrefl in Hl; done|]. unfold by_name in Hd'. congruence.
Qed.

Lemma find_start_spec leafs zname :
  match find_start leafs zname with
  | Some c => c ∈ leafs ∧ zZone (dStart c) = zname
  | None => ∀ c, c ∈ leafs → zZone (dStart c) ≠ zname
  end.
Proof.
  induction leafs as [|sz leafs IH]; simpl; [by intros c ?%elem_of_nil|].
  destruct (String.eqb_spec (zZone (dStart sz)) zname) as [E|E]; [by split; [left|]|].
  destruct (find_start leafs zname); [destruct IH; by split; [right|]|]. intros c [->|Hc]%elem_of_cons; auto.
Qed.

Lemma find_gap_None c leafs zname :
  find_gap c leafs zname = None ↔ ∃ d, d ∈ leafs ∧ zZone (dStart d) = zname.
Proof.
  revert c. induction leafs as [|sz leafs IH]; intros c; simpl; [split; [done|by intros (? & ?%elem_of_nil & _)]|].
  destruct (String.eqb_spec (zZone (dStart sz)) zname) as [E|E].
  - split; [|done]. intros _. exists sz. by split; [left|].
  - rewrite IH. split; intros (d & Hd & Ed); exists d; [by split; [right|]|].
    apply elem_of_cons in Hd as [->|Hd]; [done|by split].
Qed.

Lemma find_gap_Some c leafs zname c' : find_gap c leafs zname = Some c' →
  (∃ d, d ∈ leafs ∧ gap d zname) → c' ∈ leafs ∧ gap c' zname.
Proof.
  assert (∀ c, find_gap c leafs zname = Some c' → (c' = c ∧ (∀ d, d ∈ leafs → ¬ gap d zname)) ∨ (c' ∈ leafs ∧ gap c' zname)) as H.
  { clear c. induction leafs as [|sz leafs IH]; intros c; simpl; [intros [= ->]; left; split; [done|by intros d ?%elem_of_nil]|].
    destruct (zZone (dStart sz) =ₛ zname); [done|]. intros [[-> Hno]|[Hc Hg]]%IH; [|right; by split; [right|]].
    destruct (largerThanStart sz zname && smallerThanEnd sz zname) eqn:E.
    - right. apply andb_true_iff in E. by split; [left|].
    - left. split; [done|]. intros d [->|Hd]%elem_of_cons; [|by apply Hno]. intros [E1 E2]. by rewrite E1, E2 in E. }
  intros [[-> Hno]|?]%H; [|done]. intros (d & Hd & Hg). exfalso. by eapply Hno.
Qed.

Section Delegations.
Context {SL : Sha256Lib}.

(** The path leads from the content of the proof to the root of the tree. *)
Definition genuine (root : list Z) (p : MPathProof) : Prop :=
  length (Path p) = length (Index p) ∧ recompute (CalculateHash (Lcontent p)) (Path p) (Index p) = root.

Lemma path_of_genuine t cs c ptype : merkle_ok t cs → c ∈ cs →
  ∃ p, path_of t c ptype = Ok p ∧ Lcontent p = c ∧ Ptype p = ptype ∧ genuine (MerkleRoot t) p ∧
    GetMerklePath t (Lcontent p) = Ok (Some (Path p, Index p)).
Proof.
  intros Ht Hc. destruct (path_ok t cs c Ht Hc) as (path & index & E & E1 & E2). unfold path_of. rewrite E. simpl.
  eexists. split; [done|]. done.
Qed.

(** What the two proofs say over a tree with the intervals of [zs]. *)
Definition chain_status (t : MerkleTree) (zs : list DSLeafZone) (zname : string) : Prop :=
  if decide (zname ∈ (zZone <$> zs)) then
    GetMPathProofAbsence t zname = Ok None ∧ (∀ c, c ∈ chain zs → ¬ gap c zname) ∧
    ∃ p, GetMPathProofPresence t zname = Ok (Some p) ∧ Ptype p = ProofOfPresence ∧
         zZone (dStart (Lcontent p)) = zname ∧ genuine (MerkleRoot t) p ∧ GetMerklePath t (Lcontent p) = Ok (Some (Path p, Index p))
  else
    GetMPathProofPresence t zname = Ok None ∧
    ∃ p, GetMPathProofAbsence t zname = Ok (Some p) ∧ Ptype p = ProofOfAbsence ∧
         gap (Lcontent p) zname ∧ genuine (MerkleRoot t) p ∧ GetMerklePath t (Lcontent p) = Ok (Some (Path p, Index p)).

(** Any well-formed tree whose leaves have these intervals will do. *)
Lemma chain_proofs zs t zname :
  Forall existing zs → StronglySorted by_name zs → merkle_ok t (chain zs) → zname ≠ ""%string → chain_status t zs zname.
Proof.
  intros He Hs Hok Hname. unfold chain_status.
  assert (∀ c, c ∈ leaf_contents t ↔ c ∈ chain zs) as Hin by apply Hok.
  assert (mtLeafs t ≠ []) as Hne.
  { intros E. destruct (chain_from_cons GetNegativeInfinityZone zs) as (x & l & E').
    assert (mkDSLeafContent GetNegativeInfinityZone x ∈ leaf_contents t) as Hx by (apply Hin; unfold chain; rewrite E'; by left).
    unfold leaf_contents in Hx. rewrite E in Hx. by apply elem_of_nil in Hx. }
  assert (GetMPathProofPresence t zname = match find_start (leaf_contents t) zname with
    | Some c => p ← path_of t c ProofOfPresence; Ok (Some p) | None => Ok None end) as ->
    by (unfold GetMPathProofPresence; by destruct (mtLeafs t)).
  pose proof (find_start_spec (leaf_contents t) zname) as Hst.
  unfold GetMPathProofAbsence. destruct (decide _) as [Hd|Hd].
  - assert (∃ d, d ∈ leaf_contents t ∧ zZone (dStart d) = zname) as Hex.
    { apply list_elem_of_fmap in Hd as (z & -> & Hz). destruct (chain_starts GetNegativeInfinityZone zs z Hz) as (c & Hc & <-).
      exists c. by rewrite Hin. }
    rewrite (proj2 (find_gap_None _ _ _) Hex). split_and!; [done| |].
    { intros c Hc Hg. by eapply chain_gap_sound. }
    destruct (find_start _ _) as [c|]; [|destruct Hex as (d & Hd' & E); by destruct (Hst d Hd')].
    destruct Hst as [Hc Hz]. apply Hin in Hc. destruct (path_of_genuine t _ c ProofOfPresence Hok Hc) as (p & -> & <- & E & G).
    by exists p.
  - assert (∀ c, c ∈ leaf_contents t → zZone (dStart c) ≠ zname) as Hno.
    { intros c [E|Hz]%Hin%chain_elem; [rewrite E; simpl; congruence|]. intros E. apply Hd. rewrite <-E. by apply list_elem_of_fmap_2. }
    destruct (find_start _ _) as [c|]; [destruct Hst as [Hc Hz]; by destruct (Hno c)|]. split; [done|].
    destruct (find_gap _ _ _) as [c|] eqn:E.
    2:{ apply find_gap_None in E as (d & Hd' & Ed). by destruct (Hno d). }
    apply find_gap_Some in E as [Hc Hg].
    2:{ destruct (chain_gap GetNegativeInfinityZone zs zname) as (d & Hd' & Hg); [done|done|done|]. exists d. by rewrite Hin. }
    apply Hin in Hc. destruct (path_of_genuine t _ c ProofOfAbsence Hok Hc) as (p & -> & <- & Ep & G). by exists p.
Qed.

(** C7: in the tree over the sorted intervals of a zone's delegations exactly one of the two
    proofs exists for a name: for a delegated name a proof of presence that starts at the
    name, for any other name a proof of absence whose interval lies around it, and no
    interval of the tree lies around a delegated name; both paths lead to the Merkle root. *)
Theorem delegation_proofs zs t zname :
  Forall existing zs → StronglySorted by_name zs → NewTree (chain zs) = Ok t → zname ≠ ""%string →
  chain_status t zs zname.
Proof.
  intros He Hs Ht Hname. destruct (NewTree_ok (chain zs)) as (t' & Ht' & Hok & _); [by destruct zs|].
  rewrite Ht in Ht'. simplify_eq. by apply chain_proofs.
Qed.

(** ** Verifying a proof *)

Definition fits (p : MPathProof) (zname : string) : Prop :=
  (Ptype p = ProofOfPresence ∧ zZone (dStart (Lcontent p)) = zname) ∨ (Ptype p = ProofOfAbsence ∧ gap (Lcontent p) zname).

Context {SLL : Sha256Laws}.

(** The hasher's sum against the hash of the reference: the same bytes after one step; after
    more, the hasher has taken in more bytes. *)
Lemma mpath_loop_spec path index written hash1 hash2 :
  length path = length index → length hash1 = 32%nat → length hash2 = 32%nat → path ≠ [] →
  ∃ pre last last', mpath_loop written hash1 path index = Ok (sha256_Sum256 (written ++ pre ++ last)) ∧
    recompute hash2 path index = sha256_Sum256 last' ∧ length last = length last' ∧
    (2 ≤ length path → pre ≠ [])%nat ∧ (length path = 1%nat → hash1 = hash2 → pre = [] ∧ last = last').
Proof.
  revert index written hash1 hash2. induction path as [|p path IH]; intros [|i index] written hash1 hash2 Hl H1 H2 Hne; try done.
  destruct path as [|p2 path].
  - destruct index; [|done]. exists [], (if i =? 1 then hash1 ++ p else p ++ hash1), (if i =? 1 then hash2 ++ p else p ++ hash2).
    simpl. split_and!; [done|done| |lia|by intros _ ->]. destruct (i =? 1); rewrite !length_app; lia.
  - destruct (IH index (written ++ (if i =? 1 then hash1 ++ p else p ++ hash1))
      (sha256_Sum256 (written ++ (if i =? 1 then hash1 ++ p else p ++ hash1)))
      (sha256_Sum256 (if i =? 1 then hash2 ++ p else p ++ hash2))) as (pre & last & last' & E1 & E2 & E3 & _);
      [simpl in *; lia|apply sha256_length|apply sha256_length|done|].
    exists ((if i =? 1 then hash1 ++ p else p ++ hash1) ++ pre), last, last'. split_and!; [|done|done| |simpl; lia].
    + cbn [mpath_loop] in E1 |- *. rewrite E1. by rewrite <-!app_assoc.
    + intros _ E. apply (f_equal length) in E. rewrite length_app in E. simpl in E.
      destruct (i =? 1); rewrite length_app in E; lia.
Qed.

Lemma VerifyMPathProof_loop p root zname : Ptype p = ProofOfPresence ∨ Ptype p = ProofOfAbsence →
  VerifyMPathProof p root zname = Ok true ↔
  fits p zname ∧ mpath_loop [] (CalculateHash (Lcontent p)) (Path p) (Index p) = Ok root.
Proof.
  unfold VerifyMPathProof, fits, gap. intros [-> | ->]; simpl.
  - destruct (String.eqb_spec (zZone (dStart (Lcontent p))) zname); simpl; [|naive_solver].
    destruct (mpath_loop _ _ _ _); simpl; [|naive_solver..]. case_bool_decide; naive_solver.
  - destruct (largerThanStart _ _), (smallerThanEnd _ _); simpl; try naive_solver.
    destruct (mpath_loop _ _ _ _); simpl; [|naive_solver..]. case_bool_decide; naive_solver.
Qed.
(** Over at most one level the loop computes the reference. *)
Lemma mpath_loop_short p root : length (Path p) = length (Index p) → (length (Path p) ≤ 1)%nat →
  mpath_loop [] (CalculateHash (Lcontent p)) (Path p) (Index p) = Ok root ↔ genuine root p.
Proof.
  intros Hl H1. assert (length (CalculateHash (Lcontent p)) = 32%nat) as Hc by apply sha256_length.
  unfold genuine. destruct (decide (Path p = [])) as [E|Hne].
  { assert (Index p = []) as E' by (rewrite E in Hl; by destruct (Index p)). rewrite E, E'. simpl. naive_solver. }
  destruct (mpath_loop_spec (Path p) (Index p) [] (CalculateHash (Lcontent p)) (CalculateHash (Lcontent p)))
    as (pre & last & last' & E1 & E2 & _ & _ & E5); [done..|]. rewrite E1, E2. simpl.
  assert (length (Path p) = 1%nat) as Hone by (destruct (Path p); [done|simpl in *; lia]).
  destruct (E5 Hone eq_refl) as [-> ->]. simpl. naive_solver.
Qed.
(** Over more levels it computes something else. *)
Lemma mpath_loop_long p root : (2 ≤ length (Path p))%nat → genuine root p →
  mpath_loop [] (CalculateHash (Lcontent p)) (Path p) (Index p) = Ok root →
  ∃ x y, x ≠ y ∧ sha256_Sum256 x = sha256_Sum256 y.
Proof.
  intros H2 [Hl Hg] Ha. assert (length (CalculateHash (Lcontent p)) = 32%nat) as Hc by apply sha256_length.
  destruct (mpath_loop_spec (Path p) (Index p) [] (CalculateHash (Lcontent p)) (CalculateHash (Lcontent p)))
    as (pre & last & last' & E1 & E2 & E3 & E4 & _); [done..|by destruct (Path p); simpl in H2; [lia|]|].
  rewrite E1 in Ha. injection Ha as Ha. rewrite E2 in Hg. exists (pre ++ last), last'. split; [|congruence].
  intros E. apply (f_equal length) in E. rewrite length_app in E. destruct pre; [by apply E4|simpl in E; lia].
Qed.

(** [VerifyMPathProof] accepts a proof over at most one level exactly when it is genuine
    and fits the name.  The hasher is never reset between levels: a genuine proof over two
    or more levels is accepted only by way of a collision of SHA-256. *)
Theorem VerifyMPathProof_spec p root zname :
  length (Path p) = length (Index p) → Ptype p = ProofOfPresence ∨ Ptype p = ProofOfAbsence →
  (length (Path p) ≤ 1 → VerifyMPathProof p root zname = Ok true ↔ fits p zname ∧ genuine root p)%nat ∧
  (2 ≤ length (Path p) → genuine root p → VerifyMPathProof p root zname = Ok true →
     ∃ x y, x ≠ y ∧ sha256_Sum256 x = sha256_Sum256 y)%nat.
Proof.
  intros Hl Hp. rewrite VerifyMPathProof_loop by done. split.
  - intros H1. by rewrite mpath_loop_short.
  - intros H2 Hg [_ Ha]. by eapply mpath_loop_long.
Qed.
End Delegations.

(** ** Witnesses *)

Definition w_zone (name : string) : DSLeafZone := mkDSLeafZone name 1 ExistingZone.
Definition w_tree (zs : list DSLeafZone) : MerkleTree :=
  match @NewTree toy_sha (chain zs) with Ok t => t | _ => mkMerkleTree [] 0 [] [] end.

Lemma InsertNewDSLeafZone_chain_witness :
  InsertNewDSLeafZone (chain [w_zone "a."; w_zone "c."]) (w_zone "b.") = Ok (chain [w_zone "a."; w_zone "b."; w_zone "c."]).
Proof.
  destruct (InsertNewDSLeafZone_chain [w_zone "a."; w_zone "c."] (w_zone "b.")) as (_ & H & _);
    [repeat constructor|]. apply H. discriminate.
Defined.

Lemma delegation_proofs_witness :
  let t := w_tree [w_zone "a."; w_zone "c."] in
  GetMPathProofPresence t "b." = Ok None ∧
  ∃ p, GetMPathProofAbsence t "b." = Ok (Some p) ∧ gap (Lcontent p) "b.".
Proof.
  intros t. pose proof (@delegation_proofs toy_sha [w_zone "a."; w_zone "c."] t "b.") as H. unfold chain_status in H.
  destruct (decide _) as [E|_]; [apply (bool_decide_pack _) in E; destruct E|].
  destruct H as (H1 & p & H2 & _ & H3 & _); [repeat constructor|repeat constructor|reflexivity|discriminate|].
  split; [exact H1|]. exists p. split; [exact H2|exact H3].
Defined.

Lemma VerifyMPathProof_spec_witness :
  match GetMPathProofPresence (w_tree [w_zone "a."]) "a." with
  | Ok (Some p) => @VerifyMPathProof toy_sha p (MerkleRoot (w_tree [w_zone "a."])) "a." = Ok true
  | _ => False
  end.
Proof.
  destruct (GetMPathProofPresence (w_tree [w_zone "a."]) "a.") as [[p|]| |] eqn:E;
    try (vm_compute in E; discriminate).
  vm_compute in E. injection E as <-.
  match goal with |- VerifyMPathProof ?p ?r ?z = _ =>
    apply (proj1 (@VerifyMPathProof_spec toy_sha toy_sha_laws p r z eq_refl (or_introl eq_refl))) end; [simpl; lia|].
  split; [left; split; reflexivity|]. split; vm_compute; reflexivity.
Defined.

(** A hash function without collisions, and the genuine proof of presence of the first of
    three delegations, which is refused. *)
Definition toy_injective : Sha256Lib := {| sha256_Sum256 b := 256 :: b ++ [257] |}.

Example genuine_proof_refused :
  match @NewTree toy_injective (chain [w_zone "a."; w_zone "b."; w_zone "c."]) with
  | Ok t => match GetMPathProofPresence t "a." with
            | Ok (Some p) => genuine (SL := toy_injective) (MerkleRoot t) p ∧
                             @VerifyMPathProof toy_injective p (MerkleRoot t) "a." = Ok false
            | _ => False
            end
  | _ => False
  end.
Proof. vm_compute. repeat split; reflexivity. Qed.
