(* ===== verification/ZoneCache.v ===== *)
(** * The zone-indexed section cache

    Models what attic/internal/pkg/cache/assertionCache.go and negAssertionCache.go have in
    common (the code is the same up to the type of the cached sections): an LRU cache from
    a key to a shared record of sections, a counter of all cached sections, and an index
    from zones to keys.  The shared records live in a heap, because the code reaches them
    through pointers and marks a record [deleted] when it takes it out of the cache.
    [track] tells whether the cache maintains [entriesPerAssertionMap], as the assertion
    cache does.  The methods take their locks in a fixed order and the model runs each
    method to completion. *)

From S2P Require Import Prelude Containers LruCache Pointers.
Local Open Scope Z_scope.

Section ZoneCache.
Context {S : Type} (Hash : S → string) (track : bool).

(** [assertionExpiration], [sectionExpiration] *)
Record Expiring := mkExpiring { exSection : S; exExpiration : Z }.

(** [assertionCacheValue], [negAssertionCacheValue] *)
Record CacheValue := mkCacheValue {
  cvSections : gmap string Expiring;
  cvCacheKey : string;
  cvZone : string;
  cvDeleted : bool
}.

(** [AssertionImpl], [NegAssertionImpl] *)
Record ZoneCache := mkZoneCache {
  zcCache : Cache nat;
  zcHeap : gmap nat CacheValue;
  zcNext : nat;
  zcCounter : Counter;
  zcZoneMap : Map (Map bool);
  zcEntries : gmap string Z
}.

Definition zc_New (maxSize : Z) : ZoneCache := mkZoneCache lru_New ∅ 0 (Counter_New maxSize) Map_New ∅.

Definition dead_value : CacheValue := mkCacheValue ∅ "" "" true.
Definition deref (heap : gmap nat CacheValue) (l : nat) : CacheValue := load dead_value heap l.

Definition set_sections (v : CacheValue) (secs : gmap string Expiring) : CacheValue :=
  mkCacheValue secs (cvCacheKey v) (cvZone v) (cvDeleted v).
Definition set_deleted (v : CacheValue) : CacheValue :=
  mkCacheValue (cvSections v) (cvCacheKey v) (cvZone v) true.

(** [c.entriesPerAssertionMap[h]++] and [--] *)
Definition entries_add (m : gmap string Z) (h : string) (d : Z) : gmap string Z :=
  if track then <[h := default 0 (m !! h) + d]> m else m.
Definition entries_drop (m : gmap string Z) (secs : gmap string Expiring) : gmap string Z :=
  foldl (λ m e, entries_add m (Hash (exSection e)) (-1)) m (map_to_list secs).*2.

(** [val, _ := zoneMap.GetOrAdd(zone, safeHashMap.New()); val.Add(key, true)] *)
Definition zone_add (zm : Map (Map bool)) (zone key : string) : Map (Map bool) :=
  let '(zm, (val, _)) := Map_GetOrAdd zm zone Map_New in
  mkMap (<[zone := (Map_Add val key true).1]> (hashMap zm)).
(** [if val, ok := zoneMap.Get(zone); ok { val.Remove(key) }] *)
Definition zone_remove (zm : Map (Map bool)) (zone key : string) : Map (Map bool) :=
  match Map_Get zm zone with
  | Some val => mkMap (<[zone := (Map_Remove val key).1]> (hashMap zm))
  | None => zm
  end.

(** One pass of the insertion: [None] when the record found is marked deleted, else
    whether the counter reported the cache full. *)
Definition zc_insert (c : ZoneCache) (s : S) (key zone : string) (expiration : Z) (isInternal isFull : bool)
    : ZoneCache * option bool :=
  let heap := <[zcNext c := mkCacheValue ∅ key zone false]> (zcHeap c) in
  let '(cache, (l, new)) := lru_GetOrAdd (zcCache c) key (zcNext c) isInternal in
  let value := deref heap l in
  if cvDeleted value
  then (mkZoneCache cache heap (Datatypes.S (zcNext c)) (zcCounter c) (zcZoneMap c) (zcEntries c), None)
  else
    let zm := if new : bool then zone_add (zcZoneMap c) zone key else zcZoneMap c in
    match cvSections value !! Hash s with
    | Some _ => (mkZoneCache cache heap (Datatypes.S (zcNext c)) (zcCounter c) zm (zcEntries c), Some isFull)
    | None =>
        let heap := <[l := set_sections value (<[Hash s := mkExpiring s expiration]> (cvSections value))]> heap in
        let '(counter, full) := Counter_Inc (zcCounter c) in
        (mkZoneCache cache heap (Datatypes.S (zcNext c)) counter zm (entries_add (zcEntries c) (Hash s) 1), Some full)
    end.

(** Take the record at [l] out of the cache under [key]. *)
Definition zc_evict_entry (c : ZoneCache) (key : string) (l : nat) : ZoneCache :=
  let v := deref (zcHeap c) l in
  mkZoneCache (lru_Remove (zcCache c) key).1 (<[l := set_deleted v]> (zcHeap c)) (zcNext c)
    (Counter_Sub (zcCounter c) (Z.of_nat (size (cvSections v))))
    (zone_remove (zcZoneMap c) (cvZone v) (cvCacheKey v))
    (entries_drop (zcEntries c) (cvSections v)).

(** [for c.counter.IsFull() { ... }]; [None] when the fuel runs out. *)
Fixpoint zc_evict (fuel : nat) (c : ZoneCache) : option ZoneCache :=
  match fuel with
  | O => None
  | Datatypes.S fuel' =>
      if negb (Counter_IsFull (zcCounter c)) then Some c
      else match lru_GetLeastRecentlyUsed (zcCache c) with
           | (_, None) => Some c
           | (key, Some l) =>
               if cvDeleted (deref (zcHeap c) l) then zc_evict fuel' c
               else zc_evict fuel' (zc_evict_entry c key l)
           end
  end.

(** The body of the loop of [RemoveExpiredValues]; [now] is [time.Now().Unix()]. *)
Definition is_expired (now : Z) (e : Expiring) : bool := exExpiration e <? now.
Definition zc_expire_value (now : Z) (c : ZoneCache) (l : nat) : ZoneCache :=
  let value := deref (zcHeap c) l in
  if cvDeleted value then c
  else
    let gone := filter (λ p, is_expired now p.2 = true) (cvSections value) in
    let kept := filter (λ p, is_expired now p.2 = false) (cvSections value) in
    let entries := entries_drop (zcEntries c) gone in
    let counter := Counter_Sub (zcCounter c) (Z.of_nat (size gone)) in
    if bool_decide (kept = ∅)
    then mkZoneCache (lru_Remove (zcCache c) (cvCacheKey value)).1
           (<[l := set_deleted (set_sections value kept)]> (zcHeap c)) (zcNext c) counter
           (zone_remove (zcZoneMap c) (cvZone value) (cvCacheKey value)) entries
    else mkZoneCache (zcCache c) (<[l := set_sections value kept]> (zcHeap c)) (zcNext c) counter (zcZoneMap c) entries.

Definition zc_RemoveExpiredValues (now : Z) (c : ZoneCache) : ZoneCache :=
  foldl (zc_expire_value now) c (lru_GetAll (zcCache c)).

(** The body of the loop of [RemoveZone]. *)
Definition zc_remove_key (c : ZoneCache) (key : string) : ZoneCache :=
  let '(cache, v) := lru_Remove (zcCache c) key in
  match v with
  | None => c
  | Some l =>
      let value := deref (zcHeap c) l in
      if cvDeleted value
      then mkZoneCache cache (zcHeap c) (zcNext c) (zcCounter c) (zcZoneMap c) (zcEntries c)
      else mkZoneCache cache (<[l := set_deleted value]> (zcHeap c)) (zcNext c)
             (Counter_Sub (zcCounter c) (Z.of_nat (size (cvSections value)))) (zcZoneMap c)
             (entries_drop (zcEntries c) (cvSections value))
  end.

Definition zc_RemoveZone (c : ZoneCache) (zone : string) : ZoneCache :=
  let '(zm, (set, ok)) := Map_Remove (zcZoneMap c) zone in
  match set with
  | Some set => foldl zc_remove_key
      (mkZoneCache (zcCache c) (zcHeap c) (zcNext c) (zcCounter c) zm (zcEntries c)) (Map_GetAllKeys set)
  | None => c
  end.

(** [v, ok := c.cache.Get(key)] *)
Definition zc_lookup (c : ZoneCache) (key : string) : ZoneCache * option nat :=
  let '(cache, v) := lru_Get (zcCache c) key in
  (mkZoneCache cache (zcHeap c) (zcNext c) (zcCounter c) (zcZoneMap c) (zcEntries c), v).
(** The sections of the record found; [None] for no record or a deleted one. *)
Definition zc_read (c : ZoneCache) (v : option nat) : option (list S) :=
  l ← v;
  let value := deref (zcHeap c) l in
  if cvDeleted value then None else Some (exSection <$> (map_to_list (cvSections value)).*2).
Definition zc_Get (c : ZoneCache) (key : string) : ZoneCache * option (list S) :=
  let '(c', v) := zc_lookup c key in (c', zc_read c' v).

Definition zc_Checkpoint (c : ZoneCache) : list S :=
  l ← lru_GetAll (zcCache c);
  let values := deref (zcHeap c) l in
  if cvDeleted values then [] else exSection <$> (map_to_list (cvSections values)).*2.

Definition zc_Len (c : ZoneCache) : Z := Counter_Value (zcCounter c).
End ZoneCache.
