(* ===== verification/ZoneCacheFacts.v ===== *)
(** * Correctness of the zone-indexed section cache

    The abstract state of the cache is a map from keys to a zone and the sections filed
    under the key.  [zc_inv] ties every part of the concrete state (LRU lists, shared
    records and their [deleted] marks, zone index, counter, entry counts) to it, and each
    operation is shown to act on the abstract state as documented. *)

From S2P Require Import Prelude Containers LruCache Pointers ZoneCache.
Local Open Scope Z_scope.

Section Facts.
Context {S : Type} (Hash : S → string) (track : bool).
Implicit Types (c : ZoneCache (S:=S)) (k z h key zone : string) (l : nat).

Abbreviation secs := (gmap string (Expiring (S:=S))) (only parsing).
Abbreviation view := (gmap string (string * secs)) (only parsing).

Definition file (v : CacheValue (S:=S)) : string * secs := (cvZone v, cvSections v).
Definition zc_view (c : ZoneCache) : view := view_of dead_value file (zcHeap c) (zcCache c).

(** ** The invariant *)

Definition holds (h : string) (s : secs) : Z := if s !! h then 1 else 0.
Definition total (v : view) : Z := map_sum (λ p, Z.of_nat (size p.2)) v.
Definition holders (h : string) (v : view) : Z := map_sum (λ p, holds h p.2) v.
Definition hashed (s : secs) : Prop := ∀ h e, s !! h = Some e → Hash (exSection e) = h.
Definition in_zone (zm : Map (Map bool)) (z k : string) : Prop :=
  ∃ m, hashMap zm !! z = Some m ∧ is_Some (hashMap m !! k).

(** A record in the cache is not deleted and knows its own key. *)
Definition live (k : string) (v : CacheValue (S:=S)) : Prop := cvDeleted v = false ∧ cvCacheKey v = k.

Definition entries_ok (entries : gmap string Z) (v : view) : Prop :=
  track = true → ∀ h, default 0 (entries !! h) = holders h v.
Definition counter_ok (m : Counter) (v : view) : Prop := count m = int64_wrap (total v).
Definition zones_ok (zm : Map (Map bool)) (v : view) : Prop :=
  ∀ z k, in_zone zm z k ↔ ∃ s, v !! k = Some (z, s).
Definition view_ok (v : view) : Prop := ∀ k z s, v !! k = Some (z, s) → hashed s ∧ s ≠ ∅.

Record zc_books (c : ZoneCache) : Prop := {
  inv_pointers : pointers_ok live (zcHeap c) (zcCache c) (zcNext c);
  inv_view : view_ok (zc_view c);
  inv_counter : counter_ok (zcCounter c) (zc_view c);
  inv_entries : entries_ok (zcEntries c) (zc_view c)
}.
Definition zc_inv (c : ZoneCache) : Prop := zc_books c ∧ zones_ok (zcZoneMap c) (zc_view c).

Lemma live_deref heap cache next k l :
  pointers_ok live heap cache next → lru_vals cache !! k = Some l →
  cvDeleted (deref heap l) = false ∧ cvCacheKey (deref heap l) = k.
Proof. intros O E. by apply (load_live dead_value live _ _ _ _ _ O E). Qed.

(** ** The ledgers *)

Lemma in_zone_add zm z k z' k' : in_zone (zone_add zm z k) z' k' ↔ in_zone zm z' k' ∨ (z' = z ∧ k' = k).
Proof.
  unfold in_zone, zone_add, Map_GetOrAdd. destruct (hashMap zm !! z) as [m|] eqn:E; simpl.
  - destruct (decide (z = z')) as [<-|Hne].
    + setoid_rewrite lookup_insert_eq. split.
      * intros (? & [= <-] & H). simpl in H. destruct (decide (k = k')) as [<-|]; [by right|].
        rewrite lookup_insert_ne in H by done. left. by exists m.
      * intros [(m' & Em & H)|[_ ->]]; (eexists; split; [done|]); simpl; [|rewrite lookup_insert_eq; by eexists].
        simplify_eq. destruct (decide (k = k')) as [<-|]; [rewrite lookup_insert_eq; by eexists|by rewrite lookup_insert_ne].
    + setoid_rewrite lookup_insert_ne; [|done]. naive_solver.
  - rewrite insert_insert_eq. destruct (decide (z = z')) as [<-|Hne].
    + setoid_rewrite lookup_insert_eq. split.
      * intros (? & [= <-] & H). simpl in H. rewrite insert_empty in H. destruct H as [? [<- _]%lookup_singleton_Some]. by right.
      * intros [(m' & Em & H)|[_ ->]]; [congruence|]. eexists; split; [done|]. simpl. rewrite lookup_insert_eq. by eexists.
    + setoid_rewrite lookup_insert_ne; [|done]. naive_solver.
Qed.

Lemma in_zone_remove zm z k z' k' :
  in_zone (zone_remove zm z k) z' k' ↔ in_zone zm z' k' ∧ ¬ (z' = z ∧ k' = k).
Proof.
  unfold in_zone, zone_remove, Map_Get. destruct (hashMap zm !! z) as [m|] eqn:E; simpl; [|naive_solver].
  destruct (decide (z = z')) as [<-|Hne].
  - setoid_rewrite lookup_insert_eq. split.
    + intros (? & [= <-] & [x H]). simpl in H. apply lookup_delete_Some in H as [Hk H]. split; [|naive_solver]. exists m. split; [done|by eexists].
    + intros [(m' & Em & [x H]) Hn]. simplify_eq. eexists; split; [done|]. exists x. simpl. apply lookup_delete_Some. naive_solver.
  - setoid_rewrite lookup_insert_ne; [|done]. naive_solver.
Qed.

Lemma zones_ok_add zm (v : view) k z s :
  zones_ok zm v → v !! k = None → zones_ok (zone_add zm z k) (<[k := (z, s)]> v).
Proof.
  intros H E z' k'. rewrite in_zone_add, (H z' k'). destruct (decide (k = k')) as [<-|Hne].
  - rewrite lookup_insert_eq, E. naive_solver.
  - rewrite lookup_insert_ne by done. naive_solver.
Qed.
Lemma zones_ok_update zm (v : view) k z s s' :
  zones_ok zm v → v !! k = Some (z, s) → zones_ok zm (<[k := (z, s')]> v).
Proof.
  intros H E z' k'. rewrite (H z' k'). destruct (decide (k = k')) as [<-|Hne].
  - rewrite lookup_insert_eq, E. naive_solver.
  - by rewrite lookup_insert_ne by done.
Qed.
Lemma zones_ok_delete zm (v : view) k z s :
  zones_ok zm v → v !! k = Some (z, s) → zones_ok (zone_remove zm z k) (delete k v).
Proof.
  intros H E z' k'. rewrite in_zone_remove, (H z' k'). setoid_rewrite lookup_delete_Some. naive_solver.
Qed.

Lemma counter_ok_Inc m (v v' : view) :
  counter_ok m v → total v' = total v + 1 → counter_ok (Counter_Inc m).1 v'.
Proof. unfold counter_ok. simpl. intros -> ->. by rewrite int64_wrap_add_l. Qed.
Lemma counter_ok_Sub m n (v v' : view) :
  counter_ok m v → total v' = total v - n → counter_ok (Counter_Sub m n) v'.
Proof. unfold counter_ok. simpl. intros -> ->. by rewrite int64_wrap_add_r, int64_wrap_add_l. Qed.

Lemma entries_add_lookup entries h d h' :
  track = true →
  default 0 (entries_add track entries h d !! h') = default 0 (entries !! h') + (if decide (h = h') then d else 0).
Proof.
  intros Ht. unfold entries_add. rewrite Ht. destruct (decide (h = h')) as [<-|]; [by rewrite lookup_insert_eq|].
  rewrite lookup_insert_ne by done. lia.
Qed.

Lemma entries_drop_lookup entries (s : secs) h :
  track = true → hashed s →
  default 0 (entries_drop Hash track entries s !! h) = default 0 (entries !! h) - holds h s.
Proof.
  intros Ht. unfold entries_drop, holds.
  assert (∀ (l : list (Expiring (S:=S))) entries,
    default 0 (foldl (λ m e, entries_add track m (Hash (exSection e)) (-1)) entries l !! h) =
    default 0 (entries !! h) - Z.of_nat (length (filter (λ e, Hash (exSection e) = h) l))) as G.
  { intros l. induction l as [|e l IH]; intros m; simpl; [lia|]. rewrite IH, entries_add_lookup, filter_cons by done.
    destruct (decide (Hash (exSection e) = h)); simpl; lia. }
  rewrite G. clear G. intros Hs. f_equal. revert Hs.
  induction s as [|k e s E IH] using map_ind; intros Hs; [by rewrite map_to_list_empty, lookup_empty|].
  rewrite map_to_list_insert by done. rewrite fmap_cons, filter_cons. cbn [snd].
  assert (Hash (exSection e) = k) as Hk by (apply Hs; by rewrite lookup_insert_eq).
  assert (hashed s) as Hs'.
  { intros h' e' E'. apply Hs. rewrite lookup_insert_ne; [done|congruence]. }
  specialize (IH Hs'). destruct (decide (k = h)) as [->|Hne].
  - rewrite decide_True, lookup_insert_eq by done. rewrite E in IH. rewrite length_cons. lia.
  - rewrite decide_False, lookup_insert_ne by congruence. done.
Qed.

Lemma total_delete (v : view) k z s : v !! k = Some (z, s) → total (delete k v) = total v - Z.of_nat (size s).
Proof. intros E. unfold total. by rewrite (map_sum_delete _ _ _ (z, s)). Qed.
Lemma holders_delete (v : view) k z s h : v !! k = Some (z, s) → holders h (delete k v) = holders h v - holds h s.
Proof. intros E. unfold holders. by rewrite (map_sum_delete _ _ _ (z, s)). Qed.
Lemma total_update (v : view) k z s s' :
  v !! k = Some (z, s) → total (<[k := (z, s')]> v) = total v - Z.of_nat (size s) + Z.of_nat (size s').
Proof. intros E. unfold total. by rewrite (map_sum_update _ _ _ (z, s)). Qed.
Lemma holders_update (v : view) k z s s' h :
  v !! k = Some (z, s) → holders h (<[k := (z, s')]> v) = holders h v - holds h s + holds h s'.
Proof. intros E. unfold holders. by rewrite (map_sum_update _ _ _ (z, s)). Qed.

Lemma view_ok_delete (v : view) k : view_ok v → view_ok (delete k v).
Proof. intros H k' z s [_ E]%lookup_delete_Some. by eapply H. Qed.
Lemma view_ok_insert (v : view) k z s : view_ok v → hashed s → s ≠ ∅ → view_ok (<[k := (z, s)]> v).
Proof. intros H Hs Hne k' z' s' [[<- [= <- <-]]|[_ E]]%lookup_insert_Some; [done|by eapply H]. Qed.

(** ** Taking a record out of the cache *)

(** Whatever becomes of the record at [l], a state without [k] whose ledgers lost the
    sections filed under [k] keeps its books. *)
Lemma books_remove c k l v zm :
  zc_books c → lru_vals (zcCache c) !! k = Some l →
  let c' := mkZoneCache (lru_Remove (zcCache c) k).1 (<[l := v]> (zcHeap c)) (zcNext c)
              (Counter_Sub (zcCounter c) (Z.of_nat (size (cvSections (deref (zcHeap c) l))))) zm
              (entries_drop Hash track (zcEntries c) (cvSections (deref (zcHeap c) l))) in
  zc_books c' ∧ zc_view c' = delete k (zc_view c).
Proof.
  intros [P V C E] El c'. pose proof (view_lookup dead_value file (zcHeap c) _ _ _ El) as Ev. fold (zc_view c) in Ev.
  unfold file in Ev. destruct (V _ _ _ Ev) as [Hh _].
  assert (zc_view c' = delete k (zc_view c)) as W by (by eapply (view_remove dead_value live file)).
  split; [|done]. split; [by apply (pointers_remove dead_value live)|rewrite W..].
  - by apply view_ok_delete.
  - eapply counter_ok_Sub; [done|]. by eapply total_delete.
  - intros Ht h. simpl. rewrite entries_drop_lookup, (E Ht) by done. by erewrite holders_delete.
Qed.

Lemma zc_evict_entry_spec c k l :
  zc_inv c → lru_vals (zcCache c) !! k = Some l →
  zc_inv (zc_evict_entry Hash track c k l) ∧ zc_view (zc_evict_entry Hash track c k l) = delete k (zc_view c).
Proof.
  intros [B Z] El. destruct (books_remove c k l (set_deleted (deref (zcHeap c) l))
    (zone_remove (zcZoneMap c) (cvZone (deref (zcHeap c) l)) (cvCacheKey (deref (zcHeap c) l))) B El) as [B' W].
  fold (zc_evict_entry Hash track c k l) in B', W. split; [|exact W]. split; [exact B'|]. rewrite W.
  destruct (live_deref _ _ _ _ _ (inv_pointers _ B) El) as (_ & Hk). simpl. rewrite Hk.
  eapply zones_ok_delete; [done|]. exact (view_lookup dead_value file _ _ _ _ El).
Qed.

(** The eviction loop terminates within one round per cached key; it stops when the
    counter is below the maximum or nothing evictable is left, and removes only
    evictable entries. *)
Lemma zc_evict_spec c fuel :
  zc_inv c → (size (lru_vals (zcCache c)) < fuel)%nat →
  ∃ c', zc_evict Hash track fuel c = Some c' ∧ zc_inv c' ∧
    (Counter_IsFull (zcCounter c') = false ∨ ∀ k, ¬ lru_evictable (zcCache c') k) ∧
    (∀ k, zc_view c' !! k = zc_view c !! k ∨ (zc_view c' !! k = None ∧ lru_evictable (zcCache c) k)) ∧
    (Counter_IsFull (zcCounter c) = false → c' = c) ∧ maxCount (zcCounter c') = maxCount (zcCounter c).
Proof.
  revert c. induction fuel as [|fuel IH]; intros c I Hf; [lia|]. simpl.
  destruct (Counter_IsFull (zcCounter c)) eqn:Ef; simpl; [|eexists; split_and!; eauto].
  destruct (lru_GetLeastRecentlyUsed (zcCache c)) as [k [l|]] eqn:El.
  - destruct (lru_least_Some _ _ _ (po_lru _ _ _ _ (inv_pointers _ (proj1 I))) El) as [Ek Hev].
    destruct (live_deref _ _ _ _ _ (inv_pointers _ (proj1 I)) Ek) as (-> & _).
    destruct (zc_evict_entry_spec c k l I Ek) as [I' W].
    destruct (IH _ I') as (c' & Ec & Ic & Hstop & Hview & _ & Hmax).
    { simpl. rewrite (proj1 (lru_Remove_vals _ k)), map_size_delete_Some by eauto.
      assert (size (lru_vals (zcCache c)) ≠ 0)%nat; [|lia].
      intros H0%map_size_empty_iff. rewrite H0 in Ek. by rewrite lookup_empty in Ek. }
    exists c'. split_and!; [done..| |done|by rewrite Hmax].
    intros k'. destruct (Hview k') as [H|[H Hev']]; rewrite W in *.
    + destruct (decide (k = k')) as [<-|]; [right; by rewrite H, lookup_delete_eq|left; by rewrite H, lookup_delete_ne].
    + right. split; [done|]. simpl in Hev'. by apply lru_Remove_evictable in Hev' as [? _].
  - exists c. split_and!; [done..| | |done|done]; [right|by left].
    by eapply lru_least_None; [apply I|].
Qed.

(** ** Inserting a section *)

Definition add_section (v : view) (s : S) (key zone : string) (expiration : Z) : view :=
  match v !! key with
  | None => <[key := (zone, {[ Hash s := mkExpiring s expiration ]})]> v
  | Some (z, ss) =>
      match ss !! Hash s with
      | Some _ => v
      | None => <[key := (z, <[Hash s := mkExpiring s expiration]> ss)]> v
      end
  end.
Definition has_section (v : view) (s : S) (key : string) : bool :=
  match v !! key with Some (_, ss) => bool_decide (is_Some (ss !! Hash s)) | None => false end.

Lemma hashed_insert ss s expiration : hashed ss → hashed (<[Hash s := mkExpiring s expiration]> ss).
Proof. intros H h e [[<- <-]|[_ E]]%lookup_insert_Some; [done|by apply H]. Qed.

Lemma holds_insert (ss : secs) h e h' :
  ss !! h = None → holds h' (<[h := e]> ss) = holds h' ss + (if decide (h = h') then 1 else 0).
Proof.
  intros E. unfold holds. destruct (decide (h = h')) as [<-|]; [by rewrite lookup_insert_eq, E|].
  rewrite lookup_insert_ne by done. lia.
Qed.

(** Adding a section not yet filed under a key keeps the ledgers. *)
Lemma ledgers_insert c (v v' : view) s key zone expiration :
  has_section v s key = false → v' = add_section v s key zone expiration →
  view_ok v → counter_ok (zcCounter c) v → entries_ok (zcEntries c) v →
  view_ok v' ∧ counter_ok (Counter_Inc (zcCounter c)).1 v' ∧ entries_ok (entries_add track (zcEntries c) (Hash s) 1) v'.
Proof.
  unfold add_section, has_section. destruct (v !! key) as [[z ss]|] eqn:E; intros Hp Ev Hv C En.
  - assert (ss !! Hash s = None) as Es by (destruct (ss !! Hash s); [done|done]).
    rewrite Es in Ev. destruct (Hv _ _ _ E) as [Hh _]. subst v'. split_and!.
    + apply view_ok_insert; [done|by apply hashed_insert|apply insert_non_empty].
    + eapply counter_ok_Inc; [done|]. rewrite (total_update _ _ z ss) by done. rewrite map_size_insert_None by done. lia.
    + intros Ht h. rewrite (holders_update _ _ z ss), holds_insert, entries_add_lookup, (En Ht) by done. lia.
  - subst v'. split_and!.
    + apply view_ok_insert; [done| |apply map_non_empty_singleton]. rewrite <-insert_empty. apply hashed_insert. done.
    + eapply counter_ok_Inc; [done|]. unfold total. rewrite map_sum_insert by done. simpl. rewrite map_size_singleton. lia.
    + intros Ht h. unfold holders. rewrite map_sum_insert by done. simpl. rewrite <-insert_empty, holds_insert by done.
      unfold holds at 1. rewrite lookup_empty, entries_add_lookup, (En Ht) by done. unfold holders. lia.
Qed.

Lemma zc_insert_spec c s key zone expiration isInternal isFull :
  zc_inv c →
  let r := zc_insert Hash track c s key zone expiration isInternal isFull in
  zc_inv r.1 ∧ zc_view r.1 = add_section (zc_view c) s key zone expiration ∧
  r.2 = Some (if has_section (zc_view c) s key then isFull else Counter_IsFull (zcCounter r.1)) ∧
  maxCount (zcCounter r.1) = maxCount (zcCounter c).
Proof.
  intros [[P V C E] Z] r. subst r. unfold zc_insert.
  destruct (lru_vals (zcCache c) !! key) as [l|] eqn:El.
  - destruct (pointers_touch dead_value live file _ _ _ _ isInternal (mkCacheValue ∅ key zone false) _ P El) as (P' & V' & Ev & Hd).
    destruct (lru_GetOrAdd_hit (zcCache c) key (zcNext c) l isInternal El) as [_ Er].
    destruct (lru_GetOrAdd (zcCache c) key (zcNext c) isInternal) as [cache [l' new]]. simpl in *. simplify_eq.
    unfold deref. rewrite Hd. fold (deref (zcHeap c) l). destruct (live_deref _ _ _ _ _ P El) as (Hdel & Hk). rewrite Hdel.
    pose proof (view_lookup dead_value file (zcHeap c) _ _ _ El) as Evk. fold (zc_view c) in Evk, V'. unfold file in Evk. fold (deref (zcHeap c) l) in Evk.
    set (value := deref (zcHeap c) l) in *.
    assert (has_section (zc_view c) s key = bool_decide (is_Some (cvSections value !! Hash s))) as Hps
      by (unfold has_section; by rewrite Evk).
    destruct (cvSections value !! Hash s) as [e|] eqn:Es; simpl.
    + assert (add_section (zc_view c) s key zone expiration = zc_view c) as Ea
        by (unfold add_section; by rewrite Evk, Es).
      rewrite Ea, Hps. unfold zc_view at 1. simpl. split_and!; [|done..]. split; [split|]; unfold zc_view; simpl; by rewrite ?V'.
    + set (v' := set_sections _ _). rewrite <-Ev in El.
      pose proof (view_write dead_value live file _ _ _ _ _ v' P' El) as W. rewrite V' in W.
      assert (add_section (zc_view c) s key zone expiration = <[key := file v']> (zc_view c)) as Ea
        by (unfold add_section; by rewrite Evk, Es).
      rewrite Hps. unfold zc_view at 1. simpl. rewrite W, Ea. split_and!; [|done..].
      destruct (ledgers_insert c (zc_view c) (<[key := file v']> (zc_view c)) s key zone expiration) as (L1 & L2 & L3); [done..| |done|done|done|].
      { unfold add_section. by rewrite Evk, Es. }
      split; [split|]; unfold zc_view; simpl; rewrite ?W; [|done..|].
      * by apply (pointers_write dead_value live _ _ _ key).
      * by eapply zones_ok_update.
  - set (v' := mkCacheValue {[ Hash s := mkExpiring s expiration ]} key zone false).
    destruct (pointers_file dead_value live file _ _ _ _ isInternal v' P El) as (P' & W & _); [done..|].
    destruct (lru_GetOrAdd_miss (zcCache c) key (zcNext c) isInternal El) as [_ Er].
    destruct (lru_GetOrAdd (zcCache c) key (zcNext c) isInternal) as [cache [l' new]]. simpl in *. simplify_eq.
    unfold deref. rewrite load_insert, decide_True by done. simpl. rewrite lookup_empty, insert_empty, insert_insert_eq. simpl.
    fold v'. pose proof (proj2 (view_lookup_None dead_value file (zcHeap c) _ _) El) as Evk. fold (zc_view c) in Evk, W.
    unfold zc_view at 1. simpl. fold v'. unfold set_sections. simpl. fold v'. rewrite W.
    unfold has_section, add_section. rewrite Evk. split_and!; [|done..].
    destruct (ledgers_insert c (zc_view c) (<[key := file v']> (zc_view c)) s key zone expiration) as (L1 & L2 & L3);
      [by unfold has_section; rewrite Evk| |done|done|done|].
    { unfold add_section. by rewrite Evk. }
    split; [split|]; unfold zc_view; simpl; rewrite ?W; [done..|]. by apply zones_ok_add.
Qed.

Lemma zc_insert_internal c s key zone expiration isInternal isFull k :
  lru_internal (zcCache c) k →
  lru_internal (zcCache (zc_insert Hash track c s key zone expiration isInternal isFull).1) k.
Proof.
  intros H. apply (lru_GetOrAdd_internal _ _ key (zcNext c) isInternal) in H. unfold zc_insert.
  destruct (lru_GetOrAdd _ _ _ _) as [cache [l new]]. simpl in *. repeat case_match; done.
Qed.

Lemma zc_New_inv maxSize : zc_inv (zc_New maxSize) ∧ zc_view (zc_New (S:=S) maxSize) = ∅.
Proof.
  destruct (pointers_New dead_value live file) as [P W].
  change (zc_view (zc_New (S:=S) maxSize) = ∅) in W.
  split; [|done]. split; [split|]; rewrite ?W; simpl.
  - done.
  - intros k z s'. by rewrite lookup_empty.
  - unfold counter_ok, total. rewrite map_sum_empty. done.
  - intros _ h. unfold holders. by rewrite map_sum_empty, lookup_empty.
  - intros z k. unfold in_zone. simpl. setoid_rewrite lookup_empty. naive_solver.
Qed.

(** ** Expiry *)

Definition keep (now : Z) (s : secs) : secs := filter (λ p, is_expired now p.2 = false) s.
Definition expire_file (now : Z) (p : string * secs) : option (string * secs) :=
  if bool_decide (keep now p.2 = ∅) then None else Some (p.1, keep now p.2).

Lemma keep_partition now (s : secs) :
  size s = (size (filter (λ p, is_expired now p.2 = true) s) + size (keep now s))%nat ∧
  ∀ h, holds h s = holds h (filter (λ p, is_expired now p.2 = true) s) + holds h (keep now s).
Proof.
  assert (keep now s = filter (λ p, ¬ is_expired now p.2 = true) s) as E.
  { apply map_filter_ext. intros h e _. simpl. by destruct (is_expired now e). }
  split.
  - rewrite <-(map_filter_union_complement (λ p, is_expired now p.2 = true) s) at 1.
    rewrite map_size_disj_union by apply map_disjoint_filter_complement. by rewrite E.
  - intros h. unfold holds, keep. rewrite !map_lookup_filter. destruct (s !! h) as [e|]; simpl; [|done].
    repeat case_guard; simpl in *; [congruence|lia|lia|destruct (is_expired now e); congruence].
Qed.

Lemma hashed_filter P `{!∀ x, Decision (P x)} (s : secs) : hashed s → hashed (filter P s).
Proof. intros Hs h e [E _]%map_lookup_filter_Some. by apply Hs. Qed.

Lemma zc_expire_value_spec now c k l :
  zc_inv c → lru_vals (zcCache c) !! k = Some l →
  let c' := zc_expire_value Hash track now c l in
  zc_inv c' ∧ zc_view c' = partial_alter (λ o, o ≫= expire_file now) k (zc_view c) ∧
  (∀ k', k' ≠ k → lru_vals (zcCache c') !! k' = lru_vals (zcCache c) !! k') ∧
  maxCount (zcCounter c') = maxCount (zcCounter c).
Proof.
  intros [[P V C E] Z] El c'. subst c'. unfold zc_expire_value.
  destruct (live_deref _ _ _ _ _ P El) as (Hdel & Hk). rewrite Hdel.
  pose proof (view_lookup dead_value file (zcHeap c) _ _ _ El) as Evk. fold (zc_view c) in Evk. unfold file in Evk. fold (deref (zcHeap c) l) in Evk.
  set (value := deref (zcHeap c) l) in *. destruct (V _ _ _ Evk) as [Hh _].
  destruct (keep_partition now (cvSections value)) as [Hsz Hhold].
  fold (keep now (cvSections value)). set (gone := filter _ (cvSections value)) in *.
  assert (hashed gone) as Hg by (by apply hashed_filter). assert (hashed (keep now (cvSections value))) as Hkp by (by apply hashed_filter).
  assert (∀ h, track = true → default 0 (entries_drop Hash track (zcEntries c) gone !! h) = holders h (zc_view c) - holds h gone) as He.
  { intros h Ht. by rewrite entries_drop_lookup, (E Ht). }
  assert (partial_alter (λ o, o ≫= expire_file now) k (zc_view c) =
    if bool_decide (keep now (cvSections value) = ∅) then delete k (zc_view c)
    else <[k := (cvZone value, keep now (cvSections value))]> (zc_view c)) as Ea.
  { apply map_eq. intros k'. destruct (decide (k = k')) as [<-|Hne].
    - rewrite lookup_partial_alter_eq, Evk. simpl. unfold expire_file. simpl.
      case_bool_decide; [by rewrite lookup_delete_eq|by rewrite lookup_insert_eq].
    - rewrite lookup_partial_alter_ne by done. case_bool_decide; [by rewrite lookup_delete_ne|by rewrite lookup_insert_ne]. }
  rewrite Ea. destruct (bool_decide_reflect (keep now (cvSections value) = ∅)) as [Hem|Hne].
  - rewrite Hk. rewrite Hem in Hsz, Hhold. rewrite map_size_empty in Hsz.
    pose proof (view_remove dead_value live file _ _ _ _ _ (set_deleted (set_sections value (keep now (cvSections value)))) P El) as W. fold (zc_view c) in W.
    split_and!; [|exact W| |done].
    + split; [split|]; unfold zc_view; simpl; rewrite ?W.
      * by apply (pointers_remove dead_value live).
      * by apply view_ok_delete.
      * eapply counter_ok_Sub; [done|]. rewrite (total_delete _ _ _ _ Evk). lia.
      * intros Ht h. rewrite He, (holders_delete _ _ _ _ _ Evk), Hhold by done. unfold holds. rewrite lookup_empty. lia.
      * by eapply zones_ok_delete.
    + intros k' Hne. simpl. rewrite (proj1 (lru_Remove_vals _ k)). by rewrite lookup_delete_ne.
  - pose proof (view_write dead_value live file _ _ _ _ _ (set_sections value (keep now (cvSections value))) P El) as W. fold (zc_view c) in W.
    split_and!; [|exact W|done|done].
    split; [split|]; unfold zc_view; simpl; rewrite ?W; unfold file; simpl.
    * by eapply (pointers_write dead_value live).
    * by apply view_ok_insert.
    * eapply counter_ok_Sub; [done|]. rewrite (total_update _ _ _ _ _ Evk). lia.
    * intros Ht h. rewrite He, (holders_update _ _ _ _ _ _ Evk), Hhold by done. lia.
    * by eapply zones_ok_update.
Qed.

Lemma expire_fold now L c :
  zc_inv c → NoDup L.*1 → (∀ k l, (k, l) ∈ L → lru_vals (zcCache c) !! k = Some l) →
  let c' := foldl (zc_expire_value Hash track now) c L.*2 in
  zc_inv c' ∧ maxCount (zcCounter c') = maxCount (zcCounter c) ∧
  ∀ k, zc_view c' !! k = if decide (k ∈ L.*1) then zc_view c !! k ≫= expire_file now else zc_view c !! k.
Proof.
  revert c. induction L as [|[k l] L IH]; intros c I ND HL; [done|].
  cbv zeta. rewrite fmap_cons in ND. rewrite !fmap_cons. cbn [foldl fst snd] in *. apply NoDup_cons in ND as [Hk ND].
  destruct (zc_expire_value_spec now c k l I) as (I' & W & Hl & Hm); [apply HL; by left|].
  destruct (IH _ I' ND) as (I'' & Hm' & W').
  { intros k' l' Hin. rewrite Hl; [apply HL; by right|]. intros ->. apply Hk. by apply (list_elem_of_fmap_2 fst _ (k, l')). }
  split; [done|]. split; [by rewrite Hm'|]. intros k'. rewrite W', W. clear -Hk.
  destruct (decide (k' = k)) as [->|Hne].
  - rewrite decide_False by done. rewrite lookup_partial_alter_eq. by rewrite decide_True by left.
  - rewrite lookup_partial_alter_ne by done. apply decide_ext. rewrite elem_of_cons. naive_solver.
Qed.

Lemma zc_RemoveExpiredValues_spec now c :
  zc_inv c →
  zc_inv (zc_RemoveExpiredValues Hash track now c) ∧
  zc_view (zc_RemoveExpiredValues Hash track now c) = omap (expire_file now) (zc_view c) ∧
  maxCount (zcCounter (zc_RemoveExpiredValues Hash track now c)) = maxCount (zcCounter c).
Proof.
  intros I. unfold zc_RemoveExpiredValues.
  assert (lru_GetAll (zcCache c) = (map_to_list (lru_vals (zcCache c))).*2) as ->.
  { unfold lru_GetAll, lru_vals. rewrite map_to_list_fmap, <-!list_fmap_compose. done. }
  destruct (expire_fold now (map_to_list (lru_vals (zcCache c))) c I) as (I' & Hm & W).
  - apply NoDup_fst_map_to_list.
  - intros k l. apply elem_of_map_to_list.
  - split_and!; [done| |done]. apply map_eq. intros k. rewrite W, lookup_omap. case_decide as Hd; [done|].
    destruct (zc_view c !! k) as [p|] eqn:Ev; [|done]. apply (view_lookup_Some dead_value file) in Ev as (l & El & _). destruct Hd.
    by apply (list_elem_of_fmap_2 fst _ (k, l)), elem_of_map_to_list.
Qed.

(** ** Removing a zone *)

Lemma zc_remove_key_spec c k :
  zc_books c →
  zc_books (zc_remove_key Hash track c k) ∧ zc_view (zc_remove_key Hash track c k) = delete k (zc_view c) ∧
  zcZoneMap (zc_remove_key Hash track c k) = zcZoneMap c ∧
  maxCount (zcCounter (zc_remove_key Hash track c k)) = maxCount (zcCounter c).
Proof.
  intros B. unfold zc_remove_key. pose proof (proj2 (lru_Remove_vals (zcCache c) k)) as Er.
  destruct (lru_vals (zcCache c) !! k) as [l|] eqn:El.
  - destruct (books_remove c k l (set_deleted (deref (zcHeap c) l)) (zcZoneMap c) B El) as [B' W].
    destruct (live_deref _ _ _ _ _ (inv_pointers _ B) El) as (Hd & _).
    destruct (lru_Remove (zcCache c) k) as [cache r]. simpl in *. subst r. by rewrite Hd.
  - destruct (lru_Remove (zcCache c) k) as [cache r]. simpl in *. subst r. split_and!; [done| |done|done].
    symmetry. apply delete_id. by apply view_lookup_None.
Qed.

Lemma remove_keys_spec ks c :
  zc_books c →
  let c' := foldl (zc_remove_key Hash track) c ks in
  zc_books c' ∧ zcZoneMap c' = zcZoneMap c ∧ maxCount (zcCounter c') = maxCount (zcCounter c) ∧
  ∀ k, zc_view c' !! k = if decide (k ∈ ks) then None else zc_view c !! k.
Proof.
  revert c. induction ks as [|k ks IH]; intros c B; simpl; [done|].
  destruct (zc_remove_key_spec c k B) as (B' & W & Hz & Hm). destruct (IH _ B') as (B'' & Hz' & Hm' & W').
  split_and!; [done|by rewrite Hz'|by rewrite Hm'|]. intros k'. rewrite W', W.
  destruct (decide (k' = k)) as [->|Hne].
  - rewrite lookup_delete_eq. rewrite (decide_True (P:=k ∈ k :: ks)) by left. by case_decide.
  - rewrite lookup_delete_ne by done. apply decide_ext. rewrite elem_of_cons. naive_solver.
Qed.

Lemma zc_RemoveZone_spec c zone :
  zc_inv c →
  zc_inv (zc_RemoveZone Hash track c zone) ∧
  zc_view (zc_RemoveZone Hash track c zone) = filter (λ p, p.2.1 ≠ zone) (zc_view c) ∧
  maxCount (zcCounter (zc_RemoveZone Hash track c zone)) = maxCount (zcCounter c).
Proof.
  intros [B Z]. unfold zc_RemoveZone, Map_Remove. simpl.
  destruct (hashMap (zcZoneMap c) !! zone) as [set|] eqn:Ez.
  - destruct (remove_keys_spec (Map_GetAllKeys set)
      (mkZoneCache (zcCache c) (zcHeap c) (zcNext c) (zcCounter c) (mkMap (delete zone (hashMap (zcZoneMap c)))) (zcEntries c)))
      as (B' & Hz & Hm & W); [by destruct B; split|].
    set (c' := foldl _ _ _) in *. change (zc_view (mkZoneCache _ _ _ _ _ _)) with (zc_view c) in W.
    assert (∀ k, k ∈ Map_GetAllKeys set ↔ ∃ s, zc_view c !! k = Some (zone, s)) as Hin.
    { intros k. rewrite Map_GetAllKeys_spec, <-(Z zone k). unfold in_zone. rewrite Ez. naive_solver. }
    assert (zc_view c' = filter (λ p, p.2.1 ≠ zone) (zc_view c)) as W'.
    { apply map_eq. intros k. rewrite W, map_lookup_filter. destruct (zc_view c !! k) as [[z s]|] eqn:Ek; simpl; [|by case_decide].
      case_decide as Hd; case_guard as Hg; simpl in *; try done.
      - apply Hin in Hd as [s' Hd]. congruence.
      - destruct Hd. apply Hin. exists s. rewrite Ek. f_equal. f_equal. apply dec_stable. naive_solver. }
    split_and!; [|done|done]. split; [done|]. rewrite Hz. intros z k. rewrite W'.
    setoid_rewrite map_lookup_filter_Some. simpl. unfold in_zone. simpl. setoid_rewrite lookup_delete_Some.
    specialize (Z z k). unfold in_zone in Z. naive_solver.
  - split_and!; [done| |done]. symmetry. apply map_filter_id. intros k [z s] Ek. simpl. intros ->.
    assert (in_zone (zcZoneMap c) zone k) as (m & Em & _) by (apply Z; eauto). congruence.
Qed.

(** ** Reading *)

Definition sections_of (s : secs) : list S := exSection <$> (map_to_list s).*2.

Lemma zc_lookup_spec c k :
  zc_inv c →
  zc_inv (zc_lookup c k).1 ∧ zc_view (zc_lookup c k).1 = zc_view c ∧
  zc_read (zc_lookup c k).1 (zc_lookup c k).2 = (λ p, sections_of p.2) <$> zc_view c !! k ∧
  (is_Some (zc_lookup c k).2 ↔ is_Some (zc_view c !! k)).
Proof.
  intros [B Z]. unfold zc_lookup, zc_read. destruct (lru_Get_vals (zcCache c) k) as [Ev Er].
  pose proof (lru_Get_wf (zcCache c) k (po_lru _ _ _ _ (inv_pointers _ B))) as Wf.
  destruct (lru_Get (zcCache c) k) as [cache r]. simpl in *. subst r.
  assert (∀ zc, zcHeap zc = zcHeap c → zcCache zc = cache → zc_view zc = zc_view c) as W.
  { intros zc H1 H2. unfold zc_view, view_of. by rewrite H1, H2, Ev. }
  split; [|split; [by apply W|]].
  - destruct B as [P V C E]. split; [split|]; try (rewrite W by done; done).
    by apply (pointers_reorder dead_value live file (zcHeap c) (zcCache c)).
  - destruct (lru_vals (zcCache c) !! k) as [l|] eqn:El; simpl.
    + destruct (live_deref _ _ _ _ _ (inv_pointers _ B) El) as (-> & _).
      unfold zc_view. rewrite (view_lookup dead_value file _ _ _ _ El). split; [done|]. split; intros _; by eexists.
    + apply (view_lookup_None dead_value file (zcHeap c)) in El. unfold zc_view. rewrite El. split; [done|]. split; by intros [? ?].
Qed.

Lemma zc_Get_spec c k :
  zc_inv c →
  zc_inv (zc_Get c k).1 ∧ zc_view (zc_Get c k).1 = zc_view c ∧
  (zc_Get c k).2 = (λ p, sections_of p.2) <$> zc_view c !! k.
Proof.
  intros I. destruct (zc_lookup_spec c k I) as (I' & W & Er & _). unfold zc_Get. by destruct (zc_lookup c k).
Qed.

Lemma zc_Checkpoint_spec c s :
  zc_inv c → s ∈ zc_Checkpoint c ↔ ∃ k z ss h e, zc_view c !! k = Some (z, ss) ∧ ss !! h = Some (mkExpiring s e).
Proof.
  intros [B Z]. unfold zc_Checkpoint. rewrite list_elem_of_bind. split.
  - intros (l & Hs & [k El]%lru_GetAll_spec). destruct (live_deref _ _ _ _ _ (inv_pointers _ B) El) as (Hd & _).
    rewrite Hd in Hs. apply list_elem_of_fmap in Hs as (e & -> & ([h e'] & -> & He%elem_of_map_to_list)%list_elem_of_fmap).
    simpl. exists k, (cvZone (deref (zcHeap c) l)), (cvSections (deref (zcHeap c) l)), h, (exExpiration e').
    split; [apply (view_lookup dead_value file _ _ _ _ El)|]. rewrite He. by destruct e'.
  - intros (k & z & ss & h & e & (l & El & [= -> ->])%(view_lookup_Some dead_value file) & Hh).
    exists l. split; [|apply lru_GetAll_spec; eauto]. destruct (live_deref _ _ _ _ _ (inv_pointers _ B) El) as (-> & _).
    apply list_elem_of_fmap. exists (mkExpiring s e). split; [done|]. apply list_elem_of_fmap. exists (h, mkExpiring s e).
    split; [done|]. by apply elem_of_map_to_list.
Qed.

(** The counter is the number of cached sections. *)
Lemma zc_Len_spec c : zc_inv c → total (zc_view c) < 2 ^ 63 → zc_Len c = total (zc_view c).
Proof.
  intros [B _] H. unfold zc_Len, Counter_Value. rewrite (inv_counter _ B : _ = _), int64_wrap_id; [done|].
  pose proof (map_sum_nonneg (λ p : string * secs, Z.of_nat (size p.2)) (zc_view c) (λ p, Nat2Z.is_nonneg (size p.2))). unfold in_int64, total in *. lia.
Qed.
End Facts.
