(* ===== verification/AssertionCache.v ===== *)
(** * The assertion cache

    Models attic/internal/pkg/cache/assertionCache.go on top of [ZoneCache]: an assertion
    is filed once per object under the key made of its fully qualified name, its context
    and the object's type. *)

From S2P Require Import Prelude Cbor Keys Object Section Containers LruCache ZoneCache ZoneCacheFacts.
Local Open Scope Z_scope.

Definition mergeSubjectZone (subject zone : string) : string :=
  if zone =ₛ "." then (subject +:+ ".")%string
  else if subject =ₛ "" then zone
  else (subject +:+ "." +:+ zone)%string.

Definition assertionCacheMapKeyFQDN (fqdn context : string) (oType : OType) : string :=
  (fqdn +:+ " " +:+ context +:+ " " +:+ dec oType)%string.
Definition assertionCacheMapKey (name zone context : string) (oType : OType) : string :=
  (mergeSubjectZone name zone +:+ " " +:+ context +:+ " " +:+ dec oType)%string.

(** [strings.Join(labels[i:], ".")] for every [i] up to [len(labels)-2]. *)
Fixpoint suffix_names (labels : list string) : list string :=
  match labels with
  | [] | [_] => []
  | _ :: rest => str_join "." labels :: suffix_names rest
  end.
Definition zoneHierarchy (fqdn : string) : list string :=
  match split_dot fqdn with
  | [l0; _] => [(l0 +:+ ".")%string]
  | labels => suffix_names labels
  end.

Abbreviation AssertionImpl := (ZoneCache (S:=Assertion)) (only parsing).

Section AssertionCache.
Context {OL : ObjLib} {CW : CborWriter}.

(** The value of [a.Hash()]; [Add] below treats a panic of [Hash] as its own. *)
Definition assertion_hash (a : Assertion) : string :=
  match Assertion_Hash a with Ok h => h | _ => ""%string end.

Definition NewAssertion (maxSize : Z) : AssertionImpl := zc_New maxSize.

(** The loop over [a.Content]; [None] asks for the method to start over. *)
Fixpoint Add_objects (c : AssertionImpl) (a : Assertion) (expiration : Z) (isInternal : bool)
    (content : list Object) (isFull : bool) : outcome (AssertionImpl * option bool) :=
  match content with
  | [] => Ok (c, Some isFull)
  | o :: content' =>
      match Assertion_Hash a with
      | Panic msg => Panic msg
      | _ =>
          let key := assertionCacheMapKey (aSubjectName a) (aSubjectZone a) (aContext a) (objType o) in
          match zc_insert assertion_hash true c a key (aSubjectZone a) expiration isInternal isFull with
          | (c', None) => Ok (c', None)
          | (c', Some isFull') => Add_objects c' a expiration isInternal content' isFull'
          end
      end
  end.

(** The fuel bounds the restarts; the eviction loop gets one round per cached key and
    one more. *)
Fixpoint AssertionImpl_Add (fuel : nat) (c : AssertionImpl) (a : Assertion) (expiration : Z) (isInternal : bool)
    : option (outcome (AssertionImpl * bool)) :=
  match fuel with
  | O => None
  | S fuel' =>
      match Add_objects c a expiration isInternal (aContent a) false with
      | Ok (c', None) => AssertionImpl_Add fuel' c' a expiration isInternal
      | Ok (c', Some isFull) =>
          match zc_evict assertion_hash true (S (size (lruMap (zcCache c')))) c' with
          | Some c'' => Some (Ok (c'', negb isFull))
          | None => None
          end
      | Err msg => Some (Err msg)
      | Panic msg => Some (Panic msg)
      end
  end.

(** [for _, fqdn := range hierarchy { v, ok = c.cache.Get(...); if ok { break } }] *)
Fixpoint Get_hierarchy (c : AssertionImpl) (context : string) (objType : OType) (hierarchy : list string)
    : AssertionImpl * option nat :=
  match hierarchy with
  | [] => (c, None)
  | fqdn :: hierarchy' =>
      match zc_lookup c (assertionCacheMapKeyFQDN fqdn context objType) with
      | (c', Some l) => (c', Some l)
      | (c', None) => Get_hierarchy c' context objType hierarchy'
      end
  end.

Definition AssertionImpl_Get (c : AssertionImpl) (fqdn context : string) (objType : OType) (strict : bool)
    : AssertionImpl * (list Assertion * bool) :=
  let '(c', v) := if strict then zc_lookup c (assertionCacheMapKeyFQDN fqdn context objType)
                  else Get_hierarchy c context objType (zoneHierarchy fqdn) in
  (c', match zc_read c' v with
       | Some assertions => (assertions, bool_decide (assertions ≠ []))
       | None => ([], false)
       end).

Definition AssertionImpl_RemoveExpiredValues (now : Z) (c : AssertionImpl) : AssertionImpl :=
  zc_RemoveExpiredValues assertion_hash true now c.
Definition AssertionImpl_RemoveZone (c : AssertionImpl) (zone : string) : AssertionImpl :=
  zc_RemoveZone assertion_hash true c zone.
Definition AssertionImpl_Checkpoint (c : AssertionImpl) : list Assertion := zc_Checkpoint c.
Definition AssertionImpl_Len (c : AssertionImpl) : Z := zc_Len c.

(** ** Specification *)

Abbreviation aview := (gmap string (string * gmap string (Expiring (S:=Assertion)))) (only parsing).

(** The assertion filed under all its keys. *)
Definition add_assertion (v : aview) (a : Assertion) (expiration : Z) : aview :=
  foldl (λ v o, add_section assertion_hash v a
    (assertionCacheMapKey (aSubjectName a) (aSubjectZone a) (aContext a) (objType o)) (aSubjectZone a) expiration)
    v (aContent a).

Definition ac_inv (c : AssertionImpl) : Prop := zc_inv assertion_hash true c.

(** The entry of the first name that has one. *)
Definition first_hit (v : aview) (context : string) (t : OType) (names : list string) : option (list Assertion) :=
  head (omap (λ fqdn, (λ p, sections_of p.2) <$> v !! assertionCacheMapKeyFQDN fqdn context t) names).

(** ** Lemmas *)

Lemma Add_objects_spec c a expiration isInternal content isFull h :
  ac_inv c → Assertion_Hash a = Ok h →
  ∃ c' isFull', Add_objects c a expiration isInternal content isFull = Ok (c', Some isFull') ∧ ac_inv c' ∧
    zc_view c' = foldl (λ v o, add_section assertion_hash v a
      (assertionCacheMapKey (aSubjectName a) (aSubjectZone a) (aContext a) (objType o)) (aSubjectZone a) expiration)
      (zc_view c) content ∧
    maxCount (zcCounter c') = maxCount (zcCounter c) ∧ ∀ k, lru_internal (zcCache c) k → lru_internal (zcCache c') k.
Proof.
  intros I Hh. revert c isFull I. induction content as [|o content IH]; intros c isFull I; simpl; [by eauto 10|].
  rewrite Hh. set (key := assertionCacheMapKey _ _ _ _).
  destruct (zc_insert_spec assertion_hash true c a key (aSubjectZone a) expiration isInternal isFull I) as (I' & W & Er & Hm).
  pose proof (zc_insert_internal assertion_hash true c a key (aSubjectZone a) expiration isInternal isFull) as Hi.
  destruct (zc_insert _ _ _ _ _ _ _ _ _) as [c' r]. simpl in *. subst r.
  match goal with |- context [Add_objects c' a expiration isInternal content ?b] =>
    destruct (IH c' b I') as (c'' & f & E & I'' & W' & Hm' & Hi') end.
  exists c'', f. rewrite E, W', W, Hm', Hm.
  split_and!; auto.
Qed.

Lemma Get_hierarchy_spec c context t names :
  ac_inv c →
  let r := Get_hierarchy c context t names in
  ac_inv r.1 ∧ zc_view r.1 = zc_view c ∧ zc_read r.1 r.2 = first_hit (zc_view c) context t names.
Proof.
  revert c. induction names as [|n names IH]; intros c I; simpl; [done|].
  destruct (zc_lookup_spec assertion_hash true c (assertionCacheMapKeyFQDN n context t) I) as (I' & W & Er & Hs).
  destruct (zc_lookup c _) as [c' [l|]]; simpl in *.
  - split_and!; [done..|]. rewrite Er. unfold first_hit. simpl.
    destruct (proj1 Hs ltac:(eauto)) as [p Hp]. by rewrite Hp.
  - destruct (IH c' I') as (I'' & W' & Er'). split_and!; [done|by rewrite W'|]. rewrite Er', W. unfold first_hit. simpl.
    destruct (zc_view c !! _) as [p|] eqn:Ep; [|done]. destruct (proj2 Hs ltac:(eauto)). done.
Qed.

(** ** Theorems *)


(** C39: [Get] returns exactly what is filed: with [strict] under the name asked for,
    otherwise under the longest name of the hierarchy that has an entry; it reports
    success exactly when there is one, and leaves the filed sections as they are. *)
Theorem AssertionCache_Get c fqdn context t strict :
  ac_inv c →
  let r := AssertionImpl_Get c fqdn context t strict in
  let names := if strict then [fqdn] else zoneHierarchy fqdn in
  ac_inv r.1 ∧ zc_view r.1 = zc_view c ∧
  r.2.1 = default [] (first_hit (zc_view c) context t names) ∧
  (r.2.2 = true ↔ is_Some (first_hit (zc_view c) context t names)).
Proof.
  intros I r names. subst r. unfold AssertionImpl_Get.
  assert ((if strict then zc_lookup c (assertionCacheMapKeyFQDN fqdn context t)
           else Get_hierarchy c context t (zoneHierarchy fqdn)) = Get_hierarchy c context t names) as ->.
  { subst names. destruct strict; [|done]. simpl. by destruct (zc_lookup c _) as [? [|]]. }
  destruct (Get_hierarchy_spec c context t names I) as (I' & W & Er).
  destruct (Get_hierarchy c context t names) as [c' l]. simpl in *. rewrite Er. split; [done|]. split; [done|].
  destruct (first_hit (zc_view c) context t names) as [as'|] eqn:Ef; simpl; [|split; [done|split; [done|by intros [? ?]]]].
  split; [done|]. split; [by eauto|]. intros _. apply bool_decide_eq_true_2. intros ->.
  unfold first_hit in Ef. apply head_Some in Ef as [l' Ef].
  assert ([] ∈ omap (λ fqdn, (λ p, sections_of p.2) <$> zc_view c !! assertionCacheMapKeyFQDN fqdn context t) names) as Hin
    by (rewrite Ef; left).
  apply list_elem_of_omap in Hin as (n & _ & Hn). apply fmap_Some in Hn as ([z ss] & Ek & Hn).
  destruct (inv_view _ _ _ (proj1 I) _ _ _ Ek) as [_ Hne]. destruct Hne. apply map_to_list_empty_iff.
  unfold sections_of in Hn. simpl in Hn. by destruct (map_to_list ss).
Qed.

(** [RemoveExpiredValues] drops exactly the assertions whose expiration lies in the
    past, and a key with its last assertion; [RemoveZone] drops exactly the keys filed for
    that zone; both keep the invariant, [Checkpoint] lists exactly the filed assertions,
    and [Len] is their number. *)
Theorem AssertionCache_cleanup c now zone :
  ac_inv c → total (zc_view c) < 2 ^ 63 →
  let e := AssertionImpl_RemoveExpiredValues now c in
  let r := AssertionImpl_RemoveZone c zone in
  ac_inv e ∧ zc_view e = omap (expire_file now) (zc_view c) ∧
  ac_inv r ∧ zc_view r = filter (λ p, p.2.1 ≠ zone) (zc_view c) ∧
  (∀ a, a ∈ AssertionImpl_Checkpoint c ↔
     ∃ k z ss h x, zc_view c !! k = Some (z, ss) ∧ ss !! h = Some (mkExpiring a x)) ∧
  AssertionImpl_Len c = total (zc_view c).
Proof.
  intros I Ht e r. destruct (zc_RemoveExpiredValues_spec assertion_hash true now c I) as (I1 & W1 & _).
  destruct (zc_RemoveZone_spec assertion_hash true c zone I) as (I2 & W2 & _).
  split_and!; [done..| |by eapply zc_Len_spec]. intros a. by eapply zc_Checkpoint_spec.
Qed.
End AssertionCache.

(** ** Names *)

Lemma split_dot_label l s : no_char "."%char l → split_dot (l +:+ String "." s)%string = l :: split_dot s.
Proof.
  induction l as [|c l IH]; simpl; [done|]. intros [Hc Hl]. rewrite (proj2 (Ascii.eqb_neq c ".") Hc).
  by rewrite IH.
Qed.

Lemma split_dot_no_dot l : no_char "."%char l → split_dot l = [l].
Proof.
  induction l as [|c l IH]; simpl; [done|]. intros [Hc Hl]. rewrite (proj2 (Ascii.eqb_neq c ".") Hc). by rewrite IH.
Qed.

Lemma split_dot_join ls : ls ≠ [] → Forall (no_char "."%char) ls → split_dot (str_join "." ls) = ls.
Proof.
  intros Hne H. induction H as [|l ls Hl Hls IH]; [done|]. destruct ls as [|l' ls].
  - by apply split_dot_no_dot.
  - change (str_join "." (l :: l' :: ls)) with (l +:+ String "." (str_join "." (l' :: ls)))%string.
    rewrite split_dot_label by done. by rewrite IH.
Qed.

(** For an absolute name with the given labels the hierarchy is the name itself
    followed by each of its parent names up to the top-level one, the longest first; the
    root is not among them.  The key of an assertion is the key of its fully qualified
    name, so two assertions share a key exactly when name and zone merge to the same
    string, even if the zones differ. *)
Theorem zoneHierarchy_spec ls :
  ls ≠ [] → Forall (no_char "."%char) ls →
  zoneHierarchy (str_join "." (ls ++ [""])) = (λ i, str_join "." (drop i ls ++ [""])) <$> seq 0 (length ls) ∧
  (∀ name zone ctx t, assertionCacheMapKey name zone ctx t = assertionCacheMapKeyFQDN (mergeSubjectZone name zone) ctx t) ∧
  (∀ x y z, z ≠ "."%string → x ≠ ""%string → y ≠ ""%string →
     mergeSubjectZone (x +:+ "." +:+ y) z = mergeSubjectZone x (y +:+ "." +:+ z)).
Proof.
  intros Hne Hl.
  assert (∀ ls, suffix_names (ls ++ [""%string]) = (λ i, str_join "." (drop i ls ++ [""%string])) <$> seq 0 (length ls)) as G.
  { clear. assert (∀ l k, k ≠ [] → suffix_names (l :: k) = str_join "." (l :: k) :: suffix_names k) as Hc by (by intros l [|]).
    intros ls. induction ls as [|l ls IH]; [done|]. cbn [app length seq]. rewrite fmap_cons, Hc, IH by (by destruct ls).
    cbn [drop app]. f_equal. rewrite <-fmap_S_seq, <-list_fmap_compose. done. }
  split_and!.
  - unfold zoneHierarchy. rewrite split_dot_join; [|by destruct ls|apply Forall_app; split; [done|by repeat constructor]].
    rewrite <-G. destruct ls as [|l [|l' ls]]; [done|done|]. simpl. by destruct ls.
  - done.
  - intros x y z Hz Hx Hy. unfold mergeSubjectZone. rewrite (str_eqb_neq z) by done.
    rewrite (str_eqb_neq (x +:+ "." +:+ y)), (str_eqb_neq x), (str_eqb_neq (y +:+ "." +:+ z)); [|by destruct y as [|? []]|by destruct x..].
    by rewrite !str_app_assoc.
Qed.

Lemma zoneHierarchy_spec_witness :
  zoneHierarchy "www.ethz.ch." = ["www.ethz.ch."; "ethz.ch."; "ch."]%string.
Proof.
  apply (proj1 (zoneHierarchy_spec ["www"; "ethz"; "ch"]%string ltac:(discriminate)
    ltac:(repeat constructor; discriminate))).
Defined.

(** Witnesses: a cache of at most two assertions that is given three. *)
Section Witnesses.
Local Instance w_objlib : ObjLib := be_objlib.
Local Instance w_cbor : CborWriter := toy_cbor.

Definition w_assertion (name : string) : Assertion :=
  mkAssertion [] name "ethz.ch." "." [mkObject OTRegistrar (VString "x")] 0 0 false.


(** A cache that holds one assertion. *)
Definition w_cache : AssertionImpl :=
  (zc_insert assertion_hash true (NewAssertion 2) (w_assertion "www") "www.ethz.ch. . 9" "ethz.ch." 100 false false).1.
Lemma w_cache_inv : ac_inv w_cache ∧
  zc_view w_cache = add_section assertion_hash ∅ (w_assertion "www") "www.ethz.ch. . 9" "ethz.ch." 100.
Proof.
  destruct (zc_New_inv (S:=Assertion) assertion_hash true 2) as [I V]. fold (NewAssertion 2) in I, V.
  destruct (zc_insert_spec assertion_hash true (NewAssertion 2) (w_assertion "www") "www.ethz.ch. . 9" "ethz.ch." 100 false false I)
    as (I' & W & _). rewrite V in W. by split.
Qed.

Lemma AssertionCache_Get_witness :
  let r := AssertionImpl_Get w_cache "a.www.ethz.ch." "." OTRegistrar false in
  r.2.1 = [w_assertion "www"] ∧ r.2.2 = true.
Proof.
  destruct w_cache_inv as [I V].
  destruct (AssertionCache_Get w_cache "a.www.ethz.ch." "." OTRegistrar false I) as (_ & _ & E & S').
  rewrite V in E, S'. split; [exact E|apply S'; eexists; reflexivity].
Defined.

Lemma AssertionCache_cleanup_witness :
  zc_view (AssertionImpl_RemoveExpiredValues 50 w_cache) !! "www.ethz.ch. . 9" ≠ None ∧
  zc_view (AssertionImpl_RemoveExpiredValues 101 w_cache) = ∅ ∧
  zc_view (AssertionImpl_RemoveZone w_cache "ethz.ch.") = ∅ ∧ AssertionImpl_Len w_cache = 1.
Proof.
  destruct w_cache_inv as [I V].
  assert (total (zc_view w_cache) < 2 ^ 63) as Ht by (rewrite V; vm_compute; reflexivity).
  destruct (AssertionCache_cleanup w_cache 50 "ethz.ch." I Ht) as (_ & E1 & _ & E2 & _ & L).
  destruct (AssertionCache_cleanup w_cache 101 "ethz.ch." I Ht) as (_ & E3 & _).
  rewrite E1, E2, E3, L, V. split; [vm_compute; discriminate|]. repeat split; vm_compute; reflexivity.
Defined.
End Witnesses.
