(* ===== verification/NegAssertionCache.v ===== *)
(** * The negative assertion cache

    Models attic/internal/pkg/cache/negAssertionCache.go on top of [ZoneCache]: shards,
    pshards and zones are filed under the key of their zone and context and looked up by
    an interval of names. *)

From S2P Require Import Prelude Cbor Keys Object Query BitArray BloomFilter Section Containers LruCache ZoneCache ZoneCacheFacts.
Local Open Scope Z_scope.

(** [section.WithSigForward], as far as this cache stores it. *)
Inductive NegSection := NShard (s : Shard) | NPshard (s : Pshard) | NZone (z : Zone).

Definition Neg_GetSubjectZone (s : NegSection) : string :=
  match s with NShard s => Shard_GetSubjectZone s | NPshard s => Pshard_GetSubjectZone s | NZone z => Zone_GetSubjectZone z end.
Definition Neg_GetContext (s : NegSection) : string :=
  match s with NShard s => Shard_GetContext s | NPshard s => Pshard_GetContext s | NZone z => Zone_GetContext z end.
#[export] Instance Neg_Interval : Interval NegSection := {|
  Begin s := match s with NShard s => Begin s | NPshard s => Begin s | NZone z => Begin z end;
  End s := match s with NShard s => End s | NPshard s => End s | NZone z => End z end
|}.

(** zoneKeyCache.go *)
Definition zoneCtxKey (zone context : string) : string := (zone +:+ " " +:+ context)%string.

Abbreviation NegAssertionImpl := (ZoneCache (S:=NegSection)) (only parsing).

Section NegAssertionCache.
Context {OL : ObjLib} {CW : CborWriter}.

Definition Neg_Hash (s : NegSection) : outcome string :=
  match s with NShard s => Shard_Hash s | NPshard s => Pshard_Hash s | NZone z => Zone_Hash z end.
Definition neg_hash (s : NegSection) : string := match Neg_Hash s with Ok h => h | _ => ""%string end.

Definition NewNegAssertion (maxSize : Z) : NegAssertionImpl := zc_New maxSize.

Fixpoint neg_add (fuel : nat) (c : NegAssertionImpl) (s : NegSection) (expiration : Z) (isInternal : bool)
    : option (outcome (NegAssertionImpl * bool)) :=
  match fuel with
  | O => None
  | S fuel' =>
      match Neg_Hash s with
      | Panic msg => Some (Panic msg)
      | _ =>
          let key := zoneCtxKey (Neg_GetSubjectZone s) (Neg_GetContext s) in
          match zc_insert neg_hash false c s key (Neg_GetSubjectZone s) expiration isInternal false with
          | (c', None) => neg_add fuel' c' s expiration isInternal
          | (c', Some isFull) =>
              match zc_evict neg_hash false (S (size (lruMap (zcCache c')))) c' with
              | Some c'' => Some (Ok (c'', negb isFull))
              | None => None
              end
          end
      end
  end.

Definition AddShard (fuel : nat) (c : NegAssertionImpl) (shard : Shard) (expiration : Z) (isInternal : bool) :=
  neg_add fuel c (NShard shard) expiration isInternal.
Definition AddPshard (fuel : nat) (c : NegAssertionImpl) (pshard : Pshard) (expiration : Z) (isInternal : bool) :=
  neg_add fuel c (NPshard pshard) expiration isInternal.
Definition AddZone (fuel : nat) (c : NegAssertionImpl) (zone : Zone) (expiration : Z) (isInternal : bool) :=
  neg_add fuel c (NZone zone) expiration isInternal.

Definition NegAssertionImpl_Get {I} `{!Interval I} (c : NegAssertionImpl) (zone context : string) (interval : I)
    : NegAssertionImpl * (list NegSection * bool) :=
  let '(c', r) := zc_Get c (zoneCtxKey zone context) in
  (c', match r with
       | None => ([], false)
       | Some sections =>
           let secs := filter (λ sec, Intersect sec interval = true) sections in
           (secs, bool_decide (secs ≠ []))
       end).

Definition NegAssertionImpl_RemoveExpiredValues (now : Z) (c : NegAssertionImpl) : NegAssertionImpl :=
  zc_RemoveExpiredValues neg_hash false now c.
Definition NegAssertionImpl_RemoveZone (c : NegAssertionImpl) (zone : string) : NegAssertionImpl :=
  zc_RemoveZone neg_hash false c zone.
Definition NegAssertionImpl_Checkpoint (c : NegAssertionImpl) : list NegSection := zc_Checkpoint c.
Definition NegAssertionImpl_Len (c : NegAssertionImpl) : Z := zc_Len c.

Definition nc_inv (c : NegAssertionImpl) : Prop := zc_inv neg_hash false c.

(** After [AddShard], [AddPshard] or [AddZone] a section that still fits is found by
    [Get] with its zone and context and any interval it intersects; [Get] returns only
    sections filed under that zone and context that intersect the interval.  Adding
    terminates, keeps the invariant, never drops an internal entry, and drops others only
    when the counter reached the maximum. *)
Theorem NegAssertionCache_Add_Get {I} `{!Interval I} c s expiration isInternal h fuel (interval : I) :
  nc_inv c → Neg_Hash s = Ok h →
  let key := zoneCtxKey (Neg_GetSubjectZone s) (Neg_GetContext s) in
  let v := add_section neg_hash (zc_view c) s key (Neg_GetSubjectZone s) expiration in
  ∃ c' ok, neg_add (S fuel) c s expiration isInternal = Some (Ok (c', ok)) ∧ nc_inv c' ∧
    (Counter_IsFull (zcCounter c') = false ∨ ∀ k, ¬ lru_evictable (zcCache c') k) ∧
    (∀ k, zc_view c' !! k = v !! k ∨ (zc_view c' !! k = None ∧ ¬ lru_internal (zcCache c) k)) ∧
    (int64_wrap (total v) < maxCount (zcCounter c) → zc_view c' = v) ∧
    (∀ zone ctx t, t ∈ (NegAssertionImpl_Get c' zone ctx interval).2.1 ↔
       Intersect t interval = true ∧
       ∃ z ss h x, zc_view c' !! zoneCtxKey zone ctx = Some (z, ss) ∧ ss !! h = Some (mkExpiring t x)).
Proof.
  intros I' Hh key v. cbn [neg_add]. rewrite Hh. fold key.
  destruct (zc_insert_spec neg_hash false c s key (Neg_GetSubjectZone s) expiration isInternal false I') as (I1 & W & Er & Hm).
  pose proof (zc_insert_internal neg_hash false c s key (Neg_GetSubjectZone s) expiration isInternal false) as Hi.
  destruct (zc_insert _ _ _ _ _ _ _ _ _) as [c1 r]. cbn [fst snd] in *. subst r.
  destruct (zc_evict_spec neg_hash false c1 (S (size (lruMap (zcCache c1)))) I1) as (c2 & -> & I2 & Hstop & Hv & Hid & Hm').
  { unfold lru_vals. rewrite map_size_fmap. lia. }
  change (zc_view c1 = v) in W. do 2 eexists. split_and!; [done..| | |].
  - intros k. rewrite <-W. destruct (Hv k) as [?|[? He]]; [by left|right]. split; [done|].
    intros Hk%Hi%lru_internal_kept. done.
  - intros Hlt. rewrite Hid; [done|]. unfold Counter_IsFull. pose proof (inv_counter _ _ _ (proj1 I1)) as C.
    unfold counter_ok in C. rewrite C, W, Hm. lia.
  - intros zone ctx t. unfold NegAssertionImpl_Get.
    destruct (zc_Get_spec neg_hash false c2 (zoneCtxKey zone ctx) I2) as (_ & _ & Eg).
    destruct (zc_Get c2 _) as [c3 g]. cbn [fst snd] in *. subst g.
    destruct (zc_view c2 !! zoneCtxKey zone ctx) as [[z ss]|] eqn:Ev; simpl;
      [|split; [by intros ?%elem_of_nil|by intros (_ & ? & ? & ? & ? & [=] & _)]].
    rewrite list_elem_of_filter. apply and_iff_compat_l. unfold sections_of. rewrite list_elem_of_fmap. split.
    + intros ([t' x] & -> & ([h' e] & Ee & He)%list_elem_of_fmap). simpl in Ee. subst e.
      apply elem_of_map_to_list in He. eauto 10.
    + intros (z' & ss' & h' & x & [= -> ->] & He%elem_of_map_to_list). exists (mkExpiring t x). split; [done|].
      apply list_elem_of_fmap. by exists (h', mkExpiring t x).
Qed.

(** As in the assertion cache, [RemoveExpiredValues] drops exactly the expired
    sections, [RemoveZone] exactly the keys filed for the zone, [Checkpoint] lists the
    filed sections and [Len] counts them; all keep the invariant. *)
Theorem NegAssertionCache_cleanup c now zone :
  nc_inv c → total (zc_view c) < 2 ^ 63 →
  let e := NegAssertionImpl_RemoveExpiredValues now c in
  let r := NegAssertionImpl_RemoveZone c zone in
  nc_inv e ∧ zc_view e = omap (expire_file now) (zc_view c) ∧
  nc_inv r ∧ zc_view r = filter (λ p, p.2.1 ≠ zone) (zc_view c) ∧
  (∀ s, s ∈ NegAssertionImpl_Checkpoint c ↔
     ∃ k z ss h x, zc_view c !! k = Some (z, ss) ∧ ss !! h = Some (mkExpiring s x)) ∧
  NegAssertionImpl_Len c = total (zc_view c).
Proof.
  intros I Ht e r. destruct (zc_RemoveExpiredValues_spec neg_hash false now c I) as (I1 & W1 & _).
  destruct (zc_RemoveZone_spec neg_hash false c zone I) as (I2 & W2 & _).
  split_and!; [done..| |by eapply zc_Len_spec]. intros s. by eapply zc_Checkpoint_spec.
Qed.
End NegAssertionCache.

Section Witnesses.
Local Instance wn_objlib : ObjLib := be_objlib.
Local Instance wn_cbor : CborWriter := toy_cbor.

Definition w_shard : Shard := mkShard [] "ethz.ch." "." "a" "m" [] 0 0 false.
Definition w_neg : NegAssertionImpl :=
  (zc_insert neg_hash false (NewNegAssertion 3) (NShard w_shard) "ethz.ch. ." "ethz.ch." 100 false false).1.
Lemma w_neg_inv : nc_inv w_neg ∧ zc_view w_neg = add_section neg_hash ∅ (NShard w_shard) "ethz.ch. ." "ethz.ch." 100.
Proof.
  destruct (zc_New_inv (S:=NegSection) neg_hash false 3) as [I V]. fold (NewNegAssertion 3) in I, V.
  destruct (zc_insert_spec neg_hash false (NewNegAssertion 3) (NShard w_shard) "ethz.ch. ." "ethz.ch." 100 false false I)
    as (I' & W & _). rewrite V in W. by split.
Qed.

Lemma NegAssertionCache_Add_Get_witness :
  ∃ c' ok, neg_add 1 (NewNegAssertion 3) (NShard w_shard) 100 false = Some (Ok (c', ok)) ∧
    NShard w_shard ∈ (NegAssertionImpl_Get c' "ethz.ch." "." (mkStringInterval "c")).2.1.
Proof.
  destruct (zc_New_inv (S:=NegSection) neg_hash false 3) as [I V]. fold (NewNegAssertion 3) in I, V.
  destruct (NegAssertionCache_Add_Get (NewNegAssertion 3) (NShard w_shard) 100 false _ 0 (mkStringInterval "c") I eq_refl)
    as (c' & ok & E & _ & _ & _ & Hv & Hg).
  exists c', ok. split; [exact E|]. apply Hg. split; [reflexivity|].
  rewrite Hv by (rewrite V; vm_compute; reflexivity). rewrite V. exists "ethz.ch."%string. eexists. exists (neg_hash (NShard w_shard)), 100.
  split; vm_compute; reflexivity.
Defined.

Lemma NegAssertionCache_cleanup_witness :
  zc_view (NegAssertionImpl_RemoveExpiredValues 101 w_neg) = ∅ ∧ NegAssertionImpl_Len w_neg = 1 ∧
  zc_view (NegAssertionImpl_RemoveZone w_neg "ch.") = zc_view w_neg.
Proof.
  destruct w_neg_inv as [I V].
  assert (total (zc_view w_neg) < 2 ^ 63) as Ht by (rewrite V; vm_compute; reflexivity).
  destruct (NegAssertionCache_cleanup w_neg 101 "ch." I Ht) as (_ & E1 & _ & E2 & _ & L).
  rewrite E1, E2, L, V. repeat split; vm_compute; reflexivity.
Defined.
End Witnesses.
