(* ===== verification/ZoneKeyCache.v ===== *)
(** * The zone key cache

    Models attic/internal/pkg/cache/zoneKeyCache.go: public keys of zones, filed under zone,
    context, signature algorithm and key phase, with a counter of all keys and a count of
    keys per zone and context. *)

From S2P Require Import Prelude Cbor Keys Object Section Containers LruCache Pointers.
Local Open Scope Z_scope.

Record publicKeyAssertion := mkPka { pkaKey : PublicKey; pkaAssertion : Assertion }.

Record zoneKeyCacheValue := mkZoneKeyValue {
  zkKeys : Map publicKeyAssertion;
  zkZone : string;
  zkContext : string;
  zkAlgorithm : SigAlgo;
  zkPhase : Z;
  zkDeleted : bool
}.

Definition zone_key (zone context : string) (alg phase : Z) : string :=
  (zone +:+ "," +:+ context +:+ "," +:+ dec alg +:+ "," +:+ dec phase)%string.
Definition getCacheKey (v : zoneKeyCacheValue) : string := zone_key (zkZone v) (zkContext v) (zkAlgorithm v) (zkPhase v).
Definition getContextZone (v : zoneKeyCacheValue) : string := (zkZone v +:+ "," +:+ zkContext v)%string.

Record ZoneKeyImpl := mkZoneKeyImpl {
  zkCache : Cache nat;
  zkHeap : gmap nat zoneKeyCacheValue;
  zkNext : nat;
  zkCounter : Counter;
  warnSize : Z;
  maxPublicKeysPerZone : Z;
  keysPerContextZone : gmap string Z
}.

Definition NewZoneKey (maxSize warnSize maxKeysPerZone : Z) : ZoneKeyImpl :=
  mkZoneKeyImpl lru_New ∅ 0 (Counter_New maxSize) warnSize maxKeysPerZone ∅.

Definition dead_keys : zoneKeyCacheValue := mkZoneKeyValue Map_New "" "" 0 0 true.
Definition zk_deref (heap : gmap nat zoneKeyCacheValue) (l : nat) : zoneKeyCacheValue := load dead_keys heap l.
Definition zk_set_keys (v : zoneKeyCacheValue) (m : Map publicKeyAssertion) (deleted : bool) : zoneKeyCacheValue :=
  mkZoneKeyValue m (zkZone v) (zkContext v) (zkAlgorithm v) (zkPhase v) deleted.

(** [m[k]++] and [m[k]--] *)
Definition zone_count_add (m : gmap string Z) (k : string) (d : Z) : gmap string Z := <[k := default 0 (m !! k) + d]> m.

(** [if _, ok := val.publicKeys.Remove(key); ok { c.counter.Dec(); c.keysPerContextZone[...]-- }] *)
Abbreviation key_books := (Map publicKeyAssertion * Counter * gmap string Z)%type (only parsing).
Definition zk_remove (cz : string) (st : key_books) (key : string) : key_books :=
  let '(m, counter, kpz) := st in
  let '(m', (_, ok)) := Map_Remove m key in
  if ok : bool then (m', Counter_Dec counter, zone_count_add kpz cz (-1)) else (m', counter, kpz).

(** The part of [Add] after the counter reported the cache full: [None] when the fuel runs
    out.  With no evictable entry the type assertion on the nil value panics. *)
Fixpoint zk_evict (fuel : nat) (c : ZoneKeyImpl) : option (outcome ZoneKeyImpl) :=
  match fuel with
  | O => None
  | S fuel' =>
      if negb (Counter_IsFull (zkCounter c)) then Some (Ok c)
      else match lru_GetLeastRecentlyUsed (zkCache c) with
           | (_, None) => Some (Panic "interface conversion: interface is nil")
           | (_, Some l) =>
               let val := zk_deref (zkHeap c) l in
               if zkDeleted val then zk_evict fuel' c
               else
                 let '(m, counter, kpz) := foldl (zk_remove (getContextZone val))
                   (zkKeys val, zkCounter c, keysPerContextZone c) (Map_GetAllKeys (zkKeys val)) in
                 Some (Ok (mkZoneKeyImpl (lru_Remove (zkCache c) (getCacheKey val)).1
                   (<[l := zk_set_keys val m true]> (zkHeap c)) (zkNext c) counter (warnSize c)
                   (maxPublicKeysPerZone c) kpz))
           end
  end.

(** The too-many-keys case only logs. *)
Fixpoint ZoneKeyImpl_Add (fuel : nat) (c : ZoneKeyImpl) (assertion : Assertion) (publicKey : PublicKey) (internal : bool)
    : option (outcome (ZoneKeyImpl * bool)) :=
  match fuel with
  | O => None
  | S fuel' =>
      let subjectName := if aSubjectName assertion =ₛ "@" then aSubjectZone assertion else Assertion_FQDN assertion in
      let cacheValue := mkZoneKeyValue Map_New subjectName (aContext assertion) (Algorithm (pkID publicKey))
        (KeyPhase (pkID publicKey)) false in
      let heap := <[zkNext c := cacheValue]> (zkHeap c) in
      let '(cache, (l, _)) := lru_GetOrAdd (zkCache c) (getCacheKey cacheValue) (zkNext c) internal in
      let v := zk_deref heap l in
      if zkDeleted v
      then ZoneKeyImpl_Add fuel' (mkZoneKeyImpl cache heap (S (zkNext c)) (zkCounter c) (warnSize c)
             (maxPublicKeysPerZone c) (keysPerContextZone c)) assertion publicKey internal
      else
        let '(m, (_, ok)) := Map_GetOrAdd (zkKeys v) (PublicKey_Hash publicKey) (mkPka publicKey assertion) in
        let heap := <[l := zk_set_keys v m false]> heap in
        if ok : bool
        then
          let kpz := zone_count_add (keysPerContextZone c) (getContextZone v) 1 in
          let '(counter, full) := Counter_Inc (zkCounter c) in
          let c' := mkZoneKeyImpl cache heap (S (zkNext c)) counter (warnSize c) (maxPublicKeysPerZone c) kpz in
          if full : bool
          then match zk_evict (S fuel') c' with
               | Some (Ok c'') => Some (Ok (c'', false))
               | Some (Err msg) => Some (Err msg)
               | Some (Panic msg) => Some (Panic msg)
               | None => None
               end
          else Some (Ok (c', Counter_Value counter <? warnSize c))
        else
          let c' := mkZoneKeyImpl cache heap (S (zkNext c)) (zkCounter c) (warnSize c) (maxPublicKeysPerZone c)
            (keysPerContextZone c) in
          Some (Ok (c', Counter_Value (zkCounter c) <? warnSize c))
  end.

(** [now] is [time.Now().Unix()]. *)
Definition key_usable (now : Z) (sigMetaData : MetaData) (key : PublicKey) : bool :=
  (now <? pkValidUntil key) &&
  ((pkValidSince key <=? mdValidUntil sigMetaData) && (mdValidSince sigMetaData <=? pkValidUntil key)).

Fixpoint first_usable (now : Z) (sigMetaData : MetaData) (values : list publicKeyAssertion) : option publicKeyAssertion :=
  match values with
  | [] => None
  | v :: values' => if key_usable now sigMetaData (pkaKey v) then Some v else first_usable now sigMetaData values'
  end.

Definition ZoneKeyImpl_Get (now : Z) (c : ZoneKeyImpl) (zone context : string) (sigMetaData : MetaData)
    : ZoneKeyImpl * option publicKeyAssertion :=
  let id := mdPublicKeyID sigMetaData in
  let '(cache, e) := lru_Get (zkCache c) (zone_key zone context (Algorithm id) (KeyPhase id)) in
  (mkZoneKeyImpl cache (zkHeap c) (zkNext c) (zkCounter c) (warnSize c) (maxPublicKeysPerZone c) (keysPerContextZone c),
   l ← e; first_usable now sigMetaData (Map_GetAll (zkKeys (zk_deref (zkHeap c) l)))).

Definition zk_expired (now : Z) (k : publicKeyAssertion) : bool := pkValidUntil (pkaKey k) <? now.
Definition zk_expire (now : Z) (cz : string) (st : key_books) (key : string) : key_books :=
  match Map_Get st.1.1 key with
  | Some k => if zk_expired now k then zk_remove cz st key else st
  | None => st
  end.

Definition zk_expire_value (now : Z) (c : ZoneKeyImpl) (l : nat) : ZoneKeyImpl :=
  let val := zk_deref (zkHeap c) l in
  let '(m, counter, kpz) := foldl (zk_expire now (getContextZone val))
    (zkKeys val, zkCounter c, keysPerContextZone c) (Map_GetAllKeys (zkKeys val)) in
  if negb (zkDeleted val) && (Map_Len m =? 0)
  then mkZoneKeyImpl (lru_Remove (zkCache c) (getCacheKey val)).1 (<[l := zk_set_keys val m true]> (zkHeap c)) (zkNext c)
         counter (warnSize c) (maxPublicKeysPerZone c) kpz
  else mkZoneKeyImpl (zkCache c) (<[l := zk_set_keys val m (zkDeleted val)]> (zkHeap c)) (zkNext c)
         counter (warnSize c) (maxPublicKeysPerZone c) kpz.

Definition ZoneKeyImpl_RemoveExpiredKeys (now : Z) (c : ZoneKeyImpl) : ZoneKeyImpl :=
  foldl (zk_expire_value now) c (lru_GetAll (zkCache c)).

Definition ZoneKeyImpl_Checkpoint (c : ZoneKeyImpl) : list Assertion :=
  l ← lru_GetAll (zkCache c); pkaAssertion <$> Map_GetAll (zkKeys (zk_deref (zkHeap c) l)).
Definition ZoneKeyImpl_Len (c : ZoneKeyImpl) : Z := Counter_Value (zkCounter c).

(** ** The invariant *)

Abbreviation kfile := (string * gmap string publicKeyAssertion)%type (only parsing).
Abbreviation kview := (gmap string (string * gmap string publicKeyAssertion)) (only parsing).

Definition zk_file (v : zoneKeyCacheValue) : kfile := (getContextZone v, hashMap (zkKeys v)).
Definition zk_live (k : string) (v : zoneKeyCacheValue) : Prop := zkDeleted v = false ∧ getCacheKey v = k.
Definition zk_view (c : ZoneKeyImpl) : kview := view_of dead_keys zk_file (zkHeap c) (zkCache c).

Definition key_total (v : kview) : Z := map_sum (λ p, Z.of_nat (size p.2)) v.
(** The keys filed for a zone and context. *)
Definition zone_total (cz : string) (v : kview) : Z := map_sum (λ p, if decide (p.1 = cz) then Z.of_nat (size p.2) else 0) v.

(** [books_ok v counter kpz]: the counters agree with the keys filed. *)
Definition books_ok (v : kview) (counter : Counter) (kpz : gmap string Z) : Prop :=
  count counter = int64_wrap (key_total v) ∧ ∀ cz, default 0 (kpz !! cz) = zone_total cz v.

Record zk_inv (c : ZoneKeyImpl) : Prop := {
  zki_pointers : pointers_ok zk_live (zkHeap c) (zkCache c) (zkNext c);
  zki_nonempty k p : zk_view c !! k = Some p → p.2 ≠ ∅;
  zki_books : books_ok (zk_view c) (zkCounter c) (keysPerContextZone c)
}.

(** ** Books *)

Lemma zone_count_add_lookup m k d k' :
  default 0 (zone_count_add m k d !! k') = default 0 (m !! k') + (if decide (k = k') then d else 0).
Proof.
  unfold zone_count_add. destruct (decide (k = k')) as [<-|]; [by rewrite lookup_insert_eq|].
  rewrite lookup_insert_ne by done. lia.
Qed.

Lemma key_total_update (v : kview) k cz m m' :
  v !! k = Some (cz, m) → key_total (<[k := (cz, m')]> v) = key_total v - Z.of_nat (size m) + Z.of_nat (size m').
Proof. intros E. unfold key_total. by rewrite (map_sum_update _ _ _ (cz, m)). Qed.
Lemma zone_total_update (v : kview) k cz m m' cz' :
  v !! k = Some (cz, m) → zone_total cz' (<[k := (cz, m')]> v) =
    zone_total cz' v + (if decide (cz = cz') then Z.of_nat (size m') - Z.of_nat (size m) else 0).
Proof. intros E. unfold zone_total. rewrite (map_sum_update _ _ _ (cz, m)) by done. simpl. case_decide; lia. Qed.
Lemma key_total_delete (v : kview) k cz m : v !! k = Some (cz, m) → key_total (delete k v) = key_total v - Z.of_nat (size m).
Proof. intros E. unfold key_total. by rewrite (map_sum_delete _ _ _ (cz, m)). Qed.
Lemma zone_total_delete (v : kview) k cz m cz' :
  v !! k = Some (cz, m) → zone_total cz' (delete k v) = zone_total cz' v - (if decide (cz = cz') then Z.of_nat (size m) else 0).
Proof. intros E. unfold zone_total. by rewrite (map_sum_delete _ _ _ (cz, m)). Qed.
Lemma key_total_insert (v : kview) k cz m : v !! k = None → key_total (<[k := (cz, m)]> v) = key_total v + Z.of_nat (size m).
Proof. intros E. unfold key_total. rewrite map_sum_insert by done. simpl. lia. Qed.
Lemma zone_total_insert (v : kview) k cz m cz' :
  v !! k = None → zone_total cz' (<[k := (cz, m)]> v) = zone_total cz' v + (if decide (cz = cz') then Z.of_nat (size m) else 0).
Proof. intros E. unfold zone_total. rewrite map_sum_insert by done. simpl. lia. Qed.

(** Keys have been taken out of an entry: [removed m st st'] relates the books before and
    after to the keys that are left. *)
Definition removed (cz : string) (st st' : key_books) (left' : gmap string publicKeyAssertion) : Prop :=
  hashMap st'.1.1 = left' ∧ (size left' ≤ size (hashMap st.1.1))%nat ∧
  count st'.1.2 = int64_wrap (count st.1.2 - Z.of_nat (size (hashMap st.1.1) - size left')) ∧
  maxCount st'.1.2 = maxCount st.1.2 ∧
  ∀ cz', default 0 (st'.2 !! cz') = default 0 (st.2 !! cz') -
    (if decide (cz = cz') then Z.of_nat (size (hashMap st.1.1) - size left') else 0).

Lemma zk_remove_spec cz st key :
  in_int64 (count st.1.2) → removed cz st (zk_remove cz st key) (delete key (hashMap st.1.1)).
Proof.
  destruct st as [[m counter] kpz]. unfold zk_remove, removed. intros Hr. pose proof (Map_Remove_present m key) as Hp.
  simpl in *. rewrite Hp. destruct (hashMap m !! key) as [x|] eqn:E.
  - rewrite bool_decide_true by eauto. simpl. rewrite map_size_delete_Some by eauto.
    assert (size (hashMap m) ≠ 0)%nat as Hn by (intros H0%map_size_empty_iff; rewrite H0 in E; by rewrite lookup_empty in E).
    split_and!; [done|lia|f_equal; lia|done|]. intros cz'. rewrite zone_count_add_lookup. repeat case_decide; try congruence; lia.
  - rewrite bool_decide_false by (by intros [? ?]). simpl. rewrite map_size_delete_None by done. rewrite Nat.sub_diag.
    split_and!; [done|lia|by rewrite Z.sub_0_r, int64_wrap_id|done|]. intros cz'. destruct (decide (cz = cz')); simpl; lia.
Qed.

Lemma removed_trans cz st1 st2 st3 m2 m3 :
  removed cz st1 st2 m2 → removed cz st2 st3 m3 → removed cz st1 st3 m3.
Proof.
  intros (E1 & L1 & C1 & M1 & K1) (E2 & L2 & C2 & M2 & K2). rewrite E1 in *. split_and!; [done|lia| |congruence|].
  - rewrite C2, C1. unfold Z.sub at 1. rewrite int64_wrap_add_l. f_equal. lia.
  - intros cz'. rewrite K2, K1. case_decide; lia.
Qed.

Lemma removed_refl cz st : in_int64 (count st.1.2) → removed cz st st (hashMap st.1.1).
Proof.
  intros H. unfold removed. rewrite Nat.sub_diag, Z.sub_0_r, int64_wrap_id by done.
  split_and!; [done..|]. intros cz'. case_decide; lia.
Qed.

(** A loop that removes, among the listed keys, those whose value satisfies [p]. *)
Lemma removal_loop cz (p : publicKeyAssertion → bool) (step : key_books → string → key_books) :
  (∀ st key, step st key = match Map_Get st.1.1 key with
                           | Some k => if p k then zk_remove cz st key else st
                           | None => st
                           end) →
  ∀ ks st, in_int64 (count st.1.2) →
    removed cz st (foldl step st ks) (filter (λ q, ¬ (q.1 ∈ ks ∧ p q.2 = true)) (hashMap st.1.1)).
Proof.
  intros Hstep ks. induction ks as [|k ks IH]; intros st Hr; simpl.
  { rewrite map_filter_id; [by apply removed_refl|]. intros k x _ [H _]. by apply elem_of_nil in H. }
  rewrite Hstep. unfold Map_Get.
  assert (∀ st', removed cz st st' (hashMap st'.1.1) → in_int64 (count st'.1.2)) as Hr'.
  { intros st' (_ & _ & -> & _). apply int64_wrap_range. }
  destruct (hashMap st.1.1 !! k) as [x|] eqn:E; [destruct (p x) eqn:Px|].
  - pose proof (zk_remove_spec cz st k Hr) as R. pose proof R as (Em & _).
    rewrite <-Em in R at 1. specialize (IH _ (Hr' _ R)). pose proof (removed_trans _ _ _ _ _ _ R IH) as T.
    rewrite Em in T. replace (filter (λ q, ¬ (q.1 ∈ k :: ks ∧ p q.2 = true)) (hashMap st.1.1))
      with (filter (λ q, ¬ (q.1 ∈ ks ∧ p q.2 = true)) (delete k (hashMap st.1.1))); [done|].
    apply map_eq. intros k'. apply option_eq. intros y. rewrite !map_lookup_filter_Some, lookup_delete_Some. simpl.
    rewrite elem_of_cons. destruct (decide (k = k')) as [<-|]; [|naive_solver].
    split; [naive_solver|]. intros [E' H]. rewrite E in E'. simplify_eq. destruct H. by auto.
  - replace (filter (λ q, ¬ (q.1 ∈ k :: ks ∧ p q.2 = true)) (hashMap st.1.1))
      with (filter (λ q, ¬ (q.1 ∈ ks ∧ p q.2 = true)) (hashMap st.1.1)); [by apply IH|].
    apply map_eq. intros k'. apply option_eq. intros y. rewrite !map_lookup_filter_Some. simpl. rewrite elem_of_cons.
    split; intros [H1 H2]; (split; [done|]); [|naive_solver]. intros [[->|?] ?]; [congruence|naive_solver].
  - replace (filter (λ q, ¬ (q.1 ∈ k :: ks ∧ p q.2 = true)) (hashMap st.1.1))
      with (filter (λ q, ¬ (q.1 ∈ ks ∧ p q.2 = true)) (hashMap st.1.1)); [by apply IH|].
    apply map_eq. intros k'. apply option_eq. intros y. rewrite !map_lookup_filter_Some. simpl. rewrite elem_of_cons.
    split; intros [H1 H2]; (split; [done|]); [|naive_solver]. intros [[->|?] ?]; [congruence|naive_solver].
Qed.

Lemma removal_all cz (p : publicKeyAssertion → bool) step m counter kpz :
  (∀ st key, step st key = match Map_Get st.1.1 key with
                           | Some k => if p k then zk_remove cz st key else st
                           | None => st
                           end) →
  in_int64 (count counter) →
  removed cz (m, counter, kpz) (foldl step (m, counter, kpz) (Map_GetAllKeys m)) (filter (λ q, p q.2 = false) (hashMap m)).
Proof.
  intros Hs Hr. pose proof (removal_loop cz p step Hs (Map_GetAllKeys m) (m, counter, kpz) Hr) as R. simpl in R.
  replace (filter (λ q, p q.2 = false) (hashMap m))
    with (filter (λ q, ¬ (q.1 ∈ Map_GetAllKeys m ∧ p q.2 = true)) (hashMap m)); [done|].
  apply map_eq. intros k. apply option_eq. intros y. rewrite !map_lookup_filter_Some. simpl. rewrite Map_GetAllKeys_spec.
  split; intros [H1 H2]; (split; [done|]); [destruct (p y); [destruct H2; eauto|done]|rewrite H2; by intros [_ ?]].
Qed.

Lemma zk_remove_absent cz st key :
  zk_remove cz st key = match Map_Get st.1.1 key with Some _ => zk_remove cz st key | None => st end.
Proof.
  destruct st as [[[m] counter] kpz]. unfold Map_Get. simpl. destruct (m !! key) eqn:E; [done|].
  rewrite delete_id, bool_decide_false by (done || lia). done.
Qed.

Lemma zk_books_range c : zk_inv c → in_int64 (count (zkCounter c)).
Proof. intros I. rewrite (proj1 (zki_books _ I)). apply int64_wrap_range. Qed.

(** The books after the keys of one entry were reduced to [left']. *)
Lemma books_reduce c k cz m st left' v' :
  zk_inv c → zk_view c !! k = Some (cz, m) →
  removed cz (mkMap m, zkCounter c, keysPerContextZone c) st left' →
  v' = (if decide (left' = ∅) then delete k (zk_view c) else <[k := (cz, left')]> (zk_view c)) →
  books_ok v' st.1.2 st.2.
Proof.
  intros I Ev (_ & Hle & Hc & _ & Hk) ->. destruct (zki_books _ I) as [B1 B2]. simpl in *. destruct (decide (left' = ∅)) as [->|Hne].
  - rewrite map_size_empty in *. split.
    + rewrite Hc, B1, (key_total_delete _ _ _ _ Ev). unfold Z.sub. rewrite int64_wrap_add_l. f_equal. lia.
    + intros cz'. rewrite Hk, B2, (zone_total_delete _ _ _ _ _ Ev). destruct (decide (cz = cz')); lia.
  - split.
    + rewrite Hc, B1, (key_total_update _ _ _ _ _ Ev). unfold Z.sub. rewrite int64_wrap_add_l. f_equal. lia.
    + intros cz'. rewrite Hk, B2, (zone_total_update _ _ _ _ _ _ Ev). destruct (decide (cz = cz')); lia.
Qed.

Lemma zk_entry c k l :
  zk_inv c → lru_vals (zkCache c) !! k = Some l →
  let val := zk_deref (zkHeap c) l in
  zkDeleted val = false ∧ getCacheKey val = k ∧ zk_view c !! k = Some (getContextZone val, hashMap (zkKeys val)).
Proof.
  intros I El val. destruct (load_live dead_keys zk_live _ _ _ _ _ (zki_pointers _ I) El) as [[Hd Hk] _].
  split_and!; [done..|]. exact (view_lookup dead_keys zk_file _ _ _ _ El).
Qed.

Lemma zk_evict_spec c fuel :
  zk_inv c → Counter_IsFull (zkCounter c) = true →
  (∃ k c', zk_evict (S fuel) c = Some (Ok c') ∧ zk_inv c' ∧ lru_evictable (zkCache c) k ∧
     zk_view c' = delete k (zk_view c) ∧ is_Some (zk_view c !! k)) ∨
  ((∀ k, ¬ lru_evictable (zkCache c) k) ∧ ∃ msg, zk_evict (S fuel) c = Some (Panic msg)).
Proof.
  intros I Hf. cbn [zk_evict]. rewrite Hf. simpl.
  pose proof (po_lru _ _ _ _ (zki_pointers _ I)) as Wf.
  destruct (lru_GetLeastRecentlyUsed (zkCache c)) as [k [l|]] eqn:El; [|right; split; [by eapply lru_least_None|by eexists]].
  left. destruct (lru_least_Some _ _ _ Wf El) as [Ek Hev]. destruct (zk_entry c k l I Ek) as (Hd & Hk & Ev).
  set (val := zk_deref (zkHeap c) l) in *. rewrite Hd, Hk.
  pose proof (removal_all (getContextZone val) (λ _, true) (zk_remove (getContextZone val)) (zkKeys val) (zkCounter c)
    (keysPerContextZone c) (zk_remove_absent _) (zk_books_range _ I)) as R.
  assert (∀ m : gmap string publicKeyAssertion, filter (λ q, (λ _ : publicKeyAssertion, true) q.2 = false) m = ∅) as Hem.
  { intros m. apply map_empty. intros k'. apply eq_None_not_Some. by intros [x [_ Hx]%map_lookup_filter_Some]. }
  rewrite Hem in R. destruct (foldl _ _ _) as [[m counter] kpz]. exists k. eexists. split; [done|].
  pose proof (view_remove dead_keys zk_live zk_file _ _ _ _ _ (zk_set_keys val m true) (zki_pointers _ I) Ek) as W.
  split_and!; [|done|exact W|by eexists].
  split; unfold zk_view; simpl; rewrite ?W.
  - by eapply (pointers_remove dead_keys zk_live); [apply I|].
  - intros k' p [_ Hp]%lookup_delete_Some. by eapply zki_nonempty.
  - eapply (books_reduce c k _ _ (m, counter, kpz) ∅); [done|done| |by rewrite decide_True].
    by destruct (zkKeys val).
Qed.

(** ** Adding a key *)

Definition zk_name (a : Assertion) : string := if aSubjectName a =ₛ "@" then aSubjectZone a else Assertion_FQDN a.
Definition zk_key (a : Assertion) (pk : PublicKey) : string :=
  zone_key (zk_name a) (aContext a) (Algorithm (pkID pk)) (KeyPhase (pkID pk)).
Definition zk_known (v : kview) (a : Assertion) (pk : PublicKey) : Prop :=
  ∃ p, v !! zk_key a pk = Some p ∧ is_Some (p.2 !! PublicKey_Hash pk).
Definition zk_add (v : kview) (a : Assertion) (pk : PublicKey) : kview :=
  match v !! zk_key a pk with
  | Some (cz, m) => <[zk_key a pk := (cz, <[PublicKey_Hash pk := mkPka pk a]> m)]> v
  | None => <[zk_key a pk := ((zk_name a +:+ "," +:+ aContext a)%string, {[ PublicKey_Hash pk := mkPka pk a ]})]> v
  end.

Lemma books_add (v : kview) a pk counter kpz cz m :
  books_ok v counter kpz → ¬ zk_known v a pk → zk_add v a pk !! zk_key a pk = Some (cz, m) →
  books_ok (zk_add v a pk) (Counter_Inc counter).1 (zone_count_add kpz cz 1).
Proof.
  intros [B1 B2] Hn. unfold zk_add. destruct (v !! zk_key a pk) as [[cz0 m0]|] eqn:E; rewrite lookup_insert_eq; intros [= -> <-].
  - assert (m0 !! PublicKey_Hash pk = None) as Em.
    { apply eq_None_not_Some. intros H. apply Hn. by exists (cz, m0). }
    split; [|intros cz'; rewrite zone_count_add_lookup, B2, (zone_total_update _ _ _ _ _ _ E), map_size_insert_None by done;
      destruct (decide (cz = cz')); lia].
    simpl. rewrite B1, int64_wrap_add_l, (key_total_update _ _ _ _ _ E), map_size_insert_None by done. f_equal. lia.
  - split; [|intros cz'; rewrite zone_count_add_lookup, B2, (zone_total_insert _ _ _ _ _ E), map_size_singleton;
      destruct (decide (cz = cz')); lia].
    simpl. rewrite B1, int64_wrap_add_l, (key_total_insert _ _ _ _ E), map_size_singleton. f_equal.
Qed.

Lemma zk_add_ne (v : kview) a pk k : k ≠ zk_key a pk → zk_add v a pk !! k = v !! k.
Proof. intros H. unfold zk_add. repeat case_match; by rewrite lookup_insert_ne. Qed.

Lemma zk_add_nonempty (v : kview) a pk : (∀ k p, v !! k = Some p → p.2 ≠ ∅) → ∀ k p, zk_add v a pk !! k = Some p → p.2 ≠ ∅.
Proof.
  intros H k p E. destruct (decide (k = zk_key a pk)) as [->|]; [|rewrite zk_add_ne in E by done; by eapply H].
  unfold zk_add in E. repeat case_match; rewrite lookup_insert_eq in E; simplify_eq/=;
    [apply insert_non_empty|apply map_non_empty_singleton].
Qed.

(** [Add] up to the eviction. *)
Definition zk_Add_upto (c : ZoneKeyImpl) (a : Assertion) (pk : PublicKey) (b : bool) (fuel : nat) : Prop :=
  ∃ c1, zk_inv c1 ∧ warnSize c1 = warnSize c ∧ maxCount (zkCounter c1) = maxCount (zkCounter c) ∧
    ((zk_known (zk_view c) a pk ∧ zk_view c1 = zk_view c ∧
      ZoneKeyImpl_Add (S fuel) c a pk b = Some (Ok (c1, ZoneKeyImpl_Len c1 <? warnSize c))) ∨
     (¬ zk_known (zk_view c) a pk ∧ zk_view c1 = zk_add (zk_view c) a pk ∧
      ZoneKeyImpl_Add (S fuel) c a pk b =
        if Counter_IsFull (zkCounter c1)
        then match zk_evict (S fuel) c1 with
             | Some (Ok c'') => Some (Ok (c'', false))
             | Some (Err msg) => Some (Err msg)
             | Some (Panic msg) => Some (Panic msg)
             | None => None
             end
        else Some (Ok (c1, ZoneKeyImpl_Len c1 <? warnSize c)))).

Lemma zk_Add_hit c a pk b fuel l :
  zk_inv c → lru_vals (zkCache c) !! zk_key a pk = Some l → zk_Add_upto c a pk b fuel.
Proof.
  intros I El. pose proof I as [P NE B]. unfold zk_Add_upto. cbn [ZoneKeyImpl_Add]. fold (zk_name a).
  set (cv := mkZoneKeyValue Map_New (zk_name a) (aContext a) _ _ false). change (getCacheKey cv) with (zk_key a pk).
  destruct (pointers_touch dead_keys zk_live zk_file _ _ _ _ b cv _ P El) as (P' & V' & Ev & Hd).
  destruct (lru_GetOrAdd_hit (zkCache c) (zk_key a pk) (zkNext c) l b El) as [_ Er].
  destruct (lru_GetOrAdd (zkCache c) (zk_key a pk) (zkNext c) b) as [cache [l' new]]. cbn [fst snd] in *. simplify_eq.
  unfold zk_deref. rewrite Hd. fold (zk_deref (zkHeap c) l).
  destruct (zk_entry c _ l I El) as (Hdel & Hk & Evk). rewrite Hdel. set (val := zk_deref (zkHeap c) l) in *.
  fold (zk_view c) in V'. pose proof El as El'. rewrite <-Ev in El'.
  unfold Map_GetOrAdd. destruct (hashMap (zkKeys val) !! PublicKey_Hash pk) as [x|] eqn:Ex.
  - pose proof (view_write dead_keys zk_live zk_file _ _ _ _ _ (zk_set_keys val (zkKeys val) false) P' El') as W. rewrite V' in W.
    assert (zk_file (zk_set_keys val (zkKeys val) false) = zk_file val) as F by done.
    rewrite F, (insert_id (zk_view c)) in W by exact Evk.
    exists (mkZoneKeyImpl cache (<[l := zk_set_keys val (zkKeys val) false]> (<[zkNext c := cv]> (zkHeap c))) (S (zkNext c))
      (zkCounter c) (warnSize c) (maxPublicKeysPerZone c) (keysPerContextZone c)).
    split; [split; unfold zk_view; simpl; rewrite ?W|]; [|done..|split; [done|split; [done|left]]].
    { by eapply (pointers_write dead_keys zk_live). }
    split_and!; [by exists (zk_file val); split; [|eexists]|exact W|done].
  - set (m := mkMap _). pose proof (view_write dead_keys zk_live zk_file _ _ _ _ _ (zk_set_keys val m false) P' El') as W. rewrite V' in W.
    assert (zk_file (zk_set_keys val m false) = (getContextZone val, <[PublicKey_Hash pk := mkPka pk a]> (hashMap (zkKeys val)))) as F by done.
    assert (<[zk_key a pk := zk_file (zk_set_keys val m false)]> (zk_view c) = zk_add (zk_view c) a pk) as Ea
      by (unfold zk_add; by rewrite Evk, F).
    rewrite Ea in W. assert (¬ zk_known (zk_view c) a pk) as Hnk by (intros (p & Hp & [y Hy]); rewrite Evk in Hp; simplify_eq/=; congruence).
    exists (mkZoneKeyImpl cache (<[l := zk_set_keys val m false]> (<[zkNext c := cv]> (zkHeap c))) (S (zkNext c))
      (Counter_Inc (zkCounter c)).1 (warnSize c) (maxPublicKeysPerZone c)
      (zone_count_add (keysPerContextZone c) (getContextZone val) 1)).
    split; [split; unfold zk_view; simpl; rewrite ?W|]; [| | |split; [reflexivity|split; [reflexivity|right; split; [done|split; [exact W|]]]]].
    + by eapply (pointers_write dead_keys zk_live).
    + by apply zk_add_nonempty.
    + eapply books_add; [done..|]. unfold zk_add. rewrite Evk, lookup_insert_eq. done.
    + reflexivity.
Qed.

Lemma zk_Add_miss c a pk b fuel :
  zk_inv c → lru_vals (zkCache c) !! zk_key a pk = None → zk_Add_upto c a pk b fuel.
Proof.
  intros I El. pose proof I as [P NE B]. unfold zk_Add_upto. cbn [ZoneKeyImpl_Add]. fold (zk_name a).
  set (cv := mkZoneKeyValue Map_New (zk_name a) (aContext a) _ _ false). change (getCacheKey cv) with (zk_key a pk).
  pose proof (proj2 (view_lookup_None dead_keys zk_file (zkHeap c) _ _) El) as Evk. fold (zk_view c) in Evk.
  set (m := mkMap {[ PublicKey_Hash pk := mkPka pk a ]}).
  destruct (pointers_file dead_keys zk_live zk_file _ _ _ _ b (zk_set_keys cv m false) P El) as (P' & W & _); [done|].
  destruct (lru_GetOrAdd_miss (zkCache c) (zk_key a pk) (zkNext c) b El) as [_ Er].
  destruct (lru_GetOrAdd (zkCache c) (zk_key a pk) (zkNext c) b) as [cache [l' new]]. cbn [fst snd] in *. simplify_eq.
  unfold zk_deref. rewrite load_insert, decide_True by done. unfold Map_GetOrAdd. cbn [zkDeleted cv zkKeys Map_New hashMap].
  rewrite lookup_empty, insert_insert_eq, insert_empty. fold m. fold (zk_view c) in W.
  assert (<[zk_key a pk := zk_file (zk_set_keys cv m false)]> (zk_view c) = zk_add (zk_view c) a pk) as Ea
    by (unfold zk_add; by rewrite Evk).
  rewrite Ea in W. assert (¬ zk_known (zk_view c) a pk) as Hnk by (intros (p & Hp & _); congruence).
  exists (mkZoneKeyImpl cache (<[zkNext c := zk_set_keys cv m false]> (zkHeap c)) (S (zkNext c))
    (Counter_Inc (zkCounter c)).1 (warnSize c) (maxPublicKeysPerZone c)
    (zone_count_add (keysPerContextZone c) (getContextZone cv) 1)).
  split; [split; unfold zk_view; simpl; rewrite ?W|]; [| | |split; [reflexivity|split; [reflexivity|right; split; [done|split; [exact W|]]]]].
  - done.
  - by apply zk_add_nonempty.
  - eapply books_add; [done..|]. unfold zk_add. rewrite Evk, lookup_insert_eq. done.
  - reflexivity.
Qed.

Lemma zk_Add_insert c a pk b fuel : zk_inv c → zk_Add_upto c a pk b fuel.
Proof.
  intros I. destruct (lru_vals (zkCache c) !! zk_key a pk) as [l|] eqn:El; [by eapply zk_Add_hit|by apply zk_Add_miss].
Qed.

(** ** Theorems *)

(** Adding a public key files it under its zone, context, algorithm and key phase; a
    key already known changes nothing.  When the counter reaches the maximum one whole
    evictable entry is dropped and false is returned; with only internal entries left the
    method panics on the missing least recently used entry.  Otherwise the result tells
    whether the number of keys is below the warning threshold.  The counter and the counts
    per zone and context always equal the number of filed keys. *)
Theorem ZoneKeyCache_Add c a pk b fuel :
  zk_inv c →
  let r := ZoneKeyImpl_Add (S fuel) c a pk b in
  let full := maxCount (zkCounter c) <=? int64_wrap (key_total (zk_add (zk_view c) a pk)) in
  (∃ c' ok, r = Some (Ok (c', ok)) ∧ zk_inv c' ∧
     ((zk_known (zk_view c) a pk ∧ zk_view c' = zk_view c ∧ ok = (ZoneKeyImpl_Len c' <? warnSize c)) ∨
      (¬ zk_known (zk_view c) a pk ∧ full = false ∧ zk_view c' = zk_add (zk_view c) a pk ∧
         ok = (ZoneKeyImpl_Len c' <? warnSize c)) ∨
      (¬ zk_known (zk_view c) a pk ∧ full = true ∧ ok = false ∧
         ∃ k, is_Some (zk_add (zk_view c) a pk !! k) ∧ zk_view c' = delete k (zk_add (zk_view c) a pk)))) ∨
  (¬ zk_known (zk_view c) a pk ∧ full = true ∧ ∃ msg, r = Some (Panic msg)).
Proof.
  intros I r full. destruct (zk_Add_insert c a pk b fuel I) as (c1 & I1 & Hw & Hm & [(Hk & V & E)|(Hk & V & E)]).
  { left. exists c1, (ZoneKeyImpl_Len c1 <? warnSize c). split; [exact E|]. split; [done|]. by left. }
  assert (Counter_IsFull (zkCounter c1) = full) as Hf.
  { unfold Counter_IsFull, full. by rewrite Hm, (proj1 (zki_books _ I1)), V. }
  rewrite Hf in E. subst r. rewrite E. destruct full eqn:Ef; [|left; eexists c1, _; split; [done|]; split; [done|]; auto 10].
  destruct (zk_evict_spec c1 fuel I1 Hf) as [(k & c' & -> & I' & _ & V' & Hs)|[_ [msg ->]]]; [left|right; eauto].
  exists c', false. split; [done|]. split; [done|]. right; right. split_and!; [done..|]. exists k. by rewrite <-V.
Qed.

(** ** Expiry *)

Definition zk_kept (now : Z) (p : kfile) : option kfile :=
  let m := filter (λ q, zk_expired now q.2 = false) p.2 in if decide (m = ∅) then None else Some (p.1, m).

Lemma zk_expire_value_spec now c k l :
  zk_inv c → lru_vals (zkCache c) !! k = Some l →
  let c' := zk_expire_value now c l in
  zk_inv c' ∧ zk_view c' = partial_alter (λ o, o ≫= zk_kept now) k (zk_view c) ∧
  (∀ k', k' ≠ k → lru_vals (zkCache c') !! k' = lru_vals (zkCache c) !! k').
Proof.
  intros I El c'. destruct (zk_entry c k l I El) as (Hd & Hk & Ev). pose proof (zki_pointers _ I) as P.
  subst c'. unfold zk_expire_value. set (val := zk_deref (zkHeap c) l) in *.
  pose proof (removal_all (getContextZone val) (zk_expired now) (zk_expire now (getContextZone val)) (zkKeys val) (zkCounter c)
    (keysPerContextZone c) (λ _ _, eq_refl) (zk_books_range _ I)) as R.
  destruct (foldl _ _ _) as [[m counter] kpz]. pose proof R as (Em & _). simpl in Em. rewrite Hd, Hk.
  set (keep := filter (λ q, zk_expired now q.2 = false) (hashMap (zkKeys val))) in *.
  assert (partial_alter (λ o, o ≫= zk_kept now) k (zk_view c) =
    if decide (keep = ∅) then delete k (zk_view c) else <[k := (getContextZone val, keep)]> (zk_view c)) as Ea.
  { apply map_eq. intros k'. destruct (decide (k = k')) as [<-|Hne].
    - rewrite lookup_partial_alter_eq, Ev. simpl. unfold zk_kept. simpl. fold keep.
      destruct (decide (keep = ∅)); [by rewrite lookup_delete_eq|by rewrite lookup_insert_eq].
    - rewrite lookup_partial_alter_ne by done. destruct (decide (keep = ∅)); [by rewrite lookup_delete_ne|by rewrite lookup_insert_ne]. }
  assert (books_ok (if decide (keep = ∅) then delete k (zk_view c) else <[k := (getContextZone val, keep)]> (zk_view c)) counter kpz) as B.
  { eapply (books_reduce c k _ _ (m, counter, kpz) keep); [done|done| |done]. by destruct (zkKeys val). }
  rewrite Ea. assert ((Map_Len m =? 0) = bool_decide (keep = ∅)) as ->.
  { unfold Map_Len. rewrite Em. destruct (bool_decide_reflect (keep = ∅)) as [->|Hne]; [done|].
    apply Z.eqb_neq. intros H0. apply Hne, map_size_empty_iff. lia. }
  simpl. destruct (decide (keep = ∅)) as [He|Hne].
  - rewrite bool_decide_true by done.
    pose proof (view_remove dead_keys zk_live zk_file _ _ _ _ _ (zk_set_keys val m true) P El) as W. fold (zk_view c) in W.
    split_and!; [|exact W|].
    + split; unfold zk_view; simpl; rewrite ?W; [by eapply (pointers_remove dead_keys zk_live)| |done].
      intros k' p [_ Hp]%lookup_delete_Some. by eapply zki_nonempty.
    + intros k' Hk'. simpl. rewrite (proj1 (lru_Remove_vals _ k)). by rewrite lookup_delete_ne.
  - rewrite bool_decide_false by done.
    pose proof (view_write dead_keys zk_live zk_file _ _ _ _ _ (zk_set_keys val m false) P El) as W. fold (zk_view c) in W.
    assert (zk_file (zk_set_keys val m false) = (getContextZone val, keep)) as F by (unfold zk_file; simpl; by rewrite Em).
    rewrite F in W. split_and!; [|exact W|done].
    split; unfold zk_view; simpl; rewrite ?W; [by eapply (pointers_write dead_keys zk_live)| |done].
    intros k' p [[<- <-]|[_ Hp]]%lookup_insert_Some; [done|by eapply zki_nonempty].
Qed.

Lemma zk_expire_fold now L c :
  zk_inv c → NoDup L.*1 → (∀ k l, (k, l) ∈ L → lru_vals (zkCache c) !! k = Some l) →
  let c' := foldl (zk_expire_value now) c L.*2 in
  zk_inv c' ∧ ∀ k, zk_view c' !! k = if decide (k ∈ L.*1) then zk_view c !! k ≫= zk_kept now else zk_view c !! k.
Proof.
  revert c. induction L as [|[k l] L IH]; intros c I ND HL; [done|].
  cbv zeta. rewrite fmap_cons in ND. rewrite !fmap_cons. cbn [foldl fst snd] in *. apply NoDup_cons in ND as [Hk ND].
  destruct (zk_expire_value_spec now c k l I) as (I' & W & Hl); [apply HL; by left|].
  destruct (IH _ I' ND) as (I'' & W').
  { intros k' l' Hin. rewrite Hl; [apply HL; by right|]. intros ->. apply Hk. by apply (list_elem_of_fmap_2 fst _ (k, l')). }
  split; [done|]. intros k'. rewrite W', W. clear -Hk.
  destruct (decide (k' = k)) as [->|Hne].
  - rewrite decide_False by done. rewrite lookup_partial_alter_eq. by rewrite decide_True by left.
  - rewrite lookup_partial_alter_ne by done. apply decide_ext. rewrite elem_of_cons. naive_solver.
Qed.

Lemma first_usable_spec now md l :
  match first_usable now md l with
  | Some v => v ∈ l ∧ key_usable now md (pkaKey v) = true
  | None => ∀ v, v ∈ l → key_usable now md (pkaKey v) = false
  end.
Proof.
  induction l as [|x l IH]; simpl; [by intros v ?%elem_of_nil|]. destruct (key_usable now md (pkaKey x)) eqn:E.
  - split; [by left|done].
  - destruct (first_usable now md l); [destruct IH; split; [by right|done]|]. intros v [->|Hv]%elem_of_cons; auto.
Qed.

Lemma ZoneKeyImpl_Get_spec now c zone context md :
  zk_inv c →
  let r := ZoneKeyImpl_Get now c zone context md in
  let k := zone_key zone context (Algorithm (mdPublicKeyID md)) (KeyPhase (mdPublicKeyID md)) in
  zk_inv r.1 ∧ zk_view r.1 = zk_view c ∧
  match r.2 with
  | Some v => key_usable now md (pkaKey v) = true ∧ ∃ p h, zk_view c !! k = Some p ∧ p.2 !! h = Some v
  | None => ∀ p h v, zk_view c !! k = Some p → p.2 !! h = Some v → key_usable now md (pkaKey v) = false
  end.
Proof.
  intros I r k. subst r. unfold ZoneKeyImpl_Get. fold k. pose proof I as [P NE B].
  destruct (lru_Get_vals (zkCache c) k) as [Ev Er]. pose proof (lru_Get_wf (zkCache c) k (po_lru _ _ _ _ P)) as Wf.
  destruct (lru_Get (zkCache c) k) as [cache e]. cbn [fst snd] in *. subst e.
  destruct (pointers_reorder dead_keys zk_live zk_file _ _ cache _ P Wf Ev) as [P' W].
  split; [by split; unfold zk_view; simpl; rewrite ?W|]. split; [exact W|].
  destruct (lru_vals (zkCache c) !! k) as [l|] eqn:El; simpl.
  - destruct (zk_entry c k l I El) as (_ & _ & Evk). set (val := zk_deref (zkHeap c) l) in *.
    pose proof (first_usable_spec now md (Map_GetAll (zkKeys val))) as F. destruct (first_usable _ _ _) as [v|].
    + destruct F as [Hin Hu]. split; [done|]. unfold Map_GetAll in Hin.
      apply list_elem_of_fmap in Hin as ([h x] & -> & Hx%elem_of_map_to_list). by eexists _, h.
    + intros p h v Hp Hv. apply F. rewrite Hp in Evk. simplify_eq/=. apply list_elem_of_fmap. exists (h, v). split; [done|].
      by apply elem_of_map_to_list.
  - apply (view_lookup_None dead_keys zk_file (zkHeap c)) in El. intros p h v Hp. unfold zk_view in Hp. congruence.
Qed.

Lemma ZoneKeyImpl_RemoveExpiredKeys_spec now c :
  zk_inv c →
  zk_inv (ZoneKeyImpl_RemoveExpiredKeys now c) ∧
  zk_view (ZoneKeyImpl_RemoveExpiredKeys now c) = omap (zk_kept now) (zk_view c).
Proof.
  intros I. unfold ZoneKeyImpl_RemoveExpiredKeys.
  assert (lru_GetAll (zkCache c) = (map_to_list (lru_vals (zkCache c))).*2) as ->
    by (unfold lru_GetAll, lru_vals; by rewrite map_to_list_fmap, <-!list_fmap_compose).
  destruct (zk_expire_fold now (map_to_list (lru_vals (zkCache c))) c I) as (I' & W');
    [apply NoDup_fst_map_to_list|intros ? ?; apply elem_of_map_to_list|]. split; [done|].
  apply map_eq. intros k'. rewrite W', lookup_omap. case_decide as Hd; [done|].
  destruct (zk_view c !! k') as [p|] eqn:Ep; [|done]. apply (view_lookup_Some dead_keys zk_file) in Ep as (l & El & _).
  destruct Hd. by apply (list_elem_of_fmap_2 fst _ (k', l)), elem_of_map_to_list.
Qed.

(** [Get] returns a key filed under exactly the zone, context, algorithm and phase
    asked for that has not expired and whose validity overlaps the signature's; it fails
    only when no such key is filed.  [RemoveExpiredKeys] drops exactly the expired keys, and
    entries without keys. *)
Theorem ZoneKeyCache_Get_Expire now c zone context md :
  zk_inv c →
  let r := ZoneKeyImpl_Get now c zone context md in
  let k := zone_key zone context (Algorithm (mdPublicKeyID md)) (KeyPhase (mdPublicKeyID md)) in
  zk_inv r.1 ∧ zk_view r.1 = zk_view c ∧
  match r.2 with
  | Some v => key_usable now md (pkaKey v) = true ∧ ∃ p h, zk_view c !! k = Some p ∧ p.2 !! h = Some v
  | None => ∀ p h v, zk_view c !! k = Some p → p.2 !! h = Some v → key_usable now md (pkaKey v) = false
  end ∧
  zk_inv (ZoneKeyImpl_RemoveExpiredKeys now c) ∧
  zk_view (ZoneKeyImpl_RemoveExpiredKeys now c) = omap (zk_kept now) (zk_view c).
Proof.
  intros I r k. destruct (ZoneKeyImpl_Get_spec now c zone context md I) as (I1 & V1 & R1).
  destruct (ZoneKeyImpl_RemoveExpiredKeys_spec now c I). by split_and!.
Qed.

Lemma NewZoneKey_inv maxSize ws mk : zk_inv (NewZoneKey maxSize ws mk) ∧ zk_view (NewZoneKey maxSize ws mk) = ∅.
Proof.
  destruct (pointers_New dead_keys zk_live zk_file) as [P W]. change (zk_view (NewZoneKey maxSize ws mk) = ∅) in W.
  split; [|done]. split; rewrite ?W; simpl; [done|by intros ? ?; rewrite lookup_empty|]. split.
  - unfold key_total. by rewrite map_sum_empty.
  - intros cz. unfold zone_total. by rewrite map_sum_empty, lookup_empty.
Qed.

Definition w_pk : PublicKey := mkPublicKey (mkPublicKeyID Ed25519 RainsKeySpace 1) 0 100 (KeyEd25519 [7]).
Definition w_deleg : Assertion := mkAssertion [] "ethz" "ch." "." [] 0 0 false.

Lemma ZoneKeyCache_Add_witness :
  zk_inv (NewZoneKey 1 5 5) ∧ ∃ msg, ZoneKeyImpl_Add 1 (NewZoneKey 1 5 5) w_deleg w_pk true = Some (Panic msg).
Proof.
  destruct (NewZoneKey_inv 1 5 5) as [I V]. split; [exact I|].
  destruct (ZoneKeyCache_Add (NewZoneKey 1 5 5) w_deleg w_pk true 0 I) as [(c' & ok & E & _)|(_ & _ & E)]; [|exact E].
  vm_compute in E. discriminate E.
Defined.

Lemma ZoneKeyCache_Get_Expire_witness :
  let md := mkMetaData (mkPublicKeyID Ed25519 RainsKeySpace 1) 10 20 in
  ∃ c, (ZoneKeyImpl_Add 1 (NewZoneKey 5 5 5) w_deleg w_pk false = Some (Ok (c, true))) ∧
    (ZoneKeyImpl_Get 50 c "ethz.ch." "." md).2 = Some (mkPka w_pk w_deleg) ∧
    zk_view (ZoneKeyImpl_RemoveExpiredKeys 101 (NewZoneKey 5 5 5)) = ∅.
Proof.
  intros md. destruct (NewZoneKey_inv 5 5 5) as [I V].
  destruct (ZoneKeyCache_Get_Expire 101 (NewZoneKey 5 5 5) "ethz.ch." "." md I) as (_ & _ & _ & _ & E).
  eexists. split; [vm_compute; reflexivity|]. split; [vm_compute; reflexivity|]. rewrite E, V. vm_compute. reflexivity.
Defined.
