(* ===== verification/ConnectionCache.v ===== *)
(** * The connection cache

    Models attic/internal/pkg/cache/connectionCache.go.  A [net.Conn] belongs to the
    network library: the program only compares connections, asks for their remote address
    and closes them; the model gives a connection an identity and an address, and keeps
    the calls of [Close] in [ccClosed]. *)

From S2P Require Import Prelude Containers LruCache Pointers.
Local Open Scope Z_scope.

Record Addr := mkAddr { addrNetwork : string; addrString : string }.
Record Conn := mkConn { connId : nat; RemoteAddr : Addr }.
#[export] Instance Addr_eq_dec : EqDecision Addr.
Proof. solve_decision. Defined.
#[export] Instance Conn_eq_dec : EqDecision Conn.
Proof. solve_decision. Defined.

Definition networkAddr (addr : Addr) : string := (addrNetwork addr +:+ " " +:+ addrString addr)%string.
Definition conn_key (c : Conn) : string := networkAddr (RemoteAddr c).

Record connCacheValue := mkConnValue {
  cvConnections : list Conn;
  cvCapabilities : list string;
  ccDeleted : bool
}.

Record ConnectionImpl := mkConnectionImpl {
  ccCache : Cache nat;
  ccHeap : gmap nat connCacheValue;
  ccNext : nat;
  ccCounter : Counter;
  ccClosed : list Conn
}.

Definition NewConnection (maxSize : Z) : ConnectionImpl := mkConnectionImpl lru_New ∅ 0 (Counter_New maxSize) [].

Definition dead_conn : connCacheValue := mkConnValue [] [] true.
Definition cc_deref (heap : gmap nat connCacheValue) (l : nat) : connCacheValue := load dead_conn heap l.
Definition set_conns (v : connCacheValue) (conns : list Conn) : connCacheValue := mkConnValue conns (cvCapabilities v) (ccDeleted v).
Definition kill_conns (v : connCacheValue) : connCacheValue := mkConnValue (cvConnections v) (cvCapabilities v) true.

(** [for _, conn := range conns { conn.Close(); c.counter.Dec() }] *)
Definition close_all (st : Counter * list Conn) (conns : list Conn) : Counter * list Conn :=
  foldl (λ st conn, (Counter_Dec st.1, st.2 ++ [conn])) st conns.

(** The loop of [AddConnection] on a full cache; a nil least recently used entry panics. *)
Fixpoint cc_evict (fuel : nat) (c : ConnectionImpl) : option (outcome ConnectionImpl) :=
  match fuel with
  | O => None
  | S fuel' =>
      if negb (Counter_IsFull (ccCounter c)) then Some (Ok c)
      else match lru_GetLeastRecentlyUsed (ccCache c) with
           | (_, None) => Some (Panic "interface conversion: interface is nil")
           | (key, Some l) =>
               let value := cc_deref (ccHeap c) l in
               if ccDeleted value then cc_evict fuel' c
               else
                 let '(counter, closed) := close_all (ccCounter c, ccClosed c) (cvConnections value) in
                 Some (Ok (mkConnectionImpl (lru_Remove (ccCache c) key).1 (<[l := kill_conns value]> (ccHeap c))
                   (ccNext c) counter closed))
           end
  end.

Definition AddConnection (fuel : nat) (c : ConnectionImpl) (conn : Conn) : option (outcome ConnectionImpl) :=
  let heap := <[ccNext c := mkConnValue [] [] false]> (ccHeap c) in
  let '(cache, (l, _)) := lru_GetOrAdd (ccCache c) (conn_key conn) (ccNext c) false in
  let value := cc_deref heap l in
  let heap := <[l := set_conns value (cvConnections value ++ [conn])]> heap in
  let '(counter, full) := Counter_Inc (ccCounter c) in
  let c' := mkConnectionImpl cache heap (S (ccNext c)) counter (ccClosed c) in
  if full : bool then cc_evict fuel c' else Some (Ok c').

(** [e, ok := c.cache.Get(networkAddr(addr))] *)
Definition cc_lookup (c : ConnectionImpl) (addr : Addr) : ConnectionImpl * option nat :=
  let '(cache, e) := lru_Get (ccCache c) (networkAddr addr) in
  (mkConnectionImpl cache (ccHeap c) (ccNext c) (ccCounter c) (ccClosed c), e).

Definition AddCapabilityList (c : ConnectionImpl) (dstAddr : Addr) (capabilities : list string) : ConnectionImpl * bool :=
  let '(c, e) := cc_lookup c dstAddr in
  match e with
  | None => (c, false)
  | Some l =>
      let v := cc_deref (ccHeap c) l in
      if ccDeleted v then (c, false)
      else (mkConnectionImpl (ccCache c) (<[l := mkConnValue (cvConnections v) capabilities (ccDeleted v)]> (ccHeap c))
              (ccNext c) (ccCounter c) (ccClosed c), true)
  end.

Definition GetConnection (c : ConnectionImpl) (dstAddr : Addr) : ConnectionImpl * option (list Conn) :=
  let '(c, e) := cc_lookup c dstAddr in
  (c, l ← e; let v := cc_deref (ccHeap c) l in if ccDeleted v then None else Some (cvConnections v)).

Definition GetCapabilityList (c : ConnectionImpl) (dstAddr : Addr) : ConnectionImpl * option (list string) :=
  let '(c, e) := cc_lookup c dstAddr in
  (c, l ← e; let v := cc_deref (ccHeap c) l in if ccDeleted v then None else Some (cvCapabilities v)).

(** The loop of [CloseAndRemoveConnection].  It ranges over the slice as it was at the
    start ([n] elements) while [v.connections = append(v.connections[:i],
    v.connections[i+1:]...)] shifts the elements of the same backing array: [arr] is the
    array, [m] the current length of [v.connections]. *)
Fixpoint remove_loop (conn : Conn) (arr : list Conn) (m : nat) (counter : Counter) (idx : list nat)
    : outcome (list Conn * Counter) :=
  match idx with
  | [] => Ok (take m arr, counter)
  | i :: idx' =>
      connection ← or_panic (arr !! i) "index out of range";
      if bool_decide (connection = conn)
      then if (i + 1 <=? m)%nat
           then remove_loop conn (take i arr ++ drop (i + 1) (take m arr) ++ drop (m - 1) arr) (m - 1) (Counter_Dec counter) idx'
           else Panic "slice bounds out of range"
      else remove_loop conn arr m counter idx'
  end.

Definition CloseAndRemoveConnection (c : ConnectionImpl) (conn : Conn) : outcome ConnectionImpl :=
  let c := mkConnectionImpl (ccCache c) (ccHeap c) (ccNext c) (ccCounter c) (ccClosed c ++ [conn]) in
  let '(c, e) := cc_lookup c (RemoteAddr conn) in
  match e with
  | None => Ok c
  | Some l =>
      let v := cc_deref (ccHeap c) l in
      if ccDeleted v then Ok c
      else if (1 <? length (cvConnections v))%nat
      then
        '(conns, counter) ← remove_loop conn (cvConnections v) (length (cvConnections v)) (ccCounter c)
                              (seq 0 (length (cvConnections v)));
        Ok (mkConnectionImpl (ccCache c) (<[l := set_conns v conns]> (ccHeap c)) (ccNext c) counter (ccClosed c))
      else Ok (mkConnectionImpl (lru_Remove (ccCache c) (conn_key conn)).1 (<[l := kill_conns v]> (ccHeap c)) (ccNext c)
                 (Counter_Dec (ccCounter c)) (ccClosed c))
  end.

Definition CloseAndRemoveConnections (c : ConnectionImpl) (addr : Addr) : ConnectionImpl :=
  let '(c, e) := cc_lookup c addr in
  match e with
  | None => c
  | Some l =>
      let v := cc_deref (ccHeap c) l in
      if ccDeleted v then c
      else
        let '(counter, closed) := close_all (ccCounter c, ccClosed c) (cvConnections v) in
        mkConnectionImpl (lru_Remove (ccCache c) (networkAddr addr)).1 (<[l := kill_conns v]> (ccHeap c)) (ccNext c) counter closed
  end.

Definition close_value (c : ConnectionImpl) (l : nat) : ConnectionImpl :=
  let v := cc_deref (ccHeap c) l in
  if ccDeleted v then c
  else
    let '(counter, closed) := close_all (ccCounter c, ccClosed c) (cvConnections v) in
    let cache := match cvConnections v with
                 | [] => ccCache c
                 | conn :: _ => (lru_Remove (ccCache c) (conn_key conn)).1
                 end in
    mkConnectionImpl cache (<[l := kill_conns v]> (ccHeap c)) (ccNext c) counter closed.
Definition CloseAndRemoveAllConnections (c : ConnectionImpl) : ConnectionImpl :=
  foldl close_value c (lru_GetAll (ccCache c)).

Definition ConnectionImpl_Len (c : ConnectionImpl) : Z := Counter_Value (ccCounter c).

(** ** The invariant *)

Definition cc_file (v : connCacheValue) : list Conn := cvConnections v.
Definition cc_live (k : string) (v : connCacheValue) : Prop :=
  ccDeleted v = false ∧ cvConnections v ≠ [] ∧ Forall (λ conn, conn_key conn = k) (cvConnections v).
Definition cc_view (c : ConnectionImpl) : gmap string (list Conn) := view_of dead_conn cc_file (ccHeap c) (ccCache c).
Definition conn_total (v : gmap string (list Conn)) : Z := map_sum (λ conns, Z.of_nat (length conns)) v.

Record cc_inv (c : ConnectionImpl) : Prop := {
  cci_pointers : pointers_ok cc_live (ccHeap c) (ccCache c) (ccNext c);
  cci_counter : count (ccCounter c) = int64_wrap (conn_total (cc_view c));
  cci_no_internal k : ¬ lru_internal (ccCache c) k
}.

(** ** Lemmas *)

Lemma close_all_spec counter closed conns :
  in_int64 (count counter) →
  count (close_all (counter, closed) conns).1 = int64_wrap (count counter - Z.of_nat (length conns)) ∧
  maxCount (close_all (counter, closed) conns).1 = maxCount counter ∧ (close_all (counter, closed) conns).2 = closed ++ conns.
Proof.
  intros Hr. revert counter closed Hr. induction conns as [|x conns IH]; intros counter closed Hr.
  - simpl. by rewrite Z.sub_0_r, int64_wrap_id, app_nil_r.
  - destruct (IH (Counter_Dec counter) (closed ++ [x])) as (E1 & E2 & E3); [apply int64_wrap_range|].
    unfold close_all in *. cbn [foldl length fst snd] in *. rewrite E1, E2, E3, <-app_assoc. split_and!; [|done..]. cbn [count Counter_Dec].
    unfold Z.sub at 1. rewrite int64_wrap_add_l. f_equal. lia.
Qed.

Lemma remove_loop_absent conn arr m counter idx :
  conn ∉ arr → (∀ i, i ∈ idx → (i < length arr)%nat) → remove_loop conn arr m counter idx = Ok (take m arr, counter).
Proof.
  intros Hn. induction idx as [|i idx IH]; intros Hi; simpl; [done|].
  destruct (lookup_lt_is_Some_2 arr i) as [x Hx]; [apply Hi; by left|]. rewrite Hx. simpl.
  rewrite bool_decide_false by (intros ->; by apply list_elem_of_lookup_2 in Hx).
  apply IH. intros j Hj. apply Hi. by right.
Qed.

(** The loop takes out exactly the connection when it occurs once. *)
Lemma remove_loop_once conn pre post counter :
  conn ∉ pre → conn ∉ post →
  let arr := pre ++ conn :: post in
  remove_loop conn arr (length arr) counter (seq 0 (length arr)) = Ok (pre ++ post, Counter_Dec counter).
Proof.
  intros H1 H2 arr. assert (length arr = length pre + S (length post))%nat as Hl by (unfold arr; rewrite length_app; done).
  assert (∀ p q idx, pre = p ++ q →
    remove_loop conn arr (length arr) counter (seq (length p) (length q) ++ idx) = remove_loop conn arr (length arr) counter idx) as Hpre.
  { intros p q idx. revert p. induction q as [|x q IH]; intros p Hp; [done|]. simpl.
    assert (arr !! length p = Some x) as Hx.
    { unfold arr. rewrite Hp, <-app_assoc. apply list_lookup_middle. done. }
    rewrite Hx. simpl. rewrite bool_decide_false.
    - specialize (IH (p ++ [x])). rewrite length_app in IH. simpl in IH. rewrite Nat.add_1_r in IH. apply IH.
      by rewrite Hp, <-app_assoc.
    - intros ->. apply H1. rewrite Hp. apply elem_of_app. right. by left. }
  rewrite Hl at 2. rewrite seq_app. simpl. rewrite (Hpre [] pre) by done. simpl.
  assert (arr !! length pre = Some conn) as Hc by (by apply list_lookup_middle). rewrite Hc. simpl.
  rewrite bool_decide_true by done. rewrite (proj2 (Nat.leb_le _ _)) by lia.
  assert (take (length pre) arr ++ drop (length pre + 1) (take (length arr) arr) ++ drop (length arr - 1) arr =
          (pre ++ post) ++ drop (length arr - 1) arr) as ->.
  { rewrite (take_ge arr (length arr)) by lia. unfold arr at 1 2. rewrite take_app_length, drop_app_ge by lia.
    replace (length pre + 1 - length pre)%nat with 1%nat by lia. simpl. by rewrite drop_0, <-app_assoc. }
  assert (length (pre ++ post) = length arr - 1)%nat as Hlen by (rewrite length_app; lia).
  assert (length (drop (length arr - 1) arr) = 1)%nat as Hd by (rewrite length_drop; lia).
  destruct post as [|y post].
  - simpl. by rewrite <-Hlen, take_app_length.
  - rewrite remove_loop_absent.
    + by rewrite <-Hlen, take_app_length.
    + rewrite !elem_of_app. intros [[H|H]|H]; [done|done|].
      apply list_elem_of_lookup in H as [i Hi]. rewrite lookup_drop in Hi. apply H2.
      assert (i = 0)%nat as -> by (apply lookup_lt_Some in Hi; lia). rewrite Nat.add_0_r in Hi.
      unfold arr in Hi. rewrite lookup_app_r in Hi by (rewrite length_app; simpl; lia).
      destruct (length (pre ++ conn :: y :: post) - 1 - length pre)%nat as [|j] eqn:Ej.
      { rewrite length_app in Ej. simpl in Ej. lia. }
      simpl in Hi. by eapply list_elem_of_lookup_2.
    + intros i Hi%elem_of_seq. rewrite length_app, Hlen, Hd. lia.
Qed.

Lemma cc_range c : cc_inv c → in_int64 (count (ccCounter c)).
Proof. intros I. rewrite (cci_counter _ I). apply int64_wrap_range. Qed.

Lemma cc_entry c k l :
  cc_inv c → lru_vals (ccCache c) !! k = Some l →
  cc_live k (cc_deref (ccHeap c) l) ∧ cc_view c !! k = Some (cvConnections (cc_deref (ccHeap c) l)).
Proof.
  intros I El. destruct (load_live dead_conn cc_live _ _ _ _ _ (cci_pointers _ I) El) as [H _]. split; [done|].
  exact (view_lookup dead_conn cc_file _ _ _ _ El).
Qed.

Lemma conn_total_delete v k conns : v !! k = Some conns → conn_total (delete k v) = conn_total v - Z.of_nat (length conns).
Proof. intros E. unfold conn_total. by rewrite (map_sum_delete _ _ _ conns). Qed.

(** Taking a whole entry out, with the counter lowered by its connections. *)
Lemma cc_drop c k l counter closed v :
  cc_inv c → lru_vals (ccCache c) !! k = Some l →
  count counter = int64_wrap (count (ccCounter c) - Z.of_nat (length (cvConnections (cc_deref (ccHeap c) l)))) →
  let c' := mkConnectionImpl (lru_Remove (ccCache c) k).1 (<[l := v]> (ccHeap c)) (ccNext c) counter closed in
  cc_inv c' ∧ cc_view c' = delete k (cc_view c).
Proof.
  intros I El Hc c'. destruct (cc_entry c k l I El) as [_ Ev].
  assert (cc_view c' = delete k (cc_view c)) as W by (by eapply (view_remove dead_conn cc_live cc_file); [apply I|]).
  split; [|done]. split.
  - by eapply (pointers_remove dead_conn cc_live); [apply I|].
  - simpl. rewrite Hc, (cci_counter _ I), W, (conn_total_delete _ _ _ Ev). unfold Z.sub. by rewrite int64_wrap_add_l.
  - intros k' H%lru_Remove_internal. by eapply (cci_no_internal _ I).
Qed.

Lemma cc_lookup_spec c addr :
  cc_inv c → let r := cc_lookup c addr in
  cc_inv r.1 ∧ cc_view r.1 = cc_view c ∧ r.2 = lru_vals (ccCache c) !! networkAddr addr ∧ ccHeap r.1 = ccHeap c ∧
  lru_vals (ccCache r.1) = lru_vals (ccCache c) ∧ ccCounter r.1 = ccCounter c ∧ ccClosed r.1 = ccClosed c.
Proof.
  intros [P C N] r. subst r. unfold cc_lookup. destruct (lru_Get_vals (ccCache c) (networkAddr addr)) as [Ev Er].
  pose proof (lru_Get_wf (ccCache c) (networkAddr addr) (po_lru _ _ _ _ P)) as Wf.
  pose proof (λ k, lru_Get_internal (ccCache c) k (networkAddr addr)) as Hi.
  destruct (lru_Get (ccCache c) _) as [cache e]. cbn [fst snd] in *.
  destruct (pointers_reorder dead_conn cc_live cc_file _ _ cache _ P Wf Ev) as [P' W].
  split_and!; [|exact W|done..]. split; simpl; [done| |intros k H%Hi; by eapply N]. unfold cc_view. simpl. by rewrite W.
Qed.

Definition add_conn (v : gmap string (list Conn)) (conn : Conn) : gmap string (list Conn) :=
  <[conn_key conn := default [] (v !! conn_key conn) ++ [conn]]> v.

Lemma conn_total_add v conn : conn_total (add_conn v conn) = conn_total v + 1.
Proof.
  unfold conn_total, add_conn. destruct (v !! conn_key conn) as [conns|] eqn:E; simpl.
  - rewrite (map_sum_update _ _ _ conns) by done. rewrite length_app. simpl. lia.
  - rewrite map_sum_insert by done. simpl. lia.
Qed.

Lemma cc_evict_spec c k fuel :
  cc_inv c → Counter_IsFull (ccCounter c) = true → is_Some (lru_vals (ccCache c) !! k) →
  ∃ c' k' conns, cc_evict (S fuel) c = Some (Ok c') ∧ cc_inv c' ∧ cc_view c !! k' = Some conns ∧
    cc_view c' = delete k' (cc_view c) ∧ ccClosed c' = ccClosed c ++ conns.
Proof.
  intros I Hf [l0 Hk]. cbn [cc_evict]. rewrite Hf. simpl. pose proof (po_lru _ _ _ _ (cci_pointers _ I)) as Wf.
  destruct (lru_GetLeastRecentlyUsed (ccCache c)) as [k' [l|]] eqn:El.
  - destruct (lru_least_Some _ _ _ Wf El) as [Ek _]. destruct (cc_entry c k' l I Ek) as [(Hd & _) Ev]. rewrite Hd.
    destruct (close_all_spec (ccCounter c) (ccClosed c) (cvConnections (cc_deref (ccHeap c) l)) (cc_range _ I)) as (C1 & _ & C3).
    destruct (close_all _ _) as [counter closed]. simpl in C1, C3. subst closed.
    destruct (cc_drop c k' l counter (ccClosed c ++ cvConnections (cc_deref (ccHeap c) l)) (kill_conns (cc_deref (ccHeap c) l)) I Ek C1) as [I' V'].
    eexists _, k', _. split_and!; [done|exact I'|exact Ev|exact V'|done].
  - destruct (lru_least_None _ _ Wf El k). eapply lru_external_evictable; [done|apply I].
Qed.

(** [AddConnection] up to the eviction. *)
Lemma cc_insert_spec c conn fuel :
  cc_inv c →
  ∃ c1, cc_inv c1 ∧ cc_view c1 = add_conn (cc_view c) conn ∧ ccClosed c1 = ccClosed c ∧
    maxCount (ccCounter c1) = maxCount (ccCounter c) ∧ is_Some (lru_vals (ccCache c1) !! conn_key conn) ∧
    AddConnection fuel c conn = if Counter_IsFull (ccCounter c1) then cc_evict fuel c1 else Some (Ok c1).
Proof.
  intros I. pose proof I as [P C N]. set (v := add_conn (cc_view c) conn).
  set (fresh := mkConnValue [] [] false). set (key := conn_key conn).
  unfold AddConnection. fold fresh key. pose proof (λ k, lru_GetOrAdd_external (ccCache c) k key (ccNext c)) as Hx.
  destruct (lru_vals (ccCache c) !! key) as [l|] eqn:El.
  - destruct (pointers_touch dead_conn cc_live cc_file _ _ _ _ false fresh _ P El) as (P' & V' & Ev & Hd).
    destruct (lru_GetOrAdd_hit (ccCache c) key (ccNext c) l false El) as [_ Er].
    destruct (lru_GetOrAdd (ccCache c) key (ccNext c) false) as [cache [l' new]]. cbn [fst snd] in *. simplify_eq.
    unfold cc_deref. rewrite Hd. fold (cc_deref (ccHeap c) l). destruct (cc_entry c key l I El) as [(Hdel & Hne & Hall) Evk].
    set (val := cc_deref (ccHeap c) l) in *. pose proof El as El'. rewrite <-Ev in El'.
    pose proof (view_write dead_conn cc_live cc_file _ _ _ _ _ (set_conns val (cvConnections val ++ [conn])) P' El') as W.
    rewrite V' in W. fold (cc_view c) in W.
    assert (v = <[key := cc_file (set_conns val (cvConnections val ++ [conn]))]> (cc_view c)) as Ea
      by (unfold v, add_conn; fold key; by rewrite Evk).
    exists (mkConnectionImpl cache (<[l := set_conns val (cvConnections val ++ [conn])]> (<[ccNext c := fresh]> (ccHeap c)))
      (S (ccNext c)) (Counter_Inc (ccCounter c)).1 (ccClosed c)).
    split_and!; [|by rewrite Ea; exact W|done|done|by eexists; exact El'|reflexivity]. split.
    + eapply (pointers_write dead_conn cc_live); [done|done|]. split; [done|].
      split; [simpl; intros [? _]%app_nil; done|]. simpl. apply Forall_app. by repeat constructor.
    + unfold cc_view. simpl. rewrite W, <-Ea. unfold v. rewrite conn_total_add, C, int64_wrap_add_l. done.
    + simpl. intros k H%Hx. by eapply N.
  - set (filed := mkConnValue [conn] [] false).
    destruct (pointers_file dead_conn cc_live cc_file _ _ _ _ false filed P El) as (P' & W & Hl); [by repeat constructor|].
    destruct (lru_GetOrAdd_miss (ccCache c) key (ccNext c) false El) as [_ Er].
    destruct (lru_GetOrAdd (ccCache c) key (ccNext c) false) as [cache [l' new]]. cbn [fst snd] in *. simplify_eq.
    unfold cc_deref. rewrite load_insert, decide_True by done. rewrite insert_insert_eq.
    change (set_conns fresh (cvConnections fresh ++ [conn])) with filed. fold (cc_view c) in W.
    assert (v = <[key := cc_file filed]> (cc_view c)) as Ea.
    { unfold v, add_conn. fold key. apply (view_lookup_None dead_conn cc_file (ccHeap c)) in El. unfold cc_view. by rewrite El. }
    exists (mkConnectionImpl cache (<[ccNext c := filed]> (ccHeap c)) (S (ccNext c)) (Counter_Inc (ccCounter c)).1 (ccClosed c)).
    split_and!; [|by rewrite Ea; exact W|done|done|by eexists; exact Hl|reflexivity]. split; [done| |].
    + unfold cc_view. simpl. rewrite W, <-Ea. unfold v. rewrite conn_total_add, C, int64_wrap_add_l. done.
    + simpl. intros k H%Hx. by eapply N.
Qed.

(** [AddConnection] never panics: it files the connection under its remote address,
    and when the counter reaches the maximum it closes and drops all connections of one
    destination.  The counter always equals the number of cached connections, and the
    connections of an entry all lead to its address. *)
Theorem ConnectionCache_Add c conn fuel :
  cc_inv c →
  let v := add_conn (cc_view c) conn in
  let full := maxCount (ccCounter c) <=? int64_wrap (conn_total v) in
  ∃ c', AddConnection (S fuel) c conn = Some (Ok c') ∧ cc_inv c' ∧
    ((full = false ∧ cc_view c' = v ∧ ccClosed c' = ccClosed c) ∨
     (full = true ∧ ∃ k conns, v !! k = Some conns ∧ cc_view c' = delete k v ∧ ccClosed c' = ccClosed c ++ conns)).
Proof.
  intros I v full. destruct (cc_insert_spec c conn (S fuel) I) as (c1 & I1 & V1 & Cl & Hm & Hk & ->).
  assert (Counter_IsFull (ccCounter c1) = full) as Hf by (unfold Counter_IsFull, full; by rewrite Hm, (cci_counter _ I1), V1).
  rewrite Hf. destruct full eqn:Ef; [|exists c1; split; [done|]; split; [done|]; by left].
  destruct (cc_evict_spec c1 (conn_key conn) fuel I1 Hf Hk) as (c' & k & conns & -> & I' & Hv & V' & Hc').
  exists c'. split; [done|]. split; [done|]. right. split; [done|]. exists k, conns. rewrite V1 in *. by rewrite Hc', Cl.
Qed.

(** ** Closing *)

Lemma close_value_spec c k l :
  cc_inv c → lru_vals (ccCache c) !! k = Some l →
  let c' := close_value c l in
  cc_inv c' ∧ cc_view c' = delete k (cc_view c) ∧ lru_vals (ccCache c') = delete k (lru_vals (ccCache c)) ∧
  ccClosed c' = ccClosed c ++ default [] (cc_view c !! k).
Proof.
  intros I El c'. subst c'. unfold close_value. destruct (cc_entry c k l I El) as [(Hd & Hne & Hall) Ev].
  set (val := cc_deref (ccHeap c) l) in *. rewrite Hd, Ev.
  destruct (close_all_spec (ccCounter c) (ccClosed c) (cvConnections val) (cc_range _ I)) as (C1 & _ & C3).
  destruct (close_all _ _) as [counter closed]. simpl in C1, C3. subst closed.
  destruct (cvConnections val) as [|conn conns] eqn:Ec; [done|]. apply Forall_cons_1 in Hall as [-> _].
  destruct (cc_drop c k l counter (ccClosed c ++ conn :: conns) (kill_conns val) I El) as [I' V']; [by fold val; rewrite Ec|].
  split_and!; [exact I'|exact V'|apply lru_Remove_vals|done].
Qed.

Lemma close_fold L c :
  cc_inv c → NoDup L.*1 → (∀ k l, (k, l) ∈ L → lru_vals (ccCache c) !! k = Some l) →
  let c' := foldl close_value c L.*2 in
  cc_inv c' ∧ (∀ k, cc_view c' !! k = if decide (k ∈ L.*1) then None else cc_view c !! k) ∧
  (∀ x, x ∈ ccClosed c' ↔ x ∈ ccClosed c ∨ ∃ k conns, k ∈ L.*1 ∧ cc_view c !! k = Some conns ∧ x ∈ conns).
Proof.
  revert c. induction L as [|[k l] L IH]; intros c I ND HL.
  { simpl. split; [done|]. split; [done|]. intros x. split; [by left|]. intros [?|(? & ? & ?%elem_of_nil & _)]; done. }
  cbv zeta. rewrite fmap_cons in ND. rewrite !fmap_cons. cbn [foldl fst snd] in *. apply NoDup_cons in ND as [Hk ND].
  destruct (close_value_spec c k l I) as (I' & W & Hl & Hc); [apply HL; by left|].
  destruct (IH _ I' ND) as (I'' & W' & Hc').
  { intros k' l' Hin. rewrite Hl, lookup_delete_ne; [apply HL; by right|]. intros ->. apply Hk.
    by apply (list_elem_of_fmap_2 fst _ (k', l')). }
  split; [done|]. split.
  - intros k'. rewrite W', W. destruct (decide (k' = k)) as [->|Hne].
    + rewrite lookup_delete_eq. rewrite (decide_True (P:=k ∈ k :: L.*1)) by left. by case_decide.
    + rewrite lookup_delete_ne by done. apply decide_ext. rewrite elem_of_cons. naive_solver.
  - intros x. rewrite Hc', Hc, elem_of_app, W. setoid_rewrite lookup_delete_Some. setoid_rewrite elem_of_cons.
    destruct (cc_view c !! k) as [conns|] eqn:Ek; simpl.
    + split; [intros [[?|?]|(k' & cs & ? & [? ?] & ?)]; eauto 10|]. intros [?|(k' & cs & [->|?] & E & ?)]; [by auto|simplify_eq; auto|].
      right. exists k', cs. split_and!; [done| |done|done]. by intros ->.
    + rewrite elem_of_nil. split; [intros [[?|?]|(k' & cs & ? & [? ?] & ?)]; [by auto|done|eauto 10]|].
      intros [?|(k' & cs & [->|?] & E & ?)]; [by auto|congruence|]. right. exists k', cs. split_and!; [done| |done|done]. by intros ->.
Qed.

(** [GetConnection] returns the connections filed for the address;
    [CloseAndRemoveConnections] closes exactly these and removes them;
    [CloseAndRemoveAllConnections] empties the cache and closes every cached connection
    and no other.  All keep the invariant. *)
Theorem ConnectionCache_Close c addr :
  cc_inv c →
  let g := GetConnection c addr in
  let r := CloseAndRemoveConnections c addr in
  let e := CloseAndRemoveAllConnections c in
  (cc_inv g.1 ∧ cc_view g.1 = cc_view c ∧ g.2 = cc_view c !! networkAddr addr) ∧
  (cc_inv r ∧ cc_view r = delete (networkAddr addr) (cc_view c) ∧
   ccClosed r = ccClosed c ++ default [] (cc_view c !! networkAddr addr)) ∧
  (cc_inv e ∧ cc_view e = ∅ ∧
   ∀ x, x ∈ ccClosed e ↔ x ∈ ccClosed c ∨ ∃ k conns, cc_view c !! k = Some conns ∧ x ∈ conns).
Proof.
  intros I g r e. destruct (cc_lookup_spec c addr I) as (I1 & V1 & E1 & H1 & L1 & C1 & X1).
  assert (CloseAndRemoveAllConnections c = foldl close_value c (map_to_list (lru_vals (ccCache c))).*2) as Ee.
  { unfold CloseAndRemoveAllConnections, lru_GetAll, lru_vals. f_equal. rewrite map_to_list_fmap, <-!list_fmap_compose. done. }
  split; [|split].
  - subst g. unfold GetConnection. destruct (cc_lookup c addr) as [c1 o]. simpl in *. subst o. split_and!; [done..|].
    rewrite H1. destruct (lru_vals (ccCache c) !! networkAddr addr) as [l|] eqn:El; simpl.
    + destruct (cc_entry c _ l I El) as [(-> & _) ->]. done.
    + symmetry. by apply (view_lookup_None dead_conn cc_file (ccHeap c)).
  - subst r. unfold CloseAndRemoveConnections. destruct (cc_lookup c addr) as [c1 o]. simpl in *. subst o. rewrite <-V1, <-X1.
    destruct (lru_vals (ccCache c) !! networkAddr addr) as [l|] eqn:El.
    + rewrite <-L1 in El. destruct (cc_entry c1 _ l I1 El) as [(Hd & _) Ev]. rewrite Hd, Ev.
      destruct (close_all_spec (ccCounter c1) (ccClosed c1) (cvConnections (cc_deref (ccHeap c1) l)) (cc_range _ I1)) as (Z1 & _ & Z3).
      destruct (close_all _ _) as [counter closed]. simpl in Z1, Z3. subst closed.
      destruct (cc_drop c1 _ l counter (ccClosed c1 ++ cvConnections (cc_deref (ccHeap c1) l)) (kill_conns (cc_deref (ccHeap c1) l)) I1 El Z1) as [I' V'].
      split_and!; [exact I'|exact V'|done].
    + rewrite <-L1 in El. apply (view_lookup_None dead_conn cc_file (ccHeap c1)) in El. fold (cc_view c1) in El.
      rewrite El, delete_id by done. simpl. by rewrite app_nil_r.
  - subst e. rewrite Ee. destruct (close_fold (map_to_list (lru_vals (ccCache c))) c I) as (I' & V' & X').
    { apply NoDup_fst_map_to_list. } { intros ? ?. apply elem_of_map_to_list. }
    assert (∀ k conns, cc_view c !! k = Some conns → k ∈ (map_to_list (lru_vals (ccCache c))).*1) as Hin.
    { intros k conns (l & El & _)%(view_lookup_Some dead_conn cc_file).
      by apply (list_elem_of_fmap_2 fst _ (k, l)), elem_of_map_to_list. }
    split_and!; [done| |].
    + apply map_empty. intros k. rewrite V'. case_decide as Hd; [done|]. destruct (cc_view c !! k) eqn:E; [|done].
      destruct Hd. by eapply Hin.
    + intros x. rewrite X'. split; (intros [?|(k & conns & H)]; [by left|right; exists k, conns]); [naive_solver|].
      destruct H as [H ?]. split_and!; [by eapply Hin|done..].
Qed.

(** [CloseAndRemoveConnection] closes the connection and takes exactly it out of the
    cache when it is filed once.  When the only connection filed for the address is another
    one, that one is dropped from the cache without being closed. *)
Theorem CloseAndRemoveConnection_spec c conn pre post other :
  cc_inv c → conn ∉ pre → conn ∉ post → conn_key other = conn_key conn →
  (cc_view c !! conn_key conn = Some (pre ++ conn :: post) →
     ∃ c', CloseAndRemoveConnection c conn = Ok c' ∧ cc_inv c' ∧ ccClosed c' = ccClosed c ++ [conn] ∧
       cc_view c' = match pre ++ post with
                    | [] => delete (conn_key conn) (cc_view c)
                    | conns => <[conn_key conn := conns]> (cc_view c)
                    end) ∧
  (cc_view c !! conn_key conn = Some [other] →
     ∃ c', CloseAndRemoveConnection c conn = Ok c' ∧ ccClosed c' = ccClosed c ++ [conn] ∧
       cc_view c' = delete (conn_key conn) (cc_view c)).
Proof.
  intros I Hp Hq _.
  set (c0 := mkConnectionImpl (ccCache c) (ccHeap c) (ccNext c) (ccCounter c) (ccClosed c ++ [conn])).
  assert (cc_inv c0) as I0 by (destruct I; split; done).
  destruct (cc_lookup_spec c0 (RemoteAddr conn) I0) as (I1 & V1 & E1 & H1 & L1 & C1 & X1).
  unfold CloseAndRemoveConnection. fold c0. destruct (cc_lookup c0 (RemoteAddr conn)) as [c1 o]. cbn [fst snd] in *. subst o.
  change (ccClosed c1 = ccClosed c ++ [conn]) in X1. change (cc_view c1 = cc_view c) in V1. fold (conn_key conn). clear C1.
  assert (∀ conns, cc_view c !! conn_key conn = Some conns → ∃ l, lru_vals (ccCache c0) !! conn_key conn = Some l ∧
    lru_vals (ccCache c1) !! conn_key conn = Some l ∧ ccDeleted (cc_deref (ccHeap c1) l) = false ∧
    cvConnections (cc_deref (ccHeap c1) l) = conns) as Hfind.
  { intros conns Hc. rewrite <-V1 in Hc. apply (view_lookup_Some dead_conn cc_file) in Hc as (l & El & ->).
    exists l. rewrite <-L1. destruct (cc_entry c1 _ l I1 El) as [(? & _) _]. done. }
  assert (∀ l conns, length conns = 1%nat → lru_vals (ccCache c1) !! conn_key conn = Some l → cvConnections (cc_deref (ccHeap c1) l) = conns →
    let c' := mkConnectionImpl (lru_Remove (ccCache c1) (conn_key conn)).1 (<[l := kill_conns (cc_deref (ccHeap c1) l)]> (ccHeap c1))
                (ccNext c1) (Counter_Dec (ccCounter c1)) (ccClosed c1) in
    cc_inv c' ∧ cc_view c' = delete (conn_key conn) (cc_view c)) as Hlast.
  { intros l conns Hl El Hc. rewrite <-V1. apply cc_drop; [done..|]. rewrite Hc, Hl. done. }
  split; intros Hc; destruct (Hfind _ Hc) as (l & -> & El & -> & Ec); rewrite Ec.
  - destruct (decide (pre ++ post = [])) as [[-> ->]%app_eq_nil|Hne].
    + simpl. destruct (Hlast l [conn]) as [I' V']; [done..|]. eexists. split_and!; [done|exact I'|exact X1|exact V'].
    + assert (length (pre ++ post) ≠ 0)%nat as Hl0 by (by destruct (pre ++ post)). rewrite length_app in Hl0.
      assert (1 <? length (pre ++ conn :: post) = true)%nat as ->.
      { apply Nat.ltb_lt. rewrite length_app. simpl. lia. }
      rewrite (remove_loop_once conn pre post (ccCounter c1) Hp Hq). simpl.
      destruct (cc_entry c1 _ l I1 El) as [(Hd & _ & Hall) Ev]. rewrite Ec in Hall, Ev.
      set (val := cc_deref (ccHeap c1) l) in *.
      pose proof (view_write dead_conn cc_live cc_file _ _ _ _ _ (set_conns val (pre ++ post)) (cci_pointers _ I1) El) as W.
      fold (cc_view c1) in W. rewrite V1 in W.
      eexists. split_and!; [done| |exact X1|destruct (pre ++ post) eqn:Epp; [done|exact W]].
      split; unfold cc_view; simpl; rewrite ?W.
      * eapply (pointers_write dead_conn cc_live); [apply I1|done|]. split; [done|]. split; [done|]. simpl.
        apply Forall_app in Hall as [? [_ ?]%Forall_cons_1]. by apply Forall_app.
      * rewrite (cci_counter _ I1), V1. rewrite V1 in Ev. unfold conn_total. rewrite (map_sum_update _ _ _ _ _ Ev).
        unfold cc_file. simpl. rewrite !length_app. unfold Z.sub at 1. rewrite int64_wrap_add_l. f_equal. simpl. lia.
      * apply I1.
  - simpl. destruct (Hlast l [other]) as [I' V']; [done..|]. eexists. split_and!; [done|exact X1|exact V'].
Qed.

(** ** Witnesses *)

Lemma NewConnection_inv maxSize : cc_inv (NewConnection maxSize) ∧ cc_view (NewConnection maxSize) = ∅.
Proof.
  destruct (pointers_New dead_conn cc_live cc_file) as [P W]. change (cc_view (NewConnection maxSize) = ∅) in W.
  split; [|done]. split; rewrite ?W; simpl; [done|unfold conn_total; by rewrite map_sum_empty|].
  intros k (e & He & _). simpl in He. by rewrite lookup_empty in He.
Qed.

Definition w_conn (n : nat) : Conn := mkConn n (mkAddr "tcp" "10.0.0.1:55553").

(** A cache with one connection. *)
Lemma w_one_conn : ∃ c, cc_inv c ∧ cc_view c = {[ "tcp 10.0.0.1:55553" := [w_conn 1] ]} ∧ ccClosed c = [].
Proof.
  destruct (NewConnection_inv 5) as [I V].
  destruct (cc_insert_spec (NewConnection 5) (w_conn 1) 1 I) as (c & Ic & Vc & Xc & _). exists c.
  split; [done|]. split; [|done]. by rewrite Vc, V.
Qed.

Lemma ConnectionCache_Add_witness :
  ∃ c', AddConnection 1 (NewConnection 1) (w_conn 1) = Some (Ok c') ∧ cc_view c' = ∅ ∧ ccClosed c' = [w_conn 1].
Proof.
  destruct (NewConnection_inv 1) as [I V].
  destruct (ConnectionCache_Add (NewConnection 1) (w_conn 1) 0 I) as (c' & E & _ & _).
  vm_compute in E. injection E as <-. eexists. split; [vm_compute; reflexivity|]. split; vm_compute; reflexivity.
Defined.

Lemma ConnectionCache_Close_witness :
  ∃ c, (GetConnection c (mkAddr "tcp" "10.0.0.1:55553")).2 = Some [w_conn 1] ∧
    ccClosed (CloseAndRemoveConnections c (mkAddr "tcp" "10.0.0.1:55553")) = [w_conn 1] ∧
    cc_view (CloseAndRemoveAllConnections c) = ∅.
Proof.
  destruct w_one_conn as (c & I & V & X). exists c.
  destruct (ConnectionCache_Close c (mkAddr "tcp" "10.0.0.1:55553") I) as ((_ & _ & G) & (_ & _ & R) & (_ & E & _)).
  rewrite G, R, E, V, X. repeat split; vm_compute; reflexivity.
Defined.

Lemma CloseAndRemoveConnection_spec_witness :
  ∃ c c', CloseAndRemoveConnection c (w_conn 2) = Ok c' ∧ cc_view c' = ∅ ∧ ccClosed c' = [w_conn 2].
Proof.
  destruct w_one_conn as (c & I & V & X). exists c.
  destruct (CloseAndRemoveConnection_spec c (w_conn 2) [] [] (w_conn 1) I) as [_ H];
    [apply not_elem_of_nil|apply not_elem_of_nil|reflexivity|].
  destruct H as (c' & E & X' & V'); [rewrite V; vm_compute; reflexivity|].
  exists c'. split; [exact E|]. rewrite V', X', V, X. split; vm_compute; reflexivity.
Defined.
