(* ===== verification/PendingCaches.v ===== *)
(** * Caches of pending queries

    Models attic/internal/pkg/cache/pendingQueryCache.go and pendingKeyCache.go: messages
    that wait for the answer to a query this server sent, indexed by the query's token. *)

From S2P Require Import Prelude Cbor Keys Object Query BitArray BloomFilter Section Message Containers ConnectionCache.
Local Open Scope Z_scope.

(** rainslibUtil.go *)
Record MsgSectionSender := mkMsgSectionSender {
  mssSender : Addr;
  mssSections : list AnySection;
  mssToken : Token
}.
Definition zeroSender : MsgSectionSender := mkMsgSectionSender (mkAddr "" "") [] (replicate 16 0).

(** ** Pending queries *)

Record pqcValue := mkPqcValue { pqcSss : list MsgSectionSender; pqcExpiration : Z }.

(** [fmt.Sprintf("%d", types)] *)
Definition fmt_types (types : list Z) : string := ("[" +:+ str_join " " (dec <$> types) +:+ "]")%string.

Definition query_keys (q : QueryName) : list string :=
  (λ t, if t =? OTDelegation
        then (qName q +:+ ":" +:+ qContext q +:+ ":" +:+ fmt_types (qTypes q) +:+ ":" +:+ dec (qKeyPhase q))%string
        else (qName q +:+ ":" +:+ qContext q +:+ ":" +:+ fmt_types (qTypes q))%string) <$> qTypes q.

Fixpoint pqcKey_loop (result : list string) (sections : list AnySection) : outcome (list string) :=
  match sections with
  | [] => Ok result
  | SecQuery q :: sections' => pqcKey_loop (result ++ query_keys q) sections'
  | _ :: _ => Err "sections MUST only contain queries"
  end.
Definition pqcKey (sections : list AnySection) : outcome string :=
  result ← pqcKey_loop [] sections; Ok (str_join "::" result).

Record PendingQueryImpl := mkPendingQuery {
  queryMap : gmap string Token;
  pqTokenMap : gmap Token pqcValue;
  pqCounter : Counter
}.

Definition NewPendingQuery (maxSize : Z) : PendingQueryImpl := mkPendingQuery ∅ ∅ (Counter_New maxSize).

(** [now] is [time.Now().Unix()]; the token the query map holds is dereferenced in
    [tokenMap] without a test. *)
Definition PendingQuery_Add (now : Z) (c : PendingQueryImpl) (ss : MsgSectionSender) (t : Token) (expiration : Z)
    : outcome (PendingQueryImpl * bool) :=
  if Counter_IsFull (pqCounter c) then Ok (c, false)
  else match pqcKey (mssSections ss) with
       | Err _ => Ok (c, false)
       | Panic msg => Panic msg
       | Ok qmKey =>
           let counter := (Counter_Inc (pqCounter c)).1 in
           let add := Ok (mkPendingQuery (<[qmKey := t]> (queryMap c))
                            (<[t := mkPqcValue [ss] expiration]> (pqTokenMap c)) counter, true) in
           match queryMap c !! qmKey with
           | None => add
           | Some t' =>
               val ← or_panic (pqTokenMap c !! t') "nil pointer dereference";
               if now <? pqcExpiration val
               then Ok (mkPendingQuery (queryMap c)
                          (<[t' := mkPqcValue (pqcSss val ++ [ss]) (pqcExpiration val)]> (pqTokenMap c)) counter, false)
               else add
           end
       end.

(** The two maps and the counter without the entry of one token: shared by the next two
    methods.  The value of a failing [pqcKey] is the empty string. *)
Definition pq_drop (c : PendingQueryImpl) (t : Token) (val : pqcValue) : outcome PendingQueryImpl :=
  ss ← at_index (pqcSss val) 0;
  let key := match pqcKey (mssSections ss) with Ok key => key | _ => ""%string end in
  Ok (mkPendingQuery (delete key (queryMap c)) (delete t (pqTokenMap c))
        (Counter_Sub (pqCounter c) (Z.of_nat (length (pqcSss val))))).

Definition PendingQuery_GetAndRemove (c : PendingQueryImpl) (t : Token) : outcome (PendingQueryImpl * list MsgSectionSender) :=
  match pqTokenMap c !! t with
  | Some val => c' ← pq_drop c t val; Ok (c', pqcSss val)
  | None => Ok (c, [])
  end.

Definition pq_expire (now : Z) (c : outcome PendingQueryImpl) (kv : Token * pqcValue) : outcome PendingQueryImpl :=
  c' ← c; if pqcExpiration kv.2 <? now then pq_drop c' kv.1 kv.2 else Ok c'.
Definition PendingQuery_RemoveExpiredValues (now : Z) (c : PendingQueryImpl) : outcome PendingQueryImpl :=
  foldl (pq_expire now) (Ok c) (map_to_list (pqTokenMap c)).

Definition PendingQuery_Len (c : PendingQueryImpl) : Z := Counter_Value (pqCounter c).

(** ** Pending keys *)

Record pkcValue := mkPkcValue { pkcMss : MsgSectionSender; pkcExpiration : Z }.
Record PendingKeyImpl := mkPendingKey { pkTokenMap : Map pkcValue; pkCounter : Counter }.

Definition NewPendingKey (maxSize : Z) : PendingKeyImpl := mkPendingKey Map_New (Counter_New maxSize).

Definition PendingKey_Add (c : PendingKeyImpl) (ss : MsgSectionSender) (t : Token) (expiration : Z) : PendingKeyImpl :=
  if Counter_IsFull (pkCounter c) then c
  else
    let '(m, ok) := Map_Add (pkTokenMap c) (Token_String t) (mkPkcValue ss expiration) in
    if ok : bool then mkPendingKey m (Counter_Inc (pkCounter c)).1 else mkPendingKey m (pkCounter c).

Definition PendingKey_GetAndRemove (c : PendingKeyImpl) (t : Token) : PendingKeyImpl * (MsgSectionSender * bool) :=
  match Map_Get (pkTokenMap c) (Token_String t) with
  | Some val => (mkPendingKey (Map_Remove (pkTokenMap c) (Token_String t)).1 (Counter_Dec (pkCounter c)), (pkcMss val, true))
  | None => (c, (zeroSender, false))
  end.

Definition PendingKey_ContainsToken (c : PendingKeyImpl) (t : Token) : bool :=
  bool_decide (is_Some (Map_Get (pkTokenMap c) (Token_String t))).

Definition pk_expire (now : Z) (c : PendingKeyImpl) (key : string) : PendingKeyImpl :=
  match Map_Get (pkTokenMap c) key with
  | Some val => if pkcExpiration val <? now
                then mkPendingKey (Map_Remove (pkTokenMap c) key).1 (Counter_Dec (pkCounter c)) else c
  | None => c
  end.
Definition PendingKey_RemoveExpiredValues (now : Z) (c : PendingKeyImpl) : PendingKeyImpl :=
  foldl (pk_expire now) c (Map_GetAllKeys (pkTokenMap c)).

Definition PendingKey_Len (c : PendingKeyImpl) : Z := Map_Len (pkTokenMap c).

(** ** The invariant of the pending query cache *)

Definition waiting (m : gmap Token pqcValue) : Z := map_sum (λ v, Z.of_nat (length (pqcSss v))) m.

Record pq_inv (c : PendingQueryImpl) : Prop := {
  (* a query in the query map is waited for under its token *)
  pqi_query k t : queryMap c !! k = Some t →
    ∃ v, pqTokenMap c !! t = Some v ∧ Forall (λ ss, pqcKey (mssSections ss) = Ok k) (pqcSss v);
  (* the senders waiting for a token all asked the same *)
  pqi_token t v : pqTokenMap c !! t = Some v →
    pqcSss v ≠ [] ∧ ∃ k, Forall (λ ss, pqcKey (mssSections ss) = Ok k) (pqcSss v);
  pqi_counter : count (pqCounter c) = int64_wrap (waiting (pqTokenMap c))
}.

Lemma waiting_delete m t v : m !! t = Some v → waiting (delete t m) = waiting m - Z.of_nat (length (pqcSss v)).
Proof. intros E. unfold waiting. by rewrite (map_sum_delete _ _ _ v). Qed.

Lemma pq_drop_spec c t val :
  pq_inv c → pqTokenMap c !! t = Some val →
  ∃ c', pq_drop c t val = Ok c' ∧ pq_inv c' ∧ pqTokenMap c' = delete t (pqTokenMap c) ∧
    (∀ k t', queryMap c' !! k = Some t' → queryMap c !! k = Some t').
Proof.
  intros [Q T C] E. destruct (T t val E) as [Hne [k Hk]]. unfold pq_drop.
  destruct (pqcSss val) as [|ss sss] eqn:Es; [done|]. simpl. apply Forall_cons_1 in Hk as [Hs Hk]. rewrite Hs.
  eexists. split; [done|]. split; [|split; [done|simpl; intros k' t' H; by apply lookup_delete_Some in H as [_ H]]]. split; simpl.
  - intros k' t' [Hne' H]%lookup_delete_Some. destruct (Q k' t' H) as (v & Hv & HF). exists v. split; [|done].
    apply lookup_delete_Some. split; [|done]. intros <-. rewrite E in Hv. simplify_eq.
    rewrite Es in HF. apply Forall_cons_1 in HF as [HF _]. congruence.
  - intros t' v [_ H]%lookup_delete_Some. by apply (T t').
  - rewrite C, (waiting_delete _ _ _ E), Es, int64_wrap_add_r, int64_wrap_add_l. done.
Qed.

(** With a fresh token, [Add] never panics and keeps the invariant: it refuses on a full
    cache or when a section is not a query; it joins the senders waiting for the same
    queries while the outstanding one has not expired, and reports false; otherwise it
    starts a new entry and reports true, so the caller forwards the query. *)
Theorem PendingQuery_Add_spec now c ss t expiration :
  pq_inv c → pqTokenMap c !! t = None →
  ∃ c' forward, PendingQuery_Add now c ss t expiration = Ok (c', forward) ∧ pq_inv c' ∧
    ((forward = false ∧ c' = c ∧ (Counter_IsFull (pqCounter c) = true ∨ is_err (pqcKey (mssSections ss)) = true)) ∨
     (∃ k, Counter_IsFull (pqCounter c) = false ∧ pqcKey (mssSections ss) = Ok k ∧
        ((forward = false ∧ ∃ t' v, queryMap c !! k = Some t' ∧ pqTokenMap c !! t' = Some v ∧ now < pqcExpiration v ∧
            queryMap c' = queryMap c ∧
            pqTokenMap c' = <[t' := mkPqcValue (pqcSss v ++ [ss]) (pqcExpiration v)]> (pqTokenMap c)) ∨
         (forward = true ∧ (∀ t' v, queryMap c !! k = Some t' → pqTokenMap c !! t' = Some v → pqcExpiration v ≤ now) ∧
            queryMap c' = <[k := t]> (queryMap c) ∧
            pqTokenMap c' = <[t := mkPqcValue [ss] expiration]> (pqTokenMap c))))).
Proof.
  intros I Ht. unfold PendingQuery_Add. destruct (Counter_IsFull (pqCounter c)) eqn:Ef; [by eauto 10|].
  destruct (pqcKey (mssSections ss)) as [k|msg|msg] eqn:Ek; [|by eauto 10|].
  2:{ exfalso. unfold pqcKey in Ek. assert (∀ l r, np (pqcKey_loop r l)) as Hn by (intros l; induction l as [|[] l IH]; intros r; simpl; done || apply IH).
      specialize (Hn (mssSections ss) []). destruct (pqcKey_loop _ _); done. }
  assert (pq_inv (mkPendingQuery (<[k := t]> (queryMap c)) (<[t := mkPqcValue [ss] expiration]> (pqTokenMap c)) (Counter_Inc (pqCounter c)).1)) as Inew.
  { destruct I as [Q T C]. split; simpl.
    - intros k' t' [[<- <-]|[Hne H]]%lookup_insert_Some; [eexists; rewrite lookup_insert_eq; split; [done|by apply Forall_singleton]|].
      destruct (Q k' t' H) as (v & Hv & HF). exists v. split; [|done]. rewrite lookup_insert_ne; [done|congruence].
    - intros t' v [[<- <-]|[Hne H]]%lookup_insert_Some; [split; [done|exists k; by apply Forall_singleton]|by apply (T t')].
    - rewrite C, int64_wrap_add_l. unfold waiting. rewrite map_sum_insert by done. simpl. f_equal. lia. }
  destruct (queryMap c !! k) as [t'|] eqn:Eq; [|eexists _, true; split; [done|]; split; [exact Inew|]; right; exists k; naive_solver].
  destruct (pqi_query _ I k t' Eq) as (v & Hv & HF). rewrite Hv. simpl. destruct (Z.ltb_spec now (pqcExpiration v)) as [Hlt|Hge].
  - eexists _, false. split; [done|]. split; [|right; exists k; split_and!; [done..|left; split; [done|]; exists t', v; done]].
    destruct I as [Q T C]. split; simpl.
    + intros k' t2 H. destruct (decide (t' = t2)) as [<-|Hne].
      * eexists. rewrite lookup_insert_eq. split; [done|]. simpl.
        destruct (Q k' t' H) as (v' & Hv' & HF'). rewrite Hv in Hv'. simplify_eq. apply Forall_app. split; [done|]. apply Forall_singleton.
        destruct (pqcSss v') as [|s0 sss] eqn:Es; [by destruct (T _ _ Hv) as [? _]|].
        apply Forall_cons_1 in HF as [HF _]. apply Forall_cons_1 in HF' as [HF' _]. congruence.
      * rewrite lookup_insert_ne by done. by apply Q.
    + intros t2 v2 [[<- <-]|[Hne H]]%lookup_insert_Some; [|by apply (T t2)]. simpl. split; [by intros [_ ?]%app_nil|].
      exists k. apply Forall_app. split; [done|by apply Forall_singleton].
    + rewrite C, int64_wrap_add_l. unfold waiting. rewrite (map_sum_update _ _ _ v) by done. simpl. rewrite length_app. f_equal. simpl. lia.
  - eexists _, true. split; [done|]. split; [exact Inew|]. right. exists k. split_and!; [done..|]. right. split_and!; [done| |done..].
    intros t2 v2 H2 Hv2. rewrite Eq in H2. simplify_eq. done.
Qed.

Lemma pq_expire_fold now L c :
  pq_inv c → NoDup L.*1 → (∀ t v, (t, v) ∈ L → pqTokenMap c !! t = Some v) →
  ∃ c', foldl (pq_expire now) (Ok c) L = Ok c' ∧ pq_inv c' ∧
    ∀ t v, pqTokenMap c' !! t = Some v ↔ pqTokenMap c !! t = Some v ∧ ¬ (t ∈ L.*1 ∧ pqcExpiration v < now).
Proof.
  revert c. induction L as [|[t v] L IH]; intros c I ND HL.
  { exists c. split_and!; [done..|]. intros t v. rewrite elem_of_nil. naive_solver. }
  rewrite fmap_cons in ND |- *. cbn [foldl fst] in *. apply NoDup_cons in ND as [Hk ND].
  pose proof (HL t v ltac:(left)) as Ev.
  change (pq_expire now (Ok c) (t, v)) with (if pqcExpiration v <? now then pq_drop c t v else Ok c). destruct (Z.ltb_spec (pqcExpiration v) now) as [Hlt|Hge].
  - destruct (pq_drop_spec c t v I Ev) as (c1 & -> & I1 & T1 & _).
    destruct (IH c1 I1 ND) as (c' & E & I' & T').
    { intros t' v' Hin. rewrite T1, lookup_delete_ne; [apply HL; by right|]. intros ->. apply Hk.
      by apply (list_elem_of_fmap_2 fst _ (t', v')). }
    exists c'. split_and!; [done..|]. intros t' v'. rewrite T', T1, lookup_delete_Some, elem_of_cons.
    split; [naive_solver|]. intros [Hv Hn]. assert (t ≠ t') by (intros <-; rewrite Ev in Hv; simplify_eq; apply Hn; auto). naive_solver.
  - destruct (IH c I ND) as (c' & E & I' & T'); [intros; apply HL; by right|].
    exists c'. split_and!; [done..|]. intros t' v'. rewrite T', elem_of_cons.
    split; [|naive_solver]. intros [Hv Hn]. split; [done|]. intros [[->|Hin] Hlt]; [|by apply Hn].
    rewrite Ev in Hv. simplify_eq. lia.
Qed.

(** An answer is delivered once: [GetAndRemove] returns the senders waiting for the
    token in the order they were added and forgets them, so asking again returns nothing.
    [RemoveExpiredValues] drops exactly the expired entries.  Neither panics, both keep the
    invariant, and [Len] is the number of waiting senders. *)
Theorem PendingQuery_remove_spec now c t :
  pq_inv c → waiting (pqTokenMap c) < 2 ^ 63 →
  (∃ c', PendingQuery_GetAndRemove c t = Ok (c', default [] (pqcSss <$> pqTokenMap c !! t)) ∧ pq_inv c' ∧
     pqTokenMap c' = delete t (pqTokenMap c) ∧ PendingQuery_GetAndRemove c' t = Ok (c', [])) ∧
  (∃ c', PendingQuery_RemoveExpiredValues now c = Ok c' ∧ pq_inv c' ∧
     pqTokenMap c' = filter (λ p, now ≤ pqcExpiration p.2) (pqTokenMap c)) ∧
  PendingQuery_Len c = waiting (pqTokenMap c).
Proof.
  intros I Hb. split_and!.
  - unfold PendingQuery_GetAndRemove. destruct (pqTokenMap c !! t) as [v|] eqn:E.
    + destruct (pq_drop_spec c t v I E) as (c' & -> & I' & T' & _). exists c'. simpl. split_and!; [done..|].
      by rewrite T', lookup_delete_eq.
    + exists c. simpl. split_and!; [done|done|by rewrite delete_id|by rewrite E].
  - destruct (pq_expire_fold now (map_to_list (pqTokenMap c)) c I) as (c' & E & I' & T').
    { apply NoDup_fst_map_to_list. } { intros ? ?. apply elem_of_map_to_list. }
    exists c'. split_and!; [done..|]. apply map_eq. intros t'. apply option_eq. intros v.
    rewrite T', map_lookup_filter_Some. simpl. split; intros [Hv Hn]; (split; [done|]).
    + apply Z.nlt_ge. intros Hlt. apply Hn. split; [|done]. apply (list_elem_of_fmap_2 fst _ (t', v)). by apply elem_of_map_to_list.
    + lia.
  - unfold PendingQuery_Len, Counter_Value. rewrite (pqi_counter _ I), int64_wrap_id; [done|].
    pose proof (map_sum_nonneg (λ v, Z.of_nat (length (pqcSss v))) (pqTokenMap c) (λ v, Nat2Z.is_nonneg _)).
    unfold in_int64, waiting in *. lia.
Qed.

Lemma NewPendingQuery_inv n : pq_inv (NewPendingQuery n).
Proof. split; simpl; [intros k t|intros t v|unfold waiting; by rewrite map_sum_empty]; by rewrite lookup_empty. Qed.

Definition w_query (name : string) : MsgSectionSender :=
  mkMsgSectionSender (mkAddr "tcp" "10.0.0.1:1") [SecQuery (mkQueryName "." name [OTIP4Addr] 0 [] 0 0)] (replicate 16 9).
Definition w_token : Token := replicate 16 1.

(** The freshness of tokens is needed: adding two different queries under one token,
    answering it and asking the first query again makes [Add] dereference a nil entry. *)
Theorem PendingQuery_reused_token_panics :
  ∃ c1 c2 c3 sss msg,
    PendingQuery_Add 0 (NewPendingQuery 10) (w_query "a.ch.") w_token 100 = Ok (c1, true) ∧
    PendingQuery_Add 0 c1 (w_query "b.ch.") w_token 100 = Ok (c2, true) ∧
    PendingQuery_GetAndRemove c2 w_token = Ok (c3, sss) ∧
    PendingQuery_Add 0 c3 (w_query "a.ch.") (replicate 16 2) 100 = Panic msg.
Proof. do 5 eexists. repeat split; vm_compute; reflexivity. Qed.

Lemma PendingQuery_Add_spec_witness :
  ∃ c', PendingQuery_Add 0 (NewPendingQuery 10) (w_query "a.ch.") w_token 100 = Ok (c', true) ∧ pq_inv c'.
Proof.
  destruct (PendingQuery_Add_spec 0 (NewPendingQuery 10) (w_query "a.ch.") w_token 100 (NewPendingQuery_inv 10) eq_refl)
    as (c' & f & E & I' & _).
  exists c'. split; [|exact I']. rewrite E. vm_compute in E. injection E as _ <-. reflexivity.
Defined.

Lemma PendingQuery_remove_spec_witness :
  ∃ c c', pq_inv c ∧ PendingQuery_GetAndRemove c w_token = Ok (c', [w_query "a.ch."]).
Proof.
  pose (c := mkPendingQuery {[ "a.ch.:.:[3]" := w_token ]} {[ w_token := mkPqcValue [w_query "a.ch."] 100 ]} (mkCounter 10 1)).
  assert (pq_inv c) as I.
  { unfold c. split; cbn [queryMap pqTokenMap pqCounter]; [intros k t [<- <-]%lookup_singleton_Some|intros t v [<- <-]%lookup_singleton_Some|vm_compute; reflexivity].
    - eexists. split; [vm_compute; reflexivity|]. apply Forall_singleton. vm_compute. reflexivity.
    - split; [discriminate|]. eexists. apply Forall_singleton. vm_compute. reflexivity. }
  destruct (PendingQuery_remove_spec 0 c w_token I ltac:(vm_compute; reflexivity)) as [(c' & E & _) _].
  exists c, c'. split; [exact I|]. rewrite E. reflexivity.
Defined.

(** ** Pending keys *)

Definition pk_inv (c : PendingKeyImpl) : Prop := count (pkCounter c) = int64_wrap (Map_Len (pkTokenMap c)).

Lemma pk_remove_present c key v :
  pk_inv c → hashMap (pkTokenMap c) !! key = Some v →
  pk_inv (mkPendingKey (Map_Remove (pkTokenMap c) key).1 (Counter_Dec (pkCounter c))).
Proof.
  unfold pk_inv, Map_Len. simpl. intros -> E. rewrite map_size_delete_Some by eauto. unfold Z.sub. rewrite int64_wrap_add_l.
  f_equal. assert (size (hashMap (pkTokenMap c)) ≠ 0)%nat; [|lia].
  intros H0%map_size_empty_iff. rewrite H0 in E. by rewrite lookup_empty in E.
Qed.

Lemma pk_expire_fold now ks c :
  pk_inv c →
  pk_inv (foldl (pk_expire now) c ks) ∧
  ∀ k v, hashMap (pkTokenMap (foldl (pk_expire now) c ks)) !! k = Some v ↔
    hashMap (pkTokenMap c) !! k = Some v ∧ ¬ (k ∈ ks ∧ pkcExpiration v < now).
Proof.
  revert c. induction ks as [|k0 ks IH]; intros c I; simpl.
  { split; [done|]. intros k v. rewrite elem_of_nil. naive_solver. }
  unfold pk_expire at 2 4, Map_Get. destruct (hashMap (pkTokenMap c) !! k0) as [v0|] eqn:E.
  - destruct (Z.ltb_spec (pkcExpiration v0) now).
    + destruct (IH _ (pk_remove_present c k0 v0 I E)) as [I' H']. split; [done|]. intros k v. rewrite H'. simpl.
      rewrite lookup_delete_Some, elem_of_cons. split; [naive_solver|]. intros [Hv Hn].
      assert (k0 ≠ k) by (intros <-; rewrite E in Hv; simplify_eq; apply Hn; auto). naive_solver.
    + destruct (IH c I) as [I' H']. split; [done|]. intros k v. rewrite H', elem_of_cons. split; [|naive_solver].
      intros [Hv Hn]. split; [done|]. intros [[->|?] ?]; [rewrite E in Hv; simplify_eq; lia|naive_solver].
  - destruct (IH c I) as [I' H']. split; [done|]. intros k v. rewrite H', elem_of_cons. split; [|naive_solver].
    intros [Hv Hn]. split; [done|]. intros [[->|?] ?]; [congruence|naive_solver].
Qed.

Lemma PendingKey_Add_inv c ss t expiration : pk_inv c → pk_inv (PendingKey_Add c ss t expiration).
Proof.
  intros I. unfold PendingKey_Add. destruct (Counter_IsFull (pkCounter c)); [done|].
  pose proof (Map_Add_fresh (pkTokenMap c) (Token_String t) (mkPkcValue ss expiration)) as Hf.
  unfold pk_inv, Map_Len in *. destruct (Map_Add _ _ _) as [m ok] eqn:Em. unfold Map_Add in Em. simplify_eq. simpl in *.
  rewrite Hf. destruct (hashMap (pkTokenMap c) !! Token_String t) eqn:E.
  - rewrite bool_decide_false by done. simpl. by rewrite map_size_insert_Some by eauto.
  - rewrite bool_decide_true by done. simpl. rewrite I, map_size_insert_None, int64_wrap_add_l by done. f_equal. lia.
Qed.

Lemma PendingKey_GetAndRemove_inv c t : pk_inv c → pk_inv (PendingKey_GetAndRemove c t).1.
Proof.
  intros I. unfold PendingKey_GetAndRemove, Map_Get. destruct (hashMap (pkTokenMap c) !! Token_String t) eqn:E; [|done].
  by eapply pk_remove_present.
Qed.

(** A message added to the pending key cache with room left is found under its token
    and returned exactly once; a full cache drops it; expired entries are removed and no
    others; and the counter used for the capacity equals the number of tokens. *)
Theorem PendingKey_spec now c ss t expiration :
  pk_inv c →
  let c1 := PendingKey_Add c ss t expiration in
  let r := PendingKey_GetAndRemove c1 t in
  let e := PendingKey_RemoveExpiredValues now c in
  (pk_inv c1 ∧ (Counter_IsFull (pkCounter c) = true → c1 = c) ∧
   (Counter_IsFull (pkCounter c) = false →
      PendingKey_ContainsToken c1 t = true ∧ r.2 = (ss, true) ∧ PendingKey_ContainsToken r.1 t = false ∧
      PendingKey_GetAndRemove r.1 t = (r.1, (zeroSender, false)))) ∧
  pk_inv r.1 ∧ pk_inv e ∧
  hashMap (pkTokenMap e) = filter (λ p, now ≤ pkcExpiration p.2) (hashMap (pkTokenMap c)).
Proof.
  intros I c1 r e. pose proof (PendingKey_Add_inv c ss t expiration I) as I1. fold c1 in I1.
  split; [split; [done|split]|split_and!].
  - intros Hf. unfold c1, PendingKey_Add. by rewrite Hf.
  - intros Hf. assert (hashMap (pkTokenMap c1) !! Token_String t = Some (mkPkcValue ss expiration)) as E.
    { unfold c1, PendingKey_Add. rewrite Hf. destruct (Map_Add _ _ _) as [m ok] eqn:Em. unfold Map_Add in Em. simplify_eq.
      destruct (bool_decide _); simpl; apply lookup_insert_eq. }
    subst r. unfold PendingKey_ContainsToken, PendingKey_GetAndRemove, Map_Get. rewrite E. simpl. rewrite lookup_delete_eq.
    split_and!; [done..].
  - by apply PendingKey_GetAndRemove_inv.
  - by apply pk_expire_fold.
  - apply map_eq. intros k. apply option_eq. intros v. unfold e, PendingKey_RemoveExpiredValues.
    rewrite (proj2 (pk_expire_fold now _ c I)), Map_GetAllKeys_spec, map_lookup_filter_Some. simpl.
    split; intros [Hv Hn]; (split; [done|]); [|lia]. apply Z.nlt_ge. intros Hlt. apply Hn. split; [by eexists|done].
Qed.

Lemma PendingKey_spec_witness :
  let c1 := PendingKey_Add (NewPendingKey 3) (w_query "a.ch.") w_token 100 in
  PendingKey_ContainsToken c1 w_token = true ∧ (PendingKey_GetAndRemove c1 w_token).2 = (w_query "a.ch.", true).
Proof.
  destruct (PendingKey_spec 0 (NewPendingKey 3) (w_query "a.ch.") w_token 100 eq_refl) as [(_ & _ & H) _].
  destruct (H eq_refl) as (H1 & H2 & _). split; [exact H1|exact H2].
Defined.
