(* ===== verification/CapabilityCache.v ===== *)
(** * The capability cache

    Models attic/internal/pkg/cache/capabilityCache.go: capability lists indexed by the
    SHA-256 hash of their sorted concatenation. *)

From S2P Require Import Prelude Cbor Keys Object Query BitArray BloomFilter Section Message Containers LruCache.
Local Open Scope Z_scope.

Record CapabilityImpl := mkCapabilityImpl { capabilityMap : Cache (list string); capCounter : Counter }.

Definition tls_key : string := "e5365a09be554ae55b855f15264dbc837b04f5831daeb321359e18cdabab5745".
Definition none_key : string := "76be8b528d0075f7aae98d6fa57a6d3c83ae480a8469e668d7b0af968995ac71".

Definition NewCapability (maxSize : Z) : CapabilityImpl :=
  let m := (lru_GetOrAdd lru_New tls_key [TLSOverTCP] true).1 in
  let m := (lru_GetOrAdd m none_key [NoCapability] false).1 in
  mkCapabilityImpl m (Counter_Add (Counter_New maxSize) 2).1.

(** [for { k, _ := GetLeastRecentlyUsed(); if _, ok := Remove(k); ok { Dec; break } }] *)
Fixpoint cap_evict (fuel : nat) (c : CapabilityImpl) : option CapabilityImpl :=
  match fuel with
  | O => None
  | S fuel' =>
      let '(k, _) := lru_GetLeastRecentlyUsed (capabilityMap c) in
      let '(m, v) := lru_Remove (capabilityMap c) k in
      match v with
      | Some _ => Some (mkCapabilityImpl m (Counter_Dec (capCounter c)))
      | None => cap_evict fuel' (mkCapabilityImpl m (capCounter c))
      end
  end.

Section Capability.
Context {SL : Sha256Lib}.

Definition cap_sort (capabilities : list string) : list string := sort_slice str_ltb capabilities.
Definition cap_hash (capabilities : list string) : list Z :=
  sha256_Sum256 (mjoin (bytes_of_string <$> cap_sort capabilities)).

(** The caller's slice is sorted in place; the sorted slice is what is stored. *)
Definition Capability_Add (fuel : nat) (c : CapabilityImpl) (capabilities : list string) : option CapabilityImpl :=
  let '(m, (_, ok)) := lru_GetOrAdd (capabilityMap c) (string_of_bytes (cap_hash capabilities)) (cap_sort capabilities) false in
  if ok : bool
  then let '(counter, full) := Counter_Inc (capCounter c) in
       if full : bool then cap_evict fuel (mkCapabilityImpl m counter) else Some (mkCapabilityImpl m counter)
  else Some (mkCapabilityImpl m (capCounter c)).

Definition Capability_Get (c : CapabilityImpl) (hash : list Z) : CapabilityImpl * option (list string) :=
  let '(m, v) := lru_Get (capabilityMap c) (string_of_bytes hash) in (mkCapabilityImpl m (capCounter c), v).
Definition Capability_Len (c : CapabilityImpl) : Z := Counter_Value (capCounter c).

Definition cap_vals (c : CapabilityImpl) : gmap string (list string) := lru_vals (capabilityMap c).
Record cap_inv (c : CapabilityImpl) : Prop := {
  capi_lru : lru_wf (capabilityMap c);
  capi_counter : count (capCounter c) = int64_wrap (Z.of_nat (size (cap_vals c)))
}.

Lemma lru_GetOrAdd_new_evictable (m : Cache (list string)) k v :
  lru_vals m !! k = None → lru_evictable (lru_GetOrAdd m k v false).1 k.
Proof.
  unfold lru_vals, lru_GetOrAdd, lru_evictable. rewrite lookup_fmap. destruct (lruMap m !! k); [done|]. intros _. simpl.
  eexists. by rewrite lookup_insert_eq.
Qed.

Lemma string_of_bytes_length b : String.length (string_of_bytes b) = length b.
Proof. induction b; simpl; congruence. Qed.

(** Adding a capability list terminates and keeps the counter equal to the number of
    entries: a list whose hash is known is not added again; a new one is stored sorted,
    and when the counter reaches the maximum one evictable entry is removed.  [Get] with
    the hash of a stored list returns what is stored under it.  The two built-in entries
    are filed under hexadecimal text and are not found by any 32-byte hash. *)
Theorem CapabilityCache_spec `{!Sha256Laws} c capabilities fuel maxSize b :
  cap_inv c → length b = 32%nat →
  let k := string_of_bytes (cap_hash capabilities) in
  (∃ c', Capability_Add (S fuel) c capabilities = Some c' ∧ cap_inv c' ∧
     ((is_Some (cap_vals c !! k) ∧ cap_vals c' = cap_vals c) ∨
      (cap_vals c !! k = None ∧
       let v := <[k := cap_sort capabilities]> (cap_vals c) in
       (if maxCount (capCounter c) <=? int64_wrap (Z.of_nat (size v))
        then ∃ k', is_Some (v !! k') ∧ cap_vals c' = delete k' v
        else cap_vals c' = v)))) ∧
  (Capability_Get c (cap_hash capabilities)).2 = cap_vals c !! k ∧
  (Capability_Get (NewCapability maxSize) b).2 = None ∧ cap_inv (NewCapability maxSize).
Proof.
  intros [Wf C] Hb k. split; [|split_and!].
  - unfold Capability_Add. fold k. pose proof (lru_GetOrAdd_wf (capabilityMap c) k (cap_sort capabilities) false Wf) as Wf'.
    destruct (cap_vals c !! k) as [old|] eqn:E.
    + destruct (lru_GetOrAdd_hit (capabilityMap c) k (cap_sort capabilities) old false E) as [Ev Er].
      destruct (lru_GetOrAdd _ _ _ _) as [m [v ok]]. simpl in *. simplify_eq. eexists. split; [done|].
      unfold cap_vals in *. split; [split; simpl; [done|unfold cap_vals; simpl; by rewrite Ev]|]. left. split; [by eexists|exact Ev].
    + destruct (lru_GetOrAdd_miss (capabilityMap c) k (cap_sort capabilities) false E) as [Ev Er].
      pose proof (lru_GetOrAdd_new_evictable (capabilityMap c) k (cap_sort capabilities) E) as He.
      destruct (lru_GetOrAdd _ _ _ _) as [m [v ok]]. simpl in Wf', Ev, Er, He. injection Er as -> ->.
      assert (count (Counter_Inc (capCounter c)).1 = int64_wrap (Z.of_nat (size (lru_vals m)))) as C'.
      { simpl. rewrite C, int64_wrap_add_l, Ev, map_size_insert_None by done. f_equal. unfold cap_vals. lia. }
      unfold Counter_Inc. set (counter := mkCounter _ _) in *. change (count counter = int64_wrap (Z.of_nat (size (lru_vals m)))) in C'.
      change (<[k := cap_sort capabilities]> (cap_vals c)) with (<[k := cap_sort capabilities]> (lru_vals (capabilityMap c))).
      cbv zeta. rewrite <-Ev, <-C'. change (maxCount counter) with (maxCount (capCounter c)).
      destruct (maxCount (capCounter c) <=? count counter).
      2:{ eexists. split; [done|]. split; [by split|]. right. by split. }
      cbn [cap_evict capabilityMap capCounter]. destruct (lru_GetLeastRecentlyUsed m) as [k' [v'|]] eqn:El.
      2:{ by destruct (lru_least_None m k' Wf' El k). }
      destruct (lru_least_Some m k' v' Wf' El) as [Hk' _]. destruct (lru_Remove_vals m k') as [Rv Rr].
      pose proof (lru_Remove_wf m k' Wf') as Wr. destruct (lru_Remove m k') as [m' r]. simpl in *. rewrite Hk' in Rr. subst r.
      eexists. split; [done|]. split; [split; [done|]|right; split; [done|]; exists k'; split; [by rewrite Hk'|exact Rv]].
      simpl. unfold cap_vals. simpl. rewrite Rv, map_size_delete_Some by eauto. unfold Z.sub.
      rewrite C', int64_wrap_add_l. f_equal.
      assert (size (lru_vals m) ≠ 0)%nat; [|lia]. intros H0%map_size_empty_iff. rewrite H0 in Hk'. by rewrite lookup_empty in Hk'.
  - unfold Capability_Get. destruct (lru_Get_vals (capabilityMap c) k) as [_ Er]. fold k. destruct (lru_Get _ k). done.
  - unfold Capability_Get. destruct (lru_Get_vals (capabilityMap (NewCapability maxSize)) (string_of_bytes b)) as [_ Er].
    destruct (lru_Get _ _) as [m r]. cbn [snd] in Er |- *. rewrite Er. pose proof (string_of_bytes_length b) as Hl. rewrite Hb in Hl.
    assert (lru_vals (capabilityMap (NewCapability maxSize)) = <[none_key := [NoCapability]]> (<[tls_key := [TLSOverTCP]]> ∅)) as ->
      by (vm_compute; reflexivity).
    rewrite !lookup_insert_ne; [done|..]; intros Hk; rewrite <-Hk in Hl; discriminate Hl.
  - split; [by repeat apply lru_GetOrAdd_wf; apply lru_New_wf|]. reflexivity.
Qed.
End Capability.

Lemma CapabilityCache_spec_witness :
  ∃ c', @Capability_Add toy_sha 1 (NewCapability 10) [TLSOverTCP] = Some c' ∧ Capability_Len c' = 3 ∧
    (Capability_Get (NewCapability 10) (replicate 32 7)).2 = None.
Proof.
  assert (cap_inv (NewCapability 10)) as I.
  { split; [apply lru_GetOrAdd_wf, lru_GetOrAdd_wf, lru_New_wf|reflexivity]. }
  destruct (@CapabilityCache_spec toy_sha toy_sha_laws (NewCapability 10) [TLSOverTCP] 0 10 (replicate 32 7) I
    ltac:(apply length_replicate)) as ((c' & E & _) & _ & N & _).
  exists c'. split; [exact E|]. split; [|exact N]. vm_compute in E. injection E as <-. reflexivity.
Defined.
