(* ===== verification/Server.v ===== *)
(** * The RAINS server: configuration, state and sending

    Models attic/internal/pkg/rainsd/{serverConfig,server,cache}.go, the sending half of
    switchboard.go and serverUtil.go.  A [Server] holds the configuration, the seven caches
    and the input queues.  What it does to its environment is kept with it: the messages
    handed to the transport, the network operations with their results, the lookups
    started at the recursive resolver and the goroutines that read from connections.

    A method is a computation in [serverM]: it takes the server and returns the server it
    leaves behind with a result, or panics.  A goroutine started by a method is recorded,
    not run.  The results of network operations come from [Network] and may depend on
    everything that happened before; tokens come from [TokenGen]. *)

From S2P Require Import Prelude Cbor Keys Object Query BitArray BloomFilter Section Message Siglib Containers LruCache Pointers ZoneCache AssertionCache NegAssertionCache ZoneKeyCache ConnectionCache PendingCaches CapabilityCache.
Local Open Scope Z_scope.

(** ** Configuration *)

Record ZoneContext := mkZoneContext { zctxZone : string; zctxContext : string }.
#[export] Instance ZoneContext_eq_dec : EqDecision ZoneContext.
Proof. solve_decision. Defined.
#[export] Instance ZoneContext_countable : Countable ZoneContext.
Proof.
  refine (inj_countable' (λ z, (zctxZone z, zctxContext z)) (λ p, mkZoneContext p.1 p.2) _). by intros [].
Defined.

Inductive ConnType := TCP | SCION.

(** Durations are in nanoseconds. *)
Record Config := mkConfig {
  RootZonePublicKeyPath : string;
  AssertionCheckPointInterval : Z;
  NegAssertionCheckPointInterval : Z;
  ZoneKeyCheckPointInterval : Z;
  CheckPointPath : string;
  PreLoadCaches : bool;
  ServerAddressType : ConnType;
  ServerAddress : Addr;
  MaxConnections : Z;
  KeepAlivePeriod : Z;
  TCPTimeout : Z;
  TLSCertificateFile : string;
  TLSPrivateKeyFile : string;
  PrioBufferSize : Z;
  NormalBufferSize : Z;
  NotificationBufferSize : Z;
  PrioWorkerCount : Z;
  NormalWorkerCount : Z;
  NotificationWorkerCount : Z;
  CapabilitiesCacheSize : Z;
  cfgCapabilities : list string;
  ZoneKeyCacheSize : Z;
  ZoneKeyCacheWarnSize : Z;
  MaxPublicKeysPerZone : Z;
  PendingKeyCacheSize : Z;
  DelegationQueryValidity : Z;
  ReapZoneKeyCacheInterval : Z;
  ReapPendingKeyCacheInterval : Z;
  AssertionCacheSize : Z;
  NegativeAssertionCacheSize : Z;
  PendingQueryCacheSize : Z;
  QueryValidity : Z;
  Authorities : list ZoneContext;
  cfgMaxCacheValidity : MaxCacheValidity;
  ReapAssertionCacheInterval : Z;
  ReapNegAssertionCacheInterval : Z;
  ReapPendingQCacheInterval : Z
}.

Definition Second : Z := 1000000000.
Definition Minute : Z := 60 * Second.
Definition Hour : Z := 60 * Minute.

Definition DefaultConfig : Config := {|
  RootZonePublicKeyPath := "data/keys/rootDelegationAssertion.gob";
  AssertionCheckPointInterval := 30 * Minute;
  NegAssertionCheckPointInterval := Hour;
  ZoneKeyCheckPointInterval := 30 * Minute;
  CheckPointPath := "data/checkpoint/resolver/";
  PreLoadCaches := false;
  ServerAddressType := TCP;
  ServerAddress := mkAddr "tcp" "127.0.0.1:55553";
  MaxConnections := 10000;
  KeepAlivePeriod := Minute;
  TCPTimeout := 5 * Minute;
  TLSCertificateFile := "data/cert/server.crt";
  TLSPrivateKeyFile := "data/cert/server.key";
  PrioBufferSize := 50;
  NormalBufferSize := 1000;
  NotificationBufferSize := 10;
  PrioWorkerCount := 2;
  NormalWorkerCount := 10;
  NotificationWorkerCount := 1;
  CapabilitiesCacheSize := 10;
  cfgCapabilities := ["urn:x-rains:tlssrv"%string];
  ZoneKeyCacheSize := 1000;
  ZoneKeyCacheWarnSize := 750;
  MaxPublicKeysPerZone := 5;
  PendingKeyCacheSize := 100;
  DelegationQueryValidity := Second;
  ReapZoneKeyCacheInterval := 15 * Minute;
  ReapPendingKeyCacheInterval := 15 * Minute;
  AssertionCacheSize := 10000;
  NegativeAssertionCacheSize := 1000;
  PendingQueryCacheSize := 1000;
  QueryValidity := Second;
  Authorities := [];
  cfgMaxCacheValidity := mkMaxCacheValidity (3 * Hour) (3 * Hour) (3 * Hour) (3 * Hour);
  ReapAssertionCacheInterval := 15 * Minute;
  ReapNegAssertionCacheInterval := 15 * Minute;
  ReapPendingQCacheInterval := 15 * Minute
|}.

(** [d *= unit] on [time.Duration], an [int64]. *)
Definition times (d unit : Z) : Z := int64_wrap (d * unit).

(** [LoadConfig] on what [json.Unmarshal] read from the file, or its error. *)
Definition LoadConfig (read : outcome Config) : outcome Config :=
  c ← read;
  Ok {|
    RootZonePublicKeyPath := RootZonePublicKeyPath c;
    AssertionCheckPointInterval := times (AssertionCheckPointInterval c) Second;
    NegAssertionCheckPointInterval := times (NegAssertionCheckPointInterval c) Second;
    ZoneKeyCheckPointInterval := times (ZoneKeyCheckPointInterval c) Second;
    CheckPointPath := CheckPointPath c;
    PreLoadCaches := PreLoadCaches c;
    ServerAddressType := ServerAddressType c;
    ServerAddress := ServerAddress c;
    MaxConnections := MaxConnections c;
    KeepAlivePeriod := times (KeepAlivePeriod c) Second;
    TCPTimeout := times (TCPTimeout c) Second;
    TLSCertificateFile := TLSCertificateFile c;
    TLSPrivateKeyFile := TLSPrivateKeyFile c;
    PrioBufferSize := PrioBufferSize c;
    NormalBufferSize := NormalBufferSize c;
    NotificationBufferSize := NotificationBufferSize c;
    PrioWorkerCount := PrioWorkerCount c;
    NormalWorkerCount := NormalWorkerCount c;
    NotificationWorkerCount := NotificationWorkerCount c;
    CapabilitiesCacheSize := CapabilitiesCacheSize c;
    cfgCapabilities := cfgCapabilities c;
    ZoneKeyCacheSize := ZoneKeyCacheSize c;
    ZoneKeyCacheWarnSize := ZoneKeyCacheWarnSize c;
    MaxPublicKeysPerZone := MaxPublicKeysPerZone c;
    PendingKeyCacheSize := PendingKeyCacheSize c;
    DelegationQueryValidity := times (DelegationQueryValidity c) Second;
    ReapZoneKeyCacheInterval := times (ReapZoneKeyCacheInterval c) Second;
    ReapPendingKeyCacheInterval := times (ReapPendingKeyCacheInterval c) Second;
    AssertionCacheSize := AssertionCacheSize c;
    NegativeAssertionCacheSize := NegativeAssertionCacheSize c;
    PendingQueryCacheSize := PendingQueryCacheSize c;
    QueryValidity := times (QueryValidity c) Second;
    Authorities := Authorities c;
    cfgMaxCacheValidity :=
      let m := cfgMaxCacheValidity c in
      mkMaxCacheValidity (times (AssertionValidity m) Hour) (times (ShardValidity m) Hour)
        (times (PshardValidity m) Hour) (times (ZoneValidity m) Hour);
    ReapAssertionCacheInterval := times (ReapAssertionCacheInterval c) Second;
    ReapNegAssertionCacheInterval := times (ReapNegAssertionCacheInterval c) Second;
    ReapPendingQCacheInterval := times (ReapPendingQCacheInterval c) Second
  |}.

(** ** Caches *)

Record Caches := mkCaches {
  ConnCache : ConnectionImpl;
  Capabilities : CapabilityImpl;
  ZoneKeys : ZoneKeyImpl;
  PendingKeys : PendingKeyImpl;
  PendingQueries : PendingQueryImpl;
  AssertionsCache : AssertionImpl;
  NegAssertions : NegAssertionImpl
}.

Definition initCaches (config : Config) : Caches := {|
  ConnCache := NewConnection (MaxConnections config);
  Capabilities := NewCapability (CapabilitiesCacheSize config);
  ZoneKeys := NewZoneKey (ZoneKeyCacheSize config) (ZoneKeyCacheWarnSize config) (MaxPublicKeysPerZone config);
  PendingKeys := NewPendingKey (PendingKeyCacheSize config);
  PendingQueries := NewPendingQuery (PendingQueryCacheSize config);
  AssertionsCache := NewAssertion (AssertionCacheSize config);
  NegAssertions := NewNegAssertion (NegativeAssertionCacheSize config)
|}.

Definition set_conns_cache (v : ConnectionImpl) (c : Caches) : Caches :=
  mkCaches v (Capabilities c) (ZoneKeys c) (PendingKeys c) (PendingQueries c) (AssertionsCache c) (NegAssertions c).
Definition set_capabilities (v : CapabilityImpl) (c : Caches) : Caches :=
  mkCaches (ConnCache c) v (ZoneKeys c) (PendingKeys c) (PendingQueries c) (AssertionsCache c) (NegAssertions c).
Definition set_zone_keys (v : ZoneKeyImpl) (c : Caches) : Caches :=
  mkCaches (ConnCache c) (Capabilities c) v (PendingKeys c) (PendingQueries c) (AssertionsCache c) (NegAssertions c).
Definition set_pending_keys (v : PendingKeyImpl) (c : Caches) : Caches :=
  mkCaches (ConnCache c) (Capabilities c) (ZoneKeys c) v (PendingQueries c) (AssertionsCache c) (NegAssertions c).
Definition set_pending_queries (v : PendingQueryImpl) (c : Caches) : Caches :=
  mkCaches (ConnCache c) (Capabilities c) (ZoneKeys c) (PendingKeys c) v (AssertionsCache c) (NegAssertions c).
Definition set_assertions (v : AssertionImpl) (c : Caches) : Caches :=
  mkCaches (ConnCache c) (Capabilities c) (ZoneKeys c) (PendingKeys c) (PendingQueries c) v (NegAssertions c).
Definition set_neg_assertions (v : NegAssertionImpl) (c : Caches) : Caches :=
  mkCaches (ConnCache c) (Capabilities c) (ZoneKeys c) (PendingKeys c) (PendingQueries c) (AssertionsCache c) v.

Record InputQueues := mkQueues {
  Prio : list MsgSectionSender;
  Normal : list MsgSectionSender;
  Notify : list MsgSectionSender
}.

(** ** section.WithSigForward *)

Definition With_GetSubjectZone (s : SigSection) : string :=
  match s with
  | WAssertion a => Assertion_GetSubjectZone a | WShard s => Shard_GetSubjectZone s
  | WPshard s => Pshard_GetSubjectZone s | WZone z => Zone_GetSubjectZone z
  end.
Definition With_GetContext (s : SigSection) : string :=
  match s with
  | WAssertion a => Assertion_GetContext a | WShard s => Shard_GetContext s
  | WPshard s => Pshard_GetContext s | WZone z => Zone_GetContext z
  end.
Definition With_IsConsistent (s : SigSection) : bool :=
  match s with
  | WAssertion a => Assertion_IsConsistent a | WShard s => Shard_IsConsistent s
  | WPshard s => Pshard_IsConsistent s | WZone z => Zone_IsConsistent z
  end.
Definition With_NeededKeys (s : SigSection) (keysNeeded : gset MetaData) : gset MetaData :=
  match s with
  | WAssertion a => Assertion_NeededKeys a keysNeeded | WShard s => Shard_NeededKeys s keysNeeded
  | WPshard s => Pshard_NeededKeys s keysNeeded | WZone z => Zone_NeededKeys z keysNeeded
  end.
Definition With_Sigs (s : SigSection) (keySpace : KeySpaceID) : list Sig :=
  match s with
  | WAssertion a => Assertion_Sigs a keySpace | WShard s => Shard_Sigs s keySpace
  | WPshard s => Pshard_Sigs s keySpace | WZone z => Zone_Sigs z keySpace
  end.
Definition With_ValidSince (s : SigSection) : Z :=
  match s with
  | WAssertion a => aValidSince a | WShard s => sValidSince s | WPshard s => pValidSince s | WZone z => zValidSince z
  end.
Definition With_ValidUntil (s : SigSection) : Z :=
  match s with
  | WAssertion a => aValidUntil a | WShard s => sValidUntil s | WPshard s => pValidUntil s | WZone z => zValidUntil z
  end.
(** [SetValidSince] and [SetValidUntil] *)
Definition With_SetValidity (s : SigSection) (since until : Z) : SigSection :=
  match s with
  | WAssertion a => WAssertion (Assertion_SetValidUntil (Assertion_SetValidSince a since) until)
  | WShard s => WShard (Shard_SetValidUntil (Shard_SetValidSince s since) until)
  | WPshard s => WPshard (Pshard_SetValidUntil (Pshard_SetValidSince s since) until)
  | WZone z => WZone (Zone_SetValidUntil (Zone_SetValidSince z since) until)
  end.

Definition isAuthoritative (s : SigSection) (authorities : list ZoneContext) : bool :=
  existsb (λ auth, (zctxZone auth =ₛ With_GetSubjectZone s) && (zctxContext auth =ₛ With_GetContext s)) authorities.

(** The hash is that of the draft, whatever the capabilities. *)
Definition initOwnCapabilities (capabilities : list string) : string * string :=
  ("e5365a09be554ae55b855f15264dbc837b04f5831daeb321359e18cdabab5745"%string, str_join " " capabilities).

(** ** The server *)

(** The random tokens, in the order they are drawn. *)
Class TokenGen := { token_at : nat → Token }.
(** What [token.New] is relied on for: its tokens are not repeated and not zero. *)
Class TokenLaws `{TokenGen} : Prop := {
  token_inj : Inj (=) (=) token_at;
  token_nonzero i : token_at i ≠ replicate 16 0
}.

Section Server.
Context {CS : CborStream}.

Inductive NetEvent :=
| EvDial (addr : Addr) (r : option Conn)
| EvWrite (conn : Conn) (bytes : stream) (ok : bool)
| EvPacket (addr : Addr) (bytes : stream) (ok : bool).

(** The network: the result of the next operation given all earlier ones. *)
Class Network := {
  net_dial : list NetEvent → Addr → option Conn;
  net_write : list NetEvent → Conn → stream → bool;
  net_packet : list NetEvent → Addr → stream → bool
}.

Record Server := mkServer {
  config : Config;
  capabilityHash : string;
  capabilityList : string;
  caches : Caches;
  queues : InputQueues;
  packetConn : bool;                      (* the UDP socket is open *)
  tokensDrawn : nat;
  netLog : list NetEvent;
  sent : list (Message * Addr);           (* calls of [sendTo] that reached the network *)
  lookups : list (QueryName * Token);     (* go s.resolver.ServerLookup(q, s.Addr(), token) *)
  readers : list Conn                     (* go s.handleConnection(conn, addr) *)
}.

Definition set_caches (c : Caches) (s : Server) : Server :=
  mkServer (config s) (capabilityHash s) (capabilityList s) c (queues s) (packetConn s) (tokensDrawn s) (netLog s)
    (sent s) (lookups s) (readers s).
Definition set_queues (q : InputQueues) (s : Server) : Server :=
  mkServer (config s) (capabilityHash s) (capabilityList s) (caches s) q (packetConn s) (tokensDrawn s) (netLog s)
    (sent s) (lookups s) (readers s).

Definition serverM (A : Type) : Type := Server → outcome (Server * A).
#[export] Instance serverM_ret : MRet serverM := λ A a s, Ok (s, a).
#[export] Instance serverM_bind : MBind serverM := λ A B f m s, '(s, a) ← m s; f a s.

Definition gets {A} (f : Server → A) : serverM A := λ s, Ok (s, f s).
Definition update (f : Server → Server) : serverM () := λ s, Ok (f s, ()).
Definition panic {A} (msg : string) : serverM A := λ _, Panic msg.
(** A computation without effect on the server that can panic; its errors are results. *)
Definition pure_or_panic {A} (m : outcome A) : serverM A :=
  λ s, match m with Ok a => Ok (s, a) | Err e => Panic e | Panic e => Panic e end.

(** The retry loops of the caches, with the fuel that is proved to be enough. *)
Definition finished {A} (r : option (outcome A)) : outcome A := default (Panic "no result") r.

(** A method of a cache that returns the new cache and a result. *)
Definition on_cache {C A} (get : Caches → C) (set : C → Caches → Caches) (f : C → outcome (C * A)) : serverM A :=
  λ s, match f (get (caches s)) with
       | Ok (c, a) => Ok (set_caches (set c (caches s)) s, a)
       | Err e => Panic e
       | Panic e => Panic e
       end.

(** [for _, x := range l { body }] *)
Fixpoint for_each {A} (body : A → serverM ()) (l : list A) : serverM () :=
  match l with
  | [] => mret ()
  | x :: l' => body x;; for_each body l'
  end.
(** [for _, x := range l { acc = body(acc, x) }] *)
Fixpoint fold_each {A B} (body : B → A → serverM B) (acc : B) (l : list A) : serverM B :=
  match l with
  | [] => mret acc
  | x :: l' => acc ← body acc x; fold_each body acc l'
  end.

Context {TG : TokenGen} {NW : Network} {OL : ObjLib}.

(** [token.New()] *)
Definition token_New : serverM Token :=
  λ s, Ok (mkServer (config s) (capabilityHash s) (capabilityList s) (caches s) (queues s) (packetConn s)
             (S (tokensDrawn s)) (netLog s) (sent s) (lookups s) (readers s), token_at (tokensDrawn s)).

Definition log_net (e : NetEvent) : serverM () := update (λ s,
  mkServer (config s) (capabilityHash s) (capabilityList s) (caches s) (queues s) (packetConn s) (tokensDrawn s)
    (netLog s ++ [e]) (sent s) (lookups s) (readers s)).
Definition log_sent (msg : Message) (addr : Addr) : serverM () := update (λ s,
  mkServer (config s) (capabilityHash s) (capabilityList s) (caches s) (queues s) (packetConn s) (tokensDrawn s)
    (netLog s) (sent s ++ [(msg, addr)]) (lookups s) (readers s)).
Definition go_handleConnection (conn : Conn) : serverM () := update (λ s,
  mkServer (config s) (capabilityHash s) (capabilityList s) (caches s) (queues s) (packetConn s) (tokensDrawn s)
    (netLog s) (sent s) (lookups s) (readers s ++ [conn])).
Definition go_ServerLookup (q : QueryName) (t : Token) : serverM () := update (λ s,
  mkServer (config s) (capabilityHash s) (capabilityList s) (caches s) (queues s) (packetConn s) (tokensDrawn s)
    (netLog s) (sent s) (lookups s ++ [(q, t)]) (readers s)).

(** ** switchboard.go: sending *)

(** Only a [*net.TCPAddr] is dialled. *)
Definition createConnection (receiver : Addr) : serverM (option Conn) :=
  if addrNetwork receiver =ₛ "tcp" then
    r ← gets (λ s, net_dial (netLog s) receiver);
    log_net (EvDial receiver r);; mret r
  else mret None.

Definition conn_Write (conn : Conn) (bytes : stream) : serverM bool :=
  ok ← gets (λ s, net_write (netLog s) conn bytes);
  log_net (EvWrite conn bytes ok);; mret ok.

Definition GetConnection_M (receiver : Addr) : serverM (option (list Conn)) :=
  on_cache ConnCache set_conns_cache (λ c, Ok (GetConnection c receiver)).
Definition AddConnection_M (conn : Conn) : serverM () :=
  on_cache ConnCache set_conns_cache (λ c, c' ← finished (AddConnection 1 c conn); Ok (c', ())).
Definition CloseAndRemoveConnection_M (conn : Conn) : serverM () :=
  on_cache ConnCache set_conns_cache (λ c, c' ← CloseAndRemoveConnection c conn; Ok (c', ())).

(** The loop over the connections: the first write that succeeds ends it. *)
Fixpoint write_any (conns : list Conn) (bytes : stream) : serverM (option string) :=
  match conns with
  | [] => mret (Some "unable to send message on any connection"%string)
  | conn :: conns' =>
      ok ← conn_Write conn bytes;
      if ok : bool then mret None
      else CloseAndRemoveConnection_M conn;; write_any conns' bytes
  end.

(** The result is the error, [None] for nil. *)
Definition sendToTry (encodedMsg : stream) (receiver : Addr) : serverM (option string) :=
  packet ← gets packetConn;
  if packet : bool then
    ok ← gets (λ s, net_packet (netLog s) receiver encodedMsg);
    log_net (EvPacket receiver encodedMsg ok);;
    mret (if ok : bool then None else Some "unable to send message"%string)
  else
    conns ← GetConnection_M receiver;
    match conns with
    | Some conns => write_any conns encodedMsg
    | None =>
        conn ← createConnection receiver;
        match conn with
        | None => mret (Some "Could not establish connection"%string)
        | Some conn =>
            AddConnection_M conn;; go_handleConnection conn;; write_any [conn] encodedMsg
        end
    end.

(** [for i := 1; i < retries; i++]; the backoff only delays. *)
Fixpoint send_retry (n : nat) (encodedMsg : stream) (receiver : Addr) : serverM (option string) :=
  match n with
  | O => mret (Some "Was not able to send the mesage. No retries left"%string)
  | S n' =>
      err ← sendToTry encodedMsg receiver;
      match err with None => mret None | Some _ => send_retry n' encodedMsg receiver end
  end.

Definition sendTo (msg : Message) (receiver : Addr) (retries : Z) : serverM (option string) :=
  hash ← gets capabilityHash;
  let msg := mkMessage [hash] (mToken msg) (mContent msg) (mSignatures msg) in
  match Message_MarshalCBOR msg empty_stream with
  | Panic e => panic e
  | Err e => mret (Some ("failed to marshal message: " +:+ e)%string)
  | Ok encodedMsg =>
      log_sent msg receiver;;
      err ← sendToTry encodedMsg receiver;
      match err with
      | None => mret None
      | Some _ => send_retry (Z.to_nat (retries - 1)) encodedMsg receiver
      end
  end.

Definition sendToRecursiveResolver (msg : Message) : serverM () :=
  for_each (λ sec, match sec with SecQuery q => go_ServerLookup q (mToken msg) | _ => mret () end) (mContent msg).

(** ** serverUtil.go: messages *)

Definition sendSections (sections : list AnySection) (tok : Token) (destination : Addr) : serverM (option string) :=
  tok ← (if bool_decide (tok = replicate 16 0) then token_New else mret tok);
  sendTo (mkMessage [] tok sections []) destination 1.

Definition sendSection (sec : AnySection) (tok : Token) (destination : Addr) : serverM (option string) :=
  sendSections [sec] tok destination.

Definition sendNotificationMsg (tok : Token) (destination : Addr) (notificationType : Z) (data : string) : serverM () :=
  _ ← sendSection (SecNotification (mkNotification tok notificationType data)) (replicate 16 0) destination; mret ().

Definition sendCapability (destination : Addr) (capabilities : list string) : serverM () :=
  t ← token_New;
  _ ← sendTo (mkMessage capabilities t [] []) destination 1; mret ().
End Server.
