(* ===== verification/AssertionEngine.v ===== *)
(** * The assertion engine of the server

    Models attic/internal/pkg/rainsd/assertionEngine.go: what happens to sections whose
    signatures were verified.  They are filed in the caches, messages that waited for a
    public key go back to the normal queue, and the senders that waited for the answer get
    it.  A channel is a list; a send on a channel is an append (a full channel delays the
    sender). *)

From S2P Require Import Prelude Cbor Keys Object Query BitArray BloomFilter Section Message Siglib SiglibFacts Containers LruCache Pointers ZoneCache ZoneCacheFacts AssertionCache NegAssertionCache ZoneKeyCache ConnectionCache PendingCaches CapabilityCache Server.
Local Open Scope Z_scope.

Record SectionWithSigSender := mkSectionWithSigSender {
  sssSender : Addr;
  sssSections : list SigSection;
  sssToken : Token
}.

Section AssertionEngine.
Context {CS : CborStream} {TG : TokenGen} {NW : Network} {OL : ObjLib} {CW : CborWriter}.
Abbreviation M := (serverM (CS:=CS)) (only parsing).

(** ** Caching *)

Definition shouldAssertionBeCached (assertion : Assertion) : bool := bool_decide (aSignatures assertion ≠ []).
Definition shouldShardBeCached (shard : Shard) : bool := true.
Definition shouldPshardBeCached (pshard : Pshard) : bool := true.
Definition shouldZoneBeCached (zone : Zone) : bool := true.

Definition AssertionsCache_Add (a : Assertion) (expiration : Z) (isInternal : bool) : M bool :=
  on_cache AssertionsCache set_assertions (λ c, finished (AssertionImpl_Add 1 c a expiration isInternal)).
Definition NegCache_Add (s : NegSection) (expiration : Z) (isInternal : bool) : M bool :=
  on_cache NegAssertions set_neg_assertions (λ c, finished (neg_add 1 c s expiration isInternal)).
Definition ZoneKeys_Add (a : Assertion) (pk : PublicKey) (internal : bool) : M bool :=
  on_cache ZoneKeys set_zone_keys (λ c, finished (ZoneKeyImpl_Add 1 c a pk internal)).

(** [publicKey, _ := obj.Value.(keys.PublicKey)]: the zero key for another dynamic type;
    its nil key data is the absence of an ed25519 key. *)
Definition zeroPublicKey : PublicKey := mkPublicKey zeroPublicKeyID 0 0 KeyNil.
Definition value_key (v : Value) : PublicKey := match v with VPublicKey k => k | _ => zeroPublicKey end.

Definition addAssertionToCache (a : Assertion) (isAuth : bool) : M () :=
  _ ← AssertionsCache_Add a (aValidUntil a) isAuth;
  for_each (λ obj : Object,
    if objType obj =? OTDelegation then
      let publicKey := value_key (objValue obj) in
      let publicKey := mkPublicKey (pkID publicKey) (aValidSince a) (aValidUntil a) (pkKey publicKey) in
      _ ← ZoneKeys_Add a publicKey isAuth; mret ()
    else mret ()) (aContent a).

(** The loops over the content of a shard or zone. *)
Definition add_content (context zone : string) (isAuth : bool) (content : list Assertion) : M () :=
  for_each (λ assertion,
    if shouldAssertionBeCached assertion
    then addAssertionToCache (Assertion_Copy assertion context zone) isAuth
    else mret ()) content.

Definition addShardToCache (shard : Shard) (isAuth : bool) : M () :=
  add_content (sContext shard) (sSubjectZone shard) isAuth (sContent shard);;
  _ ← NegCache_Add (NShard shard) (sValidUntil shard) isAuth; mret ().

Definition addPshardToCache (pshard : Pshard) (isAuth : bool) : M () :=
  _ ← NegCache_Add (NPshard pshard) (pValidUntil pshard) isAuth; mret ().

Definition addZoneToCache (zone : Zone) (isAuth : bool) : M () :=
  add_content (zContext zone) (zSubjectZone zone) isAuth (zContent zone);;
  _ ← NegCache_Add (NZone zone) (zValidUntil zone) isAuth; mret ().

Definition addSectionToCache (authorities : list ZoneContext) (sec : SigSection) : M () :=
  let isAuth := isAuthoritative sec authorities in
  match sec with
  | WAssertion a => if shouldAssertionBeCached a then addAssertionToCache a isAuth else mret ()
  | WShard s => if shouldShardBeCached s then addShardToCache s isAuth else mret ()
  | WPshard s => if shouldPshardBeCached s then addPshardToCache s isAuth else mret ()
  | WZone z => if shouldZoneBeCached z then addZoneToCache z isAuth else mret ()
  end.

Definition addSectionsToCache (sections : list SigSection) (authorities : list ZoneContext) : M () :=
  for_each (addSectionToCache authorities) sections.

(** ** Waiting messages *)

Definition send_normal (ss : MsgSectionSender) : M () :=
  update (λ s, set_queues (mkQueues (Prio (queues s)) (Normal (queues s) ++ [ss]) (Notify (queues s))) s).

Definition PendingKeys_GetAndRemove (t : Token) : M (MsgSectionSender * bool) :=
  on_cache PendingKeys set_pending_keys (λ c, Ok (PendingKey_GetAndRemove c t)).
Definition PendingQueries_GetAndRemove (t : Token) : M (list MsgSectionSender) :=
  on_cache PendingQueries set_pending_queries (λ c, PendingQuery_GetAndRemove c t).

Definition pendingKeysCallback (mss : SectionWithSigSender) : M () :=
  '(ss, ok) ← PendingKeys_GetAndRemove (sssToken mss);
  if ok : bool then send_normal ss else mret ().

Definition pendingQueriesCallback (mss : SectionWithSigSender) : M () :=
  msss ← PendingQueries_GetAndRemove (sssToken mss);
  match msss with
  | [] => mret ()
  | _ =>
      let answer := SigSection_section <$> sssSections mss in
      for_each (λ ss, _ ← sendSections answer (mssToken ss) (mssSender ss); mret ()) msss
  end.

Definition sectionsAreInconsistent (sec : list SigSection) : bool := false.

Definition assert (ss : SectionWithSigSender) : M () :=
  if sectionsAreInconsistent (sssSections ss)
  then sendNotificationMsg (sssToken ss) (sssSender ss) NTRcvInconsistentMsg ""
  else
    authorities ← gets (λ s, Authorities (config s));
    addSectionsToCache (sssSections ss) authorities;;
    pendingKeysCallback ss;;
    pendingQueriesCallback ss.
End AssertionEngine.
