(* ===== verification/QueryEngine.v ===== *)
(** * The query engine of the server

    Models attic/internal/pkg/rainsd/queryEngine.go: answering queries from the caches, as
    an authority with glue records or as a caching resolver that forwards what it does not
    know.  [stack] is the depth of recursion a goroutine's stack allows: [handleRedirect]
    recurses along cached names, and running out of stack ends the program. *)

From S2P Require Import Prelude Cbor Keys Object Query BitArray BloomFilter Section Message Siglib Containers LruCache Pointers ZoneCache ZoneCacheFacts AssertionCache NegAssertionCache ZoneKeyCache ConnectionCache PendingCaches CapabilityCache Server AssertionEngine.
Local Open Scope Z_scope.

Definition rainsSrvPrefix : string := "_rains.".

(** The two variables of the resolver package that limit redirects. *)
Definition AllowedAddrTypes : list OType := [OTIP6Addr; OTIP4Addr; OTScionAddr].
Definition AllowedRedirectTypes : list OType := [OTIP6Addr; OTIP4Addr; OTScionAddr; OTServiceInfo; OTName].

(** [strings.HasPrefix] *)
Definition HasPrefix (s p : string) : bool := String.prefix p s.

(** ** Names *)

Definition toSubjectZone (name : string) : outcome (string * string) :=
  if negb (HasSuffix name ".") then Err "invariant that query name ends with '.' is broken"
  else
    let parts := split_dot name in
    p0 ← at_index parts 0;
    if p0 =ₛ "" then Ok (""%string, "."%string)
    else Ok (p0, str_join "." (tail parts)).

(** The name of the delegation the authority [auth] has on the way to [name]. *)
Definition glue_name (name : string) (auth : ZoneContext) : outcome string :=
  let names := split_dot (TrimSuffix name (zctxZone auth)) in
  let n := Z.of_nat (length names) in
  last_label ← at_index names (n - 1);
  if bool_decide (1 < n) && (last_label =ₛ "") then
    label ← at_index names (n - 2); Ok (label +:+ "." +:+ zctxZone auth)%string
  else Ok (last_label +:+ zctxZone auth)%string.

Fixpoint glue_auths (q : QueryName) (zoneAuths : list ZoneContext) (result : gset ZoneContext) : outcome (gset ZoneContext) :=
  match zoneAuths with
  | [] => Ok result
  | auth :: zoneAuths' =>
      if HasSuffix (qName q) (zctxZone auth)
      then name ← glue_name (qName q) auth; glue_auths q zoneAuths' ({[ mkZoneContext name (qContext q) ]} ∪ result)
      else glue_auths q zoneAuths' result
  end.
Fixpoint glueRecordNames (qs : list QueryName) (zoneAuths : list ZoneContext) (result : gset ZoneContext)
    : outcome (gset ZoneContext) :=
  match qs with
  | [] => Ok result
  | q :: qs' => result ← glue_auths q zoneAuths result; glueRecordNames qs' zoneAuths result
  end.

(** The test at the start of [answerQueriesAuthoritative]. *)
Definition authority_over (authorities : list ZoneContext) (q : QueryName) : bool :=
  existsb (λ auth, HasSuffix (qName q) (zctxZone auth) && negb (qName q =ₛ zctxZone auth) && (qContext q =ₛ zctxContext auth))
    authorities.

Section QueryEngine.
Context {CS : CborStream} {TG : TokenGen} {NW : Network} {OL : ObjLib} {CW : CborWriter}.
Context (stack : nat).
Abbreviation M := (serverM (CS:=CS)) (only parsing).

Definition AssertionsCache_Get (fqdn context : string) (t : OType) : M (list Assertion * bool) :=
  on_cache AssertionsCache set_assertions (λ c, Ok (AssertionImpl_Get c fqdn context t true)).
Definition NegCache_Get (zone context subject : string) : M (list NegSection * bool) :=
  on_cache NegAssertions set_neg_assertions (λ c, Ok (NegAssertionImpl_Get c zone context (mkStringInterval subject))).

(** ** Lookup in the caches *)

Definition asKey (a : Assertion) : string := (aSubjectName a +:+ "_" +:+ aSubjectZone a +:+ "_" +:+ aContext a)%string.

(** The state of the loops: the keys seen and the assertions collected. *)
Definition collect (now : Z) (st : gset string * list Assertion) (a : Assertion) : gset string * list Assertion :=
  let '(assertionSet, assertions) := st in
  if bool_decide (asKey a ∈ assertionSet) then st
  else if unix now <? aValidUntil a then ({[ asKey a ]} ∪ assertionSet, assertions ++ [a]) else st.

Definition assertionCacheLookup (now : Z) (q : QueryName) : M (list AnySection) :=
  st ← fold_each (λ st t,
         '(asserts, ok) ← AssertionsCache_Get (qName q) (qContext q) t;
         mret (if ok : bool then foldl (collect now) st asserts else st)) (∅, []) (qTypes q);
  mret (SecAssertion <$> st.2).

Definition neg_section (s : NegSection) : AnySection :=
  match s with NShard s => SecShard s | NPshard s => SecPshard s | NZone z => SecZone z end.
Definition filterAnswer (sections : list NegSection) : list AnySection := neg_section <$> sections.

Definition negativeCacheLookup (q : QueryName) (sender : Addr) (token : Token) : M (list AnySection) :=
  match toSubjectZone (qName q) with
  | Panic e => panic e
  | Err _ =>
      sendNotificationMsg token sender NTRcvInconsistentMsg "query name must end with root zone dot '.'";; mret []
  | Ok (subject, zone) =>
      '(answer, _) ← NegCache_Get zone (qContext q) subject;
      mret (filterAnswer answer)
  end.

(** The empty list is nil. *)
Definition cacheLookup (now : Z) (q : QueryName) (sender : Addr) (token : Token) : M (list AnySection) :=
  assertions ← assertionCacheLookup now q;
  match assertions with
  | [] => negativeCacheLookup q sender token
  | _ => mret assertions
  end.

(** ** Glue records *)

(** The loops over the cached assertions and their objects of type [t]: the answers of the
    first object [follow] succeeds on. *)
Fixpoint redirect_objects {B} (t : OType) (follow : Object → M (option B)) (content : list Object) : M (option B) :=
  match content with
  | [] => mret None
  | o :: content' =>
      if objType o =? t then
        r ← follow o;
        match r with Some b => mret (Some b) | None => redirect_objects t follow content' end
      else redirect_objects t follow content'
  end.
Fixpoint first_redirect {B} (t : OType) (follow : Assertion → Object → M (option B)) (asserts : list Assertion) : M (option B) :=
  match asserts with
  | [] => mret None
  | a :: asserts' =>
      r ← redirect_objects t (follow a) (aContent a);
      match r with Some b => mret (Some b) | None => first_redirect t follow asserts' end
  end.

Definition value_srv (v : Value) : outcome ServiceInfo :=
  match v with VServiceInfo s => Ok s | _ => Panic "interface conversion" end.
Definition value_name (v : Value) : outcome ObjName :=
  match v with VName n => Ok n | _ => Panic "interface conversion" end.

(** [if allowedTypes[t] { if asserts, ok := cache.Get(...); ok { return asserts, nil } }] *)
Definition get_if (allowed : bool) (name context : string) (t : OType) : M (option (list Assertion)) :=
  if allowed then
    '(asserts, ok) ← AssertionsCache_Get name context t;
    mret (if ok : bool then Some asserts else None)
  else mret None.

(** The result is [None] for the error. *)
Fixpoint handleRedirect (depth : nat) (name context : string) (allowedTypes : list OType) : M (option (list Assertion)) :=
  match depth with
  | O => panic "stack overflow"
  | S depth' =>
      let allowed t := bool_decide (t ∈ allowedTypes) in
      r ← get_if (allowed OTIP6Addr) name context OTIP6Addr;
      match r with Some asserts => mret (Some asserts) | None =>
      r ← get_if (allowed OTIP4Addr) name context OTIP4Addr;
      match r with Some asserts => mret (Some asserts) | None =>
      r ← get_if (allowed OTScionAddr) name context OTScionAddr;
      match r with Some asserts => mret (Some asserts) | None =>
      srvs ← get_if (allowed OTServiceInfo && HasPrefix name rainsSrvPrefix) name context OTServiceInfo;
      r ← first_redirect OTServiceInfo (λ srv srvObj,
            srvVal ← pure_or_panic (value_srv (objValue srvObj));
            as_ ← handleRedirect depth' (siName srvVal) context AllowedAddrTypes;
            mret ((λ l, l ++ [srv]) <$> as_)) (default [] srvs);
      match r with Some asserts => mret (Some asserts) | None =>
      names ← get_if (allowed OTName) name context OTName;
      first_redirect OTName (λ a nameObj,
        nameVal ← pure_or_panic (value_name (objValue nameObj));
        as_ ← handleRedirect depth' (onName nameVal) context (onTypes nameVal);
        mret ((λ l, l ++ [a]) <$> as_)) (default [] names)
      end end end end
  end.

(** The result is [None] for an error. *)
Definition glueRecordLookup (name context : string) : M (option (list AnySection)) :=
  '(delegs, ok) ← AssertionsCache_Get name context OTDelegation;
  if negb ok then mret None
  else
    '(redirs, ok) ← AssertionsCache_Get name context OTRedirection;
    if negb ok then mret None
    else
      r ← first_redirect OTRedirection (λ a o,
            target ← pure_or_panic (value_string (objValue o));
            answers ← handleRedirect stack target context AllowedRedirectTypes;
            mret ((λ l, a :: l) <$> answers)) redirs;
      mret ((λ l, SecAssertion <$> (delegs ++ l)) <$> r).

(** ** Answering *)

(** The loop that separates the queries the caches answer from the others. *)
Definition lookup_all (now : Z) (sender : Addr) (token : Token) (qs : list QueryName) : M (list QueryName * list AnySection) :=
  fold_each (λ '(queries, sections) q,
    secs ← cacheLookup now q sender token;
    mret (match secs with [] => (queries ++ [q], sections) | _ => (queries, sections ++ secs) end)) ([], []) qs.

Definition set_expiration (q : QueryName) (expiration : Z) : QueryName :=
  mkQueryName (qContext q) (qName q) (qTypes q) expiration (qOptions q) (qKeyPhase q) (qCurrentTime q).

Definition PendingQueries_Add (now : Z) (ss : MsgSectionSender) (t : Token) (expiration : Z) : M bool :=
  on_cache PendingQueries set_pending_queries (λ c, PendingQuery_Add (unix now) c ss t expiration).

(** The type assertion to a pointer to [query.Name]. *)
Definition as_query (s : AnySection) : outcome QueryName :=
  match s with SecQuery q => Ok q | _ => Panic "interface conversion" end.

(** The expiration of the forwarded queries is also written to the queries held in the
    pending query cache, whose keys do not depend on it; the model leaves them. *)
Definition answerQueriesCachingResolver (now : Z) (ss : MsgSectionSender) : M () :=
  qs ← pure_or_panic (traverse as_query (mssSections ss));
  '(queries, sections) ← lookup_all now (mssSender ss) (mssToken ss) qs;
  match queries with
  | [] => _ ← sendSections sections (mssToken ss) (mssSender ss); mret ()
  | _ =>
      q0 ← pure_or_panic (at_index qs 0);
      tok ← (if negb (Query_ContainsOption q0 QOTokenTracing) then token_New else mret (mssToken ss));
      validity ← gets (λ s, QueryValidity (config s));
      let validUntil := foldl (λ v q, if qExpiration q <? v then qExpiration q else v) (unix_after now validity) queries in
      isNew ← PendingQueries_Add now ss tok validUntil;
      if isNew : bool
      then sendToRecursiveResolver (mkMessage [] tok ((λ q, SecQuery (set_expiration q validUntil)) <$> queries) [])
      else mret ()
  end.

(** The loop over the names of the glue records; [None] ends the method. *)
Definition glue_all (names : list ZoneContext) (sections : list AnySection) : M (option (list AnySection)) :=
  fold_each (λ acc name,
    match acc with
    | None => mret None
    | Some sections =>
        r ← glueRecordLookup (zctxZone name) (zctxContext name);
        mret ((λ l, sections ++ l) <$> r)
    end) (Some sections) names.

Definition answerQueriesAuthoritative (now : Z) (qs : list QueryName) (sender : Addr) (token : Token) : M () :=
  authorities ← gets (λ s, Authorities (config s));
  if negb (forallb (authority_over authorities) qs) then mret ()
  else
    '(queries, sections) ← lookup_all now sender token qs;
    names ← pure_or_panic (glueRecordNames queries authorities ∅);
    r ← glue_all (elements names) sections;
    match r with
    | None => mret ()
    | Some sections => _ ← sendSections sections token sender; mret ()
    end.

Definition processQuery (now : Z) (msgSender : MsgSectionSender) : M () :=
  match traverse as_query (mssSections msgSender) with
  | Ok queries =>
      authorities ← gets (λ s, Authorities (config s));
      match authorities with
      | [] => answerQueriesCachingResolver now msgSender
      | _ => answerQueriesAuthoritative now queries (mssSender msgSender) (mssToken msgSender)
      end
  | _ => mret ()
  end.
End QueryEngine.
