(* ===== verification/Verify.v ===== *)
(** * Verification of incoming messages

    Models attic/internal/pkg/rainsd/verify.go: the path of an incoming message from the
    queues to the engines.  Sections are checked for consistency, the public keys they need
    are taken from the zone key cache or asked for, and only sections whose signatures
    check out are handed to the assertion engine; queries are checked and handed to the
    query engine. *)

From S2P Require Import Prelude Cbor Keys Object Query BitArray BloomFilter Section Message Siglib SiglibFacts Containers LruCache Pointers ZoneCache ZoneCacheFacts AssertionCache NegAssertionCache ZoneKeyCache ConnectionCache PendingCaches CapabilityCache Server AssertionEngine QueryEngine.
Local Open Scope Z_scope.

Record missingKeyMetaData := mkMissingKey { mkZoneName : string; mkContext : string; mkKeyPhase : Z }.
#[export] Instance missingKey_eq_dec : EqDecision missingKeyMetaData.
Proof. solve_decision. Defined.
#[export] Instance missingKey_countable : Countable missingKeyMetaData.
Proof.
  refine (inj_countable' (λ k, (mkZoneName k, mkContext k, mkKeyPhase k)) (λ p, mkMissingKey p.1.1 p.1.2 p.2) _). by intros [].
Defined.

(** [strings.Contains] *)
Fixpoint Contains (s sub : string) : bool :=
  String.prefix sub s || match s with EmptyString => false | String _ s' => Contains s' sub end.

Definition contextInvalid (context : string) : bool := negb (context =ₛ ".") && negb (Contains context "cx-").

Definition isQueryExpired (now expires : Z) : bool := expires <? unix now.

(** The longest validity of the signatures, bounded by the configured duration. *)
Definition getQueryValidity (now : Z) (sigs : list Sig) (delegQValidity : Z) : Z :=
  let validity := foldl (λ v sig, if v <? sigValidUntil sig then sigValidUntil sig else v) 0 sigs in
  let upperBound := unix_after now delegQValidity in
  if upperBound <? validity then upperBound else validity.

Abbreviation KeyMap := (gmap PublicKeyID (list PublicKey)) (only parsing).

Section Verify.
Context {CS : CborStream} {TG : TokenGen} {NW : Network} {OL : ObjLib} {CW : CborWriter} {CE : CborEncoder} {ED : Ed25519Lib}.
Context (stack : nat).
Abbreviation M := (serverM (CS:=CS)) (only parsing).

Fixpoint hasAuthority (authorities : list ZoneContext) (sections : list AnySection) : outcome bool :=
  match sections with
  | [] => Ok true
  | sec :: sections' =>
      w ← as_with_sig sec;
      if negb (isAuthoritative w authorities) then Ok false else hasAuthority authorities sections'
  end.

(** ** Keys *)

Definition ZoneKeys_Get (now : Z) (zone context : string) (md : MetaData) : M (option publicKeyAssertion) :=
  on_cache ZoneKeys set_zone_keys (λ c, Ok (ZoneKeyImpl_Get (unix now) c zone context md)).

(** Keys are collected under their identifier: algorithm, key space and key phase. *)
Definition add_key (keys : KeyMap) (id : PublicKeyID) (key : PublicKey) : KeyMap :=
  <[id := default [] (keys !! id) ++ [key]]> keys.

(** One signature of the section [s]. *)
Definition key_present (now : Z) (s : SigSection) (st : KeyMap * gset missingKeyMetaData) (sigData : MetaData)
    : M (KeyMap * gset missingKeyMetaData) :=
  let '(keys, missingKeys) := st in
  r ← ZoneKeys_Get now (With_GetSubjectZone s) (With_GetContext s) sigData;
  mret (match r with
        | Some v => (add_key keys (mdPublicKeyID sigData) (pkaKey v), missingKeys)
        | None => (keys, {[ mkMissingKey (With_GetSubjectZone s) (With_GetContext s)
                             (KeyPhase (mdPublicKeyID sigData)) ]} ∪ missingKeys)
        end).

Definition publicKeysPresent (now : Z) (s : SigSection) (st : KeyMap * gset missingKeyMetaData)
    : M (KeyMap * gset missingKeyMetaData) :=
  fold_each (key_present now s) st (elements (With_NeededKeys s ∅)).

Definition handleMissingKeys (now : Z) (ss : MsgSectionSender) (missingKeys : gset missingKeyMetaData)
    (isAuth : bool) : M () :=
  sec0 ← pure_or_panic (at_index (mssSections ss) 0);
  w ← pure_or_panic (as_with_sig sec0);
  validity ← gets (λ s, DelegationQueryValidity (config s));
  let exp := getQueryValidity now (With_Sigs w RainsKeySpace) validity in
  t ← token_New;
  on_cache PendingKeys set_pending_keys (λ c, Ok (PendingKey_Add c ss t exp, ()));;
  let queries := (λ k, SecQuery (mkQueryName (mkContext k) (mkZoneName k) [OTDelegation] exp [] (mkKeyPhase k) 0))
                   <$> elements missingKeys in
  let msg := mkMessage [] t queries [] in
  if isAuth then sendToRecursiveResolver msg
  else _ ← sendTo msg (mssSender ss) 0; mret ().

(** The loop over the sections: the sections as the checks left them, [None] when one
    was refused. *)
Fixpoint verifySignatures (now : Z) (keys : KeyMap) (maxVal : MaxCacheValidity) (secs : list AnySection)
    : outcome (option (list SigSection)) :=
  match secs with
  | [] => Ok (Some [])
  | sec :: secs' =>
      w ← as_with_sig sec;
      '(w', ok) ← CheckSectionSignatures now w (Some keys) maxVal;
      if negb ok then Ok None
      else
        r ← verifySignatures now keys maxVal secs';
        Ok (match r with Some l => Some (w' :: l) | None => None end)
  end.

(** The loop over the sections of [verifySections]: [None] when a notification was sent. *)
Fixpoint collect_keys (now : Z) (ss : MsgSectionSender) (secs : list AnySection) (st : KeyMap * gset missingKeyMetaData)
    : M (option (KeyMap * gset missingKeyMetaData)) :=
  match secs with
  | [] => mret (Some st)
  | sec :: secs' =>
      w ← pure_or_panic (as_with_sig sec);
      if negb (With_IsConsistent w) then
        sendNotificationMsg (mssToken ss) (mssSender ss) NTRcvInconsistentMsg "contained section has context or subjectZone";;
        mret None
      else if contextInvalid (With_GetContext w) then
        sendNotificationMsg (mssToken ss) (mssSender ss) NTRcvInconsistentMsg "invalid context";; mret None
      else
        st ← publicKeysPresent now w st;
        collect_keys now ss secs' st
  end.

Definition verifySections (now : Z) (ss : MsgSectionSender) (isAuth : bool) : M () :=
  r ← collect_keys now ss (mssSections ss) (∅, ∅);
  match r with
  | None => mret ()
  | Some (keys, missingKeys) =>
      if bool_decide (missingKeys ≠ ∅) then handleMissingKeys now ss missingKeys isAuth
      else
        maxVal ← gets (λ s, cfgMaxCacheValidity (config s));
        r ← pure_or_panic (verifySignatures now keys maxVal (mssSections ss));
        match r with
        | Some sections => assert (mkSectionWithSigSender (mssSender ss) sections (mssToken ss))
        | None => mret ()
        end
  end.

(** ** Queries *)

(** [for i, q := range msgSender.Sections]: the loop reads the slice as it was at the start,
    of [length idx] elements, while [append(Sections[:i], Sections[i+1:]...)] moves the elements of
    the same array [arr] and shortens [msgSender.Sections] to [m] elements.  [None] when a
    notification was sent. *)
Fixpoint expire_queries (now : Z) (ss : MsgSectionSender) (arr : list AnySection) (m : nat) (idx : list nat)
    : M (option (list AnySection)) :=
  match idx with
  | [] => mret (Some (take m arr))
  | i :: idx' =>
      sec ← pure_or_panic (or_panic (arr !! i) "index out of range");
      q ← pure_or_panic (as_query sec);
      if contextInvalid (Query_GetContext q) then
        sendNotificationMsg (mssToken ss) (mssSender ss) NTRcvInconsistentMsg "invalid context";; mret None
      else if isQueryExpired now (Query_GetExpiration q) then
        if (i + 1 <=? m)%nat
        then expire_queries now ss (take i arr ++ drop (i + 1) (take m arr) ++ drop (m - 1) arr) (m - 1) idx'
        else panic "slice bounds out of range"
      else expire_queries now ss arr m idx'
  end.

Definition verifyQueries (now : Z) (ss : MsgSectionSender) : M () :=
  let n := length (mssSections ss) in
  r ← expire_queries now ss (mssSections ss) n (seq 0 n);
  match r with
  | None => mret ()
  | Some sections => processQuery stack now (mkMsgSectionSender (mssSender ss) sections (mssToken ss))
  end.

Definition PendingKeys_ContainsToken (t : Token) : M bool :=
  gets (λ s, PendingKey_ContainsToken (PendingKeys (caches s)) t).

Definition verify (now : Z) (ss : MsgSectionSender) : M () :=
  sec0 ← pure_or_panic (at_index (mssSections ss) 0);
  match sec0 with
  | SecQuery _ => verifyQueries now ss
  | SecNotification _ => mret ()
  | _ =>
      authorities ← gets (λ s, Authorities (config s));
      isAuth ← pure_or_panic (hasAuthority authorities (mssSections ss));
      pending ← PendingKeys_ContainsToken (mssToken ss);
      if bool_decide (authorities ≠ []) && negb isAuth && negb pending then mret ()
      else verifySections now ss isAuth
  end.
End Verify.

