(* ===== verification/Inbox.v ===== *)
(** * The inbox, notifications and the worker pools of the server

    Models attic/internal/pkg/rainsd/{inbox,notification}.go and the reading half of
    switchboard.go.  [deliver] sorts the sections of a message into the queues; three
    goroutines take messages from the queues and start a handler for each, within limits set
    by the channels PrioW, NormalW and NotifyW.  The goroutines and handlers are a step
    relation on [Pool]: a step is one channel operation or one handler. *)

From S2P Require Import Prelude Cbor Keys Object Query BitArray BloomFilter Section Message Siglib SiglibFacts Containers LruCache Pointers ZoneCache ZoneCacheFacts AssertionCache NegAssertionCache ZoneKeyCache ConnectionCache PendingCaches CapabilityCache Server AssertionEngine QueryEngine Verify.
Local Open Scope Z_scope.

(** [strings.Split(s, sep)] for a one-character separator. *)
Fixpoint split_on (sep : Ascii.ascii) (s : string) : list string :=
  match s with
  | EmptyString => [""%string]
  | String c s' =>
      if Ascii.eqb c sep then ""%string :: split_on sep s'
      else match split_on sep s' with
           | [] => [String c EmptyString]
           | l :: ls => String c l :: ls
           end
  end.

Definition capabilityIsHash (capabilities : string) : bool := negb (HasPrefix capabilities "urn:").
Definition isZoneBlacklisted (zone : string) : bool := false.
Definition isIPBlacklisted (addr : Addr) : bool := false.

Section Inbox.
Context {CS : CborStream} {TG : TokenGen} {NW : Network} {OL : ObjLib} {CW : CborWriter} {CE : CborEncoder} {ED : Ed25519Lib}.
Context (stack : nat).
Abbreviation M := (serverM (CS:=CS)) (only parsing).

(** ** Incoming messages *)

Definition send_prio (ss : MsgSectionSender) : M () :=
  update (λ s, set_queues (mkQueues (Prio (queues s) ++ [ss]) (Normal (queues s)) (Notify (queues s))) s).
Definition send_notify (ss : MsgSectionSender) : M () :=
  update (λ s, set_queues (mkQueues (Prio (queues s)) (Normal (queues s)) (Notify (queues s) ++ [ss])) s).

(** The bodies of the two functions are comments. *)
Definition processCapability (caps : list string) (sender : Addr) (token : Token) : M () := mret ().
Definition addCapabilityAndRespond (sender : Addr) (caps : list string) : M () := mret ().

(** The loop over the content: queries and sections are collected, notifications queued. *)
Definition deliver_section (sender : Addr) (token : Token) (acc : list AnySection * list AnySection) (m : AnySection)
    : M (list AnySection * list AnySection) :=
  let '(queries, sections) := acc in
  match m with
  | SecQuery _ => mret (queries ++ [m], sections)
  | SecNotification _ => send_notify (mkMsgSectionSender sender [m] token);; mret (queries, sections)
  | _ =>
      w ← pure_or_panic (as_with_sig m);
      mret (queries, if negb (isZoneBlacklisted (With_GetSubjectZone w)) then sections ++ [m] else sections)
  end.

Definition deliver (msg : Message) (sender : Addr) : M () :=
  processCapability (mCapabilities msg) sender (mToken msg);;
  '(queries, sections) ← fold_each (deliver_section sender (mToken msg)) ([], []) (mContent msg);
  (if bool_decide (queries ≠ []) then send_normal (mkMsgSectionSender sender queries (mToken msg)) else mret ());;
  if bool_decide (sections ≠ []) then
    let mss := mkMsgSectionSender sender sections (mToken msg) in
    pending ← PendingKeys_ContainsToken (mToken msg);
    if pending : bool then send_prio mss else send_normal mss
  else mret ().

(** The messages read from a connection until reading fails. *)
Definition handleConnection (conn : Conn) (msgs : list Message) : M () :=
  for_each (λ msg, deliver msg (RemoteAddr conn)) msgs;;
  CloseAndRemoveConnection_M conn.

(** ** Notifications *)

Definition GetCapabilityList_M (addr : Addr) : M (option (list string)) :=
  on_cache ConnCache set_conns_cache (λ c, Ok (GetCapabilityList c addr)).
Definition AddCapabilityList_M (addr : Addr) (caps : list string) : M bool :=
  on_cache ConnCache set_conns_cache (λ c, Ok (AddCapabilityList c addr caps)).
Definition Capabilities_Get (hash : string) : M (option (list string)) :=
  on_cache Capabilities set_capabilities (λ c, Ok (Capability_Get c (bytes_of_string hash))).

(** The two lines that answer with the server's own capabilities. *)
Definition send_own_capabilities (sender : Addr) : M () :=
  addr ← gets (λ s, ServerAddress (config s));
  caps ← GetCapabilityList_M addr;
  sendCapability sender (default [] caps).

Definition forward_notification (notification : Notification) (serverError : bool) (ss : MsgSectionSender) : M () :=
  if serverError then sendNotificationMsg (mssToken ss) (mssSender ss) NTUnspecServerErr ""
  else sendNotificationMsg (mssToken ss) (mssSender ss) (nType notification) (nData notification).

Definition dropPendingSectionsAndQueries (token : Token) (notification : Notification) (serverError : bool) : M () :=
  '(ss, ok) ← PendingKeys_GetAndRemove token;
  (if ok : bool then forward_notification notification serverError ss else mret ());;
  sectionSenders ← PendingQueries_GetAndRemove token;
  for_each (forward_notification notification serverError) sectionSenders.

Definition notify (msgSender : MsgSectionSender) : M () :=
  sec0 ← pure_or_panic (at_index (mssSections msgSender) 0);
  match sec0 with
  | SecNotification sec =>
      let t := nType sec in
      let token := mssToken msgSender in
      let sender := mssSender msgSender in
      if t =? NTHeartbeat then mret ()
      else if t =? NTCapHashNotKnown then
        if bool_decide (nData sec = ""%string) then send_own_capabilities sender
        else if capabilityIsHash (nData sec) then
          caps ← Capabilities_Get (nData sec);
          match caps with
          | Some caps => _ ← AddCapabilityList_M sender caps; send_own_capabilities sender
          | None => sendNotificationMsg token sender NTCapHashNotKnown ""
          end
        else _ ← AddCapabilityList_M sender (split_on " " (nData sec)); send_own_capabilities sender
      else if t =? NTBadMessage then dropPendingSectionsAndQueries token sec true
      else if t =? NTRcvInconsistentMsg then dropPendingSectionsAndQueries token sec true
      else if t =? NTMsgTooLarge then mret ()
      else if t =? NTNoAssertionsExist then sendNotificationMsg token sender NTBadMessage ""
      else if t =? NTUnspecServerErr then dropPendingSectionsAndQueries token sec false
      else if t =? NTServerNotCapable then dropPendingSectionsAndQueries token sec false
      else if t =? NTNoAssertionAvail then dropPendingSectionsAndQueries token sec false
      else sendNotificationMsg token sender NTBadMessage "No matching notification type"
  | _ => panic "interface conversion"
  end.

(** ** Reapers *)

(** The five goroutines of [initReapers], each calling one method again and again. *)
Inductive Reaper := ReapZoneKeys | ReapPendingKeys | ReapAssertions | ReapNegAssertions | ReapPendingQueries.
Definition reap (now : Z) (r : Reaper) : M () :=
  match r with
  | ReapZoneKeys => on_cache ZoneKeys set_zone_keys (λ c, Ok (ZoneKeyImpl_RemoveExpiredKeys (unix now) c, ()))
  | ReapPendingKeys => on_cache PendingKeys set_pending_keys (λ c, Ok (PendingKey_RemoveExpiredValues (unix now) c, ()))
  | ReapAssertions => on_cache AssertionsCache set_assertions (λ c, Ok (AssertionImpl_RemoveExpiredValues (unix now) c, ()))
  | ReapNegAssertions => on_cache NegAssertions set_neg_assertions (λ c, Ok (NegAssertionImpl_RemoveExpiredValues (unix now) c, ()))
  | ReapPendingQueries =>
      on_cache PendingQueries set_pending_queries (λ c, c' ← PendingQuery_RemoveExpiredValues (unix now) c; Ok (c', ()))
  end.

(** ** Workers *)

(** A handler: [prioWorkerHandler] with its flag, [normalWorkerHandler] and
    [handleNotification] before their work, and handlers that have done it and wait to
    take an element from PrioW or NormalW. *)
Inductive Handler :=
| HPrio (msg : MsgSectionSender) (prioWorker : bool)
| HNormal (msg : MsgSectionSender)
| HNotify (msg : MsgSectionSender)
| HReleasePrio
| HReleaseNormal.

(** What is left of a handler when its work is done. *)
Definition after (h : Handler) : list Handler :=
  match h with
  | HPrio _ true => [HReleasePrio]        (* if prioWorker { <-s.queues.PrioW } *)
  | HPrio _ false => []
  | HNormal _ => [HReleaseNormal]         (* <-s.queues.NormalW *)
  | HNotify _ => [HReleaseNormal]         (* <-s.queues.NormalW *)
  | h => [h]
  end.

(** The channels that count workers hold [prioW], [normalW] and [notifyW] elements; the
    flags tell that a dispatching loop has put its element and waits for a message. *)
Record Pool := mkPool {
  server : Server;
  prioW : Z;
  normalW : Z;
  notifyW : Z;
  prioReady : bool;      (* workPrio waits on the Prio channel *)
  bothReady : bool;      (* workBoth looks at the Prio and Normal channels *)
  notifyReady : bool;    (* workNotification waits on the Notify channel *)
  running : list Handler;
  started : list Handler (* all handlers ever started *)
}.

Definition spawn (p : Pool) (s : Server) (h : Handler) (prio both notif : bool) : Pool :=
  mkPool s (prioW p) (normalW p) (notifyW p) prio both notif (running p ++ [h]) (started p ++ [h]).

(** [if msg.Sections != nil { s.verify(msg) }], and the same with [notify] *)
Definition work (now : Z) (h : Handler) : M () :=
  match h with
  | HPrio msg _ | HNormal msg => if bool_decide (mssSections msg ≠ []) then verify stack now msg else mret ()
  | HNotify msg => if bool_decide (mssSections msg ≠ []) then notify msg else mret ()
  | _ => mret ()
  end.

(** One step of the server: an arriving message, a reaper, a channel operation of one of the three
    loops, or the work or the last channel operation of a handler.  The steps that put an
    element on a worker channel wait for room, those that take one for an element. *)
Inductive step (p : Pool) : Pool → Prop :=
| step_deliver msg sender s :
    deliver msg sender (server p) = Ok (s, ()) →
    step p (mkPool s (prioW p) (normalW p) (notifyW p) (prioReady p) (bothReady p) (notifyReady p) (running p) (started p))
| step_reap now r s :
    reap now r (server p) = Ok (s, ()) →
    step p (mkPool s (prioW p) (normalW p) (notifyW p) (prioReady p) (bothReady p) (notifyReady p) (running p) (started p))
| step_prio_acquire :                       (* s.queues.PrioW <- struct{}{} *)
    prioReady p = false → prioW p < PrioWorkerCount (config (server p)) →
    step p (mkPool (server p) (prioW p + 1) (normalW p) (notifyW p) true (bothReady p) (notifyReady p) (running p) (started p))
| step_prio_take msg rest :                 (* msg := <-s.queues.Prio *)
    prioReady p = true → Prio (queues (server p)) = msg :: rest →
    step p (spawn p (set_queues (mkQueues rest (Normal (queues (server p))) (Notify (queues (server p)))) (server p))
              (HPrio msg true) false (bothReady p) (notifyReady p))
| step_both_acquire :                       (* s.queues.NormalW <- struct{}{} *)
    bothReady p = false → normalW p < NormalWorkerCount (config (server p)) →
    step p (mkPool (server p) (prioW p) (normalW p + 1) (notifyW p) (prioReady p) true (notifyReady p) (running p) (started p))
| step_both_prio msg rest :                 (* case msg := <-s.queues.Prio *)
    bothReady p = true → Prio (queues (server p)) = msg :: rest →
    step p (spawn p (set_queues (mkQueues rest (Normal (queues (server p))) (Notify (queues (server p)))) (server p))
              (HPrio msg false) (prioReady p) false (notifyReady p))
| step_both_normal msg rest :               (* case msg := <-s.queues.Normal *)
    bothReady p = true → Prio (queues (server p)) = [] → Normal (queues (server p)) = msg :: rest →
    step p (spawn p (set_queues (mkQueues (Prio (queues (server p))) rest (Notify (queues (server p)))) (server p))
              (HNormal msg) (prioReady p) false (notifyReady p))
| step_both_release :                       (* default: <-s.queues.NormalW *)
    bothReady p = true → Prio (queues (server p)) = [] → Normal (queues (server p)) = [] → 0 < normalW p →
    step p (mkPool (server p) (prioW p) (normalW p - 1) (notifyW p) (prioReady p) false (notifyReady p) (running p) (started p))
| step_notify_acquire :                     (* s.queues.NotifyW <- struct{}{} *)
    notifyReady p = false → notifyW p < NotificationWorkerCount (config (server p)) →
    step p (mkPool (server p) (prioW p) (normalW p) (notifyW p + 1) (prioReady p) (bothReady p) true (running p) (started p))
| step_notify_take msg rest :               (* msg := <-s.queues.Notify *)
    notifyReady p = true → Notify (queues (server p)) = msg :: rest →
    step p (spawn p (set_queues (mkQueues (Prio (queues (server p))) (Normal (queues (server p))) rest) (server p))
              (HNotify msg) (prioReady p) (bothReady p) false)
| step_work now h pre post s :              (* the work of a handler *)
    running p = pre ++ h :: post → work now h (server p) = Ok (s, ()) →
    step p (mkPool s (prioW p) (normalW p) (notifyW p) (prioReady p) (bothReady p) (notifyReady p)
              (pre ++ after h ++ post) (started p))
| step_release_prio pre post :              (* <-s.queues.PrioW *)
    running p = pre ++ HReleasePrio :: post → 0 < prioW p →
    step p (mkPool (server p) (prioW p - 1) (normalW p) (notifyW p) (prioReady p) (bothReady p) (notifyReady p)
              (pre ++ post) (started p))
| step_release_normal pre post :            (* <-s.queues.NormalW *)
    running p = pre ++ HReleaseNormal :: post → 0 < normalW p →
    step p (mkPool (server p) (prioW p) (normalW p - 1) (notifyW p) (prioReady p) (bothReady p) (notifyReady p)
              (pre ++ post) (started p)).

(** A server that has just been started. *)
Definition initial (p : Pool) : Prop :=
  prioW p = 0 ∧ normalW p = 0 ∧ notifyW p = 0 ∧ prioReady p = false ∧ bothReady p = false ∧ notifyReady p = false ∧
  running p = [] ∧ started p = [].
Inductive reachable : Pool → Prop :=
| reach_init p : initial p → reachable p
| reach_step p p' : reachable p → step p p' → reachable p'.
End Inbox.
