(* ===== verification/ServerFacts.v ===== *)
(** * The caches behind the server

    The invariant of the server's caches and a relational logic for [serverM]: [respects R m]
    says that every run of [m] that does not panic relates the server before and after by
    the preorder [R].  The rules follow the structure of the code, so that a property of
    all handlers is proved by showing it for the few operations that touch the state. *)

From S2P Require Import Prelude Cbor Keys Object Query BitArray BloomFilter Section Message Siglib SiglibFacts Containers LruCache Pointers ZoneCache ZoneCacheFacts AssertionCache NegAssertionCache ZoneKeyCache ConnectionCache PendingCaches CapabilityCache Server AssertionEngine QueryEngine Verify Inbox.
Local Open Scope Z_scope.

(** ** What the caches promise *)

(** A section filed in the abstract state of a section cache. *)
Definition filed {S} (v : gmap string (string * gmap string (Expiring (S:=S)))) (s : S) : Prop :=
  ∃ k p h x, v !! k = Some p ∧ p.2 !! h = Some (mkExpiring s x).

Lemma filed_add_section {S} (Hash : S → string) v (s t : S) key zone expiration :
  filed (add_section Hash v s key zone expiration) t → filed v t ∨ t = s.
Proof.
  unfold add_section, filed. intros (k & p & h & x & Hk & Hh).
  destruct (v !! key) as [[z ss]|] eqn:E.
  - destruct (ss !! Hash s) eqn:Eh; [by eauto 10|].
    apply lookup_insert_Some in Hk as [[<- <-]|[_ Hk]]; [|by eauto 10]. simpl in Hh.
    apply lookup_insert_Some in Hh as [[_ Hh]|[_ Hh]]; [right; by injection Hh|left]. by exists key, (z, ss), h, x.
  - apply lookup_insert_Some in Hk as [[<- <-]|[_ Hk]]; [|by eauto 10]. simpl in Hh.
    apply lookup_singleton_Some in Hh as [_ Hh]. right. by injection Hh.
Qed.

(** An entry that is left is filed as before. *)
Lemma filed_sub {S} (v v' : gmap string (string * gmap string (Expiring (S:=S)))) s :
  (∀ k, v' !! k = v !! k ∨ v' !! k = None) → filed v' s → filed v s.
Proof.
  intros H (k & p & h & x & Hk & Hh). destruct (H k) as [E|E]; rewrite E in Hk; [|done]. by exists k, p, h, x.
Qed.

Section Promises.
Context {OL : ObjLib} {CW : CborWriter}.

Lemma Assertion_Add_promise c a expiration isInternal c' ok :
  ac_inv c → finished (AssertionImpl_Add 1 c a expiration isInternal) = Ok (c', ok) →
  ac_inv c' ∧ ∀ t, filed (zc_view c') t → filed (zc_view c) t ∨ t = a.
Proof.
  intros I. cbn [AssertionImpl_Add]. destruct (aContent a) as [|o content] eqn:Ec.
  { cbn [Add_objects]. destruct (zc_evict_spec assertion_hash true c (S (size (lruMap (zcCache c)))) I) as (c2 & -> & I2 & _ & Hv & _).
    { unfold lru_vals. rewrite map_size_fmap. lia. }
    cbn. intros [= <- <-]. split; [done|]. intros t Ht. left. eapply filed_sub; [|done]. intros k. destruct (Hv k) as [?|[? _]]; auto. }
  rewrite <-Ec. destruct (Assertion_Hash a) as [h|e|e] eqn:Eh.
  - destruct (Add_objects_spec c a expiration isInternal (aContent a) false h I Eh) as (c1 & f & -> & I1 & W & _).
    destruct (zc_evict_spec assertion_hash true c1 (S (size (lruMap (zcCache c1)))) I1) as (c2 & -> & I2 & _ & Hv & _).
    { unfold lru_vals. rewrite map_size_fmap. lia. }
    cbn. intros [= <- <-]. split; [done|]. intros t Ht.
    assert (filed (zc_view c1) t) as Ht1 by (eapply filed_sub; [|done]; intros k; destruct (Hv k) as [?|[? _]]; auto).
    rewrite W in Ht1. clear -Ht1. revert Ht1. generalize (zc_view c). induction (aContent a) as [|o' l IH]; intros v; simpl; [by left|].
    intros [[H| ->]%filed_add_section| ->]%IH; auto.
  - exfalso. unfold Assertion_Hash, section_hash in Eh. by destruct (Assertion_MarshalCBOR a).
  - rewrite Ec. cbn [Add_objects]. rewrite Eh. done.
Qed.

Lemma Neg_Add_promise c s expiration isInternal c' ok :
  nc_inv c → finished (neg_add 1 c s expiration isInternal) = Ok (c', ok) →
  nc_inv c' ∧ ∀ t, filed (zc_view c') t → filed (zc_view c) t ∨ t = s.
Proof.
  intros I. cbn [neg_add]. destruct (Neg_Hash s) as [h|e|e]; [| |done];
    (pose proof (zc_insert_spec neg_hash false c s (zoneCtxKey (Neg_GetSubjectZone s) (Neg_GetContext s)) (Neg_GetSubjectZone s)
       expiration isInternal false I) as (I1 & W & Er & Hm);
     destruct (zc_insert _ _ _ _ _ _ _ _ _) as [c1 r]; cbn [fst snd] in *; subst r;
     destruct (zc_evict_spec neg_hash false c1 (S (size (lruMap (zcCache c1)))) I1) as (c2 & -> & I2 & _ & Hv & _);
     [unfold lru_vals; rewrite map_size_fmap; lia|];
     cbn; intros [= <- <-]; split; [done|]; intros t Ht; apply (filed_add_section neg_hash _ s t
       (zoneCtxKey (Neg_GetSubjectZone s) (Neg_GetContext s)) (Neg_GetSubjectZone s) expiration); rewrite <-W;
     eapply filed_sub; [|done]; intros k; destruct (Hv k) as [?|[? _]]; auto).
Qed.
End Promises.

(** A public key in the abstract state of the zone key cache, under the cache key [k]. *)
Definition key_at (v : gmap string kfile) (k : string) (e : publicKeyAssertion) : Prop :=
  ∃ p h, v !! k = Some p ∧ p.2 !! h = Some e.

Lemma key_at_add v a pk k e : key_at (zk_add v a pk) k e → key_at v k e ∨ (e = mkPka pk a ∧ k = zk_key a pk).
Proof.
  unfold key_at, zk_add. intros (p & h & Hk & Hh). destruct (v !! zk_key a pk) as [[cz m]|] eqn:E.
  - apply lookup_insert_Some in Hk as [[<- <-]|[_ Hk]]; [|by eauto 10].
    simpl in Hh. apply lookup_insert_Some in Hh as [[_ <-]|[_ Hh]]; [by right|left]. by exists (cz, m), h.
  - apply lookup_insert_Some in Hk as [[<- <-]|[_ Hk]]; [|by eauto 10]. simpl in Hh.
    apply lookup_singleton_Some in Hh as [_ <-]. by right.
Qed.

Lemma ZoneKey_Add_promise c a pk b c' ok :
  zk_inv c → finished (ZoneKeyImpl_Add 1 c a pk b) = Ok (c', ok) →
  zk_inv c' ∧ ∀ k e, key_at (zk_view c') k e → key_at (zk_view c) k e ∨ (e = mkPka pk a ∧ k = zk_key a pk).
Proof.
  intros I. destruct (zk_Add_insert c a pk b 0 I) as (c1 & I1 & Hw & Hm & [(Hk & V & E)|(Hk & V & E)]); rewrite E.
  { cbn. intros [= <- <-]. split; [done|]. rewrite V. by left. }
  destruct (Counter_IsFull (zkCounter c1)) eqn:Ef.
  - destruct (zk_evict_spec c1 0 I1 Ef) as [(k & c2 & -> & I2 & _ & V2 & _)|[_ [msg ->]]]; cbn; [|done].
    intros [= <- <-]. split; [done|]. intros k' e (p & h & Hk' & Hh). rewrite V2 in Hk'.
    apply lookup_delete_Some in Hk' as [_ Hk']. apply key_at_add. rewrite <-V. by exists p, h.
  - cbn. intros [= <- <-]. split; [done|]. intros k e He. apply key_at_add. by rewrite <-V.
Qed.

Lemma Capability_Get_promise c hash : cap_inv c → cap_inv (Capability_Get c hash).1.
Proof.
  intros [W C]. unfold Capability_Get. destruct (lru_Get_vals (capabilityMap c) (string_of_bytes hash)) as [Ev _].
  pose proof (lru_Get_wf (capabilityMap c) (string_of_bytes hash) W) as W'. destruct (lru_Get _ _) as [m v]. cbn in *.
  split; [done|]. unfold cap_vals in *. simpl. by rewrite Ev.
Qed.

(** ** The logic *)

Section Logic.
Context {CS : CborStream} (R : relation (Server (CS:=CS))) {RP : PreOrder R}.
Implicit Types s : Server (CS:=CS).

Definition respects {A} (m : serverM (CS:=CS) A) : Prop := ∀ s s' a, m s = Ok (s', a) → R s s'.

Lemma respects_ret {A} (a : A) : respects (mret a).
Proof. intros s s' a' [= -> _]. reflexivity. Qed.
Lemma respects_bind {A B} (m : serverM A) (f : A → serverM B) :
  respects m → (∀ a, respects (f a)) → respects (m ≫= f).
Proof.
  intros Hm Hf s s' b. unfold mbind, serverM_bind. destruct (m s) as [[s1 a]| |] eqn:E; cbn; [|done..].
  intros H. etrans; [by eapply Hm|by eapply Hf].
Qed.
Lemma respects_gets {A} (f : Server → A) : respects (gets f).
Proof. intros s s' a [= -> _]. reflexivity. Qed.
Lemma respects_update f : (∀ s, R s (f s)) → respects (update f).
Proof. intros H s s' a [= <- _]. apply H. Qed.
Lemma respects_panic {A} msg : respects (A:=A) (panic msg).
Proof. done. Qed.
Lemma respects_pure {A} (m : outcome A) : respects (pure_or_panic m).
Proof. intros s s' a. unfold pure_or_panic. destruct m; [|done..]. intros [= -> _]. reflexivity. Qed.
Lemma respects_on_cache {C A} get set (f : C → outcome (C * A)) :
  (∀ s c a, f (get (caches s)) = Ok (c, a) → R s (set_caches (set c (caches s)) s)) → respects (on_cache get set f).
Proof.
  intros H s s' a. unfold on_cache. destruct (f (get (caches s))) as [[c a']| |] eqn:E; [|done..]. intros [= <- _]. by eapply H.
Qed.
Lemma respects_for_each {A} (body : A → serverM ()) l : (∀ x, x ∈ l → respects (body x)) → respects (for_each body l).
Proof.
  intros H. induction l as [|x l IH]; cbn; [apply respects_ret|]. apply respects_bind; [apply H; left|].
  intros _. apply IH. intros y Hy. apply H. by right.
Qed.
Lemma respects_fold_each {A B} (body : B → A → serverM B) acc l :
  (∀ acc x, x ∈ l → respects (body acc x)) → respects (fold_each body acc l).
Proof.
  revert acc. induction l as [|x l IH]; intros acc H; cbn; [apply respects_ret|].
  apply respects_bind; [apply H; left|]. intros acc'. apply IH. intros ? y Hy. apply H. by right.
Qed.
End Logic.

(** The steps of a computation that returned. *)
Lemma run_bind {CS : CborStream} {A B} (m : serverM (CS:=CS) A) (f : A → serverM B) s s' b :
  (m ≫= f) s = Ok (s', b) → ∃ s1 a, m s = Ok (s1, a) ∧ f a s1 = Ok (s', b).
Proof. unfold mbind, serverM_bind. destruct (m s) as [[s1 a]| |]; cbn; [by eauto|done..]. Qed.
Lemma run_pure {CS : CborStream} {A} (m : outcome A) (s s' : Server (CS:=CS)) a :
  pure_or_panic m s = Ok (s', a) → s' = s ∧ m = Ok a.
Proof. unfold pure_or_panic. destruct m; [|done..]. by intros [= -> ->]. Qed.

Create HintDb server.
#[export] Hint Extern 1 (respects _ _) =>
  first [apply respects_ret|apply respects_gets|apply respects_panic|apply respects_pure]; apply _ : server.

(** Follows the structure of a computation; what is left are the operations on the state. *)
Ltac respects_step := cbv beta;
  lazymatch goal with
  | |- respects _ (_ ≫= _) => apply respects_bind; [apply _| |intros ?]
  | |- respects _ (for_each _ _) => apply respects_for_each; [apply _|intros ??]
  | |- respects _ (fold_each _ _ _) => apply respects_fold_each; [apply _|intros ???]
  | |- respects _ (match ?x with _ => _ end _) => destruct x eqn:?
  | |- respects _ (match ?x with _ => _ end) => destruct x eqn:?
  | |- respects _ (let '_ := ?x in _) => destruct x eqn:?
  | |- respects _ (if ?x then _ else _) => destruct x eqn:?
  | |- respects _ _ => solve [eauto 2 with server]
  end.
Ltac respects := repeat respects_step.

(** ** What enters the caches *)

Section Grows.
Context {CS : CborStream} {OL : ObjLib} {CW : CborWriter}.
Implicit Types s : Server (CS:=CS).

Record cache_inv (c : Caches) : Prop := {
  ci_assertions : ac_inv (AssertionsCache c);
  ci_negs : nc_inv (NegAssertions c);
  ci_keys : zk_inv (ZoneKeys c);
  ci_pending_keys : pk_inv (PendingKeys c);
  ci_capabilities : cap_inv (Capabilities c)
}.

Lemma initCaches_inv cfg : cache_inv (initCaches cfg).
Proof.
  split; cbn [initCaches AssertionsCache NegAssertions ZoneKeys PendingKeys Capabilities].
  - apply (zc_New_inv assertion_hash true).
  - apply (zc_New_inv neg_hash false).
  - apply NewZoneKey_inv.
  - done.
  - split; [by repeat apply lru_GetOrAdd_wf; apply lru_New_wf|reflexivity].
Qed.

Definition has_assertion s (a : Assertion) : Prop := filed (zc_view (AssertionsCache (caches s))) a.
Definition has_neg s (n : NegSection) : Prop := filed (zc_view (NegAssertions (caches s))) n.
Definition has_key s (k : string) (e : publicKeyAssertion) : Prop := key_at (zk_view (ZoneKeys (caches s))) k e.

Context (A : Assertion → Prop) (N : NegSection → Prop) (K : string → publicKeyAssertion → Prop).

(** The invariant is kept, only assertions, sections and keys allowed by the three
    predicates are new in the caches, and nothing is taken from the priority queue. *)
Definition grows s s' : Prop :=
  (config s' = config s ∧ Prio (queues s) `prefix_of` Prio (queues s')) ∧
  (cache_inv (caches s) →
     cache_inv (caches s') ∧ (∀ a, has_assertion s' a → has_assertion s a ∨ A a) ∧
     (∀ n, has_neg s' n → has_neg s n ∨ N n) ∧ (∀ k e, has_key s' k e → has_key s k e ∨ K k e)).

#[export] Instance grows_preorder : PreOrder grows.
Proof.
  split; [by intros s; split; [done|]; intros I; split_and!; eauto|].
  intros s1 s2 s3 [[C1 Q1] H1] [[C2 Q2] H2]. split; [split; [by rewrite C2|by etrans]|]. intros I.
  destruct (H1 I) as (I1 & A1 & N1 & K1). destruct (H2 I1) as (I2 & A2 & N2 & K2). split; [done|]. split_and!.
  - intros a [?%A1|?]%A2; auto.
  - intros n [?%N1|?]%N2; auto.
  - intros k e [?%K1|?]%K2; auto.
Qed.

(** A step that leaves the five caches alone. *)
Lemma grows_same s s' :
  config s' = config s → Prio (queues s) `prefix_of` Prio (queues s') → AssertionsCache (caches s') = AssertionsCache (caches s) →
  NegAssertions (caches s') = NegAssertions (caches s) → ZoneKeys (caches s') = ZoneKeys (caches s) →
  PendingKeys (caches s') = PendingKeys (caches s) → Capabilities (caches s') = Capabilities (caches s) → grows s s'.
Proof.
  intros Ec Eq Ea En Ek Ep Eb. split; [done|]. intros [?????]. split.
  - split; by rewrite ?Ea, ?En, ?Ek, ?Ep, ?Eb.
  - unfold has_assertion, has_neg, has_key. rewrite Ea, En, Ek. split_and!; auto.
Qed.

Lemma grows_pending_keys s v : (pk_inv (PendingKeys (caches s)) → pk_inv v) → grows s (set_caches (set_pending_keys v (caches s)) s).
Proof.
  intros H. split; [done|]. intros [?????]. split; [split; simpl; auto|].
  unfold has_assertion, has_neg, has_key. simpl. split_and!; auto.
Qed.

Context {TG : TokenGen} {NW : Network}.
Abbreviation respects_grows := (respects grows) (only parsing).

Lemma update_conns {B} (f : ConnectionImpl → outcome (ConnectionImpl * B)) : respects_grows (on_cache ConnCache set_conns_cache f).
Proof. apply respects_on_cache. intros. by apply grows_same. Qed.

Lemma sendToTry_grows bytes receiver : respects_grows (sendToTry bytes receiver).
Proof.
  assert (∀ e, respects_grows (log_net e)) as Hl by (intros e; apply respects_update; intros; by apply grows_same).
  assert (∀ conns, respects_grows (write_any conns bytes)) as Hw.
  { induction conns as [|conn conns IH]; cbn; unfold conn_Write, CloseAndRemoveConnection_M; respects; eauto using update_conns. }
  unfold sendToTry, GetConnection_M, createConnection, AddConnection_M, go_handleConnection. respects; eauto using update_conns.
  apply respects_update. intros. by apply grows_same.
Qed.

Lemma sendTo_grows msg receiver retries : respects_grows (sendTo msg receiver retries).
Proof.
  unfold sendTo, log_sent. respects; eauto using sendToTry_grows.
  - apply respects_update. intros. by apply grows_same.
  - generalize (Z.to_nat (retries - 1)). intros n. induction n as [|n IH]; cbn; respects; eauto using sendToTry_grows.
Qed.

Lemma token_New_grows : respects_grows token_New.
Proof. intros s s' t [= <- _]. by apply grows_same. Qed.

Lemma sendSections_grows sections tok dst : respects_grows (sendSections sections tok dst).
Proof. unfold sendSections. respects; eauto using sendTo_grows, token_New_grows. Qed.

Lemma sendNotificationMsg_grows tok dst t data : respects_grows (sendNotificationMsg tok dst t data).
Proof. unfold sendNotificationMsg, sendSection. respects; eauto using sendSections_grows. Qed.

Lemma sendToRecursiveResolver_grows msg : respects_grows (sendToRecursiveResolver msg).
Proof.
  unfold sendToRecursiveResolver, go_ServerLookup. respects. apply respects_update. intros. by apply grows_same.
Qed.

Lemma send_normal_grows ss : respects_grows (send_normal ss).
Proof. apply respects_update. intros. by apply grows_same. Qed.
End Grows.
#[export] Hint Resolve sendTo_grows token_New_grows sendSections_grows sendNotificationMsg_grows
  sendToRecursiveResolver_grows send_normal_grows : server.
