(* ===== verification/EngineFacts.v ===== *)
(** * What the engines of the server do

    Theorems about assertionEngine.go, verify.go, queryEngine.go and notification.go: only
    accepted sections enter the caches, every handler keeps the invariant of the caches,
    and the cases in which verification does less than it should. *)

From S2P Require Import Prelude Cbor Keys Object Query BitArray BloomFilter Section Message Siglib SiglibFacts Containers LruCache Pointers ZoneCache ZoneCacheFacts AssertionCache NegAssertionCache ZoneKeyCache ConnectionCache PendingCaches CapabilityCache Server AssertionEngine QueryEngine Verify Inbox ServerFacts.
Local Open Scope Z_scope.

(** ** What a section contributes *)

(** The keys filed for an assertion, with their cache keys. *)
Definition delegation_key (a : Assertion) (o : Object) : PublicKey :=
  let pk := value_key (objValue o) in mkPublicKey (pkID pk) (aValidSince a) (aValidUntil a) (pkKey pk).
Definition assertion_keys (a : Assertion) : list (string * publicKeyAssertion) :=
  (λ o, (zk_key a (delegation_key a o), mkPka (delegation_key a o) a)) <$> filter (λ o, objType o = OTDelegation) (aContent a).

Definition content_assertions (context zone : string) (content : list Assertion) : list Assertion :=
  (λ a, Assertion_Copy a context zone) <$> filter (λ a, shouldAssertionBeCached a = true) content.
Definition section_assertions (w : SigSection) : list Assertion :=
  match w with
  | WAssertion a => if shouldAssertionBeCached a then [a] else []
  | WShard s => content_assertions (sContext s) (sSubjectZone s) (sContent s)
  | WPshard _ => []
  | WZone z => content_assertions (zContext z) (zSubjectZone z) (zContent z)
  end.
Definition section_negs (w : SigSection) : list NegSection :=
  match w with
  | WAssertion _ => []
  | WShard s => [NShard s]
  | WPshard s => [NPshard s]
  | WZone z => [NZone z]
  end.

Section Caching.
Context {CS : CborStream} {OL : ObjLib} {CW : CborWriter} {TG : TokenGen} {NW : Network}.
Context (A : Assertion → Prop) (N : NegSection → Prop) (K : string → publicKeyAssertion → Prop).
Abbreviation G := (grows (CS:=CS) A N K) (only parsing).

Lemma AssertionsCache_Add_grows a x i : A a → respects G (AssertionsCache_Add a x i).
Proof.
  intros Ha. apply respects_on_cache. intros s c ok E. split; [done|]. intros I.
  destruct (Assertion_Add_promise _ _ _ _ _ _ (ci_assertions _ I) E) as [I' F]. split_and!; [by destruct I; split|..].
  - intros t [?| ->]%F; auto.
  - auto.
  - auto.
Qed.
Lemma NegCache_Add_grows n x i : N n → respects G (NegCache_Add n x i).
Proof.
  intros Hn. apply respects_on_cache. intros s c ok E. split; [done|]. intros I.
  destruct (Neg_Add_promise _ _ _ _ _ _ (ci_negs _ I) E) as [I' F]. split_and!; [by destruct I; split|..].
  - auto.
  - intros t [?| ->]%F; auto.
  - auto.
Qed.
Lemma ZoneKeys_Add_grows a pk i : K (zk_key a pk) (mkPka pk a) → respects G (ZoneKeys_Add a pk i).
Proof.
  intros Hk. apply respects_on_cache. intros s c ok E. split; [done|]. intros I.
  destruct (ZoneKey_Add_promise _ _ _ _ _ _ (ci_keys _ I) E) as [I' F]. split_and!; [by destruct I; split|..].
  - auto.
  - auto.
  - intros k e [?|[-> ->]]%F; auto.
Qed.

Definition allowed (a : Assertion) : Prop := A a ∧ ∀ k e, (k, e) ∈ assertion_keys a → K k e.

Lemma addAssertionToCache_grows a i : allowed a → respects G (addAssertionToCache a i).
Proof.
  intros [Ha Hk]. unfold addAssertionToCache. respects; [by apply AssertionsCache_Add_grows|].
  apply ZoneKeys_Add_grows, Hk. apply list_elem_of_fmap. eexists. split; [reflexivity|].
  apply list_elem_of_filter. split; [by apply Z.eqb_eq|done].
Qed.

Lemma add_content_grows ctx zone i content :
  (∀ a, a ∈ content_assertions ctx zone content → allowed a) → respects G (add_content ctx zone i content).
Proof.
  intros H. unfold add_content. respects. apply addAssertionToCache_grows, H, list_elem_of_fmap. eexists. split; [done|].
  by apply list_elem_of_filter.
Qed.

Definition contributes (w : SigSection) : Prop :=
  (∀ a, a ∈ section_assertions w → allowed a) ∧ ∀ n, n ∈ section_negs w → N n.

Lemma addSectionToCache_grows authorities w : contributes w → respects G (addSectionToCache authorities w).
Proof.
  intros [Ha Hn]. unfold addSectionToCache.
  destruct w as [a|s|s|z]; cbn [section_assertions section_negs] in *; unfold shouldShardBeCached, shouldPshardBeCached, shouldZoneBeCached,
    addShardToCache, addPshardToCache, addZoneToCache; respects;
    try (apply NegCache_Add_grows, Hn; left); try by apply add_content_grows.
  apply addAssertionToCache_grows, Ha. left.
Qed.
End Caching.

(** ** Handlers *)

Section Handlers.
Context {CS : CborStream} {OL : ObjLib} {CW : CborWriter} {TG : TokenGen} {NW : Network}.
Context {CE : CborEncoder} {ED : Ed25519Lib}.
Context (A : Assertion → Prop) (N : NegSection → Prop) (K : string → publicKeyAssertion → Prop).
Abbreviation G := (grows (CS:=CS) A N K) (only parsing).

Lemma PendingKeys_GetAndRemove_grows t : respects G (PendingKeys_GetAndRemove t).
Proof.
  apply respects_on_cache. intros s c a [= E]. apply grows_pending_keys. intros I.
  pose proof (PendingKey_GetAndRemove_inv _ t I) as H. by rewrite E in H.
Qed.
Lemma PendingQueries_grows {B} (f : PendingQueryImpl → outcome (PendingQueryImpl * B)) :
  respects G (on_cache PendingQueries set_pending_queries f).
Proof. apply respects_on_cache. intros. by apply grows_same. Qed.

Lemma pendingKeysCallback_grows mss : respects G (pendingKeysCallback mss).
Proof. unfold pendingKeysCallback. respects. apply PendingKeys_GetAndRemove_grows. Qed.
Lemma pendingQueriesCallback_grows mss : respects G (pendingQueriesCallback mss).
Proof. unfold pendingQueriesCallback. respects. apply PendingQueries_grows. Qed.

Lemma assert_grows ss : (∀ w, w ∈ sssSections ss → contributes A N K w) → respects G (assert ss).
Proof.
  intros H. unfold assert, addSectionsToCache. respects; [by apply addSectionToCache_grows, H| |].
  - apply pendingKeysCallback_grows.
  - apply pendingQueriesCallback_grows.
Qed.

(** Lookups only reorder the caches. *)
Lemma AssertionsCache_Get_grows fqdn ctx t : respects G (AssertionsCache_Get fqdn ctx t).
Proof.
  apply respects_on_cache. intros s c r [= E]. split; [done|]. intros I. unfold AssertionImpl_Get in E.
  destruct (zc_lookup_spec assertion_hash true _ (assertionCacheMapKeyFQDN fqdn ctx t) (ci_assertions _ I)) as (I' & W & _).
  destruct (zc_lookup _ _) as [c' v]. cbn in *. injection E as <- _. split; [by destruct I; split|].
  unfold has_assertion. simpl. rewrite W. split_and!; auto.
Qed.
Lemma NegCache_Get_grows zone ctx subject : respects G (NegCache_Get zone ctx subject).
Proof.
  apply respects_on_cache. intros s c r [= E]. split; [done|]. intros I. unfold NegAssertionImpl_Get in E.
  destruct (zc_Get_spec neg_hash false _ (zoneCtxKey zone ctx) (ci_negs _ I)) as (I' & W & _).
  destruct (zc_Get _ _) as [c' v]. cbn in *. injection E as <- _. split; [by destruct I; split|].
  unfold has_neg. simpl. rewrite W. split_and!; auto.
Qed.
Lemma ZoneKeys_Get_grows now zone ctx md : respects G (ZoneKeys_Get now zone ctx md).
Proof.
  apply respects_on_cache. intros s c r [= E]. split; [done|]. intros I.
  destruct (ZoneKeyImpl_Get_spec (unix now) _ zone ctx md (ci_keys _ I)) as (I' & W & _).
  rewrite E in I', W. cbn in *. split; [by destruct I; split|]. unfold has_key. simpl. rewrite W. split_and!; auto.
Qed.
Hint Resolve AssertionsCache_Get_grows NegCache_Get_grows ZoneKeys_Get_grows PendingQueries_grows
  PendingKeys_GetAndRemove_grows : server.

Lemma first_redirect_grows {B} t (follow : Assertion → Object → serverM (option B)) asserts :
  (∀ a o, respects G (follow a o)) → respects G (first_redirect t follow asserts).
Proof.
  intros H. induction asserts as [|a l IH]; cbn; [by respects|]. generalize (aContent a). intros content.
  apply respects_bind; [apply _| |intros r; by respects].
  induction content as [|o content IHc]; cbn; respects.
Qed.

Lemma handleRedirect_grows depth name ctx types : respects G (handleRedirect depth name ctx types).
Proof.
  revert name types. induction depth as [|depth IH]; intros name types; cbn; [by respects|].
  assert (∀ b n c t, respects G (get_if b n c t)) as Hg by (intros; unfold get_if; respects).
  respects; try apply Hg; apply first_redirect_grows; intros; respects; apply IH.
Qed.

Lemma cacheLookup_grows now q sender token : respects G (cacheLookup now q sender token).
Proof. unfold cacheLookup, assertionCacheLookup, negativeCacheLookup. respects. Qed.

Lemma processQuery_grows stack now ss : respects G (processQuery stack now ss).
Proof.
  assert (∀ qs sender token, respects G (lookup_all now sender token qs)) as Hl.
  { intros. unfold lookup_all. respects; apply cacheLookup_grows. }
  unfold processQuery, answerQueriesCachingResolver, answerQueriesAuthoritative, glue_all, glueRecordLookup, PendingQueries_Add.
  respects; try apply Hl. apply first_redirect_grows. intros. respects. apply handleRedirect_grows.
Qed.

Lemma handleMissingKeys_grows now ss missing isAuth : respects G (handleMissingKeys now ss missing isAuth).
Proof.
  unfold handleMissingKeys. respects. apply respects_on_cache. intros s c r [= <- _]. apply grows_pending_keys.
  apply PendingKey_Add_inv.
Qed.

Lemma publicKeysPresent_grows now w st : respects G (publicKeysPresent now w st).
Proof. unfold publicKeysPresent, key_present. respects. Qed.
Lemma collect_keys_grows now ss secs st : respects G (collect_keys now ss secs st).
Proof. revert st. induction secs as [|sec secs IH]; intros st; cbn; respects; apply publicKeysPresent_grows. Qed.

Lemma verifyQueries_grows stack now ss : respects G (verifyQueries stack now ss).
Proof.
  unfold verifyQueries. apply respects_bind; [apply _| |intros; respects; apply processQuery_grows].
  generalize (length (mssSections ss)) at 1 as m. generalize (mssSections ss) at 1 as arr. generalize (seq 0 (length (mssSections ss))).
  intros idx. induction idx as [|i idx IH]; intros arr m; cbn; respects; apply IH.
Qed.

Lemma notify_grows ss : respects G (notify ss).
Proof.
  assert (∀ sender, respects G (send_own_capabilities sender)) as Hs.
  { intros. unfold send_own_capabilities, GetCapabilityList_M, sendCapability. respects. apply update_conns. }
  assert (∀ t n b, respects G (dropPendingSectionsAndQueries t n b)) as Hd.
  { intros. unfold dropPendingSectionsAndQueries, forward_notification, PendingQueries_GetAndRemove. respects. }
  unfold notify, AddCapabilityList_M. respects; try apply Hs; try apply Hd; try apply update_conns.
  apply respects_on_cache. intros s c r [= E]. split; [done|]. intros I.
  pose proof (Capability_Get_promise _ (bytes_of_string (nData n)) (ci_capabilities _ I)) as H. rewrite E in H. cbn in H.
  split; [by destruct I; split|]. split_and!; auto.
Qed.

Lemma deliver_grows msg sender : respects G (deliver msg sender).
Proof.
  unfold deliver, processCapability, deliver_section, PendingKeys_ContainsToken, send_prio, send_notify.
  respects; (apply respects_update; intros; apply grows_same; try done; by apply prefix_app_r).
Qed.

Lemma reap_grows now r : respects (grows (CS:=CS) (λ _, True) (λ _, True) (λ _ _, True)) (reap now r).
Proof.
  destruct r; cbn; apply respects_on_cache; intros s c []; try (intros [= <-]; split; [done|]; intros I);
    try (split_and!; [destruct I; split|right; done..]; cbn); try done.
  - by apply ZoneKeyImpl_RemoveExpiredKeys_spec.
  - by apply pk_expire_fold.
  - by apply (zc_RemoveExpiredValues_spec assertion_hash true).
  - by apply (zc_RemoveExpiredValues_spec neg_hash false).
  - intros _. by apply grows_same.
Qed.

Lemma verify_grows stack now ss :
  (∀ w, contributes A N K w) → respects G (verify stack now ss).
Proof.
  intros H. assert (∀ b, respects G (verifySections now ss b)) as Hv.
  { intros b. unfold verifySections. respects; [apply collect_keys_grows|apply handleMissingKeys_grows|by apply assert_grows]. }
  unfold verify, PendingKeys_ContainsToken. respects; first [apply Hv|apply verifyQueries_grows].
Qed.
End Handlers.

(** ** Only accepted sections are cached *)

Section Authentic.
Context {CS : CborStream} {OL : ObjLib} {CW : CborWriter} {TG : TokenGen} {NW : Network}.
Context {CE : CborEncoder} {ED : Ed25519Lib}.
Implicit Types s : Server (CS:=CS).

Abbreviation calm := (grows (CS:=CS) (λ _, False) (λ _, False) (λ _ _, False)) (only parsing).

(** [k] is a key the zone key cache of [s] holds for the zone and context of [w], usable for
    one of the signatures of [w] with the identifier [id]. *)
Definition key_of_section (now : Z) s (w : SigSection) (id : PublicKeyID) (k : PublicKey) : Prop :=
  ∃ md e, md ∈ With_NeededKeys w ∅ ∧ mdPublicKeyID md = id ∧ pkaKey e = k ∧ key_usable (unix now) md k = true ∧
    has_key s (zone_key (With_GetSubjectZone w) (With_GetContext w) (Algorithm id) (KeyPhase id)) e.

Lemma key_of_section_calm now s s' w id k :
  cache_inv (caches s) → calm s s' → key_of_section now s' w id k → key_of_section now s w id k.
Proof.
  intros I [_ H] (md & e & ? & ? & ? & ? & He). destruct (H I) as (_ & _ & _ & Hk). exists md, e.
  destruct (Hk _ _ He) as [?|[]]. done.
Qed.

Lemma publicKeysPresent_keys now w l keys miss s s' keys' miss' :
  cache_inv (caches s) → (∀ md, md ∈ l → md ∈ With_NeededKeys w ∅) →
  fold_each (key_present now w) (keys, miss) l s = Ok (s', (keys', miss')) →
  ∀ id k, k ∈ default [] (keys' !! id) → k ∈ default [] (keys !! id) ∨ key_of_section now s w id k.
Proof.
  intros I Hl. revert keys miss s I. induction l as [|md l IH]; intros keys miss s I; cbn [fold_each].
  { intros [= -> -> ->]. by left. }
  intros (s1 & [keys1 miss1] & E1 & E2)%run_bind. apply run_bind in E1 as (s2 & r & E1 & [= -> Em]).
  pose proof (ZoneKeys_Get_grows (λ _, False) (λ _, False) (λ _ _, False) _ _ _ _ _ _ _ E1) as G1.
  intros id k Hk. eapply IH in Hk; [|intros; apply Hl; by right|by apply G1|exact E2].
  destruct Hk as [Hk|Hk]; [|right; by eapply key_of_section_calm].
  unfold ZoneKeys_Get, on_cache in E1.
  destruct (ZoneKeyImpl_Get_spec (unix now) _ (With_GetSubjectZone w) (With_GetContext w) md (ci_keys _ I)) as (_ & _ & Hr).
  destruct (ZoneKeyImpl_Get _ _ _ _ _) as [c' r']. cbn in Hr, E1. injection E1 as _ ->.
  destruct r as [v|]; injection Em as <- <-; [|by left].
  unfold add_key in Hk. destruct (decide (mdPublicKeyID md = id)) as [<-|Hne].
  - rewrite lookup_insert_eq in Hk. cbn in Hk. apply elem_of_app in Hk as [?|Hk]; [by left|right].
    apply list_elem_of_singleton in Hk as ->. destruct Hr as [Hu He]. exists md, v. split_and!; try done. apply Hl. left.
  - rewrite lookup_insert_ne in Hk by done. by left.
Qed.

(** Every key collected belongs to a section of the message. *)
Lemma collect_keys_keys now ss secs keys miss s s' keys' miss' :
  cache_inv (caches s) → collect_keys now ss secs (keys, miss) s = Ok (s', Some (keys', miss')) →
  ∀ id k, k ∈ default [] (keys' !! id) → k ∈ default [] (keys !! id) ∨
    ∃ sec w, sec ∈ secs ∧ as_with_sig sec = Ok w ∧ key_of_section now s w id k.
Proof.
  revert keys miss s. induction secs as [|sec secs IH]; intros keys miss s I; cbn [collect_keys].
  { intros [= -> -> ->]. by left. }
  intros (s1 & w & [-> Ew]%run_pure & E)%run_bind. destruct (negb _); [by apply run_bind in E as (? & ? & _ & [=])|].
  destruct (contextInvalid _); [by apply run_bind in E as (? & ? & _ & [=])|].
  apply run_bind in E as (s2 & [keys1 miss1] & E1 & E2).
  pose proof (publicKeysPresent_grows (λ _, False) (λ _, False) (λ _ _, False) _ _ _ _ _ _ E1) as G1.
  pose proof (λ id k, publicKeysPresent_keys now w _ keys miss s s2 keys1 miss1 I (λ md Hm, proj1 (elem_of_elements _ _) Hm) E1 id k) as Hp.
  intros id k Hk. eapply IH in Hk; [|by apply G1|exact E2]. destruct Hk as [Hk|(sec' & w' & ? & ? & Hk)].
  - apply Hp in Hk as [?|?]; [by left|right]. exists sec, w. split_and!; [left|done..].
  - right. exists sec', w'. split_and!; [by right|done|]. by eapply key_of_section_calm.
Qed.

Lemma verifySignatures_sound now keys maxVal secs l :
  verifySignatures now keys maxVal secs = Ok (Some l) →
  Forall2 (λ sec w', ∃ w, as_with_sig sec = Ok w ∧ accepted_section now keys w w') secs l.
Proof.
  revert l. induction secs as [|sec secs IH]; intros l; cbn; [by intros [= <-]|].
  destruct (as_with_sig sec) as [w| |] eqn:Ew; cbn; [|done..].
  destruct (CheckSectionSignatures now w (Some keys) maxVal) as [[w' ok]| |] eqn:Ec; cbn; [|done..].
  destruct ok; cbn; [|done]. destruct (verifySignatures now keys maxVal secs) as [[l'|]| |]; cbn; [|done..].
  intros [= <-]. constructor; [|by apply IH]. exists w. split; [done|]. by apply whole_sound in Ec as (? & [= <-] & ?).
Qed.

(** [w'] is an accepted section of the message, checked under keys of its sections' zones. *)
Definition admitted (now : Z) s (ss : MsgSectionSender) (keys : gmap PublicKeyID (list PublicKey)) (w' : SigSection) : Prop :=
  (∀ id k, k ∈ default [] (keys !! id) →
     ∃ sec w, sec ∈ mssSections ss ∧ as_with_sig sec = Ok w ∧ key_of_section now s w id k) ∧
  ∃ sec w, sec ∈ mssSections ss ∧ as_with_sig sec = Ok w ∧ accepted_section now keys w w'.
Definition enters (now : Z) s (ss : MsgSectionSender) (keys : gmap PublicKeyID (list PublicKey)) : relation (Server (CS:=CS)) :=
  grows (λ a, ∃ w', admitted now s ss keys w' ∧ a ∈ section_assertions w')
        (λ n, ∃ w', admitted now s ss keys w' ∧ n ∈ section_negs w')
        (λ k e, ∃ w' a, admitted now s ss keys w' ∧ a ∈ section_assertions w' ∧ (k, e) ∈ assertion_keys a).

Lemma enters_calm {B} now s ss keys (m : serverM (CS:=CS) B) s1 s2 b :
  (∀ A N K, respects (grows A N K) m) → m s1 = Ok (s2, b) → enters now s ss keys s1 s2.
Proof. intros H Em. by eapply H. Qed.

Lemma verifySections_enters now ss b s s' :
  cache_inv (caches s) → verifySections now ss b s = Ok (s', ()) → ∃ keys, enters now s ss keys s s'.
Proof.
  intros I. unfold verifySections. intros (s1 & r & E1 & E)%run_bind.
  assert (∀ keys, enters now s ss keys s s1) as G1 by (intros; eapply enters_calm, E1; intros; apply collect_keys_grows).
  destruct r as [[keys miss]|]; [|injection E as <-; by exists ∅].
  case_bool_decide; [exists ∅; etrans; [apply G1|]; eapply enters_calm, E; intros; apply handleMissingKeys_grows|].
  apply run_bind in E as (s2 & mv & [= -> _] & E). apply run_bind in E as (s3 & r & [-> Ev]%run_pure & E).
  destruct r as [l|]; [|injection E as <-; by exists ∅]. exists keys. etrans; [apply G1|]. apply verifySignatures_sound in Ev.
  eapply assert_grows, E. cbn. intros w' Hw'. assert (admitted now s ss keys w') as Ha.
  { split.
    - intros id k Hk. destruct (collect_keys_keys _ _ _ _ _ _ _ _ _ I E1 id k Hk) as [Hk'|?]; [by apply elem_of_nil in Hk'|done].
    - apply list_elem_of_lookup in Hw' as [i Hi]. destruct (Forall2_lookup_r _ _ _ _ _ Ev Hi) as (sec & Hs & w & ? & ?).
      exists sec, w. split; [by eapply list_elem_of_lookup_2|done]. }
  split; [intros a Ha'; split; [by exists w'|]; intros k e He; by exists w', a|intros n Hn; by exists w'].
Qed.

Lemma verify_enters stack now ss s s' :
  cache_inv (caches s) → verify stack now ss s = Ok (s', ()) → ∃ keys, enters now s ss keys s s'.
Proof.
  intros I. unfold verify. intros (s0 & sec0 & [-> _]%run_pure & E)%run_bind.
  destruct sec0; try (exists ∅; eapply enters_calm, E; intros; respects; apply verifyQueries_grows);
    apply run_bind in E as (s1 & auths & [= -> _] & E); apply run_bind in E as (s2 & b & [-> _]%run_pure & E);
    apply run_bind in E as (s3 & pend & [= -> _] & E);
    (destruct (_ && _ && _); [injection E as <-; by exists ∅|by eapply verifySections_enters]).
Qed.
End Authentic.

(** ** Theorems *)

Section Theorems.
Context {CS : CborStream} {OL : ObjLib} {CW : CborWriter} {TG : TokenGen} {NW : Network}.
Context {CE : CborEncoder} {ED : Ed25519Lib}.
Implicit Types s : Server (CS:=CS).

(** C21: verification guards the caches.  After [verify] has handled a message, every
    assertion, negative section and public key that is new in the caches belongs to a
    section of this message that [CheckSectionSignatures] accepted, and every key it was
    checked under was held by the zone key cache, unexpired and usable for one of the
    signatures, for the zone and context of a section of this message.  The invariants of
    the caches are kept. *)
Theorem verify_caches_accepted stack now ss s s' :
  cache_inv (caches s) → verify stack now ss s = Ok (s', ()) →
  config s' = config s ∧ cache_inv (caches s') ∧ ∃ keys,
    (∀ a, has_assertion s' a → has_assertion s a ∨ ∃ w', admitted now s ss keys w' ∧ a ∈ section_assertions w') ∧
    (∀ n, has_neg s' n → has_neg s n ∨ ∃ w', admitted now s ss keys w' ∧ n ∈ section_negs w') ∧
    (∀ k e, has_key s' k e → has_key s k e ∨
       ∃ w' a, admitted now s ss keys w' ∧ a ∈ section_assertions w' ∧ (k, e) ∈ assertion_keys a).
Proof.
  intros I E. destruct (verify_enters stack now ss s s' I E) as (keys & [Hc _] & H). destruct (H I) as (I' & Ha & Hn & Hk).
  split_and!; [done..|]. by exists keys.
Qed.

(** A section without signatures, and without signatures in its content. *)
Definition unsigned (w : SigSection) : Prop :=
  match w with
  | WAssertion a => aSignatures a = []
  | WShard s => sSignatures s = [] ∧ Forall (λ a, aSignatures a = []) (sContent s)
  | WPshard s => pSignatures s = []
  | WZone z => zSignatures z = [] ∧ Forall (λ a, aSignatures a = []) (zContent z)
  end.

Lemma check_content_unsigned now keys maxVal content :
  Forall (λ a, aSignatures a = []) content → check_content now (Some keys) maxVal content = Ok (content, true).
Proof.
  induction 1 as [|a l Ha _ IH]; [done|]. cbn [check_content]. unfold Sigs. cbn. unfold Assertion_AllSigs. rewrite Ha.
  by rewrite IH.
Qed.

Lemma check_unsigned {S} {WS : WithSig S} now keys maxVal (s : S) :
  Sigs s = [] → checkSectionSignatures now s (Some keys) maxVal = Ok (s, true).
Proof. intros H. unfold checkSectionSignatures. by rewrite H. Qed.

Lemma unsigned_accepted now keys maxVal w :
  unsigned w → ∃ w', CheckSectionSignatures now w (Some keys) maxVal = Ok (w', true) ∧ With_Sigs w' RainsKeySpace = [] ∧
    (section_negs w = [] ↔ section_negs w' = []).
Proof.
  destruct w as [a|s|s|z]; cbn [unsigned CheckSectionSignatures].
  - intros E. rewrite check_unsigned by (unfold Sigs; cbn; by rewrite E). cbn. eexists. split; [done|].
    unfold Assertion_Sigs. cbn. by rewrite E.
  - intros [E Hc]. rewrite check_unsigned by (unfold Sigs; cbn; by rewrite E). cbn.
    rewrite check_content_unsigned by (do 2 apply Forall_fmap; by eapply Forall_impl). cbn. eexists. split; [done|].
    unfold Shard_Sigs. cbn. by rewrite E.
  - intros E. rewrite check_unsigned by (unfold Sigs; cbn; by rewrite E). cbn. eexists. split; [done|].
    unfold Pshard_Sigs. cbn. by rewrite E.
  - intros [E Hc]. rewrite check_unsigned by (unfold Sigs; cbn; by rewrite E). cbn.
    rewrite check_content_unsigned by (do 2 apply Forall_fmap; by eapply Forall_impl). cbn. eexists. split; [done|].
    unfold Zone_Sigs. cbn. by rewrite E.
Qed.

Lemma unsigned_needs_no_keys w : unsigned w → With_NeededKeys w ∅ = ∅.
Proof.
  assert (∀ l k, Forall (λ a, aSignatures a = []) l → foldl (λ acc a, Assertion_NeededKeys a acc) k l = k) as H.
  { intros l. induction l as [|a l IH]; intros k Hl; [done|]. apply Forall_cons_1 in Hl as [Ha Hl]. cbn.
    rewrite IH by done. unfold Assertion_NeededKeys. by rewrite Ha. }
  destruct w as [a|s|s|z]; cbn; unfold Assertion_NeededKeys, Shard_NeededKeys, Pshard_NeededKeys, Zone_NeededKeys;
    [intros ->|intros [-> ?]|intros ->|intros [-> ?]]; rewrite ?H; done.
Qed.

(** Signatures are only checked where there are some.  A caching resolver passes a
    consistent section without any signature straight to the engine, which files shards,
    pshards and zones whether they are signed or not: such a section denies the existence
    of names without proof. *)
Theorem unsigned_sections_pass stack now sender tok w s :
  unsigned w → With_IsConsistent w = true → contextInvalid (With_GetContext w) = false → Authorities (config s) = [] →
  ∃ w', With_Sigs w' RainsKeySpace = [] ∧ (section_negs w = [] ↔ section_negs w' = []) ∧
    verify stack now (mkMsgSectionSender sender [SigSection_section w] tok) s =
    assert (mkSectionWithSigSender sender [w'] tok) s.
Proof.
  intros Hu Hc Hx Ha. destruct (unsigned_accepted now ∅ (cfgMaxCacheValidity (config s)) w Hu) as (w' & Ev & Hs & Hn).
  exists w'. split_and!; [done|done|]. pose proof (unsigned_needs_no_keys w Hu) as Hk.
  assert (as_with_sig (SigSection_section w) = Ok w) as Hw by by destruct w.
  assert (verifySections now (mkMsgSectionSender sender [SigSection_section w] tok) false s =
          assert (mkSectionWithSigSender sender [w'] tok) s) as E.
  { unfold verifySections, mbind, serverM_bind. cbn [mssSections collect_keys]. unfold mbind, serverM_bind.
    rewrite Hw. cbn [pure_or_panic mbind outcome_bind]. rewrite Hc, Hx. cbn [negb].
    unfold publicKeysPresent. rewrite Hk, elements_empty.
    cbn -[CheckSectionSignatures assert as_with_sig]. rewrite Hw. cbn [mbind outcome_bind].
    rewrite bool_decide_false by (by intros H). by rewrite Ev. }
  unfold verify, gets, mbind, serverM_bind. rewrite <-E. cbn [mssSections].
  change (at_index [SigSection_section w] 0) with (Ok (SigSection_section w)).
  destruct w; cbn -[verifySections]; rewrite Ha; reflexivity.
Qed.

(** ** Expired queries *)

Definition live_query (now : Z) (q : QueryName) : Prop :=
  contextInvalid (qContext q) = false ∧ isQueryExpired now (qExpiration q) = false.
Definition expired_query (now : Z) (q : QueryName) : Prop :=
  contextInvalid (qContext q) = false ∧ isQueryExpired now (qExpiration q) = true.

(** A step of the loop that reads the query [q] at index [i]. *)
Lemma expire_queries_step now ss arr m i idx q s :
  arr !! i = Some (SecQuery q) → contextInvalid (qContext q) = false →
  expire_queries now ss arr m (i :: idx) s =
    if isQueryExpired now (qExpiration q) then
      if (i + 1 <=? m)%nat
      then expire_queries now ss (take i arr ++ drop (i + 1) (take m arr) ++ drop (m - 1) arr) (m - 1) idx s
      else Panic "slice bounds out of range"
    else expire_queries now ss arr m idx s.
Proof.
  intros Hi Hc. cbn [expire_queries]. unfold mbind, serverM_bind. rewrite Hi. cbn -[expire_queries]. unfold Query_GetContext.
  rewrite Hc. unfold Query_GetExpiration. destruct (isQueryExpired _ _); [|done]. by destruct (_ <=? _)%nat.
Qed.

Lemma expire_queries_live now ss l rest m i n idx s :
  Forall (live_query now) l → (i + n ≤ length l)%nat →
  expire_queries now ss (SecQuery <$> (l ++ rest)) m (seq i n ++ idx) s =
  expire_queries now ss (SecQuery <$> (l ++ rest)) m idx s.
Proof.
  intros Hl. revert i. induction n as [|n IH]; intros i Hn; [done|]. cbn [seq app].
  destruct (lookup_lt_is_Some_2 l i ltac:(lia)) as [q Hq]. rewrite Forall_lookup in Hl. destruct (Hl _ _ Hq) as [Hc He].
  rewrite (expire_queries_step _ _ _ _ _ _ q); [|by rewrite list_lookup_fmap, (lookup_app_l_Some _ _ _ _ Hq)|done].
  rewrite He. apply IH. lia.
Qed.

(** The state after a removal: the loop still sees as many elements, the last of them
    unchanged, but the slice is shorter. *)
Lemma expire_queries_trailing now ss (l : list QueryName) q i m s :
  Forall (λ q, contextInvalid (qContext q) = false) l → last l = Some q → isQueryExpired now (qExpiration q) = true →
  (i < length l)%nat → (m < length l)%nat →
  ∃ msg, expire_queries now ss (SecQuery <$> l) m (seq i (length l - i)) s = Panic msg.
Proof.
  intros Hc Hq He. remember (length l - i)%nat as n eqn:En. revert i m l Hc Hq En.
  induction n as [|n IH]; intros i m l Hc Hq En Hi Hm; [lia|]. cbn [seq].
  destruct (lookup_lt_is_Some_2 l i Hi) as [q' Hq']. pose proof Hc as Hc'. rewrite Forall_lookup in Hc'.
  rewrite (expire_queries_step _ _ _ _ _ _ q'); [|by rewrite list_lookup_fmap, Hq'|by eapply Hc'].
  destruct (decide (n = 0)%nat) as [->|Hn].
  - assert (i = pred (length l)) as -> by lia. rewrite <-last_lookup, Hq in Hq'. injection Hq' as <-. rewrite He.
    destruct (Nat.leb_spec (pred (length l) + 1) m); [lia|by eauto].
  - destruct (isQueryExpired now (qExpiration q')); [|apply IH; [done..|lia|lia|done]].
    destruct (Nat.leb_spec (i + 1) m) as [Hle|]; [|by eauto].
    set (l' := take i l ++ drop (i + 1) (take m l) ++ drop (m - 1) l).
    assert (take i (SecQuery <$> l) ++ drop (i + 1) (take m (SecQuery <$> l)) ++ drop (m - 1) (SecQuery <$> l) = SecQuery <$> l') as ->.
    { unfold l'. by rewrite !fmap_app, !fmap_drop, !fmap_take. }
    assert (length l' = length l) as Hlen.
    { unfold l'. rewrite !length_app, !length_drop, !length_take. lia. }
    assert (drop (m - 1) l ≠ []) as Hd by (intros H%(f_equal length); rewrite length_drop in H; cbn in H; lia).
    apply IH; try lia.
    + unfold l'. rewrite !Forall_app. split_and!; [by apply Forall_take|by apply Forall_drop, Forall_take|by apply Forall_drop].
    + unfold l'. rewrite !last_app. destruct (last (drop (m - 1) l)) eqn:Ed; [|by apply last_None in Ed].
      by rewrite <-Hq, <-(take_drop (m - 1) l), last_app, Ed.
Qed.

(** [verifyQueries] edits the list of queries while ranging over it.  Without expired
    queries all are processed, in order.  With two expired queries, the last one among
    them, the server panics: anybody can stop it with one message. *)
Theorem verifyQueries_spec stack now sender tok pre q1 mid q2 qs s :
  Forall (λ q, contextInvalid (qContext q) = false) (pre ++ mid) → Forall (live_query now) pre →
  expired_query now q1 → expired_query now q2 → Forall (live_query now) qs →
  verifyQueries stack now (mkMsgSectionSender sender (SecQuery <$> qs) tok) s =
    processQuery stack now (mkMsgSectionSender sender (SecQuery <$> qs) tok) s ∧
  ∃ msg, verifyQueries stack now (mkMsgSectionSender sender (SecQuery <$> (pre ++ q1 :: mid ++ [q2])) tok) s = Panic msg.
Proof.
  intros Hc Hp [Hc1 He1] [Hc2 He2] Hl. split.
  - unfold verifyQueries, mbind, serverM_bind. cbn [mssSections mssSender mssToken]. rewrite length_fmap.
    pose proof (expire_queries_live now (mkMsgSectionSender sender (SecQuery <$> qs) tok) qs [] (length qs) 0 (length qs) [] s Hl) as E.
    rewrite !app_nil_r in E. rewrite E by lia. cbn. by rewrite <-length_fmap with (f:=SecQuery), firstn_all.
  - set (l := pre ++ q1 :: mid ++ [q2]). set (n := length l).
    assert (length l = length pre + S (length mid + 1))%nat as Hn by (unfold l; rewrite length_app; cbn; by rewrite length_app).
    unfold verifyQueries, mbind, serverM_bind. cbn [mssSections mssSender mssToken]. rewrite length_fmap, Hn, seq_app.
    rewrite <-Hn. unfold l at 2. rewrite expire_queries_live by (done || lia). cbn [seq].
    rewrite (expire_queries_step _ _ _ _ _ _ q1); [|by rewrite list_lookup_fmap, list_lookup_middle|done].
    rewrite He1. destruct (Nat.leb_spec (0 + length pre + 1) (length l)); [|lia].
    set (l' := pre ++ mid ++ [q2] ++ [q2]).
    match goal with |- context [expire_queries _ _ ?arr _ _] => assert (arr = SecQuery <$> l') as -> end.
    { rewrite (take_ge _ (length l)) by (rewrite length_fmap; fold l; lia). rewrite <-fmap_take, <-!fmap_drop, <-!fmap_app. f_equal.
      cbn [Nat.add]. rewrite take_app_length.
      assert (drop (length pre + 1) (pre ++ q1 :: mid ++ [q2]) = mid ++ [q2]) as ->.
      { rewrite (cons_middle q1), (assoc_L (++)). apply drop_app_length'. by rewrite length_app. }
      assert (drop (length l - 1) (pre ++ q1 :: mid ++ [q2]) = [q2]) as ->.
      { rewrite app_comm_cons, (assoc_L (++)). apply drop_app_length'. rewrite length_app. cbn [length]. lia. }
      unfold l'. by rewrite <-!(assoc_L (++)). }
    assert (length l' = length l) as Hl' by (unfold l'; rewrite !length_app; cbn [length]; lia).
    replace (length mid + 1)%nat with (length l' - S (0 + length pre))%nat by lia.
    destruct (expire_queries_trailing now (mkMsgSectionSender sender (SecQuery <$> l) tok) l' q2 (S (0 + length pre)) (length l - 1) s)
      as [msg ->]; [|by unfold l'; rewrite !last_app|done|lia..|by eexists].
    unfold l'. rewrite !Forall_app, !Forall_singleton. rewrite Forall_app in Hc. by destruct Hc.
Qed.
End Theorems.

(** ** A concrete server *)

(** Tokens that count up, and a network on which every send succeeds. *)
Definition toy_tokens : TokenGen := {| token_at i := Z.of_nat (S i) :: replicate 15 0 |}.
Lemma toy_tokens_laws : @TokenLaws toy_tokens.
Proof. split; [intros i j [= H]; lia|intros i [= H]; lia]. Qed.
Definition toy_network : @Network toy_stream := {| net_dial _ _ := None; net_write _ _ _ := true; net_packet _ _ _ := true |}.

Section Example.
Local Existing Instance toy_stream.
Local Existing Instance toy_tokens.
Local Existing Instance toy_network.
Local Existing Instance be_objlib.
Local Existing Instance toy_cbor.
Local Existing Instance toy_ed25519.
Local Existing Instance toy_encoder.

(** A caching resolver with empty caches that listens on SCION. *)
Definition fresh_server : Server :=
  mkServer DefaultConfig "hash" "" (initCaches DefaultConfig) (mkQueues [] [] []) true 0 [] [] [] [].
Definition peer : Addr := mkAddr "scion" "10.0.0.7:40000".
Definition a_token : Token := replicate 16 9.

(** The public key [b] of the top-level zone [zone]. *)
Definition zone_pk (b : Z) : PublicKey := mkPublicKey w_id 0 200 (KeyEd25519 [b]).
Definition zone_deleg (zone : string) : Assertion := mkAssertion [] zone "." "." [] 0 200 false.
Definition with_keys (l : list (string * Z)) (s : Server) : Server :=
  foldl (λ s '(zone, b),
    match ZoneKeys_Add (zone_deleg zone) (zone_pk b) true s with Ok (s', _) => s' | _ => s end) s l.

(** An address of "www" in [zone], signed with the key [b]. *)
Definition signed_by (b : Z) (zone : string) : Assertion :=
  mkAssertion [mkSig w_id 0 100 (DataBytes [0; b; 4; 6]) false] "www" zone "." [mkObject OTIP4Addr (VIP [10; 0; 0; 1])] 0 0 false.
Definition message (secs : list Assertion) : MsgSectionSender := mkMsgSectionSender peer (SecAssertion <$> secs) a_token.
Definition answers_for (name : string) (r : outcome (Server * ())) : option nat :=
  match r with
  | Ok (s, _) => Some (length (AssertionImpl_Get (AssertionsCache (caches s)) name "." OTIP4Addr true).2.1)
  | _ => None
  end.

(** Keys are collected for a whole message under their identifier, which does not
    name the zone.  The owner of one zone can have a forged assertion of another zone
    accepted and cached, by sending it after an assertion of its own zone in the same
    message; alone the forged assertion is refused.  For the same reason a genuine
    assertion is refused when it follows a section of another zone. *)
Theorem keys_of_other_zones_are_used :
  let s := with_keys [("evil"%string, 3); ("good"%string, 5)] fresh_server in
  let run secs := verify 100 0 (message secs) s in
  answers_for "www.good." (run [signed_by 5 "good."]) = Some 1%nat ∧
  answers_for "www.good." (run [signed_by 3 "good."]) = Some 0%nat ∧
  answers_for "www.good." (run [signed_by 3 "evil."; signed_by 3 "good."]) = Some 1%nat ∧
  answers_for "www.good." (run [signed_by 3 "evil."; signed_by 5 "good."]) = Some 0%nat.
Proof. cbv zeta. split_and!; vm_compute; reflexivity. Qed.

Lemma with_keys_inv l : cache_inv (caches (with_keys l fresh_server)).
Proof.
  unfold with_keys. assert (cache_inv (caches fresh_server)) as I by apply initCaches_inv. revert I. generalize fresh_server.
  induction l as [|[zone b] l IH]; intros s I; cbn [foldl]; [done|]. apply IH.
  destruct (ZoneKeys_Add _ _ _ s) as [[s' ok]| |] eqn:E; [|done..].
  by apply (ZoneKeys_Add_grows (λ _, True) (λ _, True) (λ _ _, True) (zone_deleg zone) (zone_pk b) true Logic.I _ _ _ E).
Qed.

Lemma verify_caches_accepted_witness :
  ∃ s', verify 100 0 (message [signed_by 5 "good."]) (with_keys [("good"%string, 5)] fresh_server) = Ok (s', ()) ∧
    cache_inv (caches s').
Proof.
  set (s := with_keys [("good"%string, 5)] fresh_server).
  destruct (verify 100 0 (message [signed_by 5 "good."]) s) as [[s' []]| |] eqn:E; [|vm_compute in E; discriminate E..].
  exists s'. split; [reflexivity|]. apply (verify_caches_accepted 100 0 _ s s' (with_keys_inv _) E).
Defined.

Definition unsigned_shard : Shard := mkShard [] "good." "." "a" "z" [] 0 50 false.

(** The shard is filed although nobody signed it. *)
Lemma unsigned_sections_pass_witness :
  ∃ s', verify 100 0 (mkMsgSectionSender peer [SecShard unsigned_shard] a_token) fresh_server = Ok (s', ()) ∧
    (NegAssertionImpl_Get (NegAssertions (caches s')) "good." "." (mkStringInterval "www")).2.1 = [NShard unsigned_shard].
Proof.
  destruct (unsigned_sections_pass 100 0 peer a_token (WShard unsigned_shard) fresh_server) as (w' & _ & _ & E);
    [by split|reflexivity..|].
  change (SigSection_section (WShard unsigned_shard)) with (SecShard unsigned_shard) in E.
  destruct (verify 100 0 _ fresh_server) as [[s' []]| |] eqn:Ev; [|vm_compute in Ev; discriminate Ev..].
  exists s'. split; [reflexivity|]. vm_compute in Ev. injection Ev as <-. vm_compute. reflexivity.
Defined.

Definition a_query (name : string) (expiration : Z) : QueryName := mkQueryName "." name [OTIP4Addr] expiration [] 0 0.

Lemma verifyQueries_spec_witness :
  ∃ msg, verifyQueries 100 5000000000 (mkMsgSectionSender peer (SecQuery <$> [a_query "a.ch." 1; a_query "b.ch." 2]) a_token)
    fresh_server = Panic msg.
Proof.
  apply (verifyQueries_spec 100 5000000000 peer a_token [] (a_query "a.ch." 1) [] (a_query "b.ch." 2) [] fresh_server);
    try constructor; reflexivity.
Defined.
End Example.
