(* ===== verification/PoolFacts.v ===== *)
(** * The running server

    Theorems about the worker pools of inbox.go as a transition system: invariants by rule
    induction on the reachable states, the accounting of the worker channels, what it
    implies for the progress of the queues, and the answers given to waiting senders. *)

From S2P Require Import Prelude Cbor Keys Object Query BitArray BloomFilter Section Message Siglib SiglibFacts Containers LruCache Pointers ZoneCache ZoneCacheFacts AssertionCache NegAssertionCache ZoneKeyCache ConnectionCache PendingCaches CapabilityCache Server AssertionEngine QueryEngine Verify Inbox ServerFacts EngineFacts.
Local Open Scope Z_scope.

(** ** Counting handlers *)

Definition count_h (f : Handler → bool) (l : list Handler) : Z := Z.of_nat (length (filter (λ h, f h = true) l)).

Lemma count_h_app f l k : count_h f (l ++ k) = count_h f l + count_h f k.
Proof. unfold count_h. rewrite filter_app, length_app. lia. Qed.
Lemma count_h_cons f h l : count_h f (h :: l) = (if f h then 1 else 0) + count_h f l.
Proof. unfold count_h. rewrite filter_cons. destruct (f h); case_decide; try done; cbn; lia. Qed.
Lemma count_h_nil f : count_h f [] = 0.
Proof. done. Qed.
Lemma count_h_nonneg f l : 0 ≤ count_h f l.
Proof. unfold count_h. lia. Qed.
Lemma count_h_pos f l : 0 < count_h f l → ∃ pre h post, l = pre ++ h :: post ∧ f h = true.
Proof.
  induction l as [|h l IH]; [rewrite count_h_nil; lia|]. rewrite count_h_cons. destruct (f h) eqn:E.
  - intros _. by exists [], h, l.
  - intros (pre & h' & post & -> & ?)%IH. by exists (h :: pre), h', post.
Qed.
#[export] Hint Rewrite count_h_app count_h_cons count_h_nil : counting.

(** The handlers that hold an element of PrioW, and those that will take one of NormalW. *)
Definition holds_prio (h : Handler) : bool := match h with HPrio _ b => b | HReleasePrio => true | _ => false end.
Definition takes_normal (h : Handler) : bool := match h with HNormal _ | HNotify _ | HReleaseNormal => true | _ => false end.
Definition is_notify (h : Handler) : bool := match h with HNotify _ => true | _ => false end.
Definition is_both_prio (h : Handler) : bool := match h with HPrio _ b => negb b | _ => false end.
Definition is_normal (h : Handler) : bool := match h with HNormal _ => true | _ => false end.

Lemma after_holds_prio h : count_h holds_prio (after h) = if holds_prio h then 1 else 0.
Proof. by destruct h as [? []| | | |]. Qed.
Lemma after_takes_normal h : count_h takes_normal (after h) = if takes_normal h then 1 else 0.
Proof. by destruct h as [? []| | | |]. Qed.
#[export] Hint Rewrite after_holds_prio after_takes_normal : counting.

Section Pool.
Context {CS : CborStream} {OL : ObjLib} {CW : CborWriter} {TG : TokenGen} {NW : Network}.
Context {CE : CborEncoder} {ED : Ed25519Lib}.
Context (stack : nat).
Implicit Types p : Pool (CS:=CS).
Abbreviation step := (Inbox.step stack) (only parsing).
Abbreviation reachable := (Inbox.reachable stack) (only parsing).

(** ** Every step keeps the caches *)

Abbreviation any_growth := (grows (CS:=CS) (λ _, True) (λ _, True) (λ _ _, True)) (only parsing).

Lemma work_grows now h : respects any_growth (work stack now h).
Proof. destruct h; cbn; respects; by (apply verify_grows || apply notify_grows). Qed.

Lemma step_grows p p' :
  step p p' → config (server p') = config (server p) ∧ (cache_inv (caches (server p)) → cache_inv (caches (server p'))).
Proof.
  destruct 1 as [msg sender s E|now r s E|? ?|? ? ? ?|? ?|? ? ? ?|? ? ? ? ?|? ? ? ?|? ?|? ? ? ?|now h pre post s Hr E|? ? ? ?|? ? ? ?];
    cbn; try done.
  - apply (deliver_grows (λ _, True) (λ _, True) (λ _ _, True)) in E as [[Hc _] H]. split; [done|]. intros I. by apply H.
  - apply reap_grows in E as [[Hc _] H]. split; [done|]. intros I. by apply H.
  - apply work_grows in E as [[Hc _] H]. split; [done|]. intros I. by apply H.
Qed.

(** ** Accounting *)

Record accounts p : Prop := {
  acc_prio : prioW p = count_h holds_prio (running p) + Z.b2z (prioReady p);
  acc_normal : normalW p = count_h takes_normal (running p) + Z.b2z (bothReady p) +
    count_h is_both_prio (started p) - count_h is_notify (started p);
  acc_notify : notifyW p = count_h is_notify (started p) + Z.b2z (notifyReady p);
  acc_normal_bound : normalW p ≤ NormalWorkerCount (config (server p));
  acc_notify_bound : notifyW p ≤ NotificationWorkerCount (config (server p))
}.

Definition worker_counts_ok (c : Config) : Prop := 0 ≤ NormalWorkerCount c ∧ 0 ≤ NotificationWorkerCount c.

Lemma step_accounts p p' : step p p' → accounts p → accounts p'.
Proof.
  intros Hs [A1 A2 A3 A4 A5]. destruct (step_grows p p' Hs) as [Ec _]. destruct Hs; cbn in Ec;
    split; cbn; rewrite ?Ec; autorewrite with counting; cbn;
    repeat match goal with
    | H : running _ = _ |- _ => rewrite H in A1, A2; clear H
    | H : prioReady _ = _ |- _ => rewrite H in A1; clear H
    | H : bothReady _ = _ |- _ => rewrite H in A2; clear H
    | H : notifyReady _ = _ |- _ => rewrite H in A3; clear H
    end; autorewrite with counting in A1, A2; cbn in *; lia.
Qed.

Lemma reachable_accounts p : reachable p → worker_counts_ok (config (server p)) → accounts p.
Proof.
  induction 1 as [p (I1 & I2 & I3 & I4 & I5 & I6 & I7 & I8)|p p' Hp IH Hs]; intros Hc.
  - destruct Hc. split; rewrite ?I1, ?I2, ?I3, ?I4, ?I5, ?I6, ?I7, ?I8; cbn; done.
  - eapply step_accounts; [done|]. apply IH. destruct (step_grows p p' Hs) as [Ec _]. by rewrite <-Ec.
Qed.

Lemma started_grows p p' f : step p p' → count_h f (started p) ≤ count_h f (started p').
Proof. destruct 1; cbn; autorewrite with counting; try lia; destruct (f _); lia. Qed.


(** C25: workers are lost.  A notification handler gives back an element of NormalW instead
    of NotifyW, so over its lifetime the server handles at most as many notifications as
    there are notification workers; a priority message taken by the loop over both queues
    never gives its element back, so this loop takes at most a fixed number of them.  Once
    that number is reached, no message of the normal queue is handled any more, in any
    continuation. *)
Theorem workers_are_lost p :
  reachable p → worker_counts_ok (config (server p)) →
  let lost := count_h is_both_prio (started p) in
  let bound := NormalWorkerCount (config (server p)) + NotificationWorkerCount (config (server p)) in
  count_h is_notify (started p) ≤ NotificationWorkerCount (config (server p)) ∧
  lost ≤ bound ∧
  (lost = bound → ∀ p', rtc step p p' →
     count_h is_normal (started p') = count_h is_normal (started p) ∧ count_h is_both_prio (started p') = lost).
Proof.
  intros Hp Hc lost bound. pose proof (reachable_accounts p Hp Hc) as [A1 A2 A3 A4 A5].
  pose proof (count_h_nonneg takes_normal (running p)).
  assert (0 ≤ Z.b2z (bothReady p)) by (destruct (bothReady p); done).
  assert (0 ≤ Z.b2z (notifyReady p)) by (destruct (notifyReady p); done).
  split; [lia|]. split; [lia|]. intros Hb p' Hs.
  clear A1 A2 A3 A4 A5 H H0 H1. unfold lost, bound in *. clear lost bound.
  induction Hs as [p|p p1 p' H1 Hs IH]; [by rewrite Hb|].
  pose proof (reach_step stack _ _ Hp H1) as Hp1. destruct (step_grows p p1 H1) as [Ec _]. rewrite Ec in IH.
  pose proof (reachable_accounts p Hp Hc) as [_ A2 A3 A4 A5].
  pose proof (reachable_accounts p1 Hp1 ltac:(by rewrite Ec)) as [_ B2 B3 B4 B5]. rewrite Ec in B4, B5.
  pose proof (count_h_nonneg takes_normal (running p1)). pose proof (count_h_nonneg takes_normal (running p)).
  assert (0 ≤ Z.b2z (bothReady p1)) by (destruct (bothReady p1); done).
  assert (0 ≤ Z.b2z (notifyReady p1)) by (destruct (notifyReady p1); done).
  assert (0 ≤ Z.b2z (notifyReady p)) by (destruct (notifyReady p); done).
  pose proof (started_grows _ _ is_both_prio H1).
  assert (bothReady p = false) as Hf by (destruct (bothReady p); cbn in *; [lia|done]).
  assert (count_h is_both_prio (started p1) = count_h is_both_prio (started p)) as Eb by lia.
  assert (count_h is_normal (started p1) = count_h is_normal (started p)) as En.
  { clear -H1 Hf. destruct H1; cbn; autorewrite with counting; cbn; try lia; congruence. }
  rewrite <-Eb, <-En. apply IH; [done|done|]. by rewrite Eb.
Qed.

(** ** Progress of the priority queue *)

Definition head_prio p (msg : MsgSectionSender) : Prop := [msg] `prefix_of` Prio (queues (server p)).

Lemma prio_ready_progress p msg :
  prioReady p = true → head_prio p msg → ∃ p', rtc step p p' ∧ started p' = started p ++ [HPrio msg true].
Proof. intros Hr [rest Hq]. eexists. split; [eapply rtc_once, step_prio_take; [done|exact Hq]|done]. Qed.

Lemma prio_room_progress p msg :
  prioReady p = false → prioW p < PrioWorkerCount (config (server p)) → head_prio p msg →
  ∃ p', rtc step p p' ∧ started p' = started p ++ [HPrio msg true].
Proof.
  intros Hr Hw Hq. pose proof (step_prio_acquire stack p Hr Hw) as Hs.
  match type of Hs with Inbox.step _ _ ?q => destruct (prio_ready_progress q msg) as (p' & Hp' & Es); [done|exact Hq|] end.
  exists p'. split; [by eapply rtc_l|exact Es].
Qed.

Lemma prio_release_progress p msg pre post :
  prioReady p = false → running p = pre ++ HReleasePrio :: post → 0 < prioW p ≤ PrioWorkerCount (config (server p)) →
  head_prio p msg → ∃ p', rtc step p p' ∧ started p' = started p ++ [HPrio msg true].
Proof.
  intros Hr Hrun Hw Hq. pose proof (step_release_prio stack p pre post Hrun ltac:(lia)) as Hs.
  match type of Hs with Inbox.step _ _ ?q => destruct (prio_room_progress q msg) as (p' & Hp' & Es); [done|cbn; lia|exact Hq|] end.
  exists p'. split; [by eapply rtc_l|exact Es].
Qed.

Lemma reachable_prio_bound p : reachable p → 0 ≤ PrioWorkerCount (config (server p)) → prioW p ≤ PrioWorkerCount (config (server p)).
Proof.
  induction 1 as [p (-> & _)|p p' Hp IH Hs]; intros Hc; [done|]. destruct (step_grows p p' Hs) as [Ec _]. rewrite Ec in Hc |- *.
  specialize (IH Hc). destruct Hs; cbn in *; lia.
Qed.

End Pool.

(** ** Witnesses *)

Section Witnesses.
Local Existing Instance toy_stream.
Local Existing Instance toy_tokens.
Local Existing Instance toy_network.
Local Existing Instance be_objlib.
Local Existing Instance toy_cbor.
Local Existing Instance toy_ed25519.
Local Existing Instance toy_encoder.

(** The worker counts 1, 1 and 0 and default values otherwise. *)
Definition small_config : Config :=
  let c := DefaultConfig in
  mkConfig (RootZonePublicKeyPath c) (AssertionCheckPointInterval c) (NegAssertionCheckPointInterval c)
    (ZoneKeyCheckPointInterval c) (CheckPointPath c) (PreLoadCaches c) (ServerAddressType c) (ServerAddress c) (MaxConnections c)
    (KeepAlivePeriod c) (TCPTimeout c) (TLSCertificateFile c) (TLSPrivateKeyFile c) (PrioBufferSize c) (NormalBufferSize c)
    (NotificationBufferSize c) 1 1 0 (CapabilitiesCacheSize c) (cfgCapabilities c) (ZoneKeyCacheSize c) (ZoneKeyCacheWarnSize c)
    (MaxPublicKeysPerZone c) (PendingKeyCacheSize c) (DelegationQueryValidity c) (ReapZoneKeyCacheInterval c)
    (ReapPendingKeyCacheInterval c) (AssertionCacheSize c) (NegativeAssertionCacheSize c) (PendingQueryCacheSize c)
    (QueryValidity c) (Authorities c) (cfgMaxCacheValidity c) (ReapAssertionCacheInterval c) (ReapNegAssertionCacheInterval c)
    (ReapPendingQCacheInterval c).
Definition w_msg : MsgSectionSender := message [signed_by 5 "good."].
Definition w_start : Server :=
  mkServer small_config "hash" "" (initCaches small_config) (mkQueues [w_msg] [] []) true 0 [] [] [] [].
Definition w_pool : Pool := mkPool w_start 0 0 0 false false false [] [].
Lemma w_pool_reachable : reachable 100 w_pool.
Proof. apply reach_init. by repeat split. Qed.


(** One priority message taken by the loop over both queues stops it for good. *)
Lemma workers_are_lost_witness :
  ∃ p, reachable 100 p ∧ count_h is_both_prio (started p) = 1 ∧
    ∀ p', rtc (step 100) p p' → count_h is_normal (started p') = 0.
Proof.
  pose (p1 := mkPool w_start 0 1 0 false true false [] []).
  assert (step 100 w_pool p1) as H1 by (apply (step_both_acquire 100 w_pool); vm_compute; reflexivity).
  pose proof (step_both_prio 100 p1 w_msg [] eq_refl eq_refl) as H2.
  match type of H2 with Inbox.step _ _ ?q => exists q; assert (reachable 100 q) as Hq end.
  { eapply reach_step; [eapply reach_step; [apply w_pool_reachable|exact H1]|exact H2]. }
  split; [exact Hq|]. split; [vm_compute; reflexivity|]. intros p' Hs.
  destruct (workers_are_lost 100 _ Hq) as (_ & _ & H); [split; vm_compute; discriminate|].
  destruct (H ltac:(vm_compute; reflexivity) p' Hs) as [-> _]. vm_compute. reflexivity.
Defined.

End Witnesses.
