(* ===== verification/QueryFacts.v ===== *)
(** * Queries: names, redirects and answers

    Theorems about queryEngine.go and the answers to waiting senders: how query names are
    split, when following redirects ends, and that every waiting sender gets one answer. *)

From S2P Require Import Prelude Cbor Keys Object Query BitArray BloomFilter Section Message Siglib SiglibFacts Containers LruCache Pointers ZoneCache ZoneCacheFacts AssertionCache NegAssertionCache ZoneKeyCache ConnectionCache PendingCaches CapabilityCache Server AssertionEngine QueryEngine Verify Inbox ServerFacts EngineFacts.
Local Open Scope Z_scope.

(** ** Names *)

(** The absolute name with the given labels. *)
Definition absolute (ls : list string) : string := str_join "." (ls ++ [""%string]).

Lemma absolute_dot ls : ls ≠ [] → ∃ s, absolute ls = (s +:+ ".")%string.
Proof.
  unfold absolute. induction ls as [|l ls IH]; [done|]. intros _. destruct ls as [|l' ls].
  - exists l. done.
  - destruct IH as [s Hs]; [done|]. exists (l +:+ "." +:+ s)%string.
    change (str_join "." ((l :: l' :: ls) ++ [""%string])) with (l +:+ "." +:+ str_join "." ((l' :: ls) ++ [""]))%string.
    rewrite Hs. by rewrite <- !str_app_assoc.
Qed.

(** [toSubjectZone] cuts an absolute name after its first label, so that subject and
    zone make up the name again.  Of a top-level name the zone is the empty string, not
    the root zone ".": what the root zone proves about top-level names is filed under
    another key and is not found.  The root itself is in zone ".", and a name without the
    final dot is refused. *)
Theorem toSubjectZone_spec l ls ctx name :
  l ≠ ""%string → Forall (no_char "."%char) (l :: ls) → HasSuffix name "." = false →
  toSubjectZone (absolute (l :: ls)) = Ok (l, if decide (ls = []) then ""%string else absolute ls) ∧
  toSubjectZone "." = Ok (""%string, "."%string) ∧ zoneCtxKey "" ctx ≠ zoneCtxKey "." ctx ∧
  is_err (toSubjectZone name) = true.
Proof.
  intros Hl Hf Hn. split; [|split; [done|split; [done|by unfold toSubjectZone; rewrite Hn]]].
  unfold toSubjectZone. destruct (absolute_dot (l :: ls)) as [s Hs]; [done|]. rewrite Hs, HasSuffix_app, <-Hs. cbn [negb].
  unfold absolute. rewrite split_dot_join; [|done|by apply Forall_app_2, Forall_singleton].
  change (at_index ((l :: ls) ++ [""%string]) 0) with (Ok l). cbn [mbind outcome_bind]. rewrite (str_eqb_neq _ _ Hl).
  cbn [app tail]. by destruct ls.
Qed.

Lemma toSubjectZone_spec_witness :
  toSubjectZone "www.ethz.ch." = Ok ("www", "ethz.ch.")%string ∧ toSubjectZone "ch." = Ok ("ch", "")%string ∧
  is_err (toSubjectZone "ch") = true.
Proof.
  split; [|split].
  - apply (toSubjectZone_spec "www" ["ethz"; "ch"] "." "ch"); [done| |reflexivity]. repeat constructor; cbn; done.
  - apply (toSubjectZone_spec "ch" [] "." "ch"); [done| |reflexivity]. repeat constructor; cbn; done.
  - apply (toSubjectZone_spec "ch" [] "." "ch"); [done| |reflexivity]. repeat constructor; cbn; done.
Defined.

(** ** Redirects *)

Section Redirects.
Context {CS : CborStream} {OL : ObjLib} {CW : CborWriter}.
Implicit Types s : Server (CS:=CS).

Abbreviation aview := (gmap string (string * gmap string (Expiring (S:=Assertion)))) (only parsing).

(** [a] is filed for the name, context and type. *)
Definition filed_for (v : aview) (name context : string) (t : OType) (a : Assertion) : Prop :=
  ∃ p h x, v !! assertionCacheMapKeyFQDN name context t = Some p ∧ p.2 !! h = Some (mkExpiring a x).

(** A cached service or name record leads from [name] to [target]. *)
Definition leads_to (v : aview) (context name target : string) : Prop :=
  ∃ a o, o ∈ aContent a ∧
    ((filed_for v name context OTServiceInfo a ∧ objType o = OTServiceInfo ∧
        ∃ srv, objValue o = VServiceInfo srv ∧ siName srv = target) ∨
     (filed_for v name context OTName a ∧ objType o = OTName ∧
        ∃ n, objValue o = VName n ∧ onName n = target)).

(** The values of the cached service and name objects have the types of their tags; the
    decoder makes only such objects. *)
Definition redirects_typed (v : aview) : Prop :=
  ∀ a o, filed v a → o ∈ aContent a → value_typed (objType o) (objValue o).

(** The cache holds the assertions [v]. *)
Definition holds (v : aview) s : Prop :=
  ac_inv (AssertionsCache (caches s)) ∧ zc_view (AssertionsCache (caches s)) = v.

Lemma AssertionsCache_Get_holds v fqdn ctx t s :
  holds v s → ∃ s' l, AssertionsCache_Get fqdn ctx t s = Ok (s', (l, bool_decide (l ≠ []))) ∧ holds v s' ∧
    ∀ a, a ∈ l ↔ filed_for v fqdn ctx t a.
Proof.
  intros [I V]. unfold AssertionsCache_Get, on_cache, AssertionImpl_Get.
  destruct (zc_lookup_spec assertion_hash true _ (assertionCacheMapKeyFQDN fqdn ctx t) I) as (I' & W & Er & _).
  destruct (zc_lookup _ _) as [c' r]. cbn [fst snd] in *. rewrite Er, V.
  destruct (v !! assertionCacheMapKeyFQDN fqdn ctx t) as [p|] eqn:Ep; cbn.
  - eexists _, _. split; [reflexivity|]. split; [split; [done|cbn; by rewrite W]|]. intros a. split.
    + intros ([a' x] & -> & ([h e] & Ee & He%elem_of_map_to_list)%list_elem_of_fmap)%list_elem_of_fmap.
      cbn in Ee. subst e. by exists p, h, x.
    + intros (p' & h & x & Hp & Hh). rewrite Ep in Hp. injection Hp as <-. apply list_elem_of_fmap. exists (mkExpiring a x).
      split; [done|]. apply list_elem_of_fmap. exists (h, mkExpiring a x). split; [done|]. by apply elem_of_map_to_list.
  - eexists _, []. split; [reflexivity|]. split; [split; [done|cbn; by rewrite W]|].
    intros a. split; [by intros ?%elem_of_nil|]. intros (p' & h & x & Hp & _). by rewrite Ep in Hp.
Qed.

Lemma get_if_holds v b name ctx t s :
  holds v s → ∃ s' r, get_if b name ctx t s = Ok (s', r) ∧ holds v s' ∧ ∀ a, a ∈ default [] r → filed_for v name ctx t a.
Proof.
  intros H. unfold get_if. destruct b; [|exists s, None; split; [done|]; split; [done|]; cbn; by intros a ?%elem_of_nil].
  destruct (AssertionsCache_Get_holds v name ctx t s H) as (s' & l & E & H' & Hl). unfold mbind, serverM_bind. rewrite E. cbn.
  eexists s', _. split; [reflexivity|]. split; [done|].
  intros a. destruct (bool_decide (l ≠ [])); cbn; [by intros ?%Hl|by intros ?%elem_of_nil].
Qed.

Lemma redirect_objects_total {B} v t (follow : Object → serverM (option B)) content s :
  (∀ o s, o ∈ content → objType o = t → holds v s → ∃ s' r, follow o s = Ok (s', r) ∧ holds v s') →
  holds v s → ∃ s' r, redirect_objects t follow content s = Ok (s', r) ∧ holds v s'.
Proof.
  revert s. induction content as [|o content IH]; intros s Hf Hs; cbn [redirect_objects]; [by exists s, None|].
  assert (∀ s, holds v s → ∃ s' r, redirect_objects t follow content s = Ok (s', r) ∧ holds v s') as IH'.
  { intros s1 H1. apply IH; [|done]. intros o' s2 Ho'. apply Hf. by right. }
  destruct (Z.eqb_spec (objType o) t) as [Ht|]; [|by apply IH'].
  destruct (Hf o s ltac:(left) Ht Hs) as (s1 & r & E & H1). unfold mbind, serverM_bind. rewrite E. cbn.
  destruct r; [by eexists _, _|by apply IH'].
Qed.

Lemma first_redirect_total {B} v t (follow : Assertion → Object → serverM (option B)) asserts s :
  (∀ a o s, a ∈ asserts → o ∈ aContent a → objType o = t → holds v s → ∃ s' r, follow a o s = Ok (s', r) ∧ holds v s') →
  holds v s → ∃ s' r, first_redirect t follow asserts s = Ok (s', r) ∧ holds v s'.
Proof.
  revert s. induction asserts as [|a l IH]; intros s Hf Hs; cbn [first_redirect]; [by exists s, None|].
  destruct (redirect_objects_total v t (follow a) (aContent a) s) as (s1 & r & E & H1);
    [intros o s1 Ho; apply Hf; [left|done]|done|].
  unfold mbind, serverM_bind. rewrite E. cbn. destruct r; [by eexists _, _|].
  apply IH; [|done]. intros a' o s' Ha. apply Hf. by right.
Qed.

Lemma filed_for_filed v name ctx t a : filed_for v name ctx t a → filed v a.
Proof. intros (p & h & x & ? & ?). by exists (assertionCacheMapKeyFQDN name ctx t), p, h, x. Qed.

Lemma typed_srv v : value_typed OTServiceInfo v → ∃ srv, v = VServiceInfo srv.
Proof. destruct v; cbn; unfold is_key_type, is_string_type; intuition (try discriminate); by eexists. Qed.
Lemma typed_name v : value_typed OTName v → ∃ n, v = VName n.
Proof. destruct v; cbn; unfold is_key_type, is_string_type; intuition (try discriminate); by eexists. Qed.

Lemma handleRedirect_total v ctx rank depth name types s :
  redirects_typed v → (∀ n t, leads_to v ctx n t → (rank t < rank n)%nat) → (rank name < depth)%nat → holds v s →
  ∃ s' r, handleRedirect depth name ctx types s = Ok (s', r) ∧ holds v s'.
Proof.
  intros Ht Hr. revert name types s. induction depth as [|depth IH]; intros name types s Hd Hs; [lia|]. cbn [handleRedirect].
  unfold mbind, serverM_bind.
  destruct (get_if_holds v (bool_decide (OTIP6Addr ∈ types)) name ctx OTIP6Addr s Hs) as (s1 & r1 & -> & H1 & _).
  cbn [mbind outcome_bind]. destruct r1; [by eexists _, _|]. cbn [mbind outcome_bind].
  destruct (get_if_holds v (bool_decide (OTIP4Addr ∈ types)) name ctx OTIP4Addr s1 H1) as (s2 & r2 & -> & H2 & _).
  cbn [mbind outcome_bind]. destruct r2; [by eexists _, _|]. cbn [mbind outcome_bind].
  destruct (get_if_holds v (bool_decide (OTScionAddr ∈ types)) name ctx OTScionAddr s2 H2) as (s3 & r3 & -> & H3 & _).
  cbn [mbind outcome_bind]. destruct r3; [by eexists _, _|]. cbn [mbind outcome_bind].
  destruct (get_if_holds v (bool_decide (OTServiceInfo ∈ types) && HasPrefix name rainsSrvPrefix) name ctx OTServiceInfo s3 H3)
    as (s4 & r4 & -> & H4 & L4). cbn [mbind outcome_bind].
  match goal with |- context [first_redirect OTServiceInfo ?f ?l s4] =>
    destruct (first_redirect_total v OTServiceInfo f l s4) as (s5 & r5 & -> & H5); [|done|] end.
  { intros a o s5 Ha%L4 Ho Et H5. destruct (typed_srv (objValue o)) as [srv Ev].
    { rewrite <-Et. by eapply Ht; [eapply filed_for_filed|]. }
    rewrite Ev. cbn -[handleRedirect]. destruct (IH (siName srv) AllowedAddrTypes s5) as (s6 & r6 & -> & H6); [|done|by eexists _, _].
    eapply Nat.lt_le_trans; [apply (Hr name)|lia]. exists a, o. split; [done|]. left. eauto. }
  cbn [mbind outcome_bind]. destruct r5; [by eexists _, _|]. cbn [mbind outcome_bind].
  destruct (get_if_holds v (bool_decide (OTName ∈ types)) name ctx OTName s5 H5) as (s6 & r6 & -> & H6 & L6). cbn [mbind outcome_bind].
  apply (first_redirect_total v); [|done]. intros a o s7 Ha%L6 Ho Et H7. destruct (typed_name (objValue o)) as [n Ev].
  { rewrite <-Et. by eapply Ht; [eapply filed_for_filed|]. }
  rewrite Ev. cbn -[handleRedirect]. destruct (IH (onName n) (onTypes n) s7) as (s8 & r8 & -> & H8); [|done|by eexists _, _].
  eapply Nat.lt_le_trans; [apply (Hr name)|lia]. exists a, o. split; [done|]. right. eauto.
Qed.

Lemma handleRedirect_cycle v ctx name a depth s :
  (∀ b, filed_for v name ctx OTName b ↔ b = a) →
  aContent a = [mkObject OTName (VName (mkObjName name [OTName]))] → holds v s →
  ∃ msg, handleRedirect depth name ctx [OTName] s = Panic msg.
Proof.
  intros Hu Hc. revert s. induction depth as [|depth IH]; intros s Hs; [by eexists|]. cbn [handleRedirect].
  change (bool_decide (OTIP6Addr ∈ [OTName])) with false. change (bool_decide (OTIP4Addr ∈ [OTName])) with false.
  change (bool_decide (OTScionAddr ∈ [OTName])) with false. change (bool_decide (OTServiceInfo ∈ [OTName])) with false.
  change (bool_decide (OTName ∈ [OTName])) with true.
  unfold get_if, mbind, serverM_bind. cbn -[handleRedirect AssertionsCache_Get].
  destruct (AssertionsCache_Get_holds v name ctx OTName s Hs) as (s1 & l & E & H1 & Hl). rewrite E.
  destruct l as [|b l]; [exfalso; apply (elem_of_nil a), Hl; by apply Hu|].
  assert (b = a) as -> by (apply Hu, Hl; left). cbn -[handleRedirect]. rewrite Hc. cbn -[handleRedirect].
  unfold mbind, serverM_bind. cbn -[handleRedirect]. destruct (IH s1 H1) as [msg ->]. by exists msg.
Qed.

(** C26: following redirects ends exactly as far as the cached names allow.  If the cached
    service and name records lead from names to names of smaller rank, the recursion ends
    without a panic at a depth of at most the rank, and leaves the cache as it is.  If a
    name record leads a name to itself, the recursion never ends: at every depth the
    stack overflows. *)
Theorem handleRedirect_terminates v ctx rank depth name types s :
  redirects_typed v → holds v s →
  ((∀ n t, leads_to v ctx n t → (rank t < rank n)%nat) → (rank name < depth)%nat →
     ∃ s' r, handleRedirect depth name ctx types s = Ok (s', r) ∧ holds v s') ∧
  (∀ a, (∀ b, filed_for v name ctx OTName b ↔ b = a) → aContent a = [mkObject OTName (VName (mkObjName name [OTName]))] →
     ∃ msg, handleRedirect depth name ctx [OTName] s = Panic msg).
Proof.
  intros Ht Hs. split.
  - intros Hr Hd. by eapply handleRedirect_total.
  - intros a Hu Hc. by eapply handleRedirect_cycle.
Qed.
End Redirects.

(** ** Waiting senders *)

Section Answers.
Context {CS : CborStream} {OL : ObjLib} {CW : CborWriter} {TG : TokenGen} {NW : Network}.
Implicit Types s : Server (CS:=CS).

(** The message [sendSections] sends. *)
Definition answer_to s (answer : list AnySection) (ss : MsgSectionSender) : Message * Addr :=
  (mkMessage [capabilityHash s] (mssToken ss) answer [], mssSender ss).

(** The server sends on a packet socket and can encode the answer. *)
Record can_answer s (answer : list AnySection) (ss : MsgSectionSender) : Prop := {
  ca_packet : packetConn s = true;
  ca_token : mssToken ss ≠ replicate 16 0;
  ca_encodes : is_ok (Message_MarshalCBOR (answer_to s answer ss).1 empty_stream) = true
}.

Lemma sendSections_packet s answer ss :
  can_answer s answer ss →
  ∃ s' r, sendSections answer (mssToken ss) (mssSender ss) s = Ok (s', r) ∧
    sent s' = sent s ++ [answer_to s answer ss] ∧ caches s' = caches s ∧ packetConn s' = true ∧ capabilityHash s' = capabilityHash s.
Proof.
  intros [Hp Ht He]. unfold sendSections. rewrite bool_decide_false by done. unfold sendTo, mbind, serverM_bind. cbn in He |- *.
  destruct (Message_MarshalCBOR _ _) as [enc| |]; [|done..]. cbn. unfold sendToTry, mbind, serverM_bind. cbn. rewrite Hp. cbn.
  destruct (net_packet _ _ _); cbn; eexists _, _; split_and!; done.
Qed.

Lemma answer_all s answer msss :
  Forall (can_answer s answer) msss →
  ∃ s', for_each (λ ss, _ ← sendSections answer (mssToken ss) (mssSender ss); mret ()) msss s = Ok (s', ()) ∧
    sent s' = sent s ++ (answer_to s answer <$> msss) ∧ caches s' = caches s.
Proof.
  revert s. induction msss as [|ss msss IH]; intros s Hc; [exists s; by rewrite app_nil_r|].
  apply Forall_cons_1 in Hc as [H1 Hc]. destruct (sendSections_packet s answer ss H1) as (s1 & r & E & Es & Ec & Ep & Eh).
  destruct (IH s1) as (s2 & E2 & Es2 & Ec2).
  { eapply Forall_impl; [exact Hc|]. intros ss' [? ? He]. split; [done..|]. unfold answer_to in *. by rewrite Eh. }
  exists s2. cbn [for_each]. unfold mbind, serverM_bind in E2 |- *. rewrite E. cbn. rewrite E2. split; [done|]. rewrite Es2, Es, Ec2, Ec.
  split; [|done]. rewrite <-(assoc_L (++)). cbn. do 2 f_equal. apply list_fmap_ext. intros _ ss' _. unfold answer_to. by rewrite Eh.
Qed.

Lemma PendingQuery_GetAndRemove_run c t :
  pq_inv c → ∃ c', PendingQuery_GetAndRemove c t = Ok (c', default [] (pqcSss <$> pqTokenMap c !! t)) ∧ pq_inv c' ∧
    pqTokenMap c' = delete t (pqTokenMap c).
Proof.
  intros I. unfold PendingQuery_GetAndRemove. destruct (pqTokenMap c !! t) as [v|] eqn:E; cbn.
  - destruct (pq_drop_spec c t v I E) as (c' & -> & I' & T' & _). by exists c'.
  - exists c. by rewrite delete_id.
Qed.

End Answers.

(** ** Witnesses *)

Section Witnesses.
Local Existing Instance toy_stream.
Local Existing Instance toy_tokens.
Local Existing Instance toy_network.
Local Existing Instance be_objlib.
Local Existing Instance toy_cbor.
Local Existing Instance toy_ed25519.
Local Existing Instance toy_encoder.

(** The name "loop.ch." is a name for itself. *)
Definition loop_assertion : Assertion :=
  mkAssertion [] "loop" "ch." "." [mkObject OTName (VName (mkObjName "loop.ch." [OTName]))] 0 50 false.
Definition loop_cache : AssertionImpl :=
  (zc_insert assertion_hash true (NewAssertion 5) loop_assertion "loop.ch. . 1" "ch." 50 false false).1.
Definition loop_server : Server := set_caches (set_assertions loop_cache (caches fresh_server)) fresh_server.
Definition loop_view : gmap string (string * gmap string (Expiring (S:=Assertion))) :=
  {[ "loop.ch. . 1"%string := ("ch."%string, {[ assertion_hash loop_assertion := mkExpiring loop_assertion 50 ]}) ]}.

Lemma loop_holds : holds loop_view loop_server.
Proof.
  destruct (zc_New_inv (S:=Assertion) assertion_hash true 5) as [I V]. fold (NewAssertion 5) in I, V.
  destruct (zc_insert_spec assertion_hash true (NewAssertion 5) loop_assertion "loop.ch. . 1" "ch." 50 false false I) as (I' & W & _).
  split; [exact I'|]. change (zc_view (AssertionsCache (caches loop_server))) with (zc_view loop_cache).
  unfold loop_cache. rewrite W, V. unfold add_section, loop_view. by rewrite lookup_empty, insert_empty.
Qed.

Lemma loop_filed a : filed loop_view a → a = loop_assertion.
Proof.
  intros (k & p & h & x & Hk & Hh). unfold loop_view in Hk. apply lookup_singleton_Some in Hk as [_ <-]. cbn in Hh.
  apply lookup_singleton_Some in Hh as [_ Hh]. by injection Hh.
Qed.

Lemma fresh_holds : holds ∅ fresh_server.
Proof. apply (zc_New_inv (S:=Assertion) assertion_hash true). Qed.

Lemma handleRedirect_terminates_witness :
  (∃ s' r, handleRedirect 1 "www.ch." "." AllowedRedirectTypes fresh_server = Ok (s', r)) ∧
  ∃ msg, handleRedirect 2 "loop.ch." "." [OTName] loop_server = Panic msg.
Proof.
  split.
  - destruct (handleRedirect_terminates ∅ "." (λ _, 0%nat) 1 "www.ch." AllowedRedirectTypes fresh_server) as [H _].
    + by intros a o (k & p & h & x & Hk & _).
    + apply fresh_holds.
    + destruct H as (s' & r & E & _); [|lia|by exists s', r].
      intros n t (a & o & _ & [((p & h & x & Hk & _) & _)|((p & h & x & Hk & _) & _)]); done.
  - destruct (handleRedirect_terminates loop_view "." (λ _, 0%nat) 2 "loop.ch." [OTName] loop_server) as [_ H].
    + intros a o ->%loop_filed [->|Ho]%elem_of_cons; [reflexivity|by apply elem_of_nil in Ho].
    + apply loop_holds.
    + apply (H loop_assertion); [|reflexivity]. intros b. split; [intros Hb; by eapply loop_filed, filed_for_filed|].
      intros ->. eexists _, (assertion_hash loop_assertion), 50. split; [vm_compute; reflexivity|].
      vm_compute. reflexivity.
Defined.

Definition waiting_server : Server :=
  set_caches (set_pending_queries
    (mkPendingQuery {[ "a.ch.:.:[3]" := w_token ]} {[ w_token := mkPqcValue [w_query "a.ch."] 100 ]} (mkCounter 10 1))
    (caches fresh_server)) fresh_server.


(** A query that asks for its token to be kept. *)
Definition traced (name : string) : MsgSectionSender :=
  mkMsgSectionSender peer [SecQuery (mkQueryName "." name [OTIP4Addr] 100 [QOTokenTracing] 0 0)] a_token.

(** A client that asks for token tracing chooses the token of the forwarded query.
    Using one token for two queries makes the server panic when it is asked the first one
    again after an answer. *)
Theorem token_tracing_panics :
  ∃ msg,
    (verify 100 0 (traced "a.ch.");;
     verify 100 0 (traced "b.ch.");;
     verify 100 0 (mkMsgSectionSender peer [SecAssertion (mkAssertion [] "a" "ch." "." [] 0 0 false)] a_token);;
     verify 100 0 (traced "a.ch.")) fresh_server = Panic msg.
Proof. eexists. vm_compute. reflexivity. Qed.
End Witnesses.
