(* ===== verification/ServerStore.v ===== *)
(** * Starting the server and its checkpoints

    Models the rest of attic/internal/pkg/rainsd/serverUtil.go and server.go: creating a
    server, loading the root key, and writing the caches to disk and reading them back.
    Files are gob encoded; [Gob] is what the gob library makes of a value that is saved and
    loaded again: it keeps the exported fields only. *)

From S2P Require Import Prelude Cbor Keys Object Query BitArray BloomFilter Section Message Siglib SiglibFacts Containers LruCache Pointers ZoneCache ZoneCacheFacts AssertionCache NegAssertionCache ZoneKeyCache ConnectionCache PendingCaches CapabilityCache Server AssertionEngine QueryEngine Verify Inbox ServerFacts EngineFacts.
Local Open Scope Z_scope.

Record checkPointValue := mkCheckPoint {
  cpSections : list AnySection;
  cpValidSince : list Z;
  cpValidUntil : list Z
}.

(** [util.Save] writes a file, [util.Load] reads it. *)
Class Gob := {
  gob_file : Type;
  gob_Save : checkPointValue → outcome gob_file;
  gob_Load : gob_file → outcome checkPointValue
}.

(** The exported fields: the validity and the [sign] flag are not. *)
Definition assertion_exported (a : Assertion) : Assertion :=
  mkAssertion (aSignatures a) (aSubjectName a) (aSubjectZone a) (aContext a) (aContent a) 0 0 false.
Definition section_exported (s : AnySection) : AnySection :=
  match s with
  | SecAssertion a => SecAssertion (assertion_exported a)
  | SecShard s => SecShard (mkShard (sSignatures s) (sSubjectZone s) (sContext s) (sRangeFrom s) (sRangeTo s)
                              (assertion_exported <$> sContent s) 0 0 false)
  | SecPshard s => SecPshard (mkPshard (pSignatures s) (pSubjectZone s) (pContext s) (pRangeFrom s) (pRangeTo s) (pBloomFilter s) 0 0 false)
  | SecZone z => SecZone (mkZone (zSignatures z) (zSubjectZone z) (zContext z) (assertion_exported <$> zContent z) 0 0 false)
  | s => s
  end.
Class GobLaws `{Gob} : Prop := {
  gob_roundtrip v : ∃ f, gob_Save v = Ok f ∧
    gob_Load f = Ok (mkCheckPoint (section_exported <$> cpSections v) (cpValidSince v) (cpValidUntil v))
}.

Section Store.
Context {CS : CborStream} {OL : ObjLib} {CW : CborWriter} {CE : CborEncoder} {ED : Ed25519Lib} {GB : Gob}.
Abbreviation M := (serverM (CS:=CS)) (only parsing).

(** ** Checkpoints *)

Definition section_validity (s : AnySection) : outcome (Z * Z) :=
  w ← as_with_sig s; Ok (With_ValidSince w, With_ValidUntil w).

(** The file written, [None] when saving failed, which is only logged. *)
Definition checkpoint (values : list AnySection) : outcome (option gob_file) :=
  vs ← traverse section_validity values;
  match gob_Save (mkCheckPoint values vs.*1 vs.*2) with
  | Ok f => Ok (Some f)
  | Err _ => Ok None
  | Panic e => Panic e
  end.

(** [for i, s := range values.Sections { s.SetValidSince(values.ValidSince[i]); ... }] *)
Fixpoint restore_validity (v : checkPointValue) (i : Z) (sections : list AnySection) : outcome (list AnySection) :=
  match sections with
  | [] => Ok []
  | s :: sections' =>
      w ← as_with_sig s;
      since ← at_index (cpValidSince v) i;
      until ← at_index (cpValidUntil v) i;
      l ← restore_validity v (i + 1) sections';
      Ok (SigSection_section (With_SetValidity w since until) :: l)
  end.

Definition readMsgFromFile (file : gob_file) : outcome (list AnySection) :=
  values ← gob_Load file; restore_validity values 0 (cpSections values).

(** An error is logged and leaves no sections. *)
Definition read_or_none (file : gob_file) : outcome (list AnySection) :=
  match readMsgFromFile file with Ok l => Ok l | Err _ => Ok [] | Panic e => Panic e end.

Definition load_assertion (now : Z) (authorities : list ZoneContext) (s : AnySection) : M () :=
  match s with
  | SecAssertion a =>
      _ ← AssertionsCache_Add a (unix_after now (24 * Hour)) (isAuthoritative (WAssertion a) authorities); mret ()
  | _ => mret ()
  end.
Definition load_neg (now : Z) (authorities : list ZoneContext) (s : AnySection) : M () :=
  let add w n := (_ ← NegCache_Add n (unix_after now (24 * Hour)) (isAuthoritative w authorities); mret ()) in
  match s with
  | SecShard s => add (WShard s) (NShard s)
  | SecPshard s => add (WPshard s) (NPshard s)
  | SecZone z => add (WZone z) (NZone z)
  | _ => mret ()
  end.
Definition value_publicKey (v : Value) : outcome PublicKey :=
  match v with VPublicKey k => Ok k | _ => Panic "interface conversion" end.
Definition load_key (authorities : list ZoneContext) (s : AnySection) : M () :=
  match s with
  | SecAssertion a =>
      for_each (λ o : Object,
        if objType o =? OTDelegation then
          pk ← pure_or_panic (value_publicKey (objValue o));
          _ ← ZoneKeys_Add a pk (isAuthoritative (WAssertion a) authorities); mret ()
        else mret ()) (aContent a)
  | _ => mret ()
  end.

(** The three files of the checkpoint directory. *)
Definition loadCaches (now : Z) (aFile nFile zFile : gob_file) : M () :=
  authorities ← gets (λ s, Authorities (config s));
  sections ← pure_or_panic (read_or_none aFile);
  for_each (load_assertion now authorities) sections;;
  sections ← pure_or_panic (read_or_none nFile);
  for_each (load_neg now authorities) sections;;
  sections ← pure_or_panic (read_or_none zFile);
  for_each (load_key authorities) sections.

(** ** The root key *)

(** The loop over the content of the root's assertion, whose signatures the check rewrites
    in place: [a] is the assertion as the last check left it. *)
Fixpoint root_keys (now : Z) (maxValidity : MaxCacheValidity) (a : Assertion) (content : list Object) (zk : ZoneKeyImpl)
    : outcome ZoneKeyImpl :=
  match content with
  | [] => Ok zk
  | c :: content' =>
      if objType c =? OTDelegation then
        match objValue c with
        | VPublicKey pk =>
            sig0 ← at_index (aSignatures a) 0;
            let pk := mkPublicKey (pkID pk) (sigValidSince sig0) (sigValidUntil sig0) (pkKey pk) in
            '(w, ok) ← CheckSectionSignatures now (WAssertion a) (Some {[ pkID pk := [pk] ]}) maxValidity;
            let a := match w with WAssertion a' => a' | _ => a end in
            if negb ok then Err "Failed to validate signature for assertion"
            else
              '(zk, ok) ← finished (ZoneKeyImpl_Add 1 zk a pk true);
              if negb ok then Err "Cache is smaller than the amount of root public keys"
              else root_keys now maxValidity a content' zk
        | _ => root_keys now maxValidity a content' zk
        end
      else root_keys now maxValidity a content' zk
  end.

(** [a] is the assertion read from the file, or the error. *)
Definition loadRootZonePublicKey (now : Z) (file : outcome Assertion) (zoneKeyCache : ZoneKeyImpl)
    (maxValidity : MaxCacheValidity) : outcome ZoneKeyImpl :=
  a ← file; root_keys now maxValidity a (aContent a) zoneKeyCache.

(** ** The server *)

(** [tls] is the result of loading the certificate; the socket opens when the server starts. *)
Definition New (now : Z) (cfg : Config) (tls : outcome ()) (rootKey : outcome Assertion) : outcome (Server (CS:=CS)) :=
  _ ← tls;
  let '(hash, caps) := initOwnCapabilities (cfgCapabilities cfg) in
  let caches := initCaches cfg in
  zk ← loadRootZonePublicKey now rootKey (ZoneKeys caches) (cfgMaxCacheValidity cfg);
  Ok (mkServer cfg hash caps (set_zone_keys zk caches) (mkQueues [] [] []) false 0 [] [] [] []).

(** ** Theorems *)

(** A section as it is after a checkpoint: the flag that leaves signatures out of the
    encoding is cleared, and the content has no validity of its own. *)
Definition stored (s : AnySection) : AnySection :=
  match as_with_sig s, as_with_sig (section_exported s) with
  | Ok w, Ok e => SigSection_section (With_SetValidity e (With_ValidSince w) (With_ValidUntil w))
  | _, _ => s
  end.

Lemma restore_validity_spec all (ws : list SigSection) (pre : list (Z * Z)) :
  let vs := (λ w, (With_ValidSince w, With_ValidUntil w)) <$> ws in
  let secs := SigSection_section <$> ws in
  restore_validity (mkCheckPoint all (pre ++ vs).*1 (pre ++ vs).*2) (Z.of_nat (length pre))
    (section_exported <$> secs) = Ok (stored <$> secs).
Proof.
  cbv zeta. revert pre. induction ws as [|w ws IH]; intros pre; [done|]. cbn [restore_validity list_fmap fmap].
  assert (∃ e, as_with_sig (section_exported (SigSection_section w)) = Ok e ∧
    stored (SigSection_section w) = SigSection_section (With_SetValidity e (With_ValidSince w) (With_ValidUntil w))) as (e & E & Es).
  { destruct w; eexists; (split; [reflexivity|reflexivity]). }
  rewrite E. cbn [mbind outcome_bind]. unfold at_index at 1 2. rewrite !decide_True by lia. rewrite !Nat2Z.id. cbn [cpValidSince cpValidUntil].
  rewrite !fmap_app, !lookup_app_r, !length_fmap, !Nat.sub_diag by (rewrite length_fmap; lia). cbn [or_panic mbind outcome_bind].
  specialize (IH (pre ++ [(With_ValidSince w, With_ValidUntil w)])). rewrite <-(assoc_L (++)) in IH.
  rewrite length_app in IH. replace (Z.of_nat (length pre) + 1) with (Z.of_nat (length pre + 1)) by lia.
  rewrite <-!fmap_app. cbn [length] in IH. cbn [fmap list_fmap app] in IH |- *. rewrite IH. cbn. by rewrite Es.
Qed.

(** A checkpoint can be read back.  The sections come back in order with their data,
    signatures and validity, although the validity is not part of what gob encodes. *)
Theorem checkpoint_roundtrip `{!GobLaws} (ws : list SigSection) :
  let secs := SigSection_section <$> ws in
  ∃ f, checkpoint secs = Ok (Some f) ∧ readMsgFromFile f = Ok (stored <$> secs) ∧
    Forall2 (λ w s, ∃ w', as_with_sig s = Ok w' ∧ With_ValidSince w' = With_ValidSince w ∧ With_ValidUntil w' = With_ValidUntil w ∧
       With_Sigs w' RainsKeySpace = With_Sigs w RainsKeySpace ∧ With_GetSubjectZone w' = With_GetSubjectZone w ∧
       With_GetContext w' = With_GetContext w) ws (stored <$> secs).
Proof.
  cbv zeta. set (vs := (λ w, (With_ValidSince w, With_ValidUntil w)) <$> ws).
  assert (traverse section_validity (SigSection_section <$> ws) = Ok vs) as Ev.
  { apply (traverse_map section_validity SigSection_section). apply Forall_true. by intros []. }
  destruct (gob_roundtrip (mkCheckPoint (SigSection_section <$> ws) vs.*1 vs.*2)) as (f & E1 & E2). exists f. split_and!.
  - unfold checkpoint. rewrite Ev. cbn. by rewrite E1.
  - unfold readMsgFromFile. rewrite E2. cbn. apply (restore_validity_spec _ ws []).
  - clear. induction ws as [|w ws IH]; [constructor|]. constructor; [|exact IH]. destruct w; eexists; (split; [reflexivity|done]).
Qed.

Lemma root_keys_inv now maxValidity a content zk zk' :
  zk_inv zk → root_keys now maxValidity a content zk = Ok zk' → zk_inv zk'.
Proof.
  revert a zk. induction content as [|c content IH]; intros a zk I; cbn [root_keys]; [by intros [= <-]|].
  destruct (objType c =? OTDelegation); [|by apply IH]. destruct (objValue c); try by apply IH.
  destruct (at_index (aSignatures a) 0) as [sig0| |]; cbn [mbind outcome_bind]; [|done..].
  destruct (CheckSectionSignatures _ _ _ _) as [[w ok]| |]; cbn [mbind outcome_bind]; [|done..]. destruct ok; cbn [negb]; [|done].
  match goal with |- context [finished ?x] => destruct (finished x) as [[zk1 ok]| |] eqn:E end; cbn [mbind outcome_bind]; [|done..].
  apply ZoneKey_Add_promise in E as [I' _]; [|done]. destruct ok; cbn [negb]; [by apply IH|done].
Qed.

(** A new server has the invariants that all handlers keep. *)
Lemma New_cache_inv now cfg tls rootKey s : New now cfg tls rootKey = Ok s → config s = cfg ∧ cache_inv (caches s).
Proof.
  unfold New. destruct tls; cbn -[loadRootZonePublicKey initCaches]; [|done..]. unfold loadRootZonePublicKey.
  destruct rootKey as [ra| |]; cbn -[root_keys initCaches]; [|done..].
  destruct (root_keys _ _ _ _ _) as [zk| |] eqn:E; cbn -[initCaches]; [|done..]. intros [= <-]. split; [done|].
  apply root_keys_inv in E; [|apply NewZoneKey_inv]. destruct (initCaches_inv cfg). by split.
Qed.
End Store.

(** A gob library that keeps the value in memory. *)
Definition toy_gob : Gob := {|
  gob_file := checkPointValue;
  gob_Save v := Ok v;
  gob_Load v := Ok (mkCheckPoint (section_exported <$> cpSections v) (cpValidSince v) (cpValidUntil v))
|}.
Lemma toy_gob_laws : @GobLaws toy_gob.
Proof. split. intros v. by exists v. Qed.

Lemma checkpoint_roundtrip_witness :
  let w := WAssertion (mkAssertion [] "www" "ch." "." [] 3 50 false) in
  ∃ f, @checkpoint toy_gob [SigSection_section w] = Ok (Some f) ∧ @readMsgFromFile toy_gob f = Ok [SigSection_section w].
Proof.
  intros w. destruct (@checkpoint_roundtrip toy_gob toy_gob_laws [w]) as (f & E1 & E2 & _). by exists f.
Defined.
