(* ===== verification/Connection.v ===== *)
(** * Connections and the resolver's requests

    Models attic/internal/pkg/connection/connection.go (opening a connection, receiving and
    writing one message) and [SendQuery] of util/rainslibUtil.go.  The network is a class:
    what a dial, a write or a read gives may depend on everything that happened before.  A
    function that uses the network is a computation in [netM]: it extends the log of
    network events and can panic. *)

From S2P Require Import Prelude Cbor Keys Object Query BitArray BloomFilter Section Message Siglib ConnectionCache Server.
Local Open Scope Z_scope.

(** [net.Addr] by its dynamic type: a nil interface, a [*net.TCPAddr], a [*snet.UDPAddr],
    which can be a nil pointer, or another type. *)
Inductive NetAddr :=
| NilAddr
| TCPAddr (a : Addr)
| UDPAddr (a : option Addr)
| OtherAddr (a : Addr).

#[export] Instance NetAddr_eq_dec : EqDecision NetAddr.
Proof. solve_decision. Defined.

(** What the program uses of the address libraries: [net.ResolveTCPAddr] and
    [snet.ParseUDPAddr] on a string, [net.IP.String] and the format of an ISD-AS number. *)
Class AddrLib := {
  ResolveTCPAddr : string → option Addr;
  ParseUDPAddr : string → option Addr;
  IP_String : list Z → string;
  IA_String : IA → string
}.

Definition SCIONAddress_String `{AddrLib} (sa : SCIONAddress) : string :=
  (IA_String (saIA sa) +:+ ",[" +:+ IP_String (saIP sa) +:+ "]")%string.

Section Connection.
Context {CS : CborStream}.

Inductive WireEvent :=
| Dialled (addr : Addr) (conn : option Conn)
| Written (conn : Conn) (bytes : stream) (ok : bool)
| Received (conn : Conn) (bytes : option stream)
| Closed (conn : Conn).

(** A read gives the bytes up to the end of a message, [None] when it fails or, where the
    caller waits at most [timeout], when nothing arrives in time.  The clock moves with the
    events. *)
Class Internet := {
  inet_dial : list WireEvent → Addr → option Conn;
  inet_write : list WireEvent → Conn → stream → bool;
  inet_read : list WireEvent → Conn → option Z → option stream;
  inet_now : list WireEvent → Z
}.

Record Net := mkNet { netEvents : list WireEvent; netTokens : nat }.

Definition netM (A : Type) : Type := Net → outcome (Net * A).
#[export] Instance netM_ret : MRet netM := λ A a s, Ok (s, a).
#[export] Instance netM_bind : MBind netM := λ A B f m s, '(s, a) ← m s; f a s.

Context {IN : Internet} {TG : TokenGen} {OL : ObjLib}.

Definition wire (e : WireEvent) : netM () := λ s, Ok (mkNet (netEvents s ++ [e]) (netTokens s), ()).
Definition net_token : netM Token := λ s, Ok (mkNet (netEvents s) (S (netTokens s)), token_at (netTokens s)).
Definition net_fail {A} (m : outcome A) : netM A :=
  λ s, match m with Ok a => Ok (s, a) | Err e => Panic e | Panic e => Panic e end.

Definition net_panic {A} (msg : string) : netM A := λ _, Panic msg.
Definition dial (a : Addr) : netM (option Conn) :=
  λ s, let r := inet_dial (netEvents s) a in Ok (mkNet (netEvents s ++ [Dialled a r]) (netTokens s), r).
Definition read_bytes (conn : Conn) (timeout : option Z) : netM (option stream) :=
  λ s, let r := inet_read (netEvents s) conn timeout in Ok (mkNet (netEvents s ++ [Received conn r]) (netTokens s), r).
Definition write_bytes (conn : Conn) (bytes : stream) : netM bool :=
  λ s, let ok := inet_write (netEvents s) conn bytes in
       Ok (mkNet (netEvents s ++ [Written conn bytes ok]) (netTokens s), ok).

(** [scion.DialAddr] reads the path of the address it is given. *)
Definition CreateConnection (addr : NetAddr) : netM (option Conn) :=
  match addr with
  | TCPAddr a => dial a
  | UDPAddr (Some a) => dial a
  | UDPAddr None => net_panic "nil pointer dereference"
  | NilAddr | OtherAddr _ => mret None
  end.

(** The left value is the error. *)
Definition ReceiveMessage (conn : Conn) (timeout : option Z) : netM (string + Message) :=
  bytes ← read_bytes conn timeout;
  match bytes with
  | None => mret (inl "Failed to Read"%string)
  | Some r =>
      match Message_UnmarshalCBOR zeroMessage r with
      | Ok msg => mret (inr msg)
      | Err e => mret (inl ("failed to unmarshal CBOR: " +:+ e)%string)
      | Panic e => net_panic e
      end
  end.

(** The value sent to [done] or [ec]. *)
Definition ReceiveMessageAsync (conn : Conn) (tok : Token) (timeout : option Z) : netM (string + Message) :=
  r ← ReceiveMessage conn timeout;
  match r with
  | inl err => mret (inl err)
  | inr msg =>
      if bool_decide (mToken msg = tok) then mret (inr msg)
      else
        sec0 ← net_fail (at_index (mContent msg) 0);
        match sec0 with
        | SecNotification n =>
            if bool_decide (nToken n = tok) then mret (inr msg) else mret (inl "token response mismatch"%string)
        | _ => mret (inl "token response mismatch"%string)
        end
  end.

(** [None] for nil. *)
Definition WriteMessage (conn : Conn) (msg : Message) : netM (option string) :=
  match Message_MarshalCBOR msg empty_stream with
  | Panic e => net_panic e
  | Err e => mret (Some ("failed to marshal message: " +:+ e)%string)
  | Ok encoding =>
      ok ← write_bytes conn encoding;
      mret (if ok : bool then None else Some "unable to write encoded message to connection"%string)
  end.

(** The reader runs beside the writer: what it reads answers what was written.  An error of
    the writer is dropped. *)
Definition SendQuery (msg : Message) (addr : NetAddr) (timeout : Z) : netM (string + Message) :=
  conn ← CreateConnection addr;
  match conn with
  | None => mret (inl "no connection"%string)
  | Some conn =>
      _ ← WriteMessage conn msg;
      r ← ReceiveMessageAsync conn (mToken msg) (Some timeout);
      wire (Closed conn);; mret r
  end.
End Connection.
Arguments Internet {CS}.
Arguments Net {CS}.
Arguments netM {CS}.
