(* ===== verification/Resolver.v ===== *)
(** * The resolver

    Models attic/internal/pkg/libresolve/resolver.go.  A [Resolver] keeps the delegations it
    has verified and the connections it answers on.  [sendQuery], the function that sends a
    query and waits for the answer, is a field of the source's type and a variable here;
    [New] sets it to [SendQuery] of [Connection].

    A method is a computation in [resM].  [None] means that it has not returned within the
    given number of [rounds] of the loop that follows redirections and the given [depth] of
    nested lookups of keys; the recursion of [handleRedirect] over names ends in a stack
    overflow after [stack] calls. *)

From S2P Require Import Prelude Cbor Keys Object Query BitArray BloomFilter Section Message Siglib Containers ConnectionCache Server QueryEngine Connection ServerStore.
Local Open Scope Z_scope.

Inductive ResolutionMode := Recursive | Forward | OtherMode.

Definition rainsPrefix : string := "_rains".
Definition rainsPort : Z := 55553.
Definition defaultTimeout : Z := 10 * Second.
Definition Millisecond : Z := 1000000.

Record Resolver := mkResolver {
  RootNameServers : list NetAddr;
  Forwarders : list NetAddr;
  Mode : ResolutionMode;
  InsecureTLS : bool;
  DialTimeout : Z;
  FailFast : bool;
  Delegations : Map Assertion;
  Connections : ConnectionImpl;
  rMaxCacheValidity : MaxCacheValidity;
  MaxRecursiveCount : Z
}.

Definition set_Delegations (d : Map Assertion) (r : Resolver) : Resolver :=
  mkResolver (RootNameServers r) (Forwarders r) (Mode r) (InsecureTLS r) (DialTimeout r) (FailFast r) d (Connections r)
    (rMaxCacheValidity r) (MaxRecursiveCount r).
Definition set_Connections (c : ConnectionImpl) (r : Resolver) : Resolver :=
  mkResolver (RootNameServers r) (Forwarders r) (Mode r) (InsecureTLS r) (DialTimeout r) (FailFast r) (Delegations r) c
    (rMaxCacheValidity r) (MaxRecursiveCount r).

(** The maps [handleAnswer] returns. *)
Record Maps := mkMaps {
  redirMap : gmap string string;
  srvMap : gmap string ServiceInfo;
  ipMap : gmap string string;
  nameMap : gmap string ObjName
}.
Record Verdict := mkVerdict { isFinal : bool; isRedir : bool; maps : Maps }.
Definition no_verdict : Verdict := mkVerdict false false (mkMaps ∅ ∅ ∅ ∅).

Definition set_isFinal (v : Verdict) : Verdict := mkVerdict true (isRedir v) (maps v).
Definition set_isRedir (v : Verdict) : Verdict := mkVerdict (isFinal v) true (maps v).
Definition put_redir (k t : string) (v : Verdict) : Verdict :=
  let m := maps v in mkVerdict (isFinal v) (isRedir v) (mkMaps (<[k := t]> (redirMap m)) (srvMap m) (ipMap m) (nameMap m)).
Definition put_srv (k : string) (s : ServiceInfo) (v : Verdict) : Verdict :=
  let m := maps v in mkVerdict (isFinal v) (isRedir v) (mkMaps (redirMap m) (<[k := s]> (srvMap m)) (ipMap m) (nameMap m)).
Definition put_ip (k ip : string) (v : Verdict) : Verdict :=
  let m := maps v in mkVerdict (isFinal v) (isRedir v) (mkMaps (redirMap m) (srvMap m) (<[k := ip]> (ipMap m)) (nameMap m)).
Definition put_name (k : string) (n : ObjName) (v : Verdict) : Verdict :=
  let m := maps v in mkVerdict (isFinal v) (isRedir v) (mkMaps (redirMap m) (srvMap m) (ipMap m) (<[k := n]> (nameMap m))).

(** ** Keys of a delegation *)

(** [pk.ValidSince = a.ValidSince()], and the same for the end, for every key in [a]. *)
Definition stamp_object (a : Assertion) (o : Object) : Object :=
  match objValue o with
  | VPublicKey pk => mkObject (objType o) (VPublicKey (mkPublicKey (pkID pk) (aValidSince a) (aValidUntil a) (pkKey pk)))
  | _ => o
  end.
Definition stamp_keys (a : Assertion) : Assertion :=
  mkAssertion (aSignatures a) (aSubjectName a) (aSubjectZone a) (aContext a) (stamp_object a <$> aContent a)
    (aValidSince a) (aValidUntil a) (aSign a).

(** [pkeys] of [handleAnswer] *)
Definition delegation_keys (a : Assertion) : gmap PublicKeyID (list PublicKey) :=
  foldl (λ keys o, match objValue o with
                   | VPublicKey pk => <[pkID pk := default [] (keys !! pkID pk) ++ [pk]]> keys
                   | _ => keys
                   end) ∅ (aContent a).

Section Resolver.
Context {AL : AddrLib}.

Definition value_ip (v : Value) : outcome (list Z) := match v with VIP ip => Ok ip | _ => Panic "interface conversion" end.
Definition value_scion (v : Value) : outcome SCIONAddress :=
  match v with VScion a => Ok a | _ => Panic "interface conversion" end.

(** ** Sections of an answer *)

(** One object of [a.Content]: the delegations, the assertion, whose keys are rewritten in
    place, and the verdict. *)
Definition handle_object (types : list OType) (name : string) (o : Object) (st : Map Assertion * Assertion * Verdict)
    : outcome (Map Assertion * Assertion * Verdict) :=
  let '(d, a, v) := st in
  let t := objType o in
  let fqdn := Assertion_FQDN a in
  '(d, a, v) ←
    (if t =? OTRedirection then
       target ← value_string (objValue o);
       let v := put_redir fqdn target v in
       Ok (d, a, if negb (bool_decide (OTRedirection ∈ types)) || negb (fqdn =ₛ name) then set_isRedir v else v)
     else if t =? OTDelegation then
       let a := stamp_keys a in Ok ((Map_Add d fqdn a).1, a, v)
     else if t =? OTServiceInfo then srv ← value_srv (objValue o); Ok (d, a, put_srv fqdn srv v)
     else if t =? OTIP6Addr then ip ← value_ip (objValue o); Ok (d, a, put_ip fqdn (IP_String ip) v)
     else if t =? OTIP4Addr then ip ← value_ip (objValue o); Ok (d, a, put_ip fqdn (IP_String ip) v)
     else if t =? OTScionAddr then sa ← value_scion (objValue o); Ok (d, a, put_ip fqdn (SCIONAddress_String sa) v)
     else if t =? OTName then n ← value_name (objValue o); Ok (d, a, put_name fqdn n v)
     else Ok (d, a, v));
  Ok (d, a, if bool_decide (t ∈ types) && (fqdn =ₛ name) then set_isFinal v else v).

(** [for _, o := range a.Content]: an element is read when its turn comes. *)
Fixpoint handle_objects (types : list OType) (name : string) (idx : list nat) (st : Map Assertion * Assertion * Verdict)
    : outcome (Map Assertion * Assertion * Verdict) :=
  match idx with
  | [] => Ok st
  | i :: idx' =>
      o ← or_panic (aContent st.1.2 !! i) "index out of range";
      st ← handle_object types name o st;
      handle_objects types name idx' st
  end.

Definition handleAssertion (types : list OType) (name : string) (st : Map Assertion * Assertion * Verdict)
    : outcome (Map Assertion * Assertion * Verdict) :=
  handle_objects types name (seq 0 (length (aContent st.1.2))) st.

Definition handleShard (s : Shard) (name : string) (v : Verdict) : Verdict :=
  if HasSuffix name (sSubjectZone s) && Shard_InRange s (TrimSuffix name (sSubjectZone s)) then set_isFinal v else v.

Fixpoint handle_content (types : list OType) (name : string) (content : list Assertion) (d : Map Assertion) (v : Verdict)
    : outcome (Map Assertion * list Assertion * Verdict) :=
  match content with
  | [] => Ok (d, [], v)
  | a :: content' =>
      '(d, a, v) ← handleAssertion types name (d, a, v);
      '(d, l, v) ← handle_content types name content' d v;
      Ok (d, a :: l, v)
  end.

Definition handleZone (types : list OType) (name : string) (z : Zone) (d : Map Assertion) (v : Verdict)
    : outcome (Map Assertion * Zone * Verdict) :=
  '(d, content, v) ← handle_content types name (zContent z) d v;
  Ok (d, Zone_set_content z content, if HasSuffix name (zSubjectZone z) then set_isFinal v else v).

(** The [switch] at the end of the loop of [handleAnswer]; a pshard is looked at by no
    case. *)
Definition handle_section (types : list OType) (name : string) (w : SigSection) (d : Map Assertion) (v : Verdict)
    : outcome (Map Assertion * SigSection * Verdict) :=
  match w with
  | WAssertion a => '(d, a, v) ← handleAssertion types name (d, a, v); Ok (d, WAssertion a, v)
  | WShard s => Ok (d, w, handleShard s name v)
  | WPshard _ => Ok (d, w, v)
  | WZone z => '(d, z, v) ← handleZone types name z d v; Ok (d, WZone z, v)
  end.

(** ** Redirections *)

(** The address of a host with a port, TCP first, then SCION; the flag is [err == nil]. *)
Definition host_addr (host : string) (port : Z) : NetAddr * bool :=
  let s := (host +:+ ":" +:+ dec port)%string in
  match ResolveTCPAddr s with
  | Some a => (TCPAddr a, true)
  | None => match ParseUDPAddr s with Some a => (UDPAddr (Some a), true) | None => (UDPAddr None, false) end
  end.

Definition addr_String (a : NetAddr) : outcome string :=
  match a with
  | TCPAddr a | UDPAddr (Some a) | OtherAddr a => Ok (addrString a)
  | _ => Panic "nil pointer dereference"
  end.

(** [s[:strings.LastIndex(s, ":")]] *)
Fixpoint before_last_colon (s : string) : option string :=
  match s with
  | EmptyString => None
  | String c s' =>
      match before_last_colon s' with
      | Some p => Some (String c p)
      | None => if decide (c = ":"%char) then Some EmptyString else None
      end
  end.

Fixpoint handleRedirect (stack : nat) (name : string) (m : Maps) (allowedTypes : list OType) : outcome (NetAddr * bool) :=
  match stack with
  | O => Panic "stack overflow"
  | S stack' =>
      let allowed t := bool_decide (t ∈ allowedTypes) in
      let failed := Ok (NilAddr, false) in
      let by_name :=
        (if allowed OTName then
           match nameMap m !! name with
           | Some n =>
               '(addr, ok) ← handleRedirect stack' (onName n) m (onTypes n);
               if ok : bool then Ok (addr, true) else failed
           | None => failed
           end
         else failed) in
      let by_srv :=
        (if allowed OTServiceInfo && HasPrefix name rainsPrefix then
           match srvMap m !! name with
           | Some srv =>
               '(addr, ok) ← handleRedirect stack' (siName srv) m AllowedAddrTypes;
               if ok : bool then
                 s ← addr_String addr;
                 ip ← or_panic (before_last_colon s) "slice bounds out of range";
                 Ok (host_addr ip (siPort srv))
               else by_name
           | None => by_name
           end
         else by_name) in
      if allowed OTIP6Addr || allowed OTIP4Addr || allowed OTScionAddr then
        match ipMap m !! name with
        | Some ip => Ok (host_addr ip rainsPort)
        | None => by_srv
        end
      else by_srv
  end.

(** [for _, name := range redirMap]; the address is overwritten by every attempt. *)
Fixpoint try_redirects (stack : nat) (names : list string) (m : Maps) (addr : NetAddr) : outcome NetAddr :=
  match names with
  | [] => Ok addr
  | name :: names' =>
      '(addr, ok) ← handleRedirect stack name m AllowedRedirectTypes;
      if ok : bool then Ok addr else try_redirects stack names' m addr
  end.
End Resolver.

(** ** The methods *)

Section Methods.
Context {AL : AddrLib} {CS : CborStream} {IN : Internet} {TG : TokenGen} {OL : ObjLib} {CW : CborWriter} {CE : CborEncoder}
  {ED : Ed25519Lib}.

Record RState := mkRState {
  resolver : Resolver;
  net : Net;
  delegReaders : list Conn              (* go r.answerDelegQueries(conn) *)
}.
Definition set_resolver (r : Resolver) (s : RState) : RState := mkRState r (net s) (delegReaders s).

Definition resM (A : Type) : Type := RState → option (outcome (RState * A)).
#[export] Instance resM_ret : MRet resM := λ A a s, Some (Ok (s, a)).
#[export] Instance resM_bind : MBind resM := λ A B f m s,
  match m s with
  | Some (Ok (s', a)) => f a s'
  | Some (Err e) => Some (Err e)
  | Some (Panic e) => Some (Panic e)
  | None => None
  end.

Definition asks {A} (f : RState → A) : resM A := λ s, Some (Ok (s, f s)).
Definition modify (f : RState → RState) : resM () := λ s, Some (Ok (f s, ())).
Definition not_yet {A} : resM A := λ _, None.
Definition lift_pure {A} (m : outcome A) : resM A :=
  λ s, Some (match m with Ok a => Ok (s, a) | Err e => Panic e | Panic e => Panic e end).
Definition lift_net {A} (m : netM A) : resM A :=
  λ s, Some (match m (net s) with
             | Ok (n, a) => Ok (mkRState (resolver s) n (delegReaders s), a)
             | Err e => Panic e
             | Panic e => Panic e
             end).

Definition delegation (zone : string) : resM (option Assertion) := asks (λ s, Map_Get (Delegations (resolver s)) zone).

(** The left value of a result is an error. *)
Abbreviation Result := (string + Message)%type (only parsing).

Section Recursion.
Variable sendQuery : Message → NetAddr → Z → netM Result.
Variables stack rounds : nat.

(** The call of [recursiveResolve] for a missing key. *)
Section HandleAnswer.
Variable resolve : QueryName → Z → resM Result.

(** The delegation for the zone of a section; [None] ends [handleAnswer]. *)
Definition obtain_key (q : QueryName) (recurseCount : Z) (signed : SigSection) : resM (option Assertion) :=
  key ← delegation (With_GetSubjectZone signed);
  match key with
  | Some k => mret (Some k)
  | None =>
      match With_Sigs signed RainsKeySpace with
      | [] => mret None
      | sig :: _ =>
          let keyQuery := mkQueryName (With_GetContext signed) (With_GetSubjectZone signed) [OTDelegation] (qExpiration q) []
                            (KeyPhase (sigPublicKeyID sig)) (qCurrentTime q) in
          m ← resolve keyQuery (recurseCount + 1);
          match m with
          | inl _ => mret None
          | inr _ => delegation (With_GetSubjectZone signed)
          end
      end
  end.

(** A section with the delegation of its zone: the section as the check and the case for
    its type leave it, and the verdict, [None] when the signatures are not accepted. *)
Definition verify_section (k : Assertion) (q : QueryName) (signed : SigSection) (v : Verdict)
    : resM (SigSection * option Verdict) :=
  now ← asks (λ s, inet_now (netEvents (net s)));
  maxVal ← asks (λ s, rMaxCacheValidity (resolver s));
  '(signed, ok) ← lift_pure (CheckSectionSignatures now signed (Some (delegation_keys k)) maxVal);
  if negb ok then mret (signed, None)
  else
    d ← asks (λ s, Delegations (resolver s));
    '(d, signed, v) ← lift_pure (handle_section (qTypes q) (qName q) signed d v);
    modify (λ s, set_resolver (set_Delegations d (resolver s)) s);;
    mret (signed, Some v).

(** The loop over the sections of an answer: the sections as it leaves them. *)
Fixpoint handle_sections (q : QueryName) (recurseCount : Z) (secs : list AnySection) (v : Verdict)
    : resM (list AnySection * Verdict) :=
  match secs with
  | [] => mret ([], v)
  | sec :: secs' =>
      match as_with_sig sec with
      | Ok signed =>
          key ← obtain_key q recurseCount signed;
          match key with
          | None => mret (secs, v)
          | Some k =>
              '(signed, r) ← verify_section k q signed v;
              match r with
              | None => mret (SigSection_section signed :: secs', v)
              | Some v => '(l, v) ← handle_sections q recurseCount secs' v; mret (SigSection_section signed :: l, v)
              end
          end
      | _ => mret (secs, v)
      end
  end.

Definition handleAnswer (msg : Message) (q : QueryName) (recurseCount : Z) : resM (Message * Verdict) :=
  '(content, v) ← handle_sections q recurseCount (mContent msg) no_verdict;
  mret (mkMessage (mCapabilities msg) (mToken msg) content (mSignatures msg), v).

Definition query_message (q : QueryName) : resM Message :=
  tok ← lift_net net_token; mret (mkMessage [] tok [SecQuery q] []).
Definition dial_timeout : resM Z := asks (λ s, times (DialTimeout (resolver s)) Millisecond).

(** The loop that starts at a root server: [None] when it was left by [break]. *)
Fixpoint follow (n : nat) (q : QueryName) (recurseCount : Z) (addr : NetAddr) : resM (option Message) :=
  match n with
  | O => not_yet
  | S n' =>
      msg ← query_message q;
      timeout ← dial_timeout;
      r ← lift_net (sendQuery msg addr timeout);
      match r with
      | inl _ => mret None
      | inr answer =>
          if bool_decide (mContent answer = []) then mret None
          else
            '(answer, v) ← handleAnswer answer q recurseCount;
            if isFinal v then mret (Some answer)
            else if isRedir v then
              addr ← lift_pure (try_redirects stack (map_to_list (redirMap (maps v))).*2 (maps v) addr);
              follow n' q recurseCount addr
            else mret None
      end
  end.

Fixpoint try_roots (q : QueryName) (recurseCount : Z) (roots : list NetAddr) : resM Result :=
  match roots with
  | [] => mret (inl "Was not able to obtain an answer through a recursive lookup"%string)
  | root :: roots' =>
      r ← follow rounds q recurseCount root;
      match r with Some answer => mret (inr answer) | None => try_roots q recurseCount roots' end
  end.
End HandleAnswer.

(** [for _, t := range q.Types { if t == object.OTDelegation { ...; break } }] *)
Definition cached_delegation (q : QueryName) : resM (option Assertion) :=
  if bool_decide (OTDelegation ∈ qTypes q) then delegation (qName q) else mret None.

Fixpoint recursiveResolve (depth : nat) (q : QueryName) (recurseCount : Z) : resM Result :=
  match depth with
  | O => not_yet
  | S depth' =>
      max ← asks (λ s, MaxRecursiveCount (resolver s));
      if max <=? recurseCount then mret (inl "Maximum number of recursive calls reached"%string)
      else
        cached ← cached_delegation q;
        match cached with
        | Some a => mret (inr (mkMessage [] (replicate 16 0) [SecAssertion a] []))
        | None =>
            roots ← asks (λ s, RootNameServers (resolver s));
            try_roots (recursiveResolve depth') q recurseCount roots
        end
  end.

(** ** Forwarding *)

Fixpoint try_forwarders (q : QueryName) (forwarders : list NetAddr) : resM Result :=
  match forwarders with
  | [] => mret (inl "could not connect to any of the specified resolver"%string)
  | forwarder :: forwarders' =>
      msg ← query_message q;
      timeout ← dial_timeout;
      r ← lift_net (sendQuery msg forwarder timeout);
      match r with inr answer => mret (inr answer) | inl _ => try_forwarders q forwarders' end
  end.

Definition forwardQuery (q : QueryName) : resM Result :=
  forwarders ← asks (λ s, Forwarders (resolver s));
  if bool_decide (forwarders = []) then mret (inl "forwarders must be specified to use this mode"%string)
  else try_forwarders q forwarders.

Definition ClientLookup (depth : nat) (q : QueryName) : resM Result :=
  mode ← asks (λ s, Mode (resolver s));
  match mode with
  | Recursive => recursiveResolve depth q 0
  | Forward => forwardQuery q
  | OtherMode => mret (inl "Unsupported resolution mode"%string)
  end.

(** ** Answering *)

Definition GetConnection_R (addr : Addr) : resM (option (list Conn)) :=
  λ s, let '(c, r) := GetConnection (Connections (resolver s)) addr in
       Some (Ok (set_resolver (set_Connections c (resolver s)) s, r)).
Definition AddConnection_R (conn : Conn) : resM () :=
  c ← asks (λ s, Connections (resolver s));
  c ← lift_pure (finished (AddConnection 1 c conn));
  modify (λ s, set_resolver (set_Connections c (resolver s)) s).
Definition CloseAndRemoveConnection_R (conn : Conn) : resM () :=
  c ← asks (λ s, Connections (resolver s));
  c ← lift_pure (CloseAndRemoveConnection c conn);
  modify (λ s, set_resolver (set_Connections c (resolver s)) s).
Definition go_answerDelegQueries (conn : Conn) : resM () :=
  modify (λ s, mkRState (resolver s) (net s) (delegReaders s ++ [conn])).

Definition createConnAndWrite (addr : NetAddr) (msg : Message) : resM () :=
  conn ← lift_net (CreateConnection addr);
  match conn with
  | None => mret ()
  | Some conn =>
      go_answerDelegQueries conn;;
      AddConnection_R conn;;
      _ ← lift_net (WriteMessage conn msg); mret ()
  end.

(** The dynamic value of a non-nil address. *)
Definition addr_value (a : NetAddr) : outcome Addr :=
  match a with
  | TCPAddr a | UDPAddr (Some a) | OtherAddr a => Ok a
  | _ => Panic "nil pointer dereference"
  end.

Definition ServerLookup (depth : nat) (q : QueryName) (addr : NetAddr) (token : Token) : resM () :=
  r ← ClientLookup depth q;
  match r with
  | inl _ => mret ()
  | inr msg =>
      let msg := mkMessage (mCapabilities msg) token (mContent msg) (mSignatures msg) in
      a ← lift_pure (addr_value addr);
      conns ← GetConnection_R a;
      match conns with
      | Some conns =>
          conn ← lift_pure (at_index conns 0);
          err ← lift_net (WriteMessage conn msg);
          match err with None => mret () | Some _ => createConnAndWrite addr msg end
      | None => createConnAndWrite addr msg
      end
  end.
End Recursion.

Definition getDelegations (d : Map Assertion) (msg : Message) : list AnySection :=
  concat ((λ s, match s with
                | SecQuery q =>
                    if bool_decide (OTDelegation ∈ qTypes q)
                    then match Map_Get d (qName q) with Some a => [SecAssertion a] | None => [] end
                    else []
                | _ => []
                end) <$> mContent msg).

(** The loop of the reading goroutine; [n] bounds the number of messages. *)
Fixpoint answerDelegQueries (n : nat) (conn : Conn) : resM () :=
  match n with
  | O => not_yet
  | S n' =>
      queryMsg ← lift_net (ReceiveMessage conn None);
      match queryMsg with
      | inl _ => CloseAndRemoveConnection_R conn
      | inr queryMsg =>
          d ← asks (λ s, Delegations (resolver s));
          err ← lift_net (WriteMessage conn (mkMessage [] (mToken queryMsg) (getDelegations d queryMsg) []));
          match err with
          | None => answerDelegQueries n' conn
          | Some _ => CloseAndRemoveConnection_R conn
          end
      end
  end.

(** [New], given what was read from the file of the root key. *)
Definition New (now : Z) (rootNS forwarders : list NetAddr) (rootKey : outcome Assertion) (mode : ResolutionMode) (maxConn : Z)
    (maxCacheValidity : MaxCacheValidity) (maxRecursiveCount : Z) : outcome Resolver :=
  a ← rootKey;
  let '(since, until) := GetOverlapValidityForSignatures (Assertion_AllSigs a) in
  let a := Assertion_UpdateValidity now a since until (AssertionValidity maxCacheValidity) in
  o ← at_index (aContent a) 0;
  pk ← value_publicKey (objValue o);
  let pk := mkPublicKey (pkID pk) (aValidSince a) (aValidUntil a) (pkKey pk) in
  let a := mkAssertion (aSignatures a) (aSubjectName a) (aSubjectZone a) (aContext a)
             (<[0%nat := mkObject (objType o) (VPublicKey pk)]> (aContent a)) (aValidSince a) (aValidUntil a) (aSign a) in
  Ok (mkResolver rootNS forwarders mode false defaultTimeout true (Map_Add Map_New (Assertion_FQDN a) a).1
        (NewConnection maxConn) maxCacheValidity maxRecursiveCount).
End Methods.
