(* ===== verification/ResolverFacts.v ===== *)
(** * Theorems about the resolver

    Every delegation a resolver keeps has a chain of verified signatures from the root key,
    and a lookup that succeeds was answered by a verified section.  Lookups end where
    redirections lead downwards. *)

From S2P Require Import Prelude Cbor Keys Object Query BitArray BloomFilter Section Message Siglib SiglibFacts Containers ConnectionCache Server QueryEngine Verify ServerFacts EngineFacts Connection ServerStore Resolver.
Local Open Scope Z_scope.

(** ** A program logic for the methods *)

Section Logic.
Context {CS : CborStream}.

(** From a state with [P], if the computation returns [x], the state has [Q x]. *)
Definition triple {A} (P : RState → Prop) (m : resM A) (Q : A → RState → Prop) : Prop :=
  ∀ s s' x, P s → m s = Some (Ok (s', x)) → Q x s'.

Lemma triple_ret {A} (P : RState → Prop) (a : A) (Q : A → RState → Prop) : (∀ s, P s → Q a s) → triple P (mret a) Q.
Proof. intros H s s' x HP [= <- <-]. auto. Qed.
Lemma triple_bind {A B} (P : RState → Prop) (m : resM A) (f : A → resM B) R (Q : B → RState → Prop) :
  triple P m R → (∀ a, triple (R a) (f a) Q) → triple P (m ≫= f) Q.
Proof.
  intros Hm Hf s s' x HP E. unfold mbind, resM_bind in E. destruct (m s) as [[[s1 a]|e|e]|] eqn:Em; try done.
  eapply Hf; [|exact E]. eapply Hm; eauto.
Qed.
Lemma triple_asks {A} (P : RState → Prop) (f : RState → A) (Q : A → RState → Prop) : (∀ s, P s → Q (f s) s) → triple P (asks f) Q.
Proof. intros H s s' x HP [= <- <-]. auto. Qed.
Lemma triple_modify (P : RState → Prop) f (Q : () → RState → Prop) : (∀ s, P s → Q () (f s)) → triple P (modify f) Q.
Proof. intros H s s' [] HP [= <-]. auto. Qed.
Lemma triple_pure {A} (P : RState → Prop) (m : outcome A) (Q : A → RState → Prop) :
  (∀ s a, P s → m = Ok a → Q a s) → triple P (lift_pure m) Q.
Proof. intros H s s' x HP E. unfold lift_pure in E. destruct m; simplify_eq. auto. Qed.
Lemma triple_net {A} (P : RState → Prop) (m : netM A) (Q : A → RState → Prop) :
  (∀ s n n' a, P s → m n = Ok (n', a) → Q a (mkRState (resolver s) n' (delegReaders s))) → triple P (lift_net m) Q.
Proof.
  intros H s s' x HP E. unfold lift_net in E. destruct (m (net s)) as [[n a]| |] eqn:Em; simplify_eq. eauto.
Qed.
Lemma triple_not_yet {A} P (Q : A → RState → Prop) : triple P not_yet Q.
Proof. by intros s s' x _ E. Qed.
Lemma triple_weaken {A} (P P' : RState → Prop) (m : resM A) (Q Q' : A → RState → Prop) :
  triple P' m Q' → (∀ s, P s → P' s) → (∀ x s, Q' x s → Q x s) → triple P m Q.
Proof. intros H HP HQ s s' x Hs E. apply HQ. eapply H; [by apply HP|done]. Qed.
Lemma triple_and {A} P (m : resM A) (Q1 Q2 : A → RState → Prop) :
  triple P m Q1 → triple P m Q2 → triple P m (λ x s, Q1 x s ∧ Q2 x s).
Proof. intros H1 H2 s s' x HP E. split; eauto. Qed.
End Logic.

(** ** Assertions of an answer *)

Definition delegates (a : Assertion) : Prop := ∃ o, o ∈ aContent a ∧ objType o = OTDelegation.

Lemma stamp_object_type a o : objType (stamp_object a o) = objType o.
Proof. unfold stamp_object. by destruct (objValue o). Qed.
Lemma stamp_idem a : stamp_keys (stamp_keys a) = stamp_keys a.
Proof.
  unfold stamp_keys. cbn. f_equal. rewrite <-list_fmap_compose. apply list_fmap_ext. intros i o _.
  destruct o as [t []]; reflexivity.
Qed.
Lemma stamp_FQDN a : Assertion_FQDN (stamp_keys a) = Assertion_FQDN a.
Proof. done. Qed.

(** [b] is [a], with or without its keys rewritten. *)
Definition stamped (a b : Assertion) : Prop := b = a ∨ b = stamp_keys a.
Lemma stamped_FQDN a b : stamped a b → Assertion_FQDN b = Assertion_FQDN a.
Proof. by intros [->| ->]. Qed.
Lemma stamped_stamp a b : stamped a b → stamp_keys b = stamp_keys a.
Proof. intros [->| ->]; [done|apply stamp_idem]. Qed.
Lemma stamped_object a b o i : stamped a b → aContent b !! i = Some o →
  ∃ o', o' ∈ aContent a ∧ objType o' = objType o ∧ (o = o' ∨ o = stamp_object a o').
Proof.
  intros [->| ->] E.
  - exists o. split; [by eapply list_elem_of_lookup_2|by auto].
  - cbn in E. rewrite list_lookup_fmap in E. apply fmap_Some in E as (o' & E & ->).
    exists o'. split; [by eapply list_elem_of_lookup_2|]. split; [by rewrite stamp_object_type|by auto].
Qed.

(** The query is answered by an assertion of its name with an object of a type asked for. *)
Definition answers_assertion (types : list OType) (name : string) (a : Assertion) : Prop :=
  Assertion_FQDN a = name ∧ ∃ o, o ∈ aContent a ∧ objType o ∈ types.
Definition answers (types : list OType) (name : string) (w : SigSection) : Prop :=
  match w with
  | WAssertion a => answers_assertion types name a
  | WShard s => HasSuffix name (sSubjectZone s) = true ∧ Shard_InRange s (TrimSuffix name (sSubjectZone s)) = true
  | WPshard _ => False
  | WZone z => HasSuffix name (zSubjectZone z) = true ∨ ∃ a, a ∈ zContent z ∧ answers_assertion types name a
  end.
Definition read_assertions (w : SigSection) : list Assertion :=
  match w with WAssertion a => [a] | WZone z => zContent z | _ => [] end.

Section Handling.
Context {AL : AddrLib}.

(** What one object does: the delegations gain at most the assertion, under its name. *)
Lemma handle_object_spec types name a o o' d b v d' b' v' :
  stamped a b → o' ∈ aContent a → objType o' = objType o → handle_object types name o (d, b, v) = Ok (d', b', v') →
  stamped a b' ∧
  (hashMap d' = hashMap d ∨ delegates a ∧ hashMap d' = <[Assertion_FQDN a := stamp_keys a]> (hashMap d)) ∧
  (isFinal v' = true → isFinal v = true ∨ answers_assertion types name a).
Proof.
  intros Hb Ho Ht E. unfold handle_object in E. rewrite (stamped_FQDN a b Hb), (stamped_stamp a b Hb) in E.
  assert (∀ v0 : Verdict, isFinal v0 = isFinal v →
    isFinal (if bool_decide (objType o ∈ types) && (Assertion_FQDN a =ₛ name) then set_isFinal v0 else v0) = true →
    isFinal v = true ∨ answers_assertion types name a) as Hf.
  { intros v0 Hv. case_bool_decide; cbn; [|rewrite Hv; auto]. destruct (String.eqb_spec (Assertion_FQDN a) name); [|rewrite Hv; auto].
    intros _. right. split; [done|]. exists o'. by rewrite Ht. }
  repeat match type of E with
  | context [if ?t =? ?u then _ else _] => destruct (Z.eqb_spec t u)
  end; unfold mbind, outcome_bind in E; cbn in E; destruct (objValue o); cbn in E; simplify_eq;
  (split; [first [done|by right]|]); (split; [first [by left|right; split; [by exists o'; rewrite Ht|done]]|]); apply Hf; try done.
  by destruct (_ || _).
Qed.

Lemma handle_objects_spec types name a idx : ∀ d b v d' b' v',
  stamped a b → handle_objects types name idx (d, b, v) = Ok (d', b', v') →
  stamped a b' ∧
  (hashMap d' = hashMap d ∨ delegates a ∧ hashMap d' = <[Assertion_FQDN a := stamp_keys a]> (hashMap d)) ∧
  (isFinal v' = true → isFinal v = true ∨ answers_assertion types name a).
Proof.
  induction idx as [|i idx IH]; intros d b v d' b' v' Hb E; cbn [handle_objects] in E; [simplify_eq; by auto|].
  apply bind_ok in E as (o & Eo & E). apply bind_ok in E as ([[d1 b1] v1] & E1 & E). cbn in Eo.
  destruct (aContent b !! i) as [o0|] eqn:Eo'; cbn in Eo; simplify_eq. rename Eo' into Eo.
  destruct (stamped_object a b o i Hb Eo) as (o' & Ho & Ht & _).
  destruct (handle_object_spec types name a o o' _ _ _ _ _ _ Hb Ho Ht E1) as (Hb1 & Hd1 & Hf1).
  destruct (IH _ _ _ _ _ _ Hb1 E) as (Hb2 & Hd2 & Hf2). split; [done|]. split.
  - destruct Hd2 as [->|[Ha ->]]; [done|]. right. split; [done|].
    destruct Hd1 as [->|[_ ->]]; [done|]. by rewrite insert_insert_eq.
  - intros Hf. destruct (Hf2 Hf); auto.
Qed.

Lemma handle_content_spec types name content : ∀ d v d' l v',
  handle_content types name content d v = Ok (d', l, v') →
  (∀ n b, hashMap d' !! n = Some b → hashMap d !! n = Some b ∨
     ∃ a, a ∈ content ∧ delegates a ∧ n = Assertion_FQDN a ∧ b = stamp_keys a) ∧
  Forall2 stamped content l ∧
  (isFinal v' = true → isFinal v = true ∨ ∃ a, a ∈ content ∧ answers_assertion types name a).
Proof.
  induction content as [|a content IH]; intros d v d' l v' E; cbn [handle_content] in E; [simplify_eq; by auto|].
  apply bind_ok in E as ([[d1 a1] v1] & E1 & E). apply bind_ok in E as ([[d2 l2] v2] & E2 & E). simplify_eq.
  destruct (handle_objects_spec types name a _ _ _ _ _ _ _ (or_introl eq_refl) E1) as (Ha & Hd1 & Hf1).
  destruct (IH _ _ _ _ _ E2) as (Hd2 & Hl & Hf2). split_and!.
  - intros n b Hn. destruct (Hd2 n b Hn) as [Hn1|(a' & ? & ?)]; [|right; exists a'; by rewrite elem_of_cons; auto].
    destruct Hd1 as [<-|[Hg Hd1]]; [by left|]. rewrite Hd1 in Hn1.
    apply lookup_insert_Some in Hn1 as [[<- <-]|[_ Hn1]]; [|by left]. right. exists a. by rewrite elem_of_cons; auto.
  - by constructor.
  - intros Hf. destruct (Hf2 Hf) as [H1|(a' & ? & ?)]; [|right; exists a'; by rewrite elem_of_cons; auto].
    destruct (Hf1 H1) as [|]; [by left|]. right. exists a. by rewrite elem_of_cons; auto.
Qed.

(** [w'] is [w] with the keys of some of its assertions rewritten. *)
Definition stamped_section (w w' : SigSection) : Prop :=
  match w, w' with
  | WAssertion a, WAssertion b => stamped a b
  | WZone z, WZone z' => ∃ l, Forall2 stamped (zContent z) l ∧ z' = Zone_set_content z l
  | _, _ => w' = w
  end.

Lemma handle_section_spec types name w d v d' w' v' :
  handle_section types name w d v = Ok (d', w', v') →
  (∀ n b, hashMap d' !! n = Some b → hashMap d !! n = Some b ∨
     ∃ a, a ∈ read_assertions w ∧ delegates a ∧ n = Assertion_FQDN a ∧ b = stamp_keys a) ∧
  stamped_section w w' ∧ (isFinal v' = true → isFinal v = true ∨ answers types name w).
Proof.
  destruct w as [a|s|p|z]; cbn [handle_section]; intros E; [| | |].
  - apply bind_ok in E as ([[d1 a1] v1] & E1 & E). simplify_eq.
    destruct (handle_objects_spec types name a _ _ _ _ _ _ _ (or_introl eq_refl) E1) as (Ha & Hd & Hf). split_and!; [|done..].
    intros n b Hn. destruct Hd as [<-|[Hg Hd]]; [by left|]. rewrite Hd in Hn.
    apply lookup_insert_Some in Hn as [[<- <-]|[_ Hn]]; [|by left]. right. exists a. split; [by left|done].
  - simplify_eq. unfold handleShard. split_and!; [by auto|done|].
    destruct (HasSuffix _ _) eqn:E1, (Shard_InRange _ _) eqn:E2; cbn; by auto.
  - simplify_eq. split_and!; [by auto|done|by auto].
  - apply bind_ok in E as ([[d1 z1] v1] & E1 & E). simplify_eq.
    apply bind_ok in E1 as ([[d2 l] v2] & E1 & E). simplify_eq.
    destruct (handle_content_spec _ _ _ _ _ _ _ _ E1) as (Hd & Hl & Hf). split_and!; [done|by exists l|].
    destruct (HasSuffix _ _) eqn:Es; cbn; [by auto|]. intros H. destruct (Hf H); [by left|right; by right].
Qed.
End Handling.

(** ** The chain of trust *)

Section Trust.
Context {AL : AddrLib} {CS : CborStream} {IN : Internet} {TG : TokenGen} {OL : ObjLib} {CW : CborWriter} {CE : CborEncoder}
  {ED : Ed25519Lib}.
Context (sendQuery : Message → NetAddr → Z → netM (string + Message)) (stack rounds : nat).

(** [accepted k w w']: the section [w] was checked under the keys of [k] and left as [w']. *)
Definition accepted (maxVal : MaxCacheValidity) (k : Assertion) (w w' : SigSection) : Prop :=
  ∃ now, CheckSectionSignatures now w (Some (delegation_keys k)) maxVal = Ok (w', true).

(** The delegations that have a chain of verified signatures from those in [d0]. *)
Inductive authentic (maxVal : MaxCacheValidity) (d0 : Map Assertion) : string → Assertion → Prop :=
| auth_known n a : hashMap d0 !! n = Some a → authentic maxVal d0 n a
| auth_signed w k w' a :
    authentic maxVal d0 (With_GetSubjectZone w) k → accepted maxVal k w w' →
    a ∈ read_assertions w' → delegates a → authentic maxVal d0 (Assertion_FQDN a) (stamp_keys a).

(** A section that was accepted under an authentic delegation of its zone, as it was checked
    and as it is returned. *)
Definition verified (maxVal : MaxCacheValidity) (d0 : Map Assertion) (w' w'' : SigSection) : Prop :=
  ∃ w k, authentic maxVal d0 (With_GetSubjectZone w) k ∧ accepted maxVal k w w' ∧ stamped_section w' w''.

(** A resolver that differs from [r0] only in its delegations, all of which are authentic. *)
Definition all_authentic (r0 : Resolver) (s : RState) : Prop :=
  resolver s = set_Delegations (Delegations (resolver s)) r0 ∧
  ∀ n a, hashMap (Delegations (resolver s)) !! n = Some a → authentic (rMaxCacheValidity r0) (Delegations r0) n a.

(** The answer to a query: a cached delegation, or a message with a verified section that
    answers the query. *)
Definition genuine_answer (maxVal : MaxCacheValidity) (d0 : Map Assertion) (q : QueryName) (msg : Message) : Prop :=
  (∃ a, mContent msg = [SecAssertion a] ∧ OTDelegation ∈ qTypes q ∧ authentic maxVal d0 (qName q) a) ∨
  (∃ w' w'', verified maxVal d0 w' w'' ∧ answers (qTypes q) (qName q) w' ∧ SigSection_section w'' ∈ mContent msg).

Section Invariant.
Variable r0 : Resolver.
Abbreviation maxVal := (rMaxCacheValidity r0).
Abbreviation d0 := (Delegations r0).
Abbreviation Inv := (all_authentic r0).

Lemma net_authentic {A} (m : netM A) : triple Inv (lift_net m) (λ _, Inv).
Proof. apply triple_net. intros s n n' a I _. exact I. Qed.

Lemma delegation_authentic zone :
  triple Inv (delegation zone) (λ k s, Inv s ∧ ∀ a, k = Some a → authentic maxVal d0 zone a).
Proof. apply triple_asks. intros s I. split; [done|]. intros a E. by apply I. Qed.

Section Answer.
Variable resolve : QueryName → Z → resM (string + Message).
Hypothesis resolve_inv : ∀ q n, triple Inv (resolve q n) (λ _, Inv).

Lemma obtain_key_authentic q n w :
  triple Inv (obtain_key resolve q n w) (λ k s, Inv s ∧ ∀ a, k = Some a → authentic maxVal d0 (With_GetSubjectZone w) a).
Proof.
  eapply triple_bind; [apply delegation_authentic|]. intros [k|]; [by apply triple_ret|].
  destruct (With_Sigs w RainsKeySpace) as [|sig sigs]; [apply triple_ret; by intros s [? _]|].
  eapply triple_bind; [eapply triple_weaken; [apply resolve_inv|by intros s [? _]|by intros x s H; exact H]|].
  intros [e|m]; [apply triple_ret; by intros s|apply delegation_authentic].
Qed.

Lemma verify_section_authentic k q w v :
  authentic maxVal d0 (With_GetSubjectZone w) k →
  triple Inv (verify_section k q w v) (λ r s, Inv s ∧ ∀ v', r.2 = Some v' → isFinal v' = true →
    isFinal v = true ∨ ∃ w', verified maxVal d0 w' r.1 ∧ answers (qTypes q) (qName q) w').
Proof.
  intros Hk. eapply (triple_bind _ _ _ (λ _, Inv)); [by apply triple_asks|]. intros now.
  eapply (triple_bind _ _ _ (λ mv s, mv = maxVal ∧ Inv s)); [apply triple_asks; intros s I; split; [by rewrite (proj1 I)|done]|]. intros mv.
  eapply (triple_bind _ _ _ (λ r s, Inv s ∧ (r.2 = true → accepted maxVal k w r.1))).
  { apply triple_pure. intros s [w' ok] [-> I] E. split; [done|]. cbn. intros ->. by exists now. }
  intros [w' ok]. cbn. destruct ok; cbn; [|apply triple_ret; by intros s [I _]].
  eapply (triple_bind _ _ _ (λ d s, d = Delegations (resolver s) ∧ Inv s ∧ accepted maxVal k w w')).
  { apply triple_asks. intros s [I H]. by auto. }
  intros d. eapply (triple_bind _ _ _ (λ r s, (Inv s ∧ ∀ n a, hashMap r.1.1 !! n = Some a → authentic maxVal d0 n a) ∧
    (isFinal r.2 = true → isFinal v = true ∨ verified maxVal d0 w' r.1.2 ∧ answers (qTypes q) (qName q) w'))).
  { apply triple_pure. intros s [[d' w''] v'] (-> & I & Ha) E.
    destruct (handle_section_spec _ _ _ _ _ _ _ _ E) as (Hd & Hw & Hf). cbn. split_and!; [done| |].
    - intros m a Hm. destruct (Hd m a Hm) as [H|(b & Hb & Hg & -> & ->)]; [by apply I|]. by eapply auth_signed.
    - intros Hv. destruct (Hf Hv); [by left|]. right. split; [|done]. by exists w, k. }
  intros [[d' w''] v']. cbn. eapply (triple_bind _ _ _ (λ _ s, Inv s ∧
    (isFinal v' = true → isFinal v = true ∨ verified maxVal d0 w' w'' ∧ answers (qTypes q) (qName q) w'))).
  { apply triple_modify. intros s ((I & Hd) & Hf). split; [|done]. split; [by rewrite (proj1 I)|done]. }
  intros _. apply triple_ret. intros s [I Hf]. split; [done|]. cbn. intros v0 [= <-] Hv.
  destruct (Hf Hv); [by left|]. right. by exists w'.
Qed.

Lemma handle_sections_authentic q n secs : ∀ v,
  triple Inv (handle_sections resolve q n secs v) (λ r s, Inv s ∧
    (isFinal r.2 = true → isFinal v = true ∨
       ∃ w' w'', verified maxVal d0 w' w'' ∧ answers (qTypes q) (qName q) w' ∧ SigSection_section w'' ∈ r.1)).
Proof.
  induction secs as [|sec secs IH]; intros v; cbn [handle_sections]; [apply triple_ret; by auto|].
  destruct (as_with_sig sec) as [w| |]; [|apply triple_ret; by auto..].
  eapply triple_bind; [apply obtain_key_authentic|]. intros [k|]; [|apply triple_ret; intros s [? _]; by auto].
  intros s s' r [I Hk]. revert s s' r I. eapply triple_bind; [by apply verify_section_authentic, Hk|].
  intros [w'' [v'|]]; [|apply triple_ret; intros s [? _]; by auto]. cbn.
  intros s s' r [I Hf] E. unfold mbind, resM_bind in E.
  destruct (handle_sections resolve q n secs v' s) as [[[s1 [l v2]]| |]|] eqn:E1; try done. injection E as <- <-.
  destruct (IH v' s s1 (l, v2) I E1) as [I' Hl]. cbn in Hl |- *. split; [done|]. intros Hv. destruct (Hl Hv) as [H|(a & b & ? & ? & ?)].
  - destruct (Hf v' eq_refl H) as [|(w' & ? & ?)]; [by left|]. right. exists w', w''. split_and!; [done..|]. by left.
  - right. exists a, b. split_and!; [done..|]. by right.
Qed.

Lemma follow_authentic q n m : ∀ addr,
  triple Inv (follow sendQuery stack resolve m q n addr)
    (λ r s, Inv s ∧ ∀ msg, r = Some msg → genuine_answer maxVal d0 q msg).
Proof.
  induction m as [|m IH]; intros addr; cbn [follow]; [apply triple_not_yet|].
  eapply (triple_bind _ _ _ (λ _, Inv)).
  { eapply triple_bind; [apply net_authentic|]. intros tok. by apply triple_ret. }
  intros msg. eapply (triple_bind _ _ _ (λ _, Inv)); [by apply triple_asks|]. intros timeout.
  eapply (triple_bind _ _ _ (λ _, Inv)); [apply net_authentic|]. intros [e|answer]; [by apply triple_ret|].
  case_bool_decide; [by apply triple_ret|].
  eapply (triple_bind _ _ _ (λ r s, Inv s ∧ (isFinal r.2 = true → genuine_answer maxVal d0 q r.1))).
  { eapply triple_bind; [apply handle_sections_authentic|]. intros [content v]. apply triple_ret. intros s [I Hf]. split; [done|].
    cbn. intros Hv. destruct (Hf Hv) as [|(w' & w'' & ? & ? & ?)]; [done|]. right. by exists w', w''. }
  intros [answer' v]. cbn. destruct (isFinal v); [apply triple_ret; intros s [I Hv]; split; [done|]; intros ? [= <-]; by apply Hv|].
  destruct (isRedir v); [|by apply triple_ret; intros s [I _]].
  eapply (triple_bind _ _ _ (λ _, Inv)); [apply triple_pure; by intros s a [I _]|]. apply IH.
Qed.
End Answer.

Lemma recursiveResolve_inv depth : ∀ q n,
  triple Inv (recursiveResolve sendQuery stack rounds depth q n)
    (λ r s, Inv s ∧ ∀ msg, r = inr msg → genuine_answer maxVal d0 q msg).
Proof.
  induction depth as [|depth IH]; intros q n; cbn [recursiveResolve]; [apply triple_not_yet|].
  eapply (triple_bind _ _ _ (λ _, Inv)); [by apply triple_asks|]. intros max. destruct (max <=? n); [by apply triple_ret|].
  eapply (triple_bind _ _ _ (λ k s, Inv s ∧ ∀ a, k = Some a → OTDelegation ∈ qTypes q ∧ authentic maxVal d0 (qName q) a)).
  { unfold cached_delegation. case_bool_decide; [|by apply triple_ret].
    eapply triple_weaken; [apply delegation_authentic|done|]. intros k s [I Hk]. split; [done|]. by auto. }
  intros [a|].
  - apply triple_ret. intros s [I Ha]. split; [done|]. intros msg [= <-]. left. exists a. by destruct (Ha a eq_refl).
  - eapply (triple_bind _ _ _ (λ _, Inv)); [apply triple_asks; by intros s [I _]|]. intros roots.
    induction roots as [|root roots IHr]; cbn [try_roots]; [by apply triple_ret|].
    eapply triple_bind; [apply follow_authentic|].
    { intros q' n'. eapply triple_weaken; [apply IH|done|by intros x s [I _]]. }
    intros [answer|]; [|eapply triple_weaken; [apply IHr|by intros s [I _]|done]].
    apply triple_ret. intros s [I Ha]. split; [done|]. intros msg [= <-]. by apply Ha.
Qed.
End Invariant.

End Trust.

(** ** Where the maps of a verdict come from *)

Section Origin.
Context {AL : AddrLib}.

Definition object_host (o : Object) : option string :=
  match objValue o with VIP ip => Some (IP_String ip) | VScion sa => Some (SCIONAddress_String sa) | _ => None end.

(** Every entry is the value of one of the objects. *)
Record maps_from (objs : list Object) (m : Maps) : Prop := {
  from_redir n t : redirMap m !! n = Some t → ∃ o, o ∈ objs ∧ objType o = OTRedirection ∧ objValue o = VString t;
  from_srv n srv : srvMap m !! n = Some srv → ∃ o, o ∈ objs ∧ objType o = OTServiceInfo ∧ objValue o = VServiceInfo srv;
  from_ip n ip : ipMap m !! n = Some ip → ∃ o, o ∈ objs ∧ object_host o = Some ip;
  from_name n x : nameMap m !! n = Some x → ∃ o, o ∈ objs ∧ objType o = OTName ∧ objValue o = VName x
}.
Definition verdict_from (objs : list Object) (v : Verdict) : Prop :=
  maps_from objs (maps v) ∧ (isRedir v = true → redirMap (maps v) ≠ ∅).

Lemma no_verdict_from objs : verdict_from objs no_verdict.
Proof. by split. Qed.

Lemma maps_from_mono objs objs' m : objs ⊆ objs' → maps_from objs m → maps_from objs' m.
Proof.
  intros H [H1 H2 H3 H4]. split; intros n x E; [destruct (H1 n x E) as (o & ? & ?)|destruct (H2 n x E) as (o & ? & ?)|
    destruct (H3 n x E) as (o & ? & ?)|destruct (H4 n x E) as (o & ? & ?)]; exists o; split; auto.
Qed.

(** An object whose value is not a key stays as it is. *)
Definition same_value (o o' : Object) : Prop := objType o' = objType o ∧ (o = o' ∨ ∃ pk, objValue o = VPublicKey pk).

Lemma handle_object_from objs types name o o' d a v d' a' v' :
  o' ∈ objs → same_value o o' → verdict_from objs v → handle_object types name o (d, a, v) = Ok (d', a', v') →
  verdict_from objs v'.
Proof.
  intros Ho [Ht Hs] V E. unfold handle_object in E. apply bind_ok in E as ([[d1 a1] v1] & E1 & E).
  assert (verdict_from objs v1) as V1; [|by destruct (_ && _); simplify_eq].
  clear E. destruct V as [[H1 H2 H3 H4] H5].
  repeat match type of E1 with context [if ?t =? ?u then _ else _] => destruct (Z.eqb_spec t u) end;
    (destruct (objValue o) eqn:Ev; cbn in E1; simplify_eq); try done;
    (destruct Hs as [->|[pk Hs]]; [|by congruence]);
    try (destruct (_ || _)); (split; [split; cbn; try done|cbn; try done; try (intros _; apply insert_non_empty)]);
    intros k x [[<- <-]|[_ ?]]%lookup_insert_Some; eauto; exists o'; unfold object_host; rewrite ?Ev; done.
Qed.

Lemma stamp_same a o : same_value (stamp_object a o) o.
Proof. split; [by rewrite stamp_object_type|]. destruct o as [t []]; by eauto. Qed.

Lemma handle_objects_from objs types name a idx : ∀ d b v d' b' v',
  aContent a ⊆ objs → stamped a b → verdict_from objs v → handle_objects types name idx (d, b, v) = Ok (d', b', v') →
  verdict_from objs v'.
Proof.
  induction idx as [|i idx IH]; intros d b v d' b' v' Ha Hb V E; cbn [handle_objects] in E; [by simplify_eq|].
  apply bind_ok in E as (o & Eo & E). apply bind_ok in E as ([[d1 b1] v1] & E1 & E). cbn in Eo.
  destruct (aContent b !! i) as [o0|] eqn:Eo'; cbn in Eo; simplify_eq.
  destruct (stamped_object a b o i Hb Eo') as (o' & Ho & Ht & Hs).
  destruct (handle_object_spec types name a o o' _ _ _ _ _ _ Hb Ho Ht E1) as (Hb1 & _).
  eapply IH; [done|exact Hb1| |exact E]. eapply handle_object_from; [by apply Ha| |done|exact E1].
  destruct Hs as [->| ->]; [by split; auto|]. apply stamp_same.
Qed.

Definition read_objects (w : SigSection) : list Object := concat (aContent <$> read_assertions w).

Lemma handle_content_from objs types name content : ∀ d v d' l v',
  concat (aContent <$> content) ⊆ objs → verdict_from objs v → handle_content types name content d v = Ok (d', l, v') →
  verdict_from objs v'.
Proof.
  induction content as [|a content IH]; intros d v d' l v' Hc V E; cbn [handle_content] in E; [by simplify_eq|].
  apply bind_ok in E as ([[d1 a1] v1] & E1 & E). apply bind_ok in E as ([[d2 l2] v2] & E2 & E). simplify_eq. cbn in Hc.
  eapply IH; [| |exact E2].
  - intros x Hx. apply Hc, elem_of_app. by right.
  - eapply handle_objects_from; [|by left|exact V|exact E1]. intros x Hx. apply Hc, elem_of_app. by left.
Qed.

Lemma handle_section_from objs types name w d v d' w' v' :
  read_objects w ⊆ objs → verdict_from objs v → handle_section types name w d v = Ok (d', w', v') → verdict_from objs v'.
Proof.
  destruct w as [a|s|p|z]; cbn [handle_section]; intros Ho V E.
  - apply bind_ok in E as ([[d1 a1] v1] & E1 & E). simplify_eq. eapply handle_objects_from; [|by left|exact V|exact E1].
    intros x Hx. apply Ho. cbn. by rewrite app_nil_r.
  - simplify_eq. unfold handleShard. by destruct (_ && _).
  - by simplify_eq.
  - apply bind_ok in E as ([[d1 z1] v1] & E1 & E). simplify_eq. apply bind_ok in E1 as ([[d2 l] v2] & E1 & E). simplify_eq.
    apply handle_content_from with (objs := objs) in E1; [|done..]. by destruct (HasSuffix _ _).
Qed.

Context {OL : ObjLib} {CW : CborWriter} {CE : CborEncoder} {ED : Ed25519Lib}.

Lemma accepted_content pk (l l' : list Assertion) now :
  Forall2 (SiglibFacts.accepted now pk) l l' → aContent <$> l' = aContent <$> l.
Proof. induction 1 as [|a b l l' H _ IH]; [done|]. cbn. f_equal; [|done]. apply accepted_frame in H. by injection H. Qed.

Lemma accepted_objects now w pk mv w' :
  CheckSectionSignatures now w pk mv = Ok (w', true) → read_objects w' = read_objects w.
Proof.
  intros (pk' & -> & H)%whole_sound. unfold read_objects. destruct w as [a|s|p|z], w' as [a'|s'|p'|z']; try done; cbn in H |- *.
  - destruct H as (b & H & ->). apply accepted_frame in H. injection H as ? ? ? ? ?. cbn in *. by f_equal.
  - destruct H as (t & content & H & Hc & ->). f_equal. apply accepted_content in Hc. cbn in Hc |- *.
    rewrite <-!list_fmap_compose in Hc. rewrite <-!list_fmap_compose. exact Hc.
Qed.
End Origin.

(** ** Lookups end *)

Section Ends.
Context {AL : AddrLib} {CS : CborStream} {IN : Internet} {TG : TokenGen} {OL : ObjLib} {CW : CborWriter} {CE : CborEncoder}
  {ED : Ed25519Lib}.
Context (sendQuery : Message → NetAddr → Z → netM (string + Message)) (stack rounds : nat).

(** The objects that are read in an answer. *)
Definition answer_objects (secs : list AnySection) : list Object :=
  concat ((λ sec, match as_with_sig sec with Ok w => read_objects w | _ => [] end) <$> secs).

(** The redirections an answer can contain lead to addresses of smaller rank. *)
Definition descends (rank : NetAddr → nat) : Prop :=
  ∀ msg addr timeout n n' answer m addr',
    sendQuery msg addr timeout n = Ok (n', inr answer) → maps_from (answer_objects (mContent answer)) m → redirMap m ≠ ∅ →
    try_redirects stack (map_to_list (redirMap m)).*2 m addr = Ok addr' → (rank addr' < rank addr)%nat.

(** The computation returns, with a value or a panic, from every state with [P]. *)
Definition returns {A} (P : RState → Prop) (m : resM A) : Prop := ∀ s, P s → m s ≠ None.

Lemma returns_bind {A B} (P : RState → Prop) (m : resM A) (f : A → resM B) R :
  returns P m → triple P m R → (∀ a, returns (R a) (f a)) → returns P (m ≫= f).
Proof.
  intros Hm Ht Hf s HP. unfold mbind, resM_bind. specialize (Hm s HP).
  destruct (m s) as [[[s1 a]| |]|] eqn:E; [|done..]. eapply Hf, Ht; eauto.
Qed.
Lemma returns_weaken {A} (P P' : RState → Prop) (m : resM A) : returns P' m → (∀ s, P s → P' s) → returns P m.
Proof. intros H HP s Hs. auto. Qed.

Section Bounded.
Variables (r0 : Resolver) (rank : NetAddr → nat).
Hypothesis Hdown : descends rank.
Abbreviation Inv := (all_authentic r0).

Section Step.
Variables (resolve : QueryName → Z → resM (string + Message)) (n : Z).
Hypothesis resolve_inv : ∀ q c, triple Inv (resolve q c) (λ _, Inv).
Hypothesis resolve_returns : ∀ q, returns Inv (resolve q (n + 1)).

Lemma obtain_key_returns q w : returns Inv (obtain_key resolve q n w).
Proof.
  eapply returns_bind; [done|apply delegation_authentic|]. intros [k|]; [done|].
  destruct (With_Sigs w RainsKeySpace) as [|sig sigs]; [done|].
  eapply (returns_bind _ _ _ (λ _ _, True)); [|done|by intros []].
  eapply returns_weaken; [apply resolve_returns|by intros s [? _]].
Qed.

Lemma verify_section_returns k q w v : returns (λ _, True) (verify_section k q w v).
Proof.
  intros s _. unfold verify_section, mbind, resM_bind. cbn. destruct (CheckSectionSignatures _ _ _ _) as [[w' []]| |]; cbn; try done.
  by destruct (handle_section _ _ _ _ _) as [[[d w''] v']| |].
Qed.

Lemma handle_sections_returns q secs : ∀ v, returns Inv (handle_sections resolve q n secs v).
Proof.
  induction secs as [|sec secs IH]; intros v; cbn [handle_sections]; [done|]. destruct (as_with_sig sec) as [w| |]; [|done..].
  eapply returns_bind; [apply obtain_key_returns|by apply obtain_key_authentic|]. intros [k|]; [|done].
  intros s [I Hk]. revert s I. eapply returns_bind; [|by apply verify_section_authentic, Hk|].
  { eapply returns_weaken; [apply verify_section_returns|done]. }
  intros [w' [v'|]]; [|done]. eapply (returns_bind _ _ _ (λ _ _, True)); [|done|by intros []].
  eapply returns_weaken; [apply IH|by intros s [I _]].
Qed.

Lemma verify_section_from objs k q w v :
  read_objects w ⊆ objs → verdict_from objs v →
  triple (λ _, True) (verify_section k q w v) (λ r _, ∀ v', r.2 = Some v' → verdict_from objs v').
Proof.
  intros Ho V s s' r _ E. unfold verify_section, mbind, resM_bind in E. cbn in E.
  destruct (CheckSectionSignatures _ _ _ _) as [[w' []]| |] eqn:Ec; cbn in E; [|by injection E as <- <-|done..].
  destruct (handle_section _ _ _ _ _) as [[[d w''] v']| |] eqn:Eh; [|done..]. injection E as <- <-. intros ? [= <-].
  eapply handle_section_from; [|exact V|exact Eh]. by rewrite (accepted_objects _ _ _ _ _ Ec).
Qed.

Lemma handle_sections_from objs q secs : ∀ v, answer_objects secs ⊆ objs → verdict_from objs v →
  triple (λ _, True) (handle_sections resolve q n secs v) (λ r _, verdict_from objs r.2).
Proof.
  induction secs as [|sec secs IH]; intros v Ho V; cbn [handle_sections]; [by apply triple_ret|].
  unfold answer_objects in Ho. cbn in Ho. destruct (as_with_sig sec) as [w| |]; [|by apply triple_ret..].
  eapply (triple_bind _ _ _ (λ _ _, True)); [done|]. intros [k|]; [|by apply triple_ret].
  eapply triple_bind; [apply (verify_section_from objs); [|exact V]|].
  { intros x Hx. apply Ho, elem_of_app. by left. }
  intros [w' [v'|]]; [|by apply triple_ret]. intros s s' r V' E. revert s s' r V' E.
  eapply (triple_bind _ _ _ (λ r _, verdict_from objs r.2)); [|intros []; by apply triple_ret].
  intros s s' r V'. apply IH; [|by apply V'|done]. intros x Hx. apply Ho, elem_of_app. by right.
Qed.

Lemma follow_returns q m : ∀ addr, (rank addr < m)%nat → returns Inv (follow sendQuery stack resolve m q n addr).
Proof.
  induction m as [|m IH]; intros addr Hr; [lia|]. cbn [follow].
  eapply (returns_bind _ _ _ (λ _, Inv)); [done| |].
  { eapply triple_bind; [apply net_authentic|]. intros tok. by apply triple_ret. }
  intros msg. eapply (returns_bind _ _ _ (λ _, Inv)); [done|by apply triple_asks|]. intros timeout.
  eapply (returns_bind _ _ _ (λ r s, Inv s ∧ ∃ n1 n2, sendQuery msg addr timeout n1 = Ok (n2, r))); [done| |].
  { apply triple_net. intros s n1 n2 a I E. split; [exact I|by eauto]. }
  intros [e|answer]; [done|]. case_bool_decide; [done|]. intros s [I (n1 & n2 & Hs)]. revert s I.
  set (objs := answer_objects (mContent answer)).
  eapply (returns_bind _ _ _ (λ r s, Inv s ∧ verdict_from objs r.2)).
  - eapply (returns_bind _ _ _ (λ _ _, True)); [apply handle_sections_returns|done|by intros []].
  - eapply triple_bind; [apply triple_and; [apply (handle_sections_authentic r0); exact resolve_inv|]|].
    { eapply triple_weaken; [apply (handle_sections_from objs q _ no_verdict); [done|apply no_verdict_from]|done|].
      intros x s V. exact V. }
    intros [content v]. apply triple_ret. intros s [[I _] V]. by auto.
  - intros [answer' v]. cbn. destruct (isFinal v); [done|]. destruct (isRedir v) eqn:Ev; [|done].
    intros s [I [V1 V2]]. revert s I.
    eapply (returns_bind _ _ _ (λ a s, Inv s ∧ (rank a < rank addr)%nat)); [done| |].
    { apply triple_pure. intros s a I E. split; [done|]. eapply Hdown; eauto. }
    intros a s [I Ha]. by apply IH; [lia|].
Qed.
End Step.

Lemma recursiveResolve_returns depth : ∀ q n,
  Forall (λ root, rank root < rounds)%nat (RootNameServers r0) → (MaxRecursiveCount r0 - n < Z.of_nat depth) → (depth ≠ 0)%nat →
  returns Inv (recursiveResolve sendQuery stack rounds depth q n).
Proof.
  induction depth as [|depth IH]; intros q n Hr Hn Hd; [done|]. cbn [recursiveResolve].
  eapply (returns_bind _ _ _ (λ max s, Inv s ∧ max = MaxRecursiveCount r0)); [done| |].
  { apply triple_asks. intros s I. split; [done|]. by rewrite (proj1 I). }
  intros max s [I ->]. destruct (Z.leb_spec (MaxRecursiveCount r0) n); [done|]. revert s I.
  eapply (returns_bind _ _ _ (λ _, Inv)).
  { unfold cached_delegation. by case_bool_decide. }
  { unfold cached_delegation. case_bool_decide; [|by apply triple_ret].
    eapply triple_weaken; [apply delegation_authentic|done|by intros k s [I _]]. }
  intros [a|]; [done|]. eapply (returns_bind _ _ _ (λ roots s, Inv s ∧ roots = RootNameServers r0)); [done| |].
  { apply triple_asks. intros s I. split; [done|]. by rewrite (proj1 I). }
  intros roots s [I ->]. revert s I. assert (depth ≠ 0)%nat as Hd' by lia.
  assert (∀ q c, triple Inv (recursiveResolve sendQuery stack rounds depth q c) (λ _, Inv)) as Hinv.
  { intros q' c. eapply triple_weaken; [apply recursiveResolve_inv|done|by intros x s [I _]]. }
  enough (∀ roots, Forall (λ root, rank root < rounds)%nat roots →
    returns Inv (try_roots sendQuery stack rounds (recursiveResolve sendQuery stack rounds depth) q n roots)) as H' by by apply H'.
  induction 1 as [|root roots Hroot _ IHr]; cbn [try_roots]; [done|].
  eapply returns_bind; [apply follow_returns; [exact Hinv|intros q'; apply IH; [done|lia|done]|done]|by apply follow_authentic|].
  intros [answer|]; [done|]. eapply returns_weaken; [apply IHr|by intros s [I _]].
Qed.
End Bounded.

(** C28: a recursive lookup ends.  If the redirections in answers lead to addresses of
    smaller rank, a number of rounds above the rank of every root server and a depth above
    the number of nested key lookups that are left are enough: the lookup returns, or
    panics.  No answer can make it look up keys for ever. *)
Theorem recursiveResolve_terminates rank depth q n s :
  descends rank → Forall (λ root, rank root < rounds)%nat (RootNameServers (resolver s)) →
  MaxRecursiveCount (resolver s) - n < Z.of_nat depth → (0 < depth)%nat →
  ∃ r, recursiveResolve sendQuery stack rounds depth q n s = Some r.
Proof.
  intros Hd Hr Hn H0. destruct (recursiveResolve sendQuery stack rounds depth q n s) as [r|] eqn:E; [by exists r|].
  exfalso. eapply (recursiveResolve_returns (resolver s) rank Hd depth q n Hr Hn ltac:(lia) s); [|exact E].
  split; [by destruct (resolver s)|]. intros m a H. by apply auth_known.
Qed.
End Ends.

Section Uncached.
Context {AL : AddrLib} {CS : CborStream} {IN : Internet} {TG : TokenGen} {OL : ObjLib} {CW : CborWriter} {CE : CborEncoder}
  {ED : Ed25519Lib}.
Context (sendQuery : Message → NetAddr → Z → netM (string + Message)) (stack rounds depth : nat).

(** A lookup at one root server takes as long as following its redirections. *)
Lemma uncached_lookup r n q root :
  Mode r = Recursive → (MaxRecursiveCount r <=? 0) = false → RootNameServers r = [root] → OTDelegation ∉ qTypes q →
  follow sendQuery stack (recursiveResolve sendQuery stack rounds depth) rounds q 0 root (mkRState r n []) = None →
  ClientLookup sendQuery stack rounds (S depth) q (mkRState r n []) = None.
Proof.
  intros Hm Hc Hr Hq Hf. unfold ClientLookup, mbind, resM_bind, asks. cbn [resolver recursiveResolve]. rewrite Hm.
  unfold mbind, resM_bind, asks. cbn [resolver]. rewrite Hc. unfold cached_delegation. rewrite bool_decide_eq_false_2 by done.
  cbn [mret resM_ret resolver]. rewrite Hr. cbn [try_roots]. unfold mbind, resM_bind. by rewrite Hf.
Qed.
End Uncached.

(** ** Unsigned sections *)

Section Unsigned.
Context {AL : AddrLib} {CS : CborStream} {IN : Internet} {TG : TokenGen} {OL : ObjLib} {CW : CborWriter} {CE : CborEncoder}
  {ED : Ed25519Lib}.

(** An object as the decoder makes them, a redirection being a string. *)
Definition readable (o : Object) : Prop := value_typed (objType o) (objValue o) ∧ ∀ c, objValue o ≠ VOther c.

Lemma handle_object_total types name o st : readable o → ∃ st', handle_object types name o st = Ok st'.
Proof.
  intros [Ht Hv]. destruct st as [[d a] v], o as [t val]. unfold handle_object. cbn in *.
  destruct val; cbn in Ht; try (by specialize (Hv _ eq_refl));
    repeat (destruct Ht as [->|Ht]); try subst t; cbn; try (by eexists); by destruct Ht.
Qed.

Lemma stamp_readable a o : readable o → readable (stamp_object a o).
Proof. intros [Ht Hv]. destruct o as [t []]; by split. Qed.

Lemma handle_objects_files types name a idx : Forall readable (aContent a) → ∀ d b v,
  stamped a b → Forall (λ i, i < length (aContent a))%nat idx →
  (hashMap d !! Assertion_FQDN a = Some (stamp_keys a) ∨
     ∃ i o, i ∈ idx ∧ aContent a !! i = Some o ∧ objType o = OTDelegation) →
  ∃ d' b' v', handle_objects types name idx (d, b, v) = Ok (d', b', v') ∧
    hashMap d' !! Assertion_FQDN a = Some (stamp_keys a).
Proof.
  intros Ha. induction idx as [|i idx IH]; intros d b v Hb Hi Hd; cbn [handle_objects].
  { exists d, b, v. split; [done|]. destruct Hd as [|(i & o & H & _)]; [done|]. by apply elem_of_nil in H. }
  apply Forall_cons in Hi as [Hi Hidx]. destruct (lookup_lt_is_Some_2 _ _ Hi) as [oa Eoa].
  assert (∃ o, aContent b !! i = Some o ∧ objType o = objType oa ∧ readable o) as (o & Eo & Hto & Ro).
  { pose proof (proj1 (Forall_lookup _ _) Ha i oa Eoa) as R. destruct Hb as [->| ->]; [by exists oa|]. exists (stamp_object a oa).
    cbn. rewrite list_lookup_fmap, Eoa. split_and!; [done|apply stamp_object_type|by apply stamp_readable]. }
  destruct (handle_object_total types name o (d, b, v) Ro) as ([[d1 b1] v1] & E1). cbn [fst snd]. rewrite Eo. cbn [or_panic mbind outcome_bind].
  rewrite E1. cbn [mbind outcome_bind].
  destruct (handle_object_spec types name a o oa _ _ _ _ _ _ Hb (list_elem_of_lookup_2 _ _ _ Eoa) (eq_sym Hto) E1) as (Hb1 & Hd1 & _).
  apply IH; [done..|]. destruct Hd as [Hd|(i' & o' & [->|Hi']%elem_of_cons & Eo' & Ht)]; [| |right; by exists i', o'].
  - left. destruct Hd1 as [->|[_ ->]]; [done|by rewrite lookup_insert_eq].
  - left. simplify_eq. unfold handle_object in E1. rewrite Hto, Ht in E1. cbn in E1. simplify_eq. cbn.
    by rewrite (stamped_FQDN a b Hb), (stamped_stamp a b Hb), lookup_insert_eq.
Qed.

(** A section without signatures is accepted if only the delegation of its zone is
    known, as that of the root zone is from the start.  Whoever answers a query can have the
    resolver file any key for any name below such a zone. *)
Theorem unsigned_delegations_are_trusted k q a v s :
  aSignatures a = [] → delegates a → Forall readable (aContent a) →
  ∃ s' w' v', verify_section k q (WAssertion a) v s = Some (Ok (s', (w', Some v'))) ∧
    hashMap (Delegations (resolver s')) !! Assertion_FQDN a = Some (stamp_keys (Assertion_SetSign false a)).
Proof.
  intros Hs (o & Ho & Ht) Hr. unfold verify_section, mbind, resM_bind. cbn [asks lift_pure CheckSectionSignatures].
  rewrite check_unsigned by (unfold Sigs; cbn; by rewrite Hs). cbn [mbind outcome_bind negb].
  apply list_elem_of_lookup_1 in Ho as [i Ei].
  destruct (handle_objects_files (qTypes q) (qName q) (Assertion_SetSign false a) (seq 0 (length (aContent a))) Hr (Delegations (resolver s))
    (Assertion_SetSign false a) v) as (d' & b' & v' & E & Hd); [by left| |right|].
  { apply Forall_forall. intros x Hx%elem_of_seq. cbn. lia. }
  { exists i, o. split_and!; [|done..]. apply elem_of_seq. apply lookup_lt_Some in Ei. lia. }
  cbn [handle_section]. unfold handleAssertion. cbn [fst snd].
  cbn in E. cbn.
  change (Assertion_AddSigInMarshaller (Assertion_DontAddSigInMarshaller a)) with (Assertion_SetSign false a). rewrite E. cbn. eexists _, _, _. split; [done|]. exact Hd.
Qed.
End Unsigned.

(** ** A concrete resolver *)

Definition colons (s : string) : nat := length (filter (λ c, c = ":"%char) (String.list_ascii_of_string s)).
(** Addresses as the libraries read them: a host and a port, one colon apart, or a SCION
    address with its host in brackets. *)
Definition toy_addresses : AddrLib := {|
  ResolveTCPAddr s := if (colons s =? 1)%nat && negb (Contains s ",") then Some (mkAddr "tcp" s) else None;
  ParseUDPAddr s := if Contains s ",[" then Some (mkAddr "udp" s) else None;
  IP_String ip := if (length ip =? 4)%nat then str_join "." (dec <$> ip) else str_join ":" (dec <$> ip);
  IA_String ia := (dec (iaI ia) +:+ "-" +:+ dec (iaA ia))%string
|}.
Section Example.
Local Existing Instance toy_addresses.
Local Existing Instance toy_stream.
Local Existing Instance toy_tokens.
Local Existing Instance be_objlib.
Local Existing Instance toy_cbor.
Local Existing Instance toy_ed25519.
Local Existing Instance toy_encoder.

(** Servers that answer as [world] says, whatever is asked: the answer has the token of the
    query that was written last. *)
Definition last_token (events : list WireEvent) : Token :=
  match last events with
  | Some (Written _ bytes _) => match Message_UnmarshalCBOR zeroMessage bytes with Ok msg => mToken msg | _ => [] end
  | _ => []
  end.
Definition internet (world : Addr → list AnySection) : Internet := {|
  inet_dial events a := Some (mkConn (length events) a);
  inet_write _ _ _ := true;
  inet_read events conn _ :=
    match Message_MarshalCBOR (mkMessage [] (last_token events) (world (RemoteAddr conn)) []) empty_stream with
    | Ok bytes => Some bytes
    | _ => None
    end;
  inet_now _ := 0
|}.

Definition root_ns : Addr := mkAddr "tcp" "192.0.2.1:55553".
Definition other_ns : Addr := mkAddr "tcp" "10.0.0.2:55553".

(** The section signed with the key [b]. *)
Definition signed (b : Z) (w : SigSection) : AnySection :=
  match SignSectionUnsafe w {[ w_id := PrivEd25519 [b] ]} with Ok (w', _) => SigSection_section w' | _ => SigSection_section w end.
Definition a_sig : Sig := mkSig w_id 0 100 DataNil false.
Definition fact (name zone : string) (content : list Object) : SigSection :=
  WAssertion (mkAssertion [a_sig] name zone "." content 0 0 false).
Definition key_object (b : Z) : Object := mkObject OTDelegation (VPublicKey (zone_pk b)).
Definition address (ip : list Z) : Object := mkObject OTIP4Addr (VIP ip).
Definition redirection (name : string) : Object := mkObject OTRedirection (VString name).

(** A resolver that knows the key of the root, [1]. *)
Definition root_key : Assertion := mkAssertion [a_sig] "@" "." "." [key_object 1] 0 0 false.
Definition w_resolver : Resolver :=
  match New 0 [TCPAddr root_ns] [] (Ok root_key) Recursive 10 (mkMaxCacheValidity (3 * Hour) (3 * Hour) (3 * Hour) (3 * Hour)) 5 with
  | Ok r => r | _ => mkResolver [] [] OtherMode false 0 false Map_New (NewConnection 0) (mkMaxCacheValidity 0 0 0 0) 0 end.
Definition w_state : RState := mkRState w_resolver (mkNet [] 0) [].
Definition lookup_of (name : string) : QueryName := mkQueryName "." name [OTIP4Addr] 10 [] 0 0.

Definition answer_of (r : option (outcome (RState * (string + Message)))) : option (list AnySection) :=
  match r with Some (Ok (_, inr msg)) => Some (mContent msg) | _ => None end.
Definition delegation_of (name : string) (r : option (outcome (RState * (string + Message)))) : option (list Object) :=
  match r with Some (Ok (s, _)) => aContent <$> Map_Get (Delegations (resolver s)) name | _ => None end.

(** The zone of "ch." is delegated by the root to the key [2] and served by [other_ns]. *)
Definition honest (a : Addr) : list AnySection :=
  if decide (a = root_ns) then
    [signed 1 (fact "ch" "." [key_object 2]); signed 1 (fact "ch" "." [redirection "ns.ch."]);
     signed 1 (fact "ns.ch" "." [address [10; 0; 0; 2]])]
  else [signed 2 (fact "www" "ch." [address [10; 0; 0; 3]])].

(** A client's lookup of an address in the given world. *)
Definition lookup (world : Addr → list AnySection) (name : string) : option (outcome (RState * (string + Message))) :=
  let net := internet world in ClientLookup SendQuery 10 5 6 (lookup_of name) w_state.

Definition forged_address : list Z := [6; 6; 6; 6].
Definition answers_with (ip : list Z) (r : option (outcome (RState * (string + Message)))) : bool :=
  match answer_of r with Some secs =>
      existsb (λ o, match objValue o with VIP x => bool_decide (x = ip) | _ => false end) (answer_objects secs)
  | None => false
  end.

(** Whoever is asked answers with an unsigned delegation to the key [9]. *)
Definition unsigned_world (a : Addr) : list AnySection :=
  [SecAssertion (mkAssertion [] "ch" "." "." [key_object 9] 0 0 false); signed 9 (fact "www" "ch." [address forged_address])].

(** The zone of "evil.", which is delegated to the key [3], contains an assertion about "ch". *)
Definition evil_world (a : Addr) : list AnySection :=
  if decide (a = root_ns) then
    [signed 1 (fact "evil" "." [key_object 3]); signed 1 (fact "evil" "." [redirection "ns.evil."]);
     signed 1 (fact "ns.evil" "." [address [10; 0; 0; 2]])]
  else [signed 3 (WZone (mkZone [a_sig] "evil." "." [mkAssertion [] "ch" "" "" [key_object 9] 0 0 false] 0 0 false))].

(** Behind the section that answers the query is one that no key verifies. *)
Definition trailing_world (a : Addr) : list AnySection :=
  if decide (a = root_ns) then honest a
  else honest a ++ [signed 9 (fact "www" "ch." [address forged_address])].

(** The server of "ch." has an IPv6 address. *)
Definition ipv6_world (a : Addr) : list AnySection :=
  [signed 1 (fact "ch" "." [redirection "ns.ch."]);
   signed 1 (fact "ns.ch" "." [mkObject OTIP6Addr (VIP [32; 1; 13; 184; 0; 0; 0; 0; 0; 0; 0; 0; 0; 0; 0; 1])])].

(** What a lookup can be made to return.  With honest servers "www.ch." is found below
    its delegation.  A delegation without signatures is believed, and the answer signed with
    its key returned.  The owner of "evil." takes over "ch.": after the check the
    assertions in a zone have no zone any more, and their name alone is filed.  A section
    that no key verifies is returned behind one that answers the query.  A redirection to an
    IPv6 address, written without brackets, is understood by neither parser, and the
    nil pointer that is left of it is dereferenced. *)
Theorem lookups_can_be_forged :
  answers_with [10; 0; 0; 3] (lookup honest "www.ch.") = true ∧
  answers_with forged_address (lookup unsigned_world "www.ch.") = true ∧
  (∃ pk, delegation_of "ch." (lookup evil_world "www.evil.") = Some [mkObject OTDelegation (VPublicKey pk)] ∧ pkKey pk = KeyEd25519 [9]) ∧
  answers_with forged_address (lookup trailing_world "www.ch.") = true ∧
  (∃ msg, lookup ipv6_world "www.ch." = Some (Panic msg)).
Proof.
  split_and!; [vm_compute; reflexivity..| |vm_compute; reflexivity|].
  - eexists. split; vm_compute; reflexivity.
  - eexists. vm_compute. reflexivity.
Qed.

(** ** A redirection that leads back *)

Definition loop_content : list AnySection :=
  [signed 1 (fact "ch" "." [redirection "ns.ch."]); signed 1 (fact "ns.ch" "." [address [192; 0; 2; 1]])].
Variable world : Addr → list AnySection.
Local Instance the_internet : Internet := internet world.

Lemma loop_round resolve tok net readers stack :
  ∃ answer v,
    handleAnswer resolve (mkMessage [] tok loop_content []) (lookup_of "www.ch.") 0 (mkRState w_resolver net readers) =
      Some (Ok (mkRState w_resolver net readers, (answer, v))) ∧
    isFinal v = false ∧ isRedir v = true ∧
    try_redirects (S stack) (map_to_list (redirMap (maps v))).*2 (maps v) (TCPAddr root_ns) = Ok (TCPAddr root_ns).
Proof. eexists _, _. split; [vm_compute; reflexivity|]. split_and!; vm_compute; reflexivity. Qed.

(** Whatever the token, the root server answers with [loop_content]. *)
Definition answers_loop (sendQuery : Message → NetAddr → Z → netM (string + Message)) : Prop :=
  ∀ msg timeout n, ∃ n' tok, sendQuery msg (TCPAddr root_ns) timeout n = Ok (n', inr (mkMessage [] tok loop_content [])).

(** Redirections are followed without remembering the servers that were asked.  A root
    server that redirects to itself keeps a lookup busy for ever: no number of rounds is
    enough. *)
Theorem redirect_loop_never_returns sendQuery stack rounds depth :
  answers_loop sendQuery → ClientLookup sendQuery (S stack) rounds (S depth) (lookup_of "www.ch.") w_state = None.
Proof.
  intros Hl. apply (uncached_lookup _ _ _ _ w_resolver _ _ (TCPAddr root_ns)); [vm_compute; reflexivity..|by intros ?%list_elem_of_singleton|].
  generalize (recursiveResolve sendQuery (S stack) rounds depth) as resolve, (mkNet (CS:=toy_stream) [] 0) as n. intros resolve.
  induction rounds as [|m IH]; intros n; [done|].
  cbn [follow]. unfold query_message, dial_timeout, lift_net, mbind, resM_bind. cbn -[handleAnswer follow w_resolver].
  match goal with |- context [sendQuery ?msg ?a ?t ?n] => destruct (Hl msg t n) as (n' & tok & ->) end. cbn -[handleAnswer follow w_resolver].
  match goal with |- context [handleAnswer ?resolve _ _ _ _] => destruct (loop_round resolve tok n' [] stack) as (answer & v & -> & -> & -> & E) end.
  cbn -[follow w_resolver]. rewrite E. apply IH.
Qed.

(** ** Witnesses *)

(** A querier without a network between. *)
Definition ask (msg : Message) (addr : NetAddr) (timeout : Z) : netM (string + Message) :=
  match addr with
  | TCPAddr a => mret (inr (mkMessage [] (mToken msg) (world a) []))
  | _ => mret (inl "no connection"%string)
  end.
End Example.

Section Witnesses.
Local Existing Instance toy_addresses.
Local Existing Instance toy_stream.
Local Existing Instance toy_tokens.
Local Existing Instance be_objlib.
Local Existing Instance toy_cbor.
Local Existing Instance toy_ed25519.
Local Existing Instance toy_encoder.

Lemma redirect_loop_never_returns_witness :
  ClientLookup (IN:=internet honest) (ask (λ _, loop_content)) 3 7 4 (lookup_of "www.ch.") w_state = None.
Proof. apply (redirect_loop_never_returns honest (ask (λ _, loop_content)) 2 7 3). intros msg timeout n. by eexists _, _. Defined.

Lemma unsigned_delegations_are_trusted_witness :
  ∃ s' w' v', verify_section (IN:=internet honest) root_key (lookup_of "www.ch.")
      (WAssertion (mkAssertion [] "ch" "." "." [key_object 9] 0 0 false)) no_verdict w_state = Some (Ok (s', (w', Some v'))) ∧
    is_Some (hashMap (Delegations (resolver s')) !! "ch."%string).
Proof.
  destruct (unsigned_delegations_are_trusted (IN:=internet honest) root_key (lookup_of "www.ch.")
    (mkAssertion [] "ch" "." "." [key_object 9] 0 0 false) no_verdict w_state) as (s' & w' & v' & E & H).
  - reflexivity.
  - exists (key_object 9). split; [by left|reflexivity].
  - repeat constructor. discriminate.
  - exists s', w', v'. split; [exact E|]. eexists. exact H.
Defined.


(** The root server redirects to [other_ns], which does not redirect. *)
Definition honest_rank (a : NetAddr) : nat :=
  match a with TCPAddr a => if decide (a = root_ns) then 2 else if decide (a = other_ns) then 1 else 0 | _ => 0 end.

Lemma redirects_to_other stack names m addr a :
  srvMap m = ∅ → nameMap m = ∅ → (∀ n ip, ipMap m !! n = Some ip → ip = "10.0.0.2"%string) → names ≠ [] →
  try_redirects stack names m addr = Ok a → (honest_rank a < 2)%nat.
Proof.
  intros Hs Hn Hi Hne. revert addr. induction names as [|name names IH]; intros addr E; [done|]. cbn [try_redirects] in E.
  apply bind_ok in E as ([addr' ok] & E1 & E).
  assert (honest_rank addr' < 2)%nat as Hr.
  { destruct stack; [done|]. cbn in E1. rewrite Hs, Hn, !lookup_empty in E1. destruct (ipMap m !! name) as [ip|] eqn:Ei.
    - rewrite (Hi _ _ Ei) in E1. vm_compute in E1. injection E1 as <- <-. vm_compute. lia.
    - by destruct (HasPrefix _ _); injection E1 as <- <-; vm_compute; lia. }
  destruct ok; [by injection E as <-|]. destruct names; [by injection E as <-|]. by eapply IH.
Qed.

Lemma honest_objects a : answer_objects (honest a) =
  if decide (a = root_ns) then [key_object 2; redirection "ns.ch."; address [10; 0; 0; 2]] else [address [10; 0; 0; 3]].
Proof. unfold honest. destruct (decide (a = root_ns)); vm_compute; reflexivity. Qed.

Lemma no_objects {A} (m : gmap string A) (Q : A → Object → Prop) objs :
  (∀ n x, m !! n = Some x → ∃ o, o ∈ objs ∧ Q x o) → Forall (λ o, ∀ x, ~ Q x o) objs → m = ∅.
Proof.
  intros H F. apply map_empty. intros n. destruct (m !! n) as [x|] eqn:E; [|done]. destruct (H n x E) as (o & Ho & Hq).
  by destruct (proj1 (Forall_forall _ _) F o Ho x).
Qed.

Lemma honest_descends stack : descends (ask honest) stack honest_rank.
Proof.
  intros msg addr timeout n n' answer m a E F Hne Ht. destruct addr as [|a0| |]; [done| |done..]. injection E as <- <-. cbn [mContent] in F.
  rewrite honest_objects in F. destruct F as [F1 F2 F3 F4]. unfold honest_rank at 2. destruct (decide (a0 = root_ns)).
  - eapply redirects_to_other; [| | | |exact Ht].
    + eapply no_objects; [exact F2|]. repeat constructor; by intros x [? ?].
    + eapply no_objects; [exact F4|]. repeat constructor; by intros x [? ?].
    + intros k ip Ei. destruct (F3 k ip Ei) as (o & Ho & Hh).
      repeat (apply elem_of_cons in Ho as [->|Ho]; [first [by injection Hh as <-|done]|]). by apply elem_of_nil in Ho.
    + intros Hm. apply Hne, map_to_list_empty_iff. by destruct (map_to_list (redirMap m)).
  - destruct Hne. eapply no_objects; [exact F1|]. repeat constructor; by intros x [? ?].
Qed.

Lemma recursiveResolve_terminates_witness :
  ∃ r, recursiveResolve (IN:=internet honest) (ask honest) 10 3 6 (lookup_of "www.ch.") 0 w_state = Some r.
Proof.
  apply (recursiveResolve_terminates (IN:=internet honest) (ask honest) 10 3 honest_rank 6 (lookup_of "www.ch.") 0 w_state).
  - apply honest_descends.
  - repeat constructor.
  - vm_compute. reflexivity.
  - lia.
Defined.
End Witnesses.
