(* ===== verification/ZoneFile.v ===== *)
(** * Zone files

    Models attic/internal/pkg/zonefile: the printer (zoneFileEncoder.go, encoder.go and
    zoneFileIO.go), the word scanner with the decoder of queries (zoneFileWordScanner.go,
    decoder.go), and the parser.  zoneFileParser.go is generated by goyacc: the lexer and the
    helpers are copied into it, and for each rule of the grammar it has a case with the rule's
    action; the functions below are these rules, by recursive descent.  The generated parser
    itself is in [ZoneParser], and [ZoneParserFacts] shows that it does the same. *)

From S2P Require Import Prelude Cbor Keys Object Query BitArray BloomFilter Section Message Siglib ConnectionCache Server Connection.
Local Open Scope string_scope.
Local Open Scope Z_scope.

(** ** Words of the format *)

Definition TypeAssertion := ":A:".
Definition TypeShard := ":S:".
Definition TypePshard := ":P:".
Definition TypeZone := ":Z:".
Definition TypeSignature := ":sig:".
Definition TypeName := ":name:".
Definition TypeIP6 := ":ip6:".
Definition TypeIP4 := ":ip4:".
Definition TypeScion := ":scion:".
Definition TypeRedirection := ":redir:".
Definition TypeDelegation := ":deleg:".
Definition TypeNameSet := ":nameset:".
Definition TypeCertificate := ":cert:".
Definition TypeServiceInfo := ":srv:".
Definition TypeRegistrar := ":regr:".
Definition TypeRegistrant := ":regt:".
Definition TypeInfraKey := ":infra:".
Definition TypeExternalKey := ":extra:".
Definition TypeNextKey := ":next:".
Definition TypeEd25519 := ":ed25519:".
Definition TypeUnspecified := ":unspecified:".
Definition TypePTTLS := ":tls:".
Definition TypePTRhine := ":rhine:".
Definition TypeCUTrustAnchor := ":trustAnchor:".
Definition TypeCUEndEntity := ":endEntity:".
Definition TypeCUZoneAuth := ":zoneAuth:".
Definition TypeNoHash := ":noHash:".
Definition TypeSha256 := ":sha256:".
Definition TypeSha384 := ":sha384:".
Definition TypeSha512 := ":sha512:".
Definition TypeShake256 := ":shake256:".
Definition TypeFnv64 := ":fnv64:".
Definition TypeFnv128 := ":fnv128:".
Definition TypeKM12 := ":bloomKM12:".
Definition TypeKM16 := ":bloomKM16:".
Definition TypeKM20 := ":bloomKM20:".
Definition TypeKM24 := ":bloomKM24:".
Definition TypeKSRains := ":rains:".

Definition nl : string := String "010" "".
Definition indent4 := "    ".
Definition indent8 := indent4 +:+ indent4.
Definition indent12 := indent8 +:+ indent4.

(** [fmt.Sprintf] joins its pieces. *)
Definition sprintf (l : list string) : string := foldr (λ s t, s +:+ t) "" l.

(** Addresses as text: the parsers [net.ParseIP] and [snet.ParseUDPAddr] (ISD-AS, host and
    port), and what [%s] prints of a value of a type the format does not expect. *)
Class ZoneLib := {
  ParseIP : string → option (list Z);
  snet_ParseUDPAddr : string → option (IA * list Z * Z);
  fmt_other : Value → string
}.

(** ** Printing *)

Section Encoder.
Context {AL : AddrLib} {ZL : ZoneLib}.

(** [sig.Data.([]byte)] panics on other dynamic types. *)
Definition encodeEd25519Signature (sig : Sig) : outcome string :=
  let signature := sprintf [TypeSignature; " "; TypeEd25519; " "; TypeKSRains; " "; dec (KeyPhase (sigPublicKeyID sig)); " ";
                            dec (sigValidSince sig); " "; dec (sigValidUntil sig)] in
  match sigData sig with
  | DataNil | DataBytes [] => Ok signature
  | DataBytes b => Ok (sprintf [signature; " "; hex_EncodeToString b])
  | DataOther _ => Panic "interface conversion"
  end.

Definition encodeHashAlgo (h : HashAlgo) : string :=
  if h =? NoHashAlgo then TypeNoHash
  else if h =? Sha256 then TypeSha256
  else if h =? Sha384 then TypeSha384
  else if h =? Sha512 then TypeSha512
  else if h =? Shake256 then TypeShake256
  else if h =? Fnv64 then TypeFnv64
  else if h =? Fnv128 then TypeFnv128
  else "".

Definition encodeCertificate (cert : Certificate) : string :=
  let pt := if certType cert =? PTUnspecified then Some TypeUnspecified
            else if certType cert =? PTTLS then Some TypePTTLS
            else if certType cert =? PTRhine then Some TypePTRhine
            else None in
  let cu := if certUsage cert =? CUTrustAnchor then Some TypeCUTrustAnchor
            else if certUsage cert =? CUEndEntity then Some TypeCUEndEntity
            else if certUsage cert =? CUZoneAuth then Some TypeCUZoneAuth
            else None in
  let ca := encodeHashAlgo (certHashAlgo cert) in
  match pt, cu with
  | Some pt, Some cu =>
      if ca =ₛ "" then "" else sprintf [pt; " "; cu; " "; ca; " "; hex_EncodeToString (certData cert)]
  | _, _ => ""
  end.

Definition encodeKeySpace (keySpace : KeySpaceID) : string := if keySpace =? RainsKeySpace then TypeKSRains else "".

Definition encodeEd25519PublicKey (pkey : PublicKey) : string :=
  match pkKey pkey with
  | KeyEd25519 key => sprintf [TypeEd25519; " "; dec (KeyPhase (pkID pkey)); " "; hex_EncodeToString key]
  | _ => ""
  end.

(** The word of an object type, [None] for a type without one. *)
Definition type_word (t : OType) : option string :=
  if t =? OTName then Some TypeName
  else if t =? OTIP6Addr then Some TypeIP6
  else if t =? OTIP4Addr then Some TypeIP4
  else if t =? OTScionAddr then Some TypeScion
  else if t =? OTRedirection then Some TypeRedirection
  else if t =? OTDelegation then Some TypeDelegation
  else if t =? OTNameset then Some TypeNameSet
  else if t =? OTCertInfo then Some TypeCertificate
  else if t =? OTServiceInfo then Some TypeServiceInfo
  else if t =? OTRegistrar then Some TypeRegistrar
  else if t =? OTRegistrant then Some TypeRegistrant
  else if t =? OTInfraKey then Some TypeInfraKey
  else if t =? OTExtraKey then Some TypeExternalKey
  else if t =? OTNextKey then Some TypeNextKey
  else None.

Definition encodeNameObject (no : ObjName) : string :=
  sprintf [onName no; " [ "; str_join " " (omap type_word (onTypes no)); " ]"].

(** [ot + indent12[len(ot):]] *)
Definition addIndentToType (ot : string) : string :=
  ot +:+ String.substring (String.length ot) (String.length indent12 - String.length ot) indent12.

(** [%s] on an object's value *)
Definition fmt_value (v : Value) : string :=
  match v with
  | VString s | VNamesetExpr s => s
  | VIP ip => IP_String ip
  | VScion sa => SCIONAddress_String sa
  | v => fmt_other v
  end.

(** One object; [None] is the early return of the empty string. *)
Definition encode_object (o : Object) : option string :=
  let t := objType o in
  let v := objValue o in
  let with_key w f := match v with VPublicKey pkey => Some (addIndentToType w +:+ f pkey) | _ => None end in
  if t =? OTName then match v with VName n => Some (addIndentToType TypeName +:+ encodeNameObject n) | _ => None end
  else if t =? OTIP6Addr then Some (addIndentToType TypeIP6 +:+ fmt_value v)
  else if t =? OTIP4Addr then Some (addIndentToType TypeIP4 +:+ fmt_value v)
  else if t =? OTScionAddr then Some (addIndentToType TypeScion +:+ fmt_value v)
  else if t =? OTRedirection then Some (addIndentToType TypeRedirection +:+ fmt_value v)
  else if t =? OTDelegation then with_key TypeDelegation encodeEd25519PublicKey
  else if t =? OTNameset then Some (addIndentToType TypeNameSet +:+ fmt_value v)
  else if t =? OTCertInfo then
    match v with VCertificate cert => Some (addIndentToType TypeCertificate +:+ encodeCertificate cert) | _ => None end
  else if t =? OTServiceInfo then
    match v with
    | VServiceInfo srv => Some (sprintf [addIndentToType TypeServiceInfo; siName srv; " "; dec (siPort srv); " "; dec (siPriority srv)])
    | _ => None
    end
  else if t =? OTRegistrar then Some (addIndentToType TypeRegistrar +:+ fmt_value v)
  else if t =? OTRegistrant then Some (addIndentToType TypeRegistrant +:+ fmt_value v)
  else if t =? OTInfraKey then with_key TypeInfraKey encodeEd25519PublicKey
  else if t =? OTExtraKey then with_key TypeExternalKey encodeEd25519PublicKey
  else if t =? OTNextKey then
    with_key TypeNextKey (λ pkey, sprintf [encodeEd25519PublicKey pkey; " "; dec (pkValidSince pkey); " "; dec (pkValidUntil pkey)])
  else None.

Definition encodeObjects (o : list Object) (indent : string) : string :=
  match mapM encode_object o with
  | Some l => str_join nl ((λ e, indent +:+ e) <$> l)
  | None => ""
  end.

Definition encode_sigs (sigs : list Sig) : outcome (list string) := traverse encodeEd25519Signature sigs.

(** A slice of signatures without elements is nil here. *)
Definition encodeAssertion (a : Assertion) (context zone indent : string) (addZoneAndContext : bool) : outcome string :=
  let assertion :=
    if addZoneAndContext then sprintf [indent; TypeAssertion; " "; aSubjectName a; " "; zone; " "; context; " ["]
    else sprintf [indent; TypeAssertion; " "; aSubjectName a; " ["] in
  sigs ← encode_sigs (aSignatures a);
  let signature :=
    match sigs with
    | [] => ""
    | [sig] => sprintf [" ( "; sig; " )"; nl]
    | _ => sprintf [" ( "; nl; indent; indent4; str_join (nl +:+ indent +:+ indent4) sigs; nl; indent; ")"; nl]
    end in
  if (1 <? Z.of_nat (length (aContent a)))
  then Ok (sprintf [assertion; nl; encodeObjects (aContent a) (indent +:+ indent4); nl; indent; "]"; signature])
  else Ok (sprintf [assertion; " "; encodeObjects (aContent a) ""; " ]"; signature]).

Definition encodeBloomFilter (b : BloomFilter) : string :=
  let algo :=
    if bfAlgorithm b =? BloomKM12 then TypeKM12
    else if bfAlgorithm b =? BloomKM16 then TypeKM16
    else if bfAlgorithm b =? BloomKM20 then TypeKM20
    else if bfAlgorithm b =? BloomKM24 then TypeKM24
    else "" in
  let hash :=
    if bfHash b =? Shake256 then TypeShake256
    else if bfHash b =? Fnv64 then TypeFnv64
    else if bfHash b =? Fnv128 then TypeFnv128
    else "" in
  sprintf [algo; " "; hash; " "; hex_EncodeToString (bfFilter b)].

Definition range_from (s : string) : string := if s =ₛ "" then "<" else s.
Definition range_to (s : string) : string := if s =ₛ "" then ">" else s.

Definition encodePshard (s : Pshard) (context subjectZone indent : string) : outcome string :=
  let pshard := sprintf [TypePshard; " "; subjectZone; " "; context; " "; range_from (pRangeFrom s); " "; range_to (pRangeTo s); " ";
                         encodeBloomFilter (pBloomFilter s)] in
  sigs ← encode_sigs (pSignatures s);
  Ok (match sigs with
      | [] => sprintf [indent; pshard; nl]
      | [sig] => sprintf [indent; pshard; " ( "; sig; " )"; nl]
      | _ => sprintf [indent; pshard; " ( "; nl; indent; indent4; str_join (nl +:+ indent +:+ indent4) sigs; nl; indent; "  )"; nl]
      end).

Definition encode_content (content : list Assertion) (context zone indent : string) : outcome string :=
  l ← traverse (λ a, encodeAssertion a context zone indent false) content;
  Ok (sprintf ((λ e, e +:+ nl) <$> l)).

Definition encodeShard (s : Shard) (context subjectZone indent : string) : outcome string :=
  content ← encode_content (sContent s) context subjectZone (indent +:+ indent4);
  let shard := sprintf [TypeShard; " "; subjectZone; " "; context; " "; range_from (sRangeFrom s); " "; range_to (sRangeTo s); " ["; nl; content] in
  sigs ← encode_sigs (sSignatures s);
  Ok (match sigs with
      | [] => sprintf [indent; shard; indent; "]"; nl]
      | [sig] => sprintf [indent; shard; indent; "] ( "; sig; " )"; nl]
      | _ => sprintf [indent; shard; indent; "] ( "; nl; indent; indent4; str_join (nl +:+ indent +:+ indent4) sigs; nl; indent; "  )"; nl]
      end).

Definition encodeZone (z : Zone) : outcome string :=
  content ← encode_content (zContent z) (zContext z) (zSubjectZone z) indent4;
  let zone := sprintf [TypeZone; " "; zSubjectZone z; " "; zContext z; " ["; nl; content] in
  sigs ← encode_sigs (zSignatures z);
  Ok (match sigs with
      | [] => sprintf [zone; "]"; nl]
      | [sig] => sprintf [zone; "] ( "; sig; " )"; nl]
      | _ => sprintf [zone; "] ( "; nl; indent4; str_join (nl +:+ indent4) sigs; nl; "  )"; nl]
      end).

(** ** encoder.go *)

Definition bracketed (l : list string) : string := sprintf ["[ "; str_join " " l; " ]"].
Definition encodeCapabilities (caps : list string) : string := bracketed caps.
Definition encodeQueryOptions (qopts : list Z) : string := bracketed (dec <$> qopts).
Definition encodeObjectTypes (objs : list OType) : string := bracketed (dec <$> objs).
Definition encodeQuery (q : QueryName) : string :=
  sprintf [":Q: "; qContext q; " "; qName q; " "; encodeObjectTypes (qTypes q); " "; dec (qExpiration q); " "; encodeQueryOptions (qOptions q)].
Definition encodeNotification (n : Notification) : string :=
  sprintf [":N: "; Token_String (nToken n); " "; dec (nType n); " "; nData n].

Definition EncodeSection (s : AnySection) : outcome string :=
  match s with
  | SecAssertion a => encodeAssertion a (aContext a) (aSubjectZone a) "" true
  | SecShard s => encodeShard s (sContext s) (sSubjectZone s) ""
  | SecPshard s => encodePshard s (pContext s) (pSubjectZone s) ""
  | SecZone z => encodeZone z
  | SecQuery q => Ok (encodeQuery q)
  | SecNotification n => Ok (encodeNotification n)
  end.

Definition Encode (sections : list AnySection) : outcome string :=
  l ← traverse EncodeSection sections; Ok (str_join nl l).

Definition encodeMessage (m : Message) : outcome string :=
  content ← Encode (mContent m);
  Ok (sprintf [":M: "; encodeCapabilities (mCapabilities m); " "; Token_String (mToken m); " ["; nl; content; nl; "]"]).
End Encoder.

(** ** Scanning words *)

(** White space of [bufio.ScanWords], of the ASCII characters. *)
Definition IsSpace (c : Ascii.ascii) : bool :=
  let n := N_of_ascii c in (n =? 32)%N || ((9 <=? n)%N && (n <=? 13)%N).

(** The word that [s] begins with, and the words after it. *)
Fixpoint scan (s : string) : string * list string :=
  match s with
  | EmptyString => ("", [])
  | String c s' =>
      let '(w, ws) := scan s' in
      if IsSpace c then ("", if w =ₛ "" then ws else w :: ws) else (String c w, ws)
  end.
Definition words (s : string) : list string :=
  let '(w, ws) := scan s in if w =ₛ "" then ws else w :: ws.

(** [strconv.Atoi] and [strconv.ParseInt(s, 10, 64)]: a sign, digits, and the range of an
    [int64]. *)
Definition digit (c : Ascii.ascii) : option Z :=
  let n := Z.of_N (N_of_ascii c) in if (48 <=? n) && (n <=? 57) then Some (n - 48) else None.
Fixpoint digits (acc : Z) (s : string) : option Z :=
  match s with
  | EmptyString => Some acc
  | String c s' => d ← digit c; digits (10 * acc + d) s'
  end.
Definition number (s : string) : option Z :=
  let '(sign, ds) :=
    match s with
    | String c s' =>
        if decide (c = "-"%char) then (-1, s') else if decide (c = "+"%char) then (1, s') else (1, s)
    | EmptyString => (1, s)
    end in
  if ds =ₛ "" then None else n ← digits 0 ds; Some (sign * n).
Definition Atoi (s : string) : option Z :=
  n ← number s; if bool_decide (in_int64 n) then Some n else None.
(** The value returned with or without an error. *)
Definition Atoi_value (s : string) : Z :=
  match number s with Some n => Z.max (- 2 ^ 63) (Z.min n MaxInt64) | None => 0 end.

(** *** decoder.go: queries

    The scanner is the list of words from the current one on; at the end [Text] is the
    empty string. *)
Definition Text (ws : list string) : string := default "" (head ws).

(** The loop to the closing bracket, on the words from the current one on; it runs on for ever
    at the end of the input, where the result is [None]. *)
Fixpoint decode_ints (ws : list string) : option (list Z * list string) :=
  match ws with
  | [] => None
  | w :: ws' =>
      if w =ₛ "]" then Some ([], ws)
      else '(l, rest) ← decode_ints ws'; Some (Atoi_value w :: l, rest)
  end.
Definition decodeObjectTypesUnsafe (ws : list string) : option (list OType * list string) := decode_ints (tail ws).
Definition decodeQueryOptionsUnsafe (ws : list string) : option (list Z * list string) := decode_ints (tail ws).

(** [ws] starts at the word before the query. *)
Definition decodeNameQueryUnsafe (ws : list string) : option (QueryName * list string) :=
  let ws := tail ws in
  let context := Text ws in
  let ws := tail ws in
  let name := Text ws in
  let ws := tail ws in
  '(types, ws) ← decodeObjectTypesUnsafe ws;
  let ws := tail ws in
  let expiration := Atoi_value (Text ws) in
  let ws := tail ws in
  '(options, ws) ← decodeQueryOptionsUnsafe ws;
  Some (mkQueryName context name types expiration options 0 0, ws).

(** [for scanner.Scan() { ... }]: a query takes at least one word. *)
Fixpoint decode_queries (fuel : nat) (ws : list string) : option (list QueryName) :=
  match ws, fuel with
  | [], _ => Some []
  | _, O => None
  | _, S fuel' =>
      '(q, ws) ← decodeNameQueryUnsafe ws;
      l ← decode_queries fuel' (tail ws);
      Some (q :: l)
  end.
Definition DecodeNameQueriesUnsafe (encoding : string) : option (list QueryName) :=
  let ws := words encoding in decode_queries (length ws) ws.

(** *** Lines *)

Fixpoint split_lines (s : string) : list string :=
  match s with
  | EmptyString => [""]
  | String c s' =>
      if Ascii.eqb c "010" then "" :: split_lines s'
      else match split_lines s' with
           | [] => [String c EmptyString]
           | l :: ls => String c l :: ls
           end
  end.

(** [bufio.Scanner] gives up at a line that does not fit its buffer.  A carriage return at
    the end of a line is white space for what follows and left in place. *)
Definition maxLine : nat := 65535.
Fixpoint short_lines (ls : list string) : list string :=
  match ls with
  | [] => []
  | l :: ls' => if (maxLine <? String.length l)%nat then [] else l :: short_lines ls'
  end.
Definition scan_lines (s : string) : list string :=
  let ls := split_lines s in
  short_lines (if default "" (last ls) =ₛ "" then take (length ls - 1) ls else ls).

(** [strings.Split(line, ";")[0]] *)
Fixpoint before_semicolon (s : string) : string :=
  match s with
  | EmptyString => EmptyString
  | String c s' => if Ascii.eqb c ";" then EmptyString else String c (before_semicolon s')
  end.

Definition removeComments (zoneFile : string) : list (list string) :=
  (λ l, words (before_semicolon l)) <$> scan_lines zoneFile.

(** ** The lexer *)

Inductive Terminal :=
| assertionType | shardType | pshardType | zoneType
| nameType | ip4Type | ip6Type | scionType | redirType | delegType | namesetType | certType
| srvType | regrType | regtType | infraType | extraType | nextType
| sigType | ed25519Type | unspecified | tls | rhine | trustAnchor | endEntity | zoneAuth
| noHash | sha256 | sha384 | sha512 | shake256 | fnv64 | fnv128
| bloomKM12 | bloomKM16 | bloomKM20 | bloomKM24 | rains
| rangeBegin | rangeEnd | lBracket | rBracket | lParenthesis | rParenthesis.
#[export] Instance Terminal_eq_dec : EqDecision Terminal.
Proof. solve_decision. Defined.

(** A terminal, or [ID] with its string. *)
Inductive Tok := T (t : Terminal) | ID (str : string).
#[export] Instance Tok_eq_dec : EqDecision Tok.
Proof. solve_decision. Defined.

(** The [switch word]. *)
Definition keywords : list (string * Terminal) :=
  [(TypeAssertion, assertionType); (TypeShard, shardType); (TypePshard, pshardType); (TypeZone, zoneType);
   (TypeName, nameType); (TypeIP6, ip6Type); (TypeIP4, ip4Type); (TypeScion, scionType); (TypeRedirection, redirType);
   (TypeDelegation, delegType); (TypeNameSet, namesetType); (TypeCertificate, certType); (TypeServiceInfo, srvType);
   (TypeRegistrar, regrType); (TypeRegistrant, regtType); (TypeInfraKey, infraType); (TypeExternalKey, extraType);
   (TypeNextKey, nextType); (TypeSignature, sigType); (TypeEd25519, ed25519Type); (TypeUnspecified, unspecified);
   (TypePTTLS, tls); (TypePTRhine, rhine); (TypeCUTrustAnchor, trustAnchor); (TypeCUEndEntity, endEntity);
   (TypeCUZoneAuth, zoneAuth); (TypeNoHash, noHash); (TypeSha256, sha256); (TypeSha384, sha384); (TypeSha512, sha512);
   (TypeShake256, shake256); (TypeFnv64, fnv64); (TypeFnv128, fnv128); (TypeKM12, bloomKM12); (TypeKM16, bloomKM16);
   (TypeKM20, bloomKM20); (TypeKM24, bloomKM24); (TypeKSRains, rains); ("<", rangeBegin); (">", rangeEnd);
   ("[", lBracket); ("]", rBracket); ("(", lParenthesis); (")", rParenthesis)].
Definition Lex_word (word : string) : Tok :=
  match list_find (λ p, p.1 = word) keywords with Some (_, (_, t)) => T t | None => ID word end.

Record ZFPLex := mkLex { lines : list (list string); lineNr : Z; linePos : Z }.

(** The loop over empty lines: the first line with words from [nr] on. *)
Fixpoint skip_empty (fuel : nat) (ls : list (list string)) (nr : Z) : Z :=
  match fuel with
  | O => nr
  | S fuel' =>
      match ls !! Z.to_nat nr with
      | Some [] => skip_empty fuel' ls (nr + 1)
      | _ => nr
      end
  end.

(** [None] is the end of the input. *)
Definition Lex (l : ZFPLex) : outcome (option Tok * ZFPLex) :=
  if lineNr l =? Z.of_nat (length (lines l)) then Ok (None, l)
  else
    let nr := skip_empty (length (lines l)) (lines l) (lineNr l) in
    if nr =? Z.of_nat (length (lines l)) then Ok (None, mkLex (lines l) nr (linePos l))
    else
      line ← at_index (lines l) nr;
      word ← at_index line (linePos l);
      let l' := if linePos l =? Z.of_nat (length line) - 1 then mkLex (lines l) (nr + 1) 0
                else mkLex (lines l) nr (linePos l + 1) in
      Ok (Some (Lex_word word), l').

(** The position that [Error] reports: the line, the word and the token, counted from 1;
    [None] at the beginning of the input. *)
Fixpoint back_up (fuel : nat) (l : ZFPLex) : outcome ZFPLex :=
  if (linePos l =? 0) && (0 <? lineNr l) then
    match fuel with
    | O => Ok l
    | S fuel' =>
        line ← at_index (lines l) (lineNr l - 1);
        back_up fuel' (mkLex (lines l) (lineNr l - 1) (Z.of_nat (length line)))
    end
  else Ok l.
Definition Lex_Error (l : ZFPLex) : outcome (ZFPLex * option (Z * Z * string)) :=
  l ← back_up (Z.to_nat (lineNr l)) l;
  if (linePos l =? 0) && (lineNr l =? 0) then Ok (l, None)
  else
    line ← at_index (lines l) (lineNr l);
    word ← at_index line (linePos l - 1);
    Ok (l, Some (lineNr l + 1, linePos l, word)).

(** ** Values of the grammar *)

Definition hex_value (c : Ascii.ascii) : option Z :=
  let n := Z.of_N (N_of_ascii c) in
  if (48 <=? n) && (n <=? 57) then Some (n - 48)
  else if (97 <=? n) && (n <=? 102) then Some (n - 87)
  else if (65 <=? n) && (n <=? 70) then Some (n - 55)
  else None.
(** [hex.DecodeString]: the bytes decoded before an error, and whether there was none. *)
Fixpoint hex_DecodeString (s : string) : list Z * bool :=
  match s with
  | EmptyString => ([], true)
  | String a (String b s') =>
      match hex_value a, hex_value b with
      | Some x, Some y => let '(l, ok) := hex_DecodeString s' in (16 * x + y :: l, ok)
      | _, _ => ([], false)
      end
  | String _ EmptyString => ([], false)
  end.

Definition noPublicKey : PublicKey := mkPublicKey zeroPublicKeyID 0 0 KeyNil.

Definition DecodePublicKeyID (keyphase : string) : outcome PublicKeyID :=
  match Atoi keyphase with
  | Some phase => Ok (mkPublicKeyID Ed25519 RainsKeySpace phase)
  | None => Err "keyphase is not a number"
  end.

Definition DecodeEd25519PublicKeyData (pkeyInput keyphase : string) : outcome PublicKey :=
  publicKeyID ← DecodePublicKeyID keyphase;
  let '(pKey, ok) := hex_DecodeString pkeyInput in
  if negb ok then Err "encoding/hex"
  else if (length pKey =? 32)%nat then Ok (mkPublicKey publicKeyID 0 0 (KeyEd25519 pKey))
  else Err "wrong public key length".

Definition DecodeCertificate (ptype usage : Z) (hashAlgo : HashAlgo) (certificat : string) : outcome Certificate :=
  let '(data, ok) := hex_DecodeString certificat in
  if negb ok then Err "encoding/hex" else Ok (mkCertificate ptype usage hashAlgo data).

(** The second check looks at the port again. *)
Definition DecodeSrv (name portString priorityString : string) : outcome ServiceInfo :=
  match Atoi portString with
  | Some port =>
      if (port <? 0) || (65535 <? port) then Err "Port is not a number or out of range"
      else
        match Atoi priorityString with
        | Some priority =>
            if port <? 0 then Err "Priority is not a number or negative"
            else Ok (mkServiceInfo name (uint16_wrap port) (uint64_wrap priority))
        | None => Err "Priority is not a number or negative"
        end
  | None => Err "Port is not a number or out of range"
  end.

Definition DecodeValidity (validSince validUntil : string) : outcome (Z * Z) :=
  match Atoi validSince with
  | Some vsince =>
      if vsince <? 0 then Err "validSince is not a number or negative"
      else
        match Atoi validUntil with
        | Some vuntil => if vuntil <? 0 then Err "validUntil is not a number or negative" else Ok (vsince, vuntil)
        | None => Err "validUntil is not a number or negative"
        end
  | None => Err "validSince is not a number or negative"
  end.

(** An error of an action is logged; the zero value is used. *)
Definition logged {A} (zero : A) (m : outcome A) : A := match m with Ok a => a | _ => zero end.

Section Grammar.
Context {ZL : ZoneLib}.

(** object.go *)
Definition ParseSCIONAddress (address : string) : outcome SCIONAddress :=
  match snet_ParseUDPAddr address with
  | None => Err "invalid address"
  | Some (ia, ip, port) => if negb (port =? 0) then Err "address without port expected" else Ok (mkSCIONAddress ia ip)
  end.

(** [obj.Value = addr] for a nil address: a nil pointer of the SCION address type. *)
Definition nil_scion : Value := VOther CNil.

(** ** The rules *)

Definition parser (A : Type) : Type := list Tok → option (A * list Tok).
#[export] Instance parser_ret : MRet parser := λ A a ts, Some (a, ts).
#[export] Instance parser_bind : MBind parser := λ A B f p ts, '(a, ts) ← p ts; f a ts.

Definition term (t : Terminal) : parser () :=
  λ ts, match ts with T t' :: ts' => if decide (t' = t) then Some ((), ts') else None | _ => None end.
Definition ident : parser string := λ ts, match ts with ID s :: ts' => Some (s, ts') | _ => None end.
Definition peek : parser (option Tok) := λ ts, Some (head ts, ts).
Definition fail {A} : parser A := λ _, None.
(** A rule with one terminal per alternative. *)
Definition one_of {A} (alts : list (Terminal * A)) : parser A :=
  λ ts, match ts with
        | T t :: ts' => match list_find (λ p, p.1 = t) alts with Some (_, (_, a)) => Some (a, ts') | None => None end
        | _ => None
        end.
(** Repetition of [p] while the next token satisfies [more]; every turn takes a token. *)
Fixpoint many {A} (fuel : nat) (more : Tok → bool) (p : parser A) : parser (list A) :=
  λ ts, match ts with
        | t :: _ =>
            if more t then
              match fuel with
              | O => None
              | S fuel' => '(a, ts) ← p ts; '(l, ts) ← many fuel' more p ts; Some (a :: l, ts)
              end
            else Some ([], ts)
        | [] => Some ([], ts)
        end.
Definition rep {A} (more : Tok → bool) (p : parser A) : parser (list A) := λ ts, many (length ts) more p ts.

Definition is_term (t : Terminal) (tok : Tok) : bool := bool_decide (tok = T t).
Definition is_ident (tok : Tok) : bool := match tok with ID _ => true | _ => false end.

Definition oType_alts : list (Terminal * OType) :=
  [(nameType, OTName); (ip4Type, OTIP4Addr); (ip6Type, OTIP6Addr); (scionType, OTScionAddr); (redirType, OTRedirection);
   (delegType, OTDelegation); (namesetType, OTNameset); (certType, OTCertInfo); (srvType, OTServiceInfo);
   (regrType, OTRegistrar); (regtType, OTRegistrant); (infraType, OTInfraKey); (extraType, OTExtraKey); (nextType, OTNextKey)].
Definition oType : parser OType := one_of oType_alts.
Definition is_oType (tok : Tok) : bool :=
  match tok with T t => bool_decide (t ∈ oType_alts.*1) | _ => false end.
Definition oTypes : parser (list OType) := t ← oType; l ← rep is_oType oType; mret (t :: l).

Definition protocolType : parser Z := one_of [(unspecified, PTUnspecified); (tls, PTTLS); (rhine, PTRhine)].
Definition certUsage' : parser Z := one_of [(trustAnchor, CUTrustAnchor); (endEntity, CUEndEntity); (zoneAuth, CUZoneAuth)].
Definition hashType : parser HashAlgo :=
  one_of [(noHash, NoHashAlgo); (sha256, Sha256); (sha384, Sha384); (sha512, Sha512); (shake256, Shake256); (fnv64, Fnv64); (fnv128, Fnv128)].
Definition bfHash' : parser HashAlgo := one_of [(shake256, Shake256); (fnv64, Fnv64); (fnv128, Fnv128)].
Definition bfAlgo : parser Z := one_of [(bloomKM12, BloomKM12); (bloomKM16, BloomKM16); (bloomKM20, BloomKM20); (bloomKM24, BloomKM24)].
Definition freeText : parser string := s ← ident; l ← rep is_ident ident; mret (foldl (λ s t, s +:+ " " +:+ t) s l).

Definition key_rule : parser PublicKey :=
  term ed25519Type;; phase ← ident; key ← ident;
  mret (logged noPublicKey (DecodeEd25519PublicKeyData key phase)).

(** One function for the fourteen rules of an object. *)
Definition object : parser Object :=
  t ← oType;
  if t =? OTName then
    name ← ident; term lBracket;; types ← oTypes; term rBracket;; mret (mkObject t (VName (mkObjName name types)))
  else if (t =? OTIP6Addr) || (t =? OTIP4Addr) then s ← ident; mret (mkObject t (VIP (default [] (ParseIP s))))
  else if t =? OTScionAddr then
    s ← ident; mret (mkObject t (match ParseSCIONAddress s with Ok sa => VScion sa | _ => nil_scion end))
  else if t =? OTRedirection then s ← ident; mret (mkObject t (VString s))
  else if (t =? OTDelegation) || (t =? OTInfraKey) || (t =? OTExtraKey) then pkey ← key_rule; mret (mkObject t (VPublicKey pkey))
  else if (t =? OTNameset) || (t =? OTRegistrar) || (t =? OTRegistrant) then s ← freeText; mret (mkObject t (VString s))
  else if t =? OTCertInfo then
    pt ← protocolType; cu ← certUsage'; h ← hashType; s ← ident;
    mret (mkObject t (VCertificate (logged (mkCertificate 0 0 0 []) (DecodeCertificate pt cu h s))))
  else if t =? OTServiceInfo then
    name ← ident; port ← ident; priority ← ident;
    mret (mkObject t (VServiceInfo (logged (mkServiceInfo "" 0 0) (DecodeSrv name port priority))))
  else
    pkey ← key_rule; since ← ident; until ← ident;
    let '(vs, vu) := logged (0, 0) (DecodeValidity since until) in
    mret (mkObject t (VPublicKey (mkPublicKey (pkID pkey) vs vu (pkKey pkey)))).

Definition objects : parser (list Object) := o ← object; l ← rep is_oType object; mret (o :: l).

Definition signatureMeta : parser Sig :=
  term sigType;; term ed25519Type;; term rains;; phase ← ident; since ← ident; until ← ident;
  let '(vs, vu) := logged (0, 0) (DecodeValidity since until) in
  mret (mkSig (logged zeroPublicKeyID (DecodePublicKeyID phase)) vs vu DataNil false).
Definition signature : parser Sig :=
  sig ← signatureMeta;
  tok ← peek;
  match tok with
  | Some (ID _) =>
      s ← ident;
      mret (mkSig (sigPublicKeyID sig) (sigValidSince sig) (sigValidUntil sig) (DataBytes (hex_DecodeString s).1) false)
  | _ => mret sig
  end.
Definition annotationBody : parser (list Sig) := s ← signature; l ← rep (is_term sigType) signature; mret (s :: l).
(** The optional [annotation] behind a section. *)
Definition annotation : parser (list Sig) :=
  tok ← peek;
  if bool_decide (tok = Some (T lParenthesis))
  then term lParenthesis;; sigs ← annotationBody; term rParenthesis;; mret sigs
  else mret [].

Definition assertionBody : parser Assertion :=
  term assertionType;; name ← ident;
  tok ← peek;
  match tok with
  | Some (ID _) =>
      zone ← ident; context ← ident;
      term lBracket;; content ← objects; term rBracket;; mret (mkAssertion [] name zone context content 0 0 false)
  | _ => term lBracket;; content ← objects; term rBracket;; mret (mkAssertion [] name "" "" content 0 0 false)
  end.
Definition assertion : parser Assertion :=
  a ← assertionBody; sigs ← annotation; mret (foldl Assertion_AddSig a sigs).
Definition content_rule : parser (list Assertion) := rep (is_term assertionType) assertion.

Definition shardRange : parser (string * string) :=
  let bound t w := (tok ← peek; if bool_decide (tok = Some (T t)) then term t;; mret w else ident) in
  from ← bound rangeBegin "<"; to ← bound rangeEnd ">"; mret (from, to).

Definition shard : parser Shard :=
  term shardType;; zone ← ident; context ← ident; '(from, to) ← shardRange;
  term lBracket;; content ← content_rule; term rBracket;; sigs ← annotation;
  mret (foldl Shard_AddSig (mkShard [] zone context from to content 0 0 false) sigs).
Definition pshard : parser Pshard :=
  term pshardType;; zone ← ident; context ← ident; '(from, to) ← shardRange;
  algo ← bfAlgo; hash ← bfHash'; filter ← ident; sigs ← annotation;
  mret (foldl Pshard_AddSig (mkPshard [] zone context from to (mkBloomFilter algo hash (hex_DecodeString filter).1) 0 0 false) sigs).
Definition zone : parser Zone :=
  term zoneType;; zone ← ident; context ← ident;
  term lBracket;; content ← content_rule; term rBracket;; sigs ← annotation;
  mret (foldl Zone_AddSig (mkZone [] zone context content 0 0 false) sigs).

Definition section : parser SigSection :=
  tok ← peek;
  match tok with
  | Some (T assertionType) => a ← assertion; mret (WAssertion a)
  | Some (T shardType) => s ← shard; mret (WShard s)
  | Some (T pshardType) => s ← pshard; mret (WPshard s)
  | Some (T zoneType) => z ← zone; mret (WZone z)
  | _ => fail
  end.
Definition is_section (tok : Tok) : bool := existsb (λ t, is_term t tok) [assertionType; shardType; pshardType; zoneType].
(** The sections up to the first token that starts none; [None] if a section is malformed. *)
Definition sections : parser (list SigSection) := rep is_section section.

(** The tokens that the parser reads: [Lex] until the end. *)
Definition tokens (zoneFile : string) : list Tok := Lex_word <$> concat (removeComments zoneFile).

(** [parse] with the variable [output].  It is written when the sections end, before the
    token behind them is looked at, and the result of the parser is not used: the tokens
    behind the sections do not matter. *)
Definition parse (zoneFile : string) (output : list SigSection) : list SigSection * outcome (list SigSection) :=
  let output := match sections (tokens zoneFile) with Some (l, _) => l | None => output end in
  (output, if bool_decide (output = []) then Err "zonefile malformed. Was not able to parse it." else Ok output).
End Grammar.
