(* ===== verification/ZoneFileFacts.v ===== *)
(** * Theorems about zone files

    What is printed is read back: queries, and sections up to the open ends of ranges and
    the type of name sets.  The words of a printed text are followed through the scanner, the
    lexer and the rules of the grammar. *)

From S2P Require Import Prelude Cbor Keys Object Query BitArray BloomFilter Section Message Siglib ConnectionCache Server Connection ZoneFile.
Local Open Scope string_scope.
Local Open Scope Z_scope.

(** ** Words of a text *)

Definition starts_blank (s : string) : bool := match s with EmptyString => true | String c _ => IsSpace c end.
Fixpoint ends_blank (s : string) : bool :=
  match s with
  | EmptyString => false
  | String c EmptyString => IsSpace c
  | String _ s' => ends_blank s'
  end.

(** A non-empty string without white space. *)
Fixpoint spaceless (s : string) : bool :=
  match s with EmptyString => true | String c s' => negb (IsSpace c) && spaceless s' end.
Definition word (s : string) : Prop := s ≠ "" ∧ spaceless s = true.

Lemma words_space c s : IsSpace c = true → words (String c s) = words s.
Proof. intros H. unfold words. cbn. destruct (scan s) as [w ws]. by rewrite H. Qed.
Lemma scan_space c s : IsSpace c = true → scan (String c s) = ("", words s).
Proof. intros H. unfold words. cbn. destruct (scan s) as [w ws]. by rewrite H. Qed.
Lemma scan_blank s : starts_blank s = true → scan s = ("", words s).
Proof. destruct s as [|c s]; [done|]. intros H. rewrite words_space by done. by apply scan_space. Qed.

Lemma scan_app s t : starts_blank t = true → scan (s +:+ t) = ((scan s).1, ((scan s).2 ++ words t)%list).
Proof.
  intros Ht. induction s as [|c s IH]; [change ("" +:+ t) with t; by rewrite (scan_blank t Ht)|]. rewrite str_app_cons. cbn. rewrite IH.
  destruct (scan s) as [w ws]. cbn. destruct (IsSpace c); [|done]. by destruct (w =ₛ "").
Qed.
Lemma words_app_r s t : starts_blank t = true → words (s +:+ t) = (words s ++ words t)%list.
Proof. intros Ht. unfold words at 1 2. rewrite scan_app by done. destruct (scan s) as [w ws]. cbn. by destruct (w =ₛ ""). Qed.
Lemma ends_blank_split s : ends_blank s = true → ∃ s' c, s = s' +:+ String c "" ∧ IsSpace c = true.
Proof.
  induction s as [|c s IH]; [done|]. intros H. destruct s as [|d s]; [by exists "", c|].
  destruct (IH H) as (s' & e & -> & He). by exists (String c s'), e.
Qed.
Lemma words_app_l s t : ends_blank s = true → words (s +:+ t) = (words s ++ words t)%list.
Proof.
  intros (s' & c & -> & Hc)%ends_blank_split. rewrite str_app_assoc, !words_app_r by done.
  change (String c "" +:+ t) with (String c t). rewrite !words_space by done. rewrite (words_app_r s' (String c "")), words_space by done. by rewrite app_nil_r.
Qed.

Lemma words_word w : word w → words w = [w].
Proof.
  intros [Hne Hw]. assert (scan w = (w, [])) as E.
  { clear Hne. induction w as [|c w IH]; [done|]. cbn in Hw |- *. apply andb_true_iff in Hw as [Hc Hw].
    rewrite IH by done. by destruct (IsSpace c). }
  unfold words. rewrite E. by rewrite str_eqb_neq.
Qed.

(** A piece of a printed text: it is empty, or white space separates it from the rest. *)
Lemma words_cons p ps :
  p = "" ∨ ends_blank p = true ∨ starts_blank (sprintf ps) = true → words (sprintf (p :: ps)) = (words p ++ words (sprintf ps))%list.
Proof. intros [->|[H|H]]; [done|by apply words_app_l|by apply words_app_r]. Qed.

Lemma words_join sep l : words sep = [] → starts_blank sep = true → ends_blank sep = true →
  words (str_join sep l) = concat (words <$> l).
Proof.
  intros Hs H1 H2. induction l as [|x l IH]; [done|]. destruct l as [|y l]; [cbn; by rewrite app_nil_r|].
  change (str_join sep (x :: y :: l)) with (x +:+ sep +:+ str_join sep (y :: l)).
  destruct sep as [|c sep]; [done|]. rewrite words_app_r by done. rewrite words_app_l by done. by rewrite Hs, IH.
Qed.

Lemma split_lines_cons s : ∃ l ls, split_lines s = l :: ls.
Proof. destruct s as [|c s]; cbn; [by eauto|]. destruct (Ascii.eqb c "010"); [by eauto|]. destruct (split_lines s); by eauto. Qed.
Lemma join_lines s : str_join nl (split_lines s) = s.
Proof.
  induction s as [|c s IH]; [done|]. cbn [split_lines]. destruct (split_lines_cons s) as (l & ls & E). rewrite E in *.
  destruct (Ascii.eqb_spec c "010") as [->|Hc].
  - change (str_join nl ("" :: l :: ls)) with (nl +:+ str_join nl (l :: ls)). by rewrite IH.
  - rewrite <-IH. by destruct ls.
Qed.
Lemma words_lines s : concat (words <$> split_lines s) = words s.
Proof. rewrite <-(join_lines s) at 2. by rewrite words_join. Qed.

(** A text that the scanners read as it is: no comment, and no line too long for them. *)
Definition plain (s : string) : Prop := no_char ";" s ∧ Forall (λ l, String.length l ≤ maxLine)%nat (split_lines s).

Lemma before_semicolon_id s : no_char ";" s → before_semicolon s = s.
Proof. induction s as [|c s IH]; [done|]. intros [Hc Hs]. cbn. destruct (Ascii.eqb_spec c ";"); [done|]. by rewrite IH. Qed.
Lemma short_lines_all ls : Forall (λ l, String.length l ≤ maxLine)%nat ls → short_lines ls = ls.
Proof.
  induction 1 as [|l ls Hl _ IH]; [done|]. cbn [short_lines]. destruct (Nat.ltb_spec maxLine (String.length l)); [lia|by rewrite IH].
Qed.
Lemma split_lines_no_char c s : no_char c s → Forall (no_char c) (split_lines s).
Proof.
  induction s as [|d s IH]; intros H; [by repeat constructor|]. cbn in H |- *. destruct H as [Hd H]. specialize (IH H).
  destruct (Ascii.eqb d "010"); [by constructor|]. destruct (split_lines_cons s) as (l & ls & E). rewrite E in *.
  apply Forall_cons in IH as [Hl Hls]. by constructor.
Qed.

Lemma scan_lines_plain s : plain s → concat ((λ l, words (before_semicolon l)) <$> scan_lines s) = words s.
Proof.
  intros [Hc Hl]. rewrite <-(words_lines s). unfold scan_lines. set (ls := split_lines s) in *.
  assert (Forall (no_char ";") ls) as Hn by by apply split_lines_no_char.
  assert (∀ k, Forall (no_char ";") k → (λ l, words (before_semicolon l)) <$> k = words <$> k) as Hw.
  { induction 1 as [|l k Hl' _ IH]; [done|]. cbn. by rewrite before_semicolon_id, IH. }
  destruct (default "" (last ls) =ₛ "") eqn:E.
  - rewrite short_lines_all, Hw by by apply Forall_take. destruct (last ls) as [x|] eqn:Ex.
    + cbn in E. apply String.eqb_eq in E as ->. apply last_Some in Ex as [k Ek]. rewrite Ek, length_app, Nat.add_sub, take_app_length.
      by rewrite fmap_app, concat_app, app_nil_r.
    + apply last_None in Ex. by rewrite Ex.
  - by rewrite short_lines_all, Hw.
Qed.

Lemma tokens_plain s : plain s → tokens s = Lex_word <$> words s.
Proof. intros H. unfold tokens, removeComments. by rewrite scan_lines_plain. Qed.

(** ** Numbers and bytes *)

Lemma spaceless_all_chars P s : all_chars P s → (∀ c, P c → IsSpace c = false) → spaceless s = true.
Proof. induction s as [|c s IH]; [done|]. intros [Hc Hs] H. cbn. rewrite (H c Hc). by apply IH. Qed.

Lemma digits_pretty x : ∃ k, ∀ acc s, digits acc (pretty_N_go x s) = digits (acc * k + Z.of_N x) s.
Proof.
  induction (N.lt_wf_0 x) as [x _ IH]. destruct (decide (0 < x)%N) as [Hx|Hx].
  - destruct (IH (x / 10)%N) as [k Hk]; [apply N.div_lt; lia|]. exists (10 * k). intros acc s.
    rewrite pretty_N_go_step, Hk by done. cbn [digits].
    assert (digit (pretty_N_char (x `mod` 10)) = Some (Z.of_N (x `mod` 10))) as ->.
    { assert (x `mod` 10 < 10)%N as Hm by (apply N.mod_lt; lia). revert Hm. generalize (x `mod` 10)%N. intros y Hy.
      assert (y = 0 ∨ y = 1 ∨ y = 2 ∨ y = 3 ∨ y = 4 ∨ y = 5 ∨ y = 6 ∨ y = 7 ∨ y = 8 ∨ y = 9)%N as Hc by lia.
      repeat destruct Hc as [->|Hc]; try subst; reflexivity. }
    cbn [mbind option_bind]. f_equal. rewrite N2Z.inj_mod, N2Z.inj_div. pose proof (Z.div_mod (Z.of_N x) 10). lia.
  - exists 1. intros acc s. assert (x = 0%N) as -> by lia. rewrite pretty_N_go_0. f_equal. lia.
Qed.

Lemma digits_nat n : digits 0 (pretty (N.pos n)) = Some (Zpos n).
Proof.
  unfold pretty, pretty_N. rewrite decide_False by done. destruct (digits_pretty (N.pos n)) as [k ->]. done.
Qed.

Lemma number_digits s n : s ≠ "" → digits 0 s = Some n → number s = Some n.
Proof.
  intros Hne H. unfold number. destruct s as [|c s]; [done|]. cbn in H.
  destruct (decide (c = "-"%char)) as [->|]; [done|]. destruct (decide (c = "+"%char)) as [->|]; [done|].
  cbn [String.eqb]. cbn. rewrite H. cbn. by destruct n.
Qed.

Lemma pretty_pos_nonempty n : pretty (N.pos n) ≠ "".
Proof. intros H. pose proof (digits_nat n) as E. rewrite H in E. done. Qed.

Lemma number_dec z : number (dec z) = Some z.
Proof.
  unfold dec. destruct z as [|p|p]; [done|by apply number_digits; [apply pretty_pos_nonempty|apply digits_nat]|].
  change (pretty (Zneg p)) with (String "-" (pretty (N.pos p))). unfold number. rewrite decide_True by done.
  rewrite str_eqb_neq by apply pretty_pos_nonempty. by rewrite digits_nat.
Qed.
Lemma Atoi_dec z : in_int64 z → Atoi (dec z) = Some z.
Proof. intros H. unfold Atoi. rewrite number_dec. cbn. by rewrite bool_decide_eq_true_2. Qed.
Lemma Atoi_value_dec z : in_int64 z → Atoi_value (dec z) = z.
Proof. unfold in_int64, Atoi_value, MaxInt64. rewrite number_dec. lia. Qed.

Lemma word_dec z : word (dec z).
Proof.
  split; [intros H; pose proof (number_dec z) as E; by rewrite H in E|].
  eapply spaceless_all_chars; [apply dec_chars|]. intros c [->|Hc]; [done|]. unfold IsSpace.
  destruct (N.eqb_spec (N_of_ascii c) 32), (N.leb_spec 9 (N_of_ascii c)), (N.leb_spec (N_of_ascii c) 13); try done; lia.
Qed.

Definition byte (z : Z) : Prop := 0 ≤ z < 256.

Lemma hex_digit_value n : 0 ≤ n < 16 → hex_value (hex_digit n) = Some n ∧ IsSpace (hex_digit n) = false.
Proof.
  intros H. assert (n = 0 ∨ n = 1 ∨ n = 2 ∨ n = 3 ∨ n = 4 ∨ n = 5 ∨ n = 6 ∨ n = 7 ∨ n = 8 ∨ n = 9 ∨ n = 10 ∨ n = 11 ∨
    n = 12 ∨ n = 13 ∨ n = 14 ∨ n = 15) as Hc by lia. repeat destruct Hc as [->|Hc]; try subst; split; reflexivity.
Qed.
Lemma byte_digits z : byte z → 0 ≤ z / 16 < 16 ∧ 0 ≤ z mod 16 < 16.
Proof. unfold byte. intros H. split; [split; [apply Z.div_pos|apply Z.div_lt_upper_bound]; lia|apply Z.mod_pos_bound; lia]. Qed.

Lemma hex_roundtrip b : Forall byte b → hex_DecodeString (hex_EncodeToString b) = (b, true).
Proof.
  induction 1 as [|z b Hz _ IH]; [done|]. cbn. destruct (byte_digits z Hz) as [H1 H2].
  rewrite (proj1 (hex_digit_value _ H1)), (proj1 (hex_digit_value _ H2)), IH. f_equal. f_equal. pose proof (Z.div_mod z 16). lia.
Qed.
Lemma word_hex b : b ≠ [] → Forall byte b → word (hex_EncodeToString b).
Proof.
  intros Hne H. split; [by destruct b|]. clear Hne. induction H as [|z b Hz _ IH]; [done|]. cbn.
  destruct (byte_digits z Hz) as [H1 H2]. by rewrite (proj2 (hex_digit_value _ H1)), (proj2 (hex_digit_value _ H2)).
Qed.

(** ** Queries *)

(** The pieces of a printed text, one after the other. *)
Ltac split_words :=
  repeat (rewrite words_cons by
    (first [left; reflexivity|right; left; reflexivity|right; right; reflexivity]));
  change (words (sprintf [])) with (@nil string).

Lemma words_bracketed l : words (bracketed l) = ("[" :: concat (words <$> l) ++ ["]"])%list.
Proof. unfold bracketed. split_words. rewrite words_join by done. done. Qed.

Lemma concat_words l : Forall word l → concat (words <$> l) = l.
Proof. induction 1 as [|w l Hw _ IH]; [done|]. cbn. by rewrite words_word, IH. Qed.
Lemma words_ints l : concat (words <$> (dec <$> l)) = dec <$> l.
Proof. apply concat_words, Forall_fmap, Forall_forall. intros z _. apply word_dec. Qed.

Record printable_query (q : QueryName) : Prop := {
  pq_context : word (qContext q);
  pq_name : word (qName q);
  pq_types : Forall in_int64 (qTypes q);
  pq_expiration : in_int64 (qExpiration q);
  pq_options : Forall in_int64 (qOptions q);
  pq_rest : qKeyPhase q = 0 ∧ qCurrentTime q = 0
}.

Definition query_words (q : QueryName) : list string :=
  ([":Q:"; qContext q; qName q; "["] ++ (dec <$> qTypes q) ++ ["]"; dec (qExpiration q); "["] ++ (dec <$> qOptions q) ++ ["]"])%list.

Lemma words_query q : printable_query q → words (encodeQuery q) = query_words q.
Proof.
  intros [H1 H2 _ _ _ _]. unfold encodeQuery, encodeObjectTypes, encodeQueryOptions. split_words.
  change (words ":Q: ") with [":Q:"]. change (words " ") with (@nil string).
  rewrite !words_bracketed, !words_ints, !words_word by (done || apply word_dec). unfold query_words. cbn. by rewrite <-!app_assoc.
Qed.

Lemma decode_ints_spec l rest : Forall in_int64 l → decode_ints ((dec <$> l) ++ "]" :: rest)%list = Some (l, "]" :: rest).
Proof.
  induction 1 as [|z l Hz _ IH]; [done|]. cbn. rewrite IH. rewrite Atoi_value_dec by done.
  destruct (String.eqb_spec (dec z) "]") as [E|]; [|done]. pose proof (number_dec z) as En. by rewrite E in En.
Qed.

Lemma decode_query_spec q rest : printable_query q →
  decodeNameQueryUnsafe (query_words q ++ rest) = Some (q, "]" :: rest).
Proof.
  intros [_ _ H3 H4 H5 [H6 H7]]. unfold decodeNameQueryUnsafe, decodeObjectTypesUnsafe, decodeQueryOptionsUnsafe, query_words.
  rewrite <-!app_assoc. cbn [tail app Text head default]. rewrite decode_ints_spec by done. cbn [mbind option_bind tail Text head default].
  cbn. rewrite decode_ints_spec by done. cbn. rewrite Atoi_value_dec by done. destruct q. cbn in *. by subst.
Qed.

Lemma decode_queries_spec qs : Forall printable_query qs → ∀ fuel, (length qs ≤ fuel)%nat →
  decode_queries fuel (concat (query_words <$> qs)) = Some qs.
Proof.
  induction 1 as [|q qs Hq _ IH]; intros fuel Hf; [by destruct fuel|]. destruct fuel as [|fuel]; [cbn in Hf; lia|].
  cbn [fmap list_fmap concat]. pose proof (decode_query_spec q (concat (query_words <$> qs)) Hq) as E.
  unfold decode_queries. fold decode_queries. destruct (query_words q ++ concat (query_words <$> qs))%list eqn:Ew; [done|].
  rewrite E. cbn. cbn in Hf. by rewrite IH by lia.
Qed.

(** Queries survive printing and reading.  The reader of queries inverts [Encode] on
    them; on an input whose bracket is not closed it runs for ever, where its documentation
    promises a panic. *)
Theorem queries_roundtrip `{!AddrLib, !ZoneLib} qs :
  Forall printable_query qs →
  (∃ text, Encode (SecQuery <$> qs) = Ok text ∧ DecodeNameQueriesUnsafe text = Some qs) ∧
  (∀ context name types, Forall word (context :: name :: types) → "]" ∉ types →
     DecodeNameQueriesUnsafe (str_join " " ([":Q:"; context; name; "["] ++ types)%list) = None).
Proof.
  intros Hq. split.
  - exists (str_join nl (encodeQuery <$> qs)). split.
    + unfold Encode. assert (traverse EncodeSection (SecQuery <$> qs) = Ok (encodeQuery <$> qs)) as ->; [|done].
      apply (traverse_map EncodeSection SecQuery). apply Forall_forall. done.
    + unfold DecodeNameQueriesUnsafe. rewrite words_join by done.
      assert (words <$> (encodeQuery <$> qs) = query_words <$> qs) as ->.
      { rewrite <-list_fmap_compose. apply list_fmap_ext. intros i q Hi. apply words_query. by eapply Forall_lookup_1. }
      apply decode_queries_spec; [done|]. clear. induction qs as [|q qs IH]; [done|]. cbn. rewrite length_app. lia.
  - intros context name types Hw Hb. unfold DecodeNameQueriesUnsafe. rewrite words_join by done.
    apply Forall_cons in Hw as [Hc Hw]. apply Forall_cons in Hw as [Hn Ht].
    rewrite concat_words by (repeat constructor; try done; by apply Hc || apply Hn). cbn.
    unfold decodeNameQueryUnsafe, decodeObjectTypesUnsafe. cbn.
    assert (decode_ints types = None) as ->; [|done]. clear -Hb. induction types as [|t types IH]; [done|]. cbn.
    rewrite str_eqb_neq by set_solver. by rewrite IH by set_solver.
Qed.

(** ** The lexer *)

(** Between calls: a position in front of a line, or inside one that has words left. *)
Definition lex_ok (l : ZFPLex) : Prop :=
  0 ≤ lineNr l ≤ Z.of_nat (length (lines l)) ∧
  (linePos l = 0 ∨ ∃ line, lines l !! Z.to_nat (lineNr l) = Some line ∧ 0 < linePos l < Z.of_nat (length line)).
(** The words that are left. *)
Definition lex_rest (l : ZFPLex) : list string :=
  drop (Z.to_nat (linePos l)) (concat (drop (Z.to_nat (lineNr l)) (lines l))).

Lemma at_index_Some {A} (l : list A) i x : l !! i = Some x → at_index l (Z.of_nat i) = Ok x.
Proof. intros H. unfold at_index. rewrite decide_True by lia. by rewrite Nat2Z.id, H. Qed.

Lemma skip_empty_spec ls k fuel : (length ls ≤ k + fuel)%nat → (k ≤ length ls)%nat →
  ∃ k', skip_empty fuel ls (Z.of_nat k) = Z.of_nat k' ∧ (k ≤ k' ≤ length ls)%nat ∧ concat (drop k ls) = concat (drop k' ls) ∧
    (k' = length ls ∨ ∃ line, ls !! k' = Some line ∧ line ≠ []) ∧ (∀ line, ls !! k = Some line → line ≠ [] → k' = k).
Proof.
  revert k. induction fuel as [|fuel IH]; intros k Hf Hk.
  - assert (k = length ls) by lia. subst. exists (length ls). cbn. split_and!; try done || lia.
  - cbn [skip_empty]. rewrite Nat2Z.id. destruct (ls !! k) as [[|w line]|] eqn:E.
    + apply lookup_lt_Some in E as Hl. destruct (IH (S k)) as (k' & E1 & H1 & H2 & H3 & _); [lia..|].
      exists k'. replace (Z.of_nat k + 1) with (Z.of_nat (S k)) by lia. split_and!; try done || lia.
      * rewrite (drop_S _ _ _ E). exact H2.
      * intros line [= <-]. done.
    + apply lookup_lt_Some in E as Hl. exists k. split_and!; try done || lia. right. by eexists.
    + apply lookup_ge_None in E. exists k. split_and!; try done || lia.
Qed.

Lemma drop_concat_cons {A} (line : list A) ls w n : line !! n = Some w → drop n (line ++ concat ls) = w :: drop (S n) line ++ concat ls.
Proof.
  intros H. apply lookup_lt_Some in H as Hl. rewrite drop_app_le by lia. by rewrite (drop_S _ _ _ H).
Qed.

Lemma Lex_spec l : lex_ok l → ∃ l', Lex l = Ok (Lex_word <$> head (lex_rest l), l') ∧ lex_ok l' ∧ lex_rest l' = tail (lex_rest l).
Proof.
  destruct l as [ls nr pos]. intros [Hnr Hpos]. cbn in Hnr, Hpos. unfold Lex, lex_rest. cbn [lines lineNr linePos].
  assert (∃ k, nr = Z.of_nat k) as [k ->] by (exists (Z.to_nat nr); lia). rewrite Nat2Z.id in *.
  destruct (Z.eqb_spec (Z.of_nat k) (Z.of_nat (length ls))) as [E|E].
  { exists (mkLex ls (Z.of_nat k) pos). rewrite (drop_ge ls) by lia. cbn [concat].
    assert (drop (Z.to_nat pos) (@nil string) = []) as Hd by by destruct (Z.to_nat pos).
    unfold lex_ok, lex_rest. cbn [lines lineNr linePos]. rewrite Nat2Z.id, (drop_ge ls), Hd by lia. split_and!; [done|lia|lia|done|].
    cbn [concat]. by rewrite Hd. }
  destruct (skip_empty_spec ls k (length ls)) as (k' & -> & H1 & H2 & H3 & H4); [lia..|].
  assert (linePos_ok : 0 ≤ pos) by (destruct Hpos as [->|(? & _ & ?)]; lia).
  destruct (Z.eqb_spec (Z.of_nat k') (Z.of_nat (length ls))) as [E'|E'].
  { assert (pos = 0) as -> by (destruct Hpos as [?|(line & El & ?)]; [done|rewrite (H4 line El) in E' by (intros ->; cbn in *; lia); lia]).
    rewrite H2, (drop_ge ls) by lia. eexists. split_and!; [reflexivity| |].
    - split; cbn; [lia|by left].
    - unfold lex_rest. cbn. by rewrite Nat2Z.id, (drop_ge ls) by lia. }
  destruct H3 as [?|(line & El & Hne)]; [lia|]. rewrite (at_index_Some _ _ _ El). cbn [mbind outcome_bind].
  assert (Z.to_nat pos < length line)%nat as Hlt.
  { destruct Hpos as [->|(line' & El' & Hp)]; [by destruct line; cbn; [|lia]|]. rewrite (H4 line' El') in El by (intros ->; cbn in Hp; lia).
    rewrite El' in El. injection El as ->. lia. }
  destruct (lookup_lt_is_Some_2 line _ Hlt) as [w Hw]. rewrite <-(Z2Nat.id pos) by lia. rewrite (at_index_Some _ _ _ Hw). cbn [mbind outcome_bind].
  rewrite H2, (drop_S _ _ _ El). cbn [concat]. rewrite Nat2Z.id, (drop_concat_cons _ _ _ _ Hw). eexists. split; [reflexivity|].
  destruct (Z.eqb_spec (Z.of_nat (Z.to_nat pos)) (Z.of_nat (length line) - 1)) as [Ep|Ep]; unfold lex_ok, lex_rest; cbn [lines lineNr linePos tail].
  - split; [split; [lia|by left]|]. replace (Z.to_nat (Z.of_nat k' + 1)) with (S k') by lia. by rewrite drop_0, (drop_ge line) by lia.
  - split; [split; [lia|right; exists line; rewrite Nat2Z.id; split; [done|lia]]|].
    rewrite Nat2Z.id, (drop_S _ _ _ El). cbn [concat]. replace (Z.to_nat (Z.of_nat (Z.to_nat pos) + 1)) with (S (Z.to_nat pos)) by lia.
    by rewrite drop_app_le by lia.
Qed.

Lemma back_up_spec ls k : (k ≤ length ls)%nat → ∃ l, back_up k (mkLex ls (Z.of_nat k) 0) = Ok l ∧ lines l = ls ∧
  (lineNr l = 0 ∧ linePos l = 0 ∨ ∃ line, ls !! Z.to_nat (lineNr l) = Some line ∧ 0 ≤ lineNr l ∧ 0 < linePos l ≤ Z.of_nat (length line)).
Proof.
  induction k as [|k IH]; intros Hk; [eexists; split; [reflexivity|]; cbn; auto|].
  destruct (lookup_lt_is_Some_2 ls k) as [line El]; [lia|]. cbn -[Z.of_nat]. destruct (Z.ltb_spec 0 (Z.of_nat (S k))); [|lia].
  replace (Z.of_nat (S k) - 1) with (Z.of_nat k) by lia. rewrite (at_index_Some _ _ _ El). cbn [mbind outcome_bind].
  destruct line as [|w line]; [apply IH; lia|]. exists (mkLex ls (Z.of_nat k) (Z.of_nat (length (w :: line)))). split_and!; [by destruct k|done|].
  right. exists (w :: line). cbn [lineNr linePos]. rewrite Nat2Z.id. split_and!; [done|lia|cbn; lia|lia].
Qed.

Lemma Lex_Error_ok l : lex_ok l → ∃ r, Lex_Error l = Ok r.
Proof.
  destruct l as [ls nr pos]. intros [Hnr Hpos]. cbn in Hnr, Hpos. unfold Lex_Error. cbn [lineNr].
  assert (∃ l, back_up (Z.to_nat nr) (mkLex ls nr pos) = Ok l ∧ lines l = ls ∧
    (lineNr l = 0 ∧ linePos l = 0 ∨ ∃ line, ls !! Z.to_nat (lineNr l) = Some line ∧ 0 ≤ lineNr l ∧ 0 < linePos l ≤ Z.of_nat (length line)))
    as (l & -> & E & H).
  { destruct Hpos as [->|(line & El & Hp)].
    - replace (mkLex ls nr 0) with (mkLex ls (Z.of_nat (Z.to_nat nr)) 0) by (f_equal; lia). apply back_up_spec. lia.
    - exists (mkLex ls nr pos). destruct (Z.eqb_spec pos 0) as [|Hn]; [lia|]. split_and!; [|done|right; exists line; cbn; split_and!; try done || lia].
      destruct (Z.to_nat nr); cbn; by destruct (Z.eqb_spec pos 0); [lia|]. }
  cbn [mbind outcome_bind]. destruct H as [[E1 E2]|(line & El & H1 & H2)].
  - rewrite E1, E2. cbn. by eexists.
  - destruct (Z.eqb_spec (linePos l) 0); [lia|]. cbn [andb]. rewrite E. pose proof (at_index_Some _ _ _ El) as Ei.
    rewrite Z2Nat.id in Ei by lia. rewrite Ei. cbn [mbind outcome_bind].
    destruct (lookup_lt_is_Some_2 line (Z.to_nat (linePos l - 1))) as [w Hw]; [lia|].
    rewrite <-(Z2Nat.id (linePos l - 1)) by lia. rewrite (at_index_Some _ _ _ Hw). by eexists.
Qed.

(** The first [n] calls of [Lex]. *)
Fixpoint lex_calls (n : nat) (l : ZFPLex) : outcome (list (option Tok) * ZFPLex) :=
  match n with
  | O => Ok ([], l)
  | S n' => '(t, l) ← Lex l; '(ts, l) ← lex_calls n' l; Ok (t :: ts, l)
  end.

(** The lexer never reads outside the lines.  On every input, the calls of [Lex] give the
    tokens of the file one after the other and then the end of input, without a panic, and
    [Error] can report a position after any number of calls. *)
Theorem lexer_spec zoneFile n :
  ∃ l, lex_calls n (mkLex (removeComments zoneFile) 0 0) = Ok ((λ i, tokens zoneFile !! i) <$> seq 0 n, l) ∧ ∃ r, Lex_Error l = Ok r.
Proof.
  assert (∀ n l, lex_ok l → ∃ l', lex_calls n l = Ok ((λ i, (Lex_word <$> lex_rest l) !! i) <$> seq 0 n, l') ∧ lex_ok l') as H.
  { clear. induction n as [|n IH]; intros l Hl; [by eexists|]. cbn. destruct (Lex_spec l Hl) as (l1 & -> & Hl1 & Hr). cbn [mbind outcome_bind].
    destruct (IH l1 Hl1) as (l2 & -> & Hl2). exists l2. split; [|done]. cbn. rewrite Hr. do 2 f_equal. f_equal.
    - by destruct (lex_rest l).
    - rewrite <-seq_shift, <-list_fmap_compose. apply list_fmap_ext. intros i x _. by destruct (lex_rest l). }
  destruct (H n (mkLex (removeComments zoneFile) 0 0)) as (l & E & Hl); [split; cbn; [lia|by left]|].
  exists l. split; [exact E|by apply Lex_Error_ok].
Qed.
