(* ===== verification/ZoneFileRoundtrip.v ===== *)
(** * Sections survive printing and parsing

    The words of every printed section and what the rules of the grammar make of them: printing
    and parsing sections, a zone file as an example, and what the parser gets wrong. *)

From S2P Require Import Prelude Cbor Keys Object Query BitArray BloomFilter Section Message Siglib ConnectionCache Server Connection ZoneFile ZoneFileFacts.
Local Open Scope string_scope.
Local Open Scope Z_scope.

(** ** Identifiers *)

(** A word that the lexer takes for an identifier. *)
Definition identifier (s : string) : Prop := word s ∧ Lex_word s = ID s.

(** The characters that words of the format begin with. *)
Definition key_char (c : Ascii.ascii) : Prop := c ∈ [":"; "<"; ">"; "["; "]"; "("; ")"]%char.
Lemma Lex_word_ID c s : ~ key_char c → Lex_word (String c s) = ID (String c s).
Proof.
  intros Hc. unfold Lex_word. destruct (list_find _ keywords) as [[i [w t]]|] eqn:E; [|done]. exfalso.
  apply list_find_Some in E as (Hi & Hw & _). cbn in Hw. subst w.
  assert (Forall (λ p, match p.1 with String c _ => key_char c | EmptyString => False end) keywords) as Hk.
  { repeat (constructor; [cbn; unfold key_char; set_solver|]). constructor. }
  apply Hc. apply (proj1 (Forall_lookup _ _) Hk i _ Hi).
Qed.
Lemma not_key_char (c : Ascii.ascii) : (48 ≤ N_of_ascii c ≤ 57)%N ∨ (97 ≤ N_of_ascii c ≤ 102)%N ∨ c = "-"%char → ~ key_char c.
Proof.
  intros H Hk. unfold key_char in Hk. repeat (apply elem_of_cons in Hk as [->|Hk]; [vm_compute in H; naive_solver|]).
  by apply elem_of_nil in Hk.
Qed.

Lemma identifier_dec z : identifier (dec z).
Proof.
  split; [apply word_dec|]. pose proof (dec_chars z) as Hc. destruct (dec z) as [|c s] eqn:E; [by destruct (word_dec z)|].
  apply Lex_word_ID, not_key_char. destruct Hc as [[->|Hc] _]; auto.
Qed.
Lemma identifier_hex b : b ≠ [] → Forall byte b → identifier (hex_EncodeToString b).
Proof.
  intros Hne H. split; [by apply word_hex|]. destruct H as [|z b Hz _]; [done|]. cbn. apply Lex_word_ID, not_key_char.
  destruct (byte_digits z Hz) as [H _]. remember (z / 16) as n. clear -H. unfold hex_digit.
  rewrite N_ascii_embedding; destruct (Z.ltb_spec n 10); lia.
Qed.

Lemma lex_ident s : identifier s → Lex_word s = ID s.
Proof. by intros [_ ?]. Qed.
Lemma words_ident s : identifier s → words s = [s].
Proof. intros [? _]. by apply words_word. Qed.

(** ** Repetition *)

Section Repetition.
Context {A : Type} (more : Tok → bool) (p : parser A) (enc : A → list Tok) (read : A → A) (good : list Tok → Prop).

(** If every element begins with a token that [more] accepts and is parsed in front of
    anything good, a list of elements is parsed up to the first token that [more] refuses. *)
Lemma rep_good l ts :
  Forall (λ a, (∃ t rest, enc a = t :: rest ∧ more t = true ∧ ∀ rest', good (t :: rest')) ∧
    ∀ rest, good rest → p (enc a ++ rest)%list = Some (read a, rest)) l →
  good ts → (∀ t, head ts = Some t → more t = false) →
  rep more p (concat (enc <$> l) ++ ts)%list = Some (read <$> l, ts).
Proof.
  intros Hl Hts Hend. unfold rep.
  assert (∀ fuel, (length l ≤ fuel)%nat → many fuel more p (concat (enc <$> l) ++ ts)%list = Some (read <$> l, ts)) as H.
  { induction Hl as [|a l [(t & rest & E & Ht & _) Hp] Hl IH]; intros fuel Hf; cbn [fmap list_fmap concat app].
    - destruct ts as [|t ts]; [by destruct fuel|]. destruct fuel; cbn; by rewrite (Hend t eq_refl).
    - destruct fuel as [|fuel]; [cbn in Hf; lia|]. rewrite <-app_assoc.
      assert (good (concat (enc <$> l) ++ ts)%list) as Hgood.
      { destruct Hl as [|a' l [(t' & rest' & E' & _ & Hg) _] _]; [done|]. cbn. rewrite E'. by apply Hg. }
      specialize (Hp _ Hgood). rewrite E in *. cbn [app many]. rewrite Ht. cbn [app] in Hp. rewrite Hp. cbn [mbind option_bind].
      cbn in Hf. by rewrite (IH fuel) by lia. }
  apply H. clear -Hl. induction Hl as [|a l [(t & rest & E & _) _] _ IH]; [cbn; lia|]. cbn. rewrite E. cbn. rewrite length_app in *. rewrite length_app. lia.
Qed.
Lemma rep_spec l ts :
  Forall (λ a, (∃ t rest, enc a = t :: rest ∧ more t = true) ∧ ∀ rest, good rest → p (enc a ++ rest)%list = Some (read a, rest)) l →
  (∀ t rest, more t = true → good (t :: rest)) → good ts → (∀ t, head ts = Some t → more t = false) →
  rep more p (concat (enc <$> l) ++ ts)%list = Some (read <$> l, ts).
Proof.
  intros Hl Hg. apply rep_good. eapply Forall_impl; [exact Hl|]. intros a [(t & rest & E & Ht) Hp]. split; [|done].
  exists t, rest. auto.
Qed.
End Repetition.

(** ** Parser steps *)

Lemma parse_bind {A B} (p : parser A) (f : A → parser B) ts a ts' : p ts = Some (a, ts') → (p ≫= f) ts = f a ts'.
Proof. intros E. unfold mbind at 1, parser_bind. by rewrite E. Qed.
Lemma run_term w t ts : Lex_word w = T t → term t (Lex_word w :: ts) = Some ((), ts).
Proof. intros ->. cbn. by rewrite decide_True. Qed.
Lemma run_ident s ts : identifier s → ident (Lex_word s :: ts) = Some (s, ts).
Proof. intros H. by rewrite lex_ident. Qed.

(** One step of a rule over the tokens of words that are known. *)
Ltac rule_step :=
  match goal with
  | |- (term ?t ≫= _) _ = _ => erewrite parse_bind by (apply run_term; reflexivity)
  | |- (ident ≫= _) _ = _ => erewrite parse_bind by (apply run_ident; assumption || apply identifier_dec)
  | |- (peek ≫= _) _ = _ => erewrite parse_bind by reflexivity; cbn [head]
  end.

(** ** Signatures *)

Definition validity_ok (z : Z) : Prop := 0 ≤ z < 2 ^ 63.
Lemma validity_int64 z : validity_ok z → in_int64 z.
Proof. unfold validity_ok, in_int64. lia. Qed.
Lemma DecodeValidity_dec since until : validity_ok since → validity_ok until → DecodeValidity (dec since) (dec until) = Ok (since, until).
Proof.
  intros H1 H2. unfold DecodeValidity. rewrite !Atoi_dec by by apply validity_int64. unfold validity_ok in *.
  destruct (Z.ltb_spec since 0); [lia|]. destruct (Z.ltb_spec until 0); [lia|done].
Qed.

Definition key_id_ok (id : PublicKeyID) : Prop := id = mkPublicKeyID Ed25519 RainsKeySpace (KeyPhase id) ∧ in_int64 (KeyPhase id).
Lemma DecodePublicKeyID_dec id : key_id_ok id → DecodePublicKeyID (dec (KeyPhase id)) = Ok id.
Proof. intros [E H]. unfold DecodePublicKeyID. rewrite Atoi_dec by done. by rewrite <-E. Qed.

Definition sig_data_ok (d : SigData) : Prop :=
  match d with DataNil => True | DataBytes b => b ≠ [] ∧ Forall byte b | DataOther _ => False end.
Record printable_sig (sig : Sig) : Prop := {
  ps_key : key_id_ok (sigPublicKeyID sig);
  ps_since : validity_ok (sigValidSince sig);
  ps_until : validity_ok (sigValidUntil sig);
  ps_data : sig_data_ok (sigData sig);
  ps_sign : sigSign sig = false
}.
Definition sig_words (sig : Sig) : list string :=
  ([TypeSignature; TypeEd25519; TypeKSRains; dec (KeyPhase (sigPublicKeyID sig)); dec (sigValidSince sig); dec (sigValidUntil sig)] ++
   match sigData sig with DataBytes b => [hex_EncodeToString b] | _ => [] end)%list.

Lemma words_sig sig : printable_sig sig → ∃ s, encodeEd25519Signature sig = Ok s ∧ words s = sig_words sig ∧ s ≠ "".
Proof.
  intros [_ _ _ Hd _]. unfold encodeEd25519Signature, sig_words. set (meta := sprintf _).
  assert (words meta = [TypeSignature; TypeEd25519; TypeKSRains; dec (KeyPhase (sigPublicKeyID sig)); dec (sigValidSince sig); dec (sigValidUntil sig)]) as Hm.
  { unfold meta. split_words. by rewrite !(words_word (dec _)) by apply word_dec. }
  destruct (sigData sig) as [|[|x b]|] eqn:Ed; cbn in Hd.
  - exists meta. split_and!; [done|by rewrite app_nil_r|]. intros E. by rewrite E in Hm.
  - by destruct Hd.
  - eexists. split; [reflexivity|]. split; [|by destruct meta]. split_words. rewrite Hm. change (words " ") with (@nil string).
    destruct Hd as [Hne Hb]. by rewrite (words_ident (hex_EncodeToString _)) by by apply identifier_hex.
  - done.
Qed.

Definition no_ident (ts : list Tok) : Prop := ∀ s, head ts ≠ Some (ID s).

Lemma signatureMeta_spec sig ts : printable_sig sig →
  signatureMeta ((Lex_word <$> [TypeSignature; TypeEd25519; TypeKSRains; dec (KeyPhase (sigPublicKeyID sig)); dec (sigValidSince sig);
    dec (sigValidUntil sig)]) ++ ts)%list = Some (mkSig (sigPublicKeyID sig) (sigValidSince sig) (sigValidUntil sig) DataNil false, ts).
Proof.
  intros [H1 H2 H3 _ _]. unfold signatureMeta. cbn [fmap list_fmap app]. repeat rule_step.
  rewrite DecodeValidity_dec, DecodePublicKeyID_dec by done. done.
Qed.

Lemma signature_spec sig ts : printable_sig sig → no_ident ts → signature ((Lex_word <$> sig_words sig) ++ ts)%list = Some (sig, ts).
Proof.
  intros H Hts. unfold sig_words. rewrite fmap_app, <-app_assoc. unfold signature.
  erewrite parse_bind by by apply signatureMeta_spec. destruct H as [H1 H2 H3 H4 H5]. destruct sig as [id since until data sign].
  cbn in H4, H5. subst sign. destruct data as [|b|]; [| |done]; cbn [sigData sigPublicKeyID sigValidSince sigValidUntil] in *.
  - cbn [fmap list_fmap app]. rule_step. destruct ts as [|[t|s] ts]; [done|done|]. by destruct (Hts s).
  - destruct H4 as [Hne Hb]. cbn [fmap list_fmap app]. pose proof (identifier_hex b Hne Hb) as Hi. rule_step. cbn -[hex_DecodeString hex_EncodeToString Lex_word ident].
    rewrite (lex_ident _ Hi). erewrite parse_bind by reflexivity. by rewrite hex_roundtrip.
Qed.

Definition annotation_words (sigs : list Sig) : list string :=
  match sigs with [] => [] | _ => ("(" :: concat (sig_words <$> sigs) ++ [")"])%list end.

Lemma fmap_concat {A B} (f : A → B) (l : list (list A)) : fmap (M:=list) f (concat l) = concat (fmap (M:=list) (fmap (M:=list) f) l).
Proof. induction l as [|x l IH]; [done|]. cbn. by rewrite fmap_app, IH. Qed.
Lemma lex_concat {A} (enc : A → list string) l : Lex_word <$> concat (enc <$> l) = concat ((λ x, Lex_word <$> enc x) <$> l).
Proof. rewrite fmap_concat, <-list_fmap_compose. done. Qed.

Lemma annotationBody_spec sigs ts : sigs ≠ [] → Forall printable_sig sigs → no_ident ts → head ts ≠ Some (T sigType) →
  annotationBody ((Lex_word <$> concat (sig_words <$> sigs)) ++ ts)%list = Some (sigs, ts).
Proof.
  intros Hne Hs Hts Hend. destruct Hs as [|sig sigs H Hs]; [done|]. unfold annotationBody.
  cbn [fmap list_fmap concat]. rewrite fmap_app, <-app_assoc. erewrite parse_bind; [|apply signature_spec; [done|]].
  - rewrite lex_concat. erewrite parse_bind; [|apply (rep_spec _ _ _ id no_ident); try done].
    + by rewrite list_fmap_id.
    + eapply Forall_impl; [exact Hs|]. intros g Hg. split; [by eexists _, _|]. intros rest Hr. by apply signature_spec.
    + intros t rest Ht. apply bool_decide_eq_true in Ht as ->. done.
    + intros t Ht. apply bool_decide_eq_false. intros ->. done.
  - destruct sigs as [|g sigs]; [done|]. done.
Qed.

Lemma annotation_spec sigs ts : Forall printable_sig sigs → (sigs = [] → head ts ≠ Some (T lParenthesis)) →
  annotation ((Lex_word <$> annotation_words sigs) ++ ts)%list = Some (sigs, ts).
Proof.
  intros Hs Hts. unfold annotation. destruct sigs as [|sig sigs].
  - cbn [annotation_words fmap list_fmap app]. rule_step. rewrite bool_decide_eq_false_2 by by apply Hts. done.
  - change (annotation_words (sig :: sigs)) with ("(" :: concat (sig_words <$> sig :: sigs) ++ [")"])%list. cbn [app].
    rewrite fmap_cons, fmap_app. cbn [app]. rule_step. change (Lex_word "(") with (T lParenthesis).
    rewrite bool_decide_eq_true_2 by done. change (T lParenthesis) with (Lex_word "("). rule_step.
    rewrite <-app_assoc. erewrite parse_bind by by apply annotationBody_spec. cbn [fmap list_fmap app]. by rule_step.
Qed.

Lemma words_sigs sigs : Forall printable_sig sigs →
  ∃ l, encode_sigs sigs = Ok l ∧ words <$> l = sig_words <$> sigs ∧ length l = length sigs.
Proof.
  induction 1 as [|sig sigs H _ (l & E & Hl & Hlen)]; [by exists []|]. destruct (words_sig sig H) as (s & Es & Hw & _).
  exists (s :: l). unfold encode_sigs in *. cbn. rewrite Es. cbn. rewrite E. cbn. by rewrite Hw, Hl, Hlen.
Qed.

(** ** Objects *)

Section Objects.
Context {AL : AddrLib} {ZL : ZoneLib}.

Definition key_ok (k : PublicKey) : Prop :=
  key_id_ok (pkID k) ∧ match pkKey k with KeyEd25519 b => length b = 32%nat ∧ Forall byte b | _ => False end.
Definition key_bytes (k : PublicKey) : list Z := match pkKey k with KeyEd25519 b => b | _ => [] end.
Definition key_words (k : PublicKey) : list string :=
  [TypeEd25519; dec (KeyPhase (pkID k)); hex_EncodeToString (key_bytes k)].

(** Words separated by single spaces. *)
Definition free_text (s : string) : Prop := ∃ ws, ws ≠ [] ∧ Forall identifier ws ∧ s = str_join " " ws.

(** An object whose printed form determines it. *)
Definition printable_object (o : Object) : Prop :=
  let t := objType o in
  match objValue o with
  | VName n => t = OTName ∧ identifier (onName n) ∧ onTypes n ≠ [] ∧ Forall (λ t, t ∈ oType_alts.*2) (onTypes n)
  | VIP ip => (t = OTIP6Addr ∨ t = OTIP4Addr) ∧ identifier (IP_String ip) ∧ ParseIP (IP_String ip) = Some ip
  | VScion sa => t = OTScionAddr ∧ identifier (SCIONAddress_String sa) ∧ ParseSCIONAddress (SCIONAddress_String sa) = Ok sa
  | VString s => t = OTRedirection ∧ identifier s ∨ (t = OTRegistrar ∨ t = OTRegistrant) ∧ free_text s
  | VNamesetExpr s => t = OTNameset ∧ free_text s
  | VPublicKey k =>
      key_ok k ∧ ((t = OTDelegation ∨ t = OTInfraKey ∨ t = OTExtraKey) ∧ pkValidSince k = 0 ∧ pkValidUntil k = 0 ∨
                  t = OTNextKey ∧ validity_ok (pkValidSince k) ∧ validity_ok (pkValidUntil k))
  | VCertificate c =>
      t = OTCertInfo ∧ Object.certType c ∈ [PTUnspecified; PTTLS; PTRhine] ∧ certUsage c ∈ [CUTrustAnchor; CUEndEntity; CUZoneAuth] ∧
      certHashAlgo c ∈ [NoHashAlgo; Sha256; Sha384; Sha512; Shake256; Fnv64; Fnv128] ∧ certData c ≠ [] ∧ Forall byte (certData c)
  | VServiceInfo s => t = OTServiceInfo ∧ identifier (siName s) ∧ in_uint16 (siPort s) ∧ validity_ok (siPriority s)
  | VOther _ => False
  end.

(** What is read back: the parser makes a plain string of a name set. *)
Definition reread_object (o : Object) : Object :=
  match objValue o with VNamesetExpr s => mkObject (objType o) (VString s) | _ => o end.

Definition type_name (t : OType) : string := default "" (type_word t).
Definition value_words (o : Object) : list string :=
  match objValue o with
  | VName n => (onName n :: "[" :: (type_name <$> onTypes n) ++ ["]"])%list
  | VIP ip => [IP_String ip]
  | VScion sa => [SCIONAddress_String sa]
  | VString s | VNamesetExpr s => words s
  | VPublicKey k =>
      (key_words k ++ if objType o =? OTNextKey then [dec (pkValidSince k); dec (pkValidUntil k)] else [])%list
  | VCertificate c => words (encodeCertificate c)
  | VServiceInfo s => [siName s; dec (siPort s); dec (siPriority s)]
  | VOther _ => []
  end.
Definition object_words (o : Object) : list string := type_name (objType o) :: value_words o.

Lemma words_key k : key_ok k → words (encodeEd25519PublicKey k) = key_words k.
Proof.
  intros [_ H]. unfold encodeEd25519PublicKey, key_words, key_bytes. destruct (pkKey k) as [b| |]; [|done..]. destruct H as [Hl Hb].
  split_words. change (words " ") with (@nil string). rewrite (words_word (dec _)) by apply word_dec.
  by rewrite (words_ident (hex_EncodeToString _)) by (apply identifier_hex; [by destruct b|done]).
Qed.

Lemma words_types ts : Forall (λ t, t ∈ oType_alts.*2) ts → concat (words <$> omap type_word ts) = type_name <$> ts.
Proof.
  induction 1 as [|t ts Ht _ IH]; [done|]. assert (∃ w, type_word t = Some w ∧ words w = [w]) as (w & E & Hw).
  { cbn in Ht. repeat (apply elem_of_cons in Ht as [->|Ht]; [eexists; split; reflexivity|]). by apply elem_of_nil in Ht. }
  cbn. unfold type_name at 1. rewrite E. cbn. by rewrite Hw, IH.
Qed.

Lemma words_free ws : Forall identifier ws → words (str_join " " ws) = ws.
Proof. intros H. rewrite words_join by done. apply concat_words. eapply Forall_impl; [exact H|]. by intros w [? _]. Qed.

Lemma words_indented w v : ends_blank (addIndentToType w) = true → words (addIndentToType w) = [w] →
  words (addIndentToType w +:+ v) = w :: words v.
Proof. intros H1 H2. by rewrite words_app_l, H2. Qed.

Lemma words_name n : identifier (onName n) → Forall (λ t, t ∈ oType_alts.*2) (onTypes n) →
  words (encodeNameObject n) = (onName n :: "[" :: (type_name <$> onTypes n) ++ ["]"])%list.
Proof.
  intros H1 H2. unfold encodeNameObject. split_words. rewrite words_ident by done.
  change (words " [ ") with ["["]. change (words " ]") with ["]"]. rewrite words_join by done. by rewrite words_types.
Qed.

Lemma words_object o : printable_object o → ∃ e, encode_object o = Some e ∧ words e = object_words o.
Proof.
  destruct o as [t v]. unfold printable_object, object_words, value_words, encode_object. cbn [objType objValue].
  destruct v as [n|s|ip|sa|k|s|c|srv|c]; intros H; [| | | | | | | |done].
  - destruct H as (-> & H1 & _ & H2). eexists. split; [reflexivity|]. rewrite words_indented by done. by rewrite words_name.
  - destruct H as [[-> H]|[[->| ->] H]]; (eexists; split; [reflexivity|]); by rewrite words_indented.
  - destruct H as ([->| ->] & H & _); (eexists; split; [reflexivity|]); rewrite words_indented by done; cbn [fmt_value]; by rewrite words_ident.
  - destruct H as (-> & H & _). eexists. split; [reflexivity|]. rewrite words_indented by done. cbn [fmt_value]. by rewrite words_ident.
  - destruct H as [Hk [[[->|[->| ->]] _]|[-> _]]]; (eexists; split; [reflexivity|]); rewrite words_indented by done.
    1-3: cbn [Z.eqb]; rewrite words_key by done; by rewrite app_nil_r.
    split_words. rewrite words_key by done. change (words " ") with (@nil string). by rewrite !(words_word (dec _)) by apply word_dec.
  - destruct H as (-> & H). eexists. split; [reflexivity|]. by rewrite words_indented.
  - destruct H as (-> & _). eexists. split; [reflexivity|]. by rewrite words_indented.
  - destruct H as (-> & H & _). eexists. split; [reflexivity|]. split_words. change (words " ") with (@nil string).
    rewrite (words_ident (siName srv)) by done. by rewrite !(words_word (dec _)) by apply word_dec.
Qed.

Lemma words_objects content indent : Forall printable_object content → words indent = [] → (indent = "" ∨ ends_blank indent = true) →
  words (encodeObjects content indent) = concat (object_words <$> content).
Proof.
  intros Hc Hi Hb. unfold encodeObjects.
  assert (∃ l, mapM encode_object content = Some l ∧ words <$> l = object_words <$> content) as (l & -> & Hl).
  { induction Hc as [|o content H _ (l & E & Hl)]; [by exists []|]. destruct (words_object o H) as (e & Ee & He).
    exists (e :: l). cbn. rewrite Ee. cbn. rewrite E. cbn. by rewrite He, Hl. }
  rewrite words_join by done. rewrite <-Hl, <-list_fmap_compose. f_equal. apply list_fmap_ext. intros i e _. cbn.
  destruct Hb as [->|Hb]; [done|]. by rewrite words_app_l, Hi.
Qed.

Lemma type_name_lex t ts : t ∈ oType_alts.*2 → oType (Lex_word (type_name t) :: ts) = Some (t, ts) ∧ is_oType (Lex_word (type_name t)) = true.
Proof.
  intros Ht. cbn in Ht. repeat (apply elem_of_cons in Ht as [->|Ht]; [by split|]). by apply elem_of_nil in Ht.
Qed.

Lemma oTypes_spec l ts : l ≠ [] → Forall (λ t, t ∈ oType_alts.*2) l → (∀ t, head ts = Some t → is_oType t = false) →
  oTypes ((Lex_word <$> (type_name <$> l)) ++ ts)%list = Some (l, ts).
Proof.
  intros Hne Hl Hts. destruct Hl as [|t l Ht Hl]; [done|]. unfold oTypes. cbn [fmap list_fmap app].
  erewrite parse_bind by by apply type_name_lex.
  assert ((Lex_word <$> (type_name <$> l)) = concat ((λ t, [Lex_word (type_name t)]) <$> l)) as ->.
  { clear. induction l as [|t l IH]; [done|]. cbn. by rewrite IH. }
  erewrite parse_bind; [|apply (rep_spec _ _ _ id (λ _, True)); try done].
  - by rewrite list_fmap_id.
  - eapply Forall_impl; [exact Hl|]. intros u Hu. split; [eexists _, _; split; [done|by apply type_name_lex; [exact []|..]]|].
    intros rest _. by apply type_name_lex.
Qed.

Lemma foldl_join s ws : foldl (λ s t, s +:+ " " +:+ t) s ws = str_join " " (s :: ws).
Proof.
  revert s. induction ws as [|w ws IH]; intros s; [done|]. cbn [foldl]. rewrite IH.
  destruct ws as [|v ws]; cbn; [done|]. by rewrite !str_app_assoc.
Qed.

Lemma freeText_spec ws ts : ws ≠ [] → Forall identifier ws → no_ident ts →
  freeText ((Lex_word <$> ws) ++ ts)%list = Some (str_join " " ws, ts).
Proof.
  intros Hne Hw Hts. destruct Hw as [|w ws H Hw]; [done|]. unfold freeText. cbn [fmap list_fmap app]. rule_step.
  assert ((Lex_word <$> ws) = concat ((λ w, [Lex_word w]) <$> ws)) as ->.
  { clear. induction ws as [|w ws IH]; [done|]. cbn. by rewrite IH. }
  erewrite parse_bind; [|apply (rep_spec _ _ _ id (λ _, True)); try done].
  - by rewrite list_fmap_id, foldl_join.
  - eapply Forall_impl; [exact Hw|]. intros v Hv. split; [eexists _, _; split; [done|by rewrite lex_ident]|].
    intros rest _. by apply run_ident.
  - intros [t|s] E; [done|]. by destruct (Hts s).
Qed.

Lemma key_rule_spec k ts : key_ok k →
  key_rule ((Lex_word <$> key_words k) ++ ts)%list = Some (mkPublicKey (pkID k) 0 0 (pkKey k), ts).
Proof.
  intros [H1 H2]. unfold key_rule, key_words, key_bytes. destruct (pkKey k) as [b| |]; [|done..]. destruct H2 as [Hl Hb].
  assert (identifier (hex_EncodeToString b)) as Hi by (apply identifier_hex; [by destruct b|done]).
  cbn [fmap list_fmap app]. repeat rule_step. unfold DecodeEd25519PublicKeyData. rewrite DecodePublicKeyID_dec by done. cbn [mbind outcome_bind].
  rewrite hex_roundtrip by done. by rewrite Hl.
Qed.

(** The three words that describe a certificate. *)
Lemma cert_spec c ts :
  Object.certType c ∈ [PTUnspecified; PTTLS; PTRhine] → certUsage c ∈ [CUTrustAnchor; CUEndEntity; CUZoneAuth] →
  certHashAlgo c ∈ [NoHashAlgo; Sha256; Sha384; Sha512; Shake256; Fnv64; Fnv128] → certData c ≠ [] → Forall byte (certData c) →
  (pt ← protocolType; cu ← certUsage'; h ← hashType; s ← ident;
   mret (mkObject OTCertInfo (VCertificate (logged (mkCertificate 0 0 0 []) (DecodeCertificate pt cu h s)))))
    ((Lex_word <$> words (encodeCertificate c)) ++ ts)%list = Some (mkObject OTCertInfo (VCertificate c), ts).
Proof.
  intros H1 H2 H3 Hne Hb. destruct c as [pt cu h data]. cbn [Object.certType certUsage certHashAlgo certData] in *.
  pose proof (identifier_hex data Hne Hb) as Hi.
  assert (∃ w1 w2 w3, words (encodeCertificate (mkCertificate pt cu h data)) = [w1; w2; w3; hex_EncodeToString data] ∧
    (∀ ts, protocolType (Lex_word w1 :: ts) = Some (pt, ts)) ∧ (∀ ts, certUsage' (Lex_word w2 :: ts) = Some (cu, ts)) ∧
    (∀ ts, hashType (Lex_word w3 :: ts) = Some (h, ts))) as (w1 & w2 & w3 & -> & E1 & E2 & E3).
  { unfold encodeCertificate. cbn [Object.certType certUsage certHashAlgo certData].
    repeat (apply elem_of_cons in H1 as [->|H1]; [|]); [..|by apply elem_of_nil in H1];
    (repeat (apply elem_of_cons in H2 as [->|H2]; [|]); [..|by apply elem_of_nil in H2]);
    (repeat (apply elem_of_cons in H3 as [->|H3]; [|]); [..|by apply elem_of_nil in H3]);
    cbn -[words sprintf hex_EncodeToString]; eexists _, _, _; (split; [split_words; rewrite (words_ident _ Hi); reflexivity|by split_and!]). }
  cbn [fmap list_fmap app]. rewrite (parse_bind protocolType _ _ _ _ (E1 _)), (parse_bind certUsage' _ _ _ _ (E2 _)), (parse_bind hashType _ _ _ _ (E3 _)).
  rule_step. unfold DecodeCertificate. by rewrite hex_roundtrip.
Qed.

Lemma DecodeSrv_dec name port priority : in_uint16 port → validity_ok priority →
  DecodeSrv name (dec port) (dec priority) = Ok (mkServiceInfo name port priority).
Proof.
  intros H1 H2. unfold in_uint16, validity_ok in *. unfold DecodeSrv. rewrite !Atoi_dec by (unfold in_int64; lia).
  destruct (Z.ltb_spec port 0); [lia|]. destruct (Z.ltb_spec 65535 port); [lia|]. cbn [orb].
  rewrite uint16_wrap_id, uint64_wrap_id by (unfold in_uint16, in_uint64; lia). done.
Qed.

Lemma printable_type o : printable_object o → objType o ∈ oType_alts.*2.
Proof.
  destruct o as [t v]. unfold printable_object. cbn [objType objValue]. intros H.
  destruct v; try done; decompose [and or] H; clear H; subst t; cbn; set_solver.
Qed.

(** The first token of an object decides on its rule. *)
Lemma object_spec o ts : printable_object o → no_ident ts →
  object ((Lex_word <$> object_words o) ++ ts)%list = Some (reread_object o, ts).
Proof.
  intros H Hts. unfold object, object_words. cbn [fmap list_fmap app]. erewrite parse_bind by by apply type_name_lex, printable_type.
  destruct o as [t v]. unfold printable_object, value_words, reread_object in *. cbn [objType objValue] in *.
  destruct v as [n|s|ip|sa|k|s|c|srv|c]; [| | | | | | | |done].
  - destruct H as (-> & H1 & H2 & H3). cbn [Z.eqb fmap list_fmap app]. cbn. rule_step. rule_step.
    rewrite fmap_app, <-app_assoc. erewrite parse_bind; [|by apply oTypes_spec; [done|done|intros ? [= <-]]]. cbn [fmap list_fmap app]. rule_step. by destruct n.
  - destruct H as [[-> H]|[[->| ->] (ws & Hne & Hw & ->)]].
    + rewrite words_ident by done. cbn. by rule_step.
    + rewrite words_free by done. cbn. by erewrite parse_bind by by apply freeText_spec.
    + rewrite words_free by done. cbn. by erewrite parse_bind by by apply freeText_spec.
  - destruct H as ([->| ->] & H1 & H2); cbn; rule_step; by rewrite H2.
  - destruct H as (-> & H1 & H2). cbn. rule_step. by rewrite H2.
  - destruct H as [Hk [[[->|[->| ->]] [E1 E2]]|[-> [E1 E2]]]]; cbn -[key_words].
    1-3: rewrite app_nil_r; (erewrite parse_bind by by apply key_rule_spec); destruct k; cbn in *; by subst.
    rewrite fmap_app, <-app_assoc. erewrite parse_bind by by apply key_rule_spec. cbn [fmap list_fmap app]. repeat rule_step.
    rewrite DecodeValidity_dec by done. by destruct k.
  - destruct H as (-> & ws & Hne & Hw & ->). rewrite words_free by done. cbn. by erewrite parse_bind by by apply freeText_spec.
  - destruct H as (-> & H1 & H2 & H3 & H4 & H5). cbn -[encodeCertificate words]. by apply cert_spec.
  - destruct H as (-> & H1 & H2 & H3). cbn. repeat rule_step. rewrite DecodeSrv_dec by done. by destruct srv.
Qed.

Lemma objects_spec content ts : content ≠ [] → Forall printable_object content → no_ident ts → (∀ t, head ts = Some t → is_oType t = false) →
  objects ((Lex_word <$> concat (object_words <$> content)) ++ ts)%list = Some (reread_object <$> content, ts).
Proof.
  intros Hne Hc Hts Hend. destruct Hc as [|o content H Hc]; [done|]. unfold objects.
  cbn [fmap list_fmap concat]. rewrite fmap_app, <-app_assoc. rewrite lex_concat.
  erewrite parse_bind; [|apply object_spec; [done|]].
  - erewrite parse_bind; [|apply (rep_spec _ _ _ reread_object no_ident); try done].
    + done.
    + eapply Forall_impl; [exact Hc|]. intros o' Ho. split; [|intros rest Hr; by apply object_spec].
      eexists _, _. split; [done|]. apply (type_name_lex _ []), printable_type, Ho.
    + intros [t|s] rest Ht; [done|]. done.
  - destruct Hc as [|o' content Ho _]; [done|]. cbn. intros s E. injection E as E.
    destruct (type_name_lex (objType o') [] (printable_type o' Ho)) as [_ Ht]. by rewrite E in Ht.
Qed.
End Objects.

(** ** Sections *)

Section Sections.
Context {AL : AddrLib} {ZL : ZoneLib}.

(** An assertion on its own, or in a shard or zone, where it has no zone and context. *)
Record printable_assertion (top : bool) (a : Assertion) : Prop := {
  pa_name : identifier (aSubjectName a);
  pa_where : if top then identifier (aSubjectZone a) ∧ identifier (aContext a) else aSubjectZone a = "" ∧ aContext a = "";
  pa_content : aContent a ≠ [];
  pa_objects : Forall printable_object (aContent a);
  pa_sigs : Forall printable_sig (aSignatures a);
  pa_rest : aValidSince a = 0 ∧ aValidUntil a = 0 ∧ aSign a = false
}.
Definition reread_assertion (a : Assertion) : Assertion :=
  mkAssertion (aSignatures a) (aSubjectName a) (aSubjectZone a) (aContext a) (reread_object <$> aContent a) (aValidSince a) (aValidUntil a) (aSign a).
Definition assertion_words (top : bool) (a : Assertion) : list string :=
  (TypeAssertion :: aSubjectName a :: (if top then [aSubjectZone a; aContext a] else []) ++
   "[" :: concat (object_words <$> aContent a) ++ "]" :: annotation_words (aSignatures a))%list.

(** Indentation. *)
Definition blank (indent : string) : Prop := indent = "" ∨ ends_blank indent = true ∧ words indent = [].
Lemma words_indent indent s : blank indent → words (indent +:+ s) = words s.
Proof. intros [->|[H1 H2]]; [done|]. by rewrite words_app_l, H2. Qed.
Lemma words_cons_indent indent ps : blank indent → words (sprintf (indent :: ps)) = words (sprintf ps).
Proof. apply words_indent. Qed.
Lemma ends_blank_app s t : ends_blank t = true → ends_blank (s +:+ t) = true.
Proof.
  intros Ht. induction s as [|c s IH]; [done|]. rewrite str_app_cons.
  destruct (s +:+ t) as [|d u] eqn:E; [|by rewrite <-E in IH |- *; rewrite E in *].
  destruct s; [|done]. cbn in E. by subst.
Qed.
Lemma blank_indent4 indent : blank indent → blank (indent +:+ indent4).
Proof. intros H. right. rewrite words_indent by done. split; [by apply ends_blank_app|done]. Qed.
Lemma words_blank indent : blank indent → words indent = [].
Proof. by intros [->|[_ ?]]. Qed.

(** The lines of an annotation with several signatures. *)
Lemma words_sig_lines indent l : blank indent → words (str_join (nl +:+ indent +:+ indent4) l) = concat (words <$> l).
Proof.
  intros H. apply words_join; [|done|].
  - rewrite words_app_l by done. by rewrite words_indent.
  - apply (ends_blank_app (nl +:+ indent)). done.
Qed.

Ltac split_printed :=
  repeat first
    [rewrite words_cons_indent by assumption
    |rewrite words_cons by (first [left; reflexivity|right; left; reflexivity|right; right; reflexivity])];
  change (words (sprintf [])) with (@nil string); change (words nl) with (@nil string); change (words indent4) with (@nil string);
  change (words " ") with (@nil string); cbn [app].

(** The pieces of an annotation in front of the line end. *)
Definition annotation_pieces (indent closing : string) (l : list string) : list string :=
  match l with
  | [] => []
  | [sig] => [" ( "; sig; " )"]
  | _ => [" ( "; nl; indent; indent4; str_join (nl +:+ indent +:+ indent4) l; nl; indent; closing]
  end.
Lemma annotation_text indent closing l sigs :
  blank indent → words closing = [")"] → words <$> l = sig_words <$> sigs →
  starts_blank (sprintf (annotation_pieces indent closing l ++ [nl])) = true ∧
  words (sprintf (annotation_pieces indent closing l ++ [nl])) = annotation_words sigs.
Proof.
  intros Hi Hc Hl. destruct l as [|s [|s' l]].
  - by destruct sigs.
  - destruct sigs as [|sig [|]]; try done. injection Hl as Hl. split; [done|]. cbn [annotation_pieces app]. split_printed.
    rewrite Hl. change (annotation_words [sig]) with ("(" :: (sig_words sig ++ []) ++ [")"])%list. by rewrite (app_nil_r (sig_words sig)).
  - split; [done|]. cbn [annotation_pieces app]. split_printed. rewrite words_sig_lines, Hc, Hl by done.
    destruct sigs as [|sig [|sig' sigs]]; [done..|]. done.
Qed.

Lemma sprintf_app l k : sprintf (l ++ k) = sprintf l +:+ sprintf k.
Proof. induction l as [|x l IH]; [done|]. change (x +:+ sprintf (l ++ k) = (x +:+ sprintf l) +:+ sprintf k). by rewrite IH, str_app_assoc. Qed.
Lemma sprintf_flat l k : sprintf (sprintf l :: k) = sprintf (l ++ k).
Proof. by rewrite sprintf_app. Qed.

Lemma words_assertion top a indent : printable_assertion top a → blank indent →
  ∃ s, encodeAssertion a (aContext a) (aSubjectZone a) indent top = Ok s ∧ words s = assertion_words top a.
Proof.
  intros [H1 H2 H3 H4 H5 _] Hi. unfold encodeAssertion. destruct (words_sigs _ H5) as (l & -> & Hl & _). cbn [mbind outcome_bind].
  set (signature := match l with [] => _ | _ => _ end).
  assert (starts_blank signature = true ∧ words signature = annotation_words (aSignatures a)) as [Hs Hw].
  { destruct (annotation_text indent ")" l _ Hi eq_refl Hl) as [E1 E2]. destruct l as [|? [|]]; [|done..].
    by destruct (aSignatures a). }
  set (header := if top then _ else _).
  assert (words header = (TypeAssertion :: aSubjectName a :: (if top then [aSubjectZone a; aContext a] else []) ++ ["["])%list) as Hh.
  { unfold header. destruct top; split_printed; rewrite (words_ident _ H1); [|done]. destruct H2 as [H2 H2'].
    by rewrite (words_ident _ H2), (words_ident _ H2'). }
  assert (∀ ind, blank ind → words (encodeObjects (aContent a) ind) = concat (object_words <$> aContent a)) as Ho.
  { intros ind Hb. apply words_objects; [done|by apply words_blank|]. destruct Hb as [|[]]; auto. }
  unfold assertion_words. destruct (1 <? _); (eexists; split; [reflexivity|]).
  - split_printed. rewrite (words_cons "]") by (right; right; by destruct signature). rewrite (words_cons signature) by (right; by right).
    rewrite Hh, Hw, Ho by by apply blank_indent4. cbn. by rewrite <-!app_assoc, app_nil_r.
  - split_printed. rewrite (words_cons " ]") by (right; right; by destruct signature). rewrite (words_cons signature) by (right; by right).
    rewrite Hh, Hw, Ho by by left. cbn. by rewrite <-!app_assoc, app_nil_r.
Qed.

(** ** The rules of the sections *)

(** Adding signatures one by one, for the four kinds of section. *)
Lemma AddSig_fold {W} (get : W → list Sig) (set : W → list Sig → W) w sigs :
  (∀ w l, get (set w l) = l) → (∀ w l k, set (set w l) k = set w k) → (∀ w, set w (get w) = w) →
  foldl (λ w sig, set w (get w ++ [sig])%list) w sigs = set w (get w ++ sigs)%list.
Proof.
  intros H1 H2 H3. revert w. induction sigs as [|sig sigs IH]; intros w; cbn [foldl]; [by rewrite app_nil_r, H3|].
  by rewrite IH, H1, H2, <-app_assoc.
Qed.

Lemma content_step {A} content ts (f : list Object → parser A) : content ≠ [] → Forall printable_object content →
  (term lBracket;; l ← objects; term rBracket;; f l)
    (Lex_word "[" :: (Lex_word <$> concat (object_words <$> content)) ++ Lex_word "]" :: ts)%list = f (reread_object <$> content) ts.
Proof.
  intros H3 H4. rule_step. erewrite parse_bind; [|apply objects_spec; try done; by intros ? [= <-]]. by rule_step.
Qed.

Lemma assertionBody_spec top a ts : printable_assertion top a →
  assertionBody ((Lex_word <$> (TypeAssertion :: aSubjectName a :: (if top then [aSubjectZone a; aContext a] else []) ++
    "[" :: concat (object_words <$> aContent a) ++ ["]"])%list) ++ ts)%list =
  Some (mkAssertion [] (aSubjectName a) (aSubjectZone a) (aContext a) (reread_object <$> aContent a) 0 0 false, ts).
Proof.
  intros [H1 H2 H3 H4 _ _]. unfold assertionBody. destruct top; destruct H2 as [H2 H2'].
  - rewrite !fmap_cons. cbn [app]. rewrite !fmap_cons, fmap_app, <-!app_comm_cons, <-app_assoc. do 3 rule_step. rewrite (lex_ident _ H2).
    erewrite parse_bind by reflexivity. rule_step. change ((Lex_word <$> ["]"]) ++ ts)%list with (Lex_word "]" :: ts).
    by etransitivity; [apply content_step|].
  - rewrite H2, H2'. rewrite !fmap_cons. cbn [app]. rewrite !fmap_cons, fmap_app, <-!app_comm_cons, <-app_assoc. do 3 rule_step.
    change ((Lex_word <$> ["]"]) ++ ts)%list with (Lex_word "]" :: ts).
    by etransitivity; [apply content_step|].
Qed.

(** An annotation ends the section, or something that is no annotation follows. *)
Definition no_paren (ts : list Tok) : Prop := head ts ≠ Some (T lParenthesis).

Lemma assertion_spec top a ts : printable_assertion top a → no_paren ts →
  assertion ((Lex_word <$> assertion_words top a) ++ ts)%list = Some (reread_assertion a, ts).
Proof.
  intros H Hts. unfold assertion.
  assert (assertion_words top a = (TypeAssertion :: aSubjectName a :: (if top then [aSubjectZone a; aContext a] else []) ++
    "[" :: concat (object_words <$> aContent a) ++ ["]"])%list ++ annotation_words (aSignatures a))%list as ->.
  { unfold assertion_words. cbn. by rewrite <-!app_assoc, <-app_comm_cons, <-app_assoc. }
  rewrite fmap_app, <-app_assoc. erewrite parse_bind by by apply assertionBody_spec.
  erewrite parse_bind; [|by apply annotation_spec; [apply H|intros _]].
  unfold reread_assertion, mret, parser_ret. f_equal. f_equal. rewrite (AddSig_fold aSignatures Assertion_set_sigs) by (done || by intros []).
  destruct H as [_ _ _ _ _ (E1 & E2 & E3)]. destruct a; cbn in *. by subst.
Qed.

Lemma content_rule_spec content ts : Forall (printable_assertion false) content → no_paren ts → head ts ≠ Some (T assertionType) →
  content_rule ((Lex_word <$> concat (assertion_words false <$> content)) ++ ts)%list = Some (reread_assertion <$> content, ts).
Proof.
  intros Hc Hts Hend. unfold content_rule. rewrite lex_concat. apply (rep_spec _ _ _ reread_assertion no_paren); [|..|done|].
  - eapply Forall_impl; [exact Hc|]. intros a Ha. split; [by eexists _, _|]. intros rest Hr. by apply assertion_spec.
  - intros t rest Ht. apply bool_decide_eq_true in Ht as ->. done.
  - intros t Ht. apply bool_decide_eq_false. intros ->. done.
Qed.

(** ** Shards and zones *)

Lemma content_text content context zone indent : Forall (printable_assertion false) content → blank indent →
  ∃ t, encode_content content context zone indent = Ok t ∧ words t = concat (assertion_words false <$> content) ∧
       (t = "" ∨ ends_blank t = true).
Proof.
  intros Hc Hi. unfold encode_content.
  assert (∃ l, traverse (λ a, encodeAssertion a context zone indent false) content = Ok l ∧
    words <$> l = assertion_words false <$> content) as (l & -> & Hl).
  { induction Hc as [|a content Ha _ (l & E & Hl)]; [by exists []|]. destruct (words_assertion false a indent Ha Hi) as (s & Es & Hs).
    change (encodeAssertion a context zone indent false = Ok s) in Es. exists (s :: l). cbn. rewrite Es. cbn. rewrite E. cbn. by rewrite Hs, Hl. }
  eexists. split; [reflexivity|]. rewrite <-Hl. clear Hl Hc. induction l as [|e l [IH1 IH2]]; [by auto|]. cbn [fmap list_fmap].
  assert (ends_blank (e +:+ nl) = true) as He by by apply ends_blank_app. split.
  - rewrite words_cons by auto. rewrite IH1. rewrite words_app_r by done. by rewrite app_nil_r.
  - right. change (ends_blank ((e +:+ nl) +:+ sprintf ((λ e, e +:+ nl) <$> l)) = true).
    destruct IH2 as [->|H]; [by rewrite str_app_nil_r|by apply ends_blank_app].
Qed.

Definition range_ok (s : string) : Prop := s = "" ∨ identifier s.
Lemma words_range_from s : range_ok s → words (range_from s) = [range_from s].
Proof. intros [->|[Hw _]]; [done|]. unfold range_from. rewrite str_eqb_neq by apply Hw. by apply words_word. Qed.
Lemma words_range_to s : range_ok s → words (range_to s) = [range_to s].
Proof. intros [->|[Hw _]]; [done|]. unfold range_to. rewrite str_eqb_neq by apply Hw. by apply words_word. Qed.
Lemma shardRange_spec from to ts : range_ok from → range_ok to →
  shardRange (Lex_word (range_from from) :: Lex_word (range_to to) :: ts) = Some ((range_from from, range_to to), ts).
Proof.
  assert (∀ s, identifier s → range_from s = s ∧ range_to s = s ∧ Lex_word s = ID s) as Hid.
  { intros s [[Hne _] Hl]. unfold range_from, range_to. by rewrite str_eqb_neq. }
  intros [->|Hf] [->|Ht]; unfold shardRange; try destruct (Hid _ Hf) as (-> & _ & ->); try destruct (Hid _ Ht) as (_ & -> & ->); done.
Qed.

Record printable_shard (s : Shard) : Prop := {
  psh_zone : identifier (sSubjectZone s);
  psh_context : identifier (sContext s);
  psh_range : range_ok (sRangeFrom s) ∧ range_ok (sRangeTo s);
  psh_content : Forall (printable_assertion false) (sContent s);
  psh_sigs : Forall printable_sig (sSignatures s);
  psh_rest : sValidSince s = 0 ∧ sValidUntil s = 0 ∧ sSign s = false
}.
Definition reread_shard (s : Shard) : Shard :=
  mkShard (sSignatures s) (sSubjectZone s) (sContext s) (range_from (sRangeFrom s)) (range_to (sRangeTo s))
    (reread_assertion <$> sContent s) 0 0 false.
Definition shard_words (s : Shard) : list string :=
  ([TypeShard; sSubjectZone s; sContext s; range_from (sRangeFrom s); range_to (sRangeTo s); "["] ++
   concat (assertion_words false <$> sContent s) ++ "]" :: annotation_words (sSignatures s))%list.

Lemma words_shard s : printable_shard s → ∃ t, encodeShard s (sContext s) (sSubjectZone s) "" = Ok t ∧ words t = shard_words s.
Proof.
  intros [H1 H2 [H3 H4] H5 H6 _]. unfold encodeShard.
  destruct (content_text _ (sContext s) (sSubjectZone s) ("" +:+ indent4) H5) as (content & -> & Hc & Hb); [by right|].
  destruct (words_sigs _ H6) as (l & -> & Hl & _). cbn [mbind outcome_bind]. eexists. split; [reflexivity|].
  destruct (annotation_text "" "  )" l _ (or_introl eq_refl) eq_refl Hl) as [E1 E2]. set (header := sprintf (TypeShard :: _)).
  assert (∀ ps, starts_blank (sprintf ps) = true → words (sprintf ps) = annotation_words (sSignatures s) →
    words (sprintf (header :: "]" :: ps)) = shard_words s) as Hs.
  { intros ps P1 P2. unfold header. rewrite sprintf_flat. cbn [app]. split_printed. rewrite (words_cons content) by tauto.
    rewrite (words_cons "]") by auto. rewrite Hc, P2, words_range_from, words_range_to by done. by rewrite (words_ident _ H1), (words_ident _ H2). }
  rewrite <-(Hs _ E1 E2). by destruct l as [|? [|]].
Qed.

Lemma shard_spec s ts : printable_shard s → no_paren ts →
  shard ((Lex_word <$> shard_words s) ++ ts)%list = Some (reread_shard s, ts).
Proof.
  intros [H1 H2 [H3 H4] H5 H6 _] Hts. unfold shard, shard_words. rewrite fmap_app, <-app_assoc. cbn [fmap list_fmap app].
  do 3 rule_step. erewrite parse_bind by by apply shardRange_spec. cbn beta iota. rule_step. rewrite fmap_app, <-app_assoc.
  erewrite parse_bind; [|by apply content_rule_spec]. rewrite fmap_cons, <-app_comm_cons. rule_step.
  erewrite parse_bind; [|by apply annotation_spec; [|intros _]].
  unfold mret, parser_ret. f_equal. f_equal. by rewrite (AddSig_fold sSignatures Shard_set_sigs) by (done || by intros []).
Qed.

Record printable_zone (z : Zone) : Prop := {
  pz_zone : identifier (zSubjectZone z);
  pz_context : identifier (zContext z);
  pz_content : Forall (printable_assertion false) (zContent z);
  pz_sigs : Forall printable_sig (zSignatures z);
  pz_rest : zValidSince z = 0 ∧ zValidUntil z = 0 ∧ zSign z = false
}.
Definition reread_zone (z : Zone) : Zone :=
  mkZone (zSignatures z) (zSubjectZone z) (zContext z) (reread_assertion <$> zContent z) 0 0 false.
Definition zone_words (z : Zone) : list string :=
  ([TypeZone; zSubjectZone z; zContext z; "["] ++
   concat (assertion_words false <$> zContent z) ++ "]" :: annotation_words (zSignatures z))%list.

Lemma words_zone z : printable_zone z → ∃ t, encodeZone z = Ok t ∧ words t = zone_words z.
Proof.
  intros [H1 H2 H5 H6 _]. unfold encodeZone.
  destruct (content_text _ (zContext z) (zSubjectZone z) indent4 H5) as (content & -> & Hc & Hb); [by right|].
  destruct (words_sigs _ H6) as (l & -> & Hl & _). cbn [mbind outcome_bind]. eexists. split; [reflexivity|].
  destruct (annotation_text "" "  )" l _ (or_introl eq_refl) eq_refl Hl) as [E1 E2]. set (header := sprintf (TypeZone :: _)).
  assert (∀ ps, starts_blank (sprintf ps) = true → words (sprintf ps) = annotation_words (zSignatures z) →
    words (sprintf (header :: "]" :: ps)) = zone_words z) as Hs.
  { intros ps P1 P2. unfold header. rewrite sprintf_flat. cbn [app]. split_printed. rewrite (words_cons content) by tauto.
    rewrite (words_cons "]") by auto. rewrite Hc, P2. by rewrite (words_ident _ H1), (words_ident _ H2). }
  rewrite <-(Hs _ E1 E2). by destruct l as [|? [|]].
Qed.

Lemma zone_spec z ts : printable_zone z → no_paren ts →
  zone ((Lex_word <$> zone_words z) ++ ts)%list = Some (reread_zone z, ts).
Proof.
  intros [H1 H2 H5 H6 _] Hts. unfold zone, zone_words. rewrite fmap_app, <-app_assoc. cbn [fmap list_fmap app].
  do 4 rule_step. rewrite fmap_app, <-app_assoc.
  erewrite parse_bind; [|by apply content_rule_spec]. rewrite fmap_cons, <-app_comm_cons. rule_step.
  erewrite parse_bind; [|by apply annotation_spec; [|intros _]].
  unfold mret, parser_ret. f_equal. f_equal. by rewrite (AddSig_fold zSignatures Zone_set_sigs) by (done || by intros []).
Qed.

(** ** Probabilistic shards *)

Record printable_pshard (s : Pshard) : Prop := {
  pp_zone : identifier (pSubjectZone s);
  pp_context : identifier (pContext s);
  pp_range : range_ok (pRangeFrom s) ∧ range_ok (pRangeTo s);
  pp_algo : bfAlgorithm (pBloomFilter s) ∈ [BloomKM12; BloomKM16; BloomKM20; BloomKM24];
  pp_hash : bfHash (pBloomFilter s) ∈ [Shake256; Fnv64; Fnv128];
  pp_filter : bfFilter (pBloomFilter s) ≠ [] ∧ Forall byte (bfFilter (pBloomFilter s));
  pp_sigs : Forall printable_sig (pSignatures s);
  pp_rest : pValidSince s = 0 ∧ pValidUntil s = 0 ∧ pSign s = false
}.
Definition reread_pshard (s : Pshard) : Pshard :=
  mkPshard (pSignatures s) (pSubjectZone s) (pContext s) (range_from (pRangeFrom s)) (range_to (pRangeTo s)) (pBloomFilter s) 0 0 false.
Definition pshard_words (s : Pshard) : list string :=
  ([TypePshard; pSubjectZone s; pContext s; range_from (pRangeFrom s); range_to (pRangeTo s)] ++ words (encodeBloomFilter (pBloomFilter s)) ++
   annotation_words (pSignatures s))%list.

(** The three words of a filter. *)
Lemma words_bloom b :
  bfAlgorithm b ∈ [BloomKM12; BloomKM16; BloomKM20; BloomKM24] → bfHash b ∈ [Shake256; Fnv64; Fnv128] →
  bfFilter b ≠ [] → Forall byte (bfFilter b) →
  ∃ w1 w2, words (encodeBloomFilter b) = [w1; w2; hex_EncodeToString (bfFilter b)] ∧
    (∀ ts, bfAlgo (Lex_word w1 :: ts) = Some (bfAlgorithm b, ts)) ∧ (∀ ts, bfHash' (Lex_word w2 :: ts) = Some (bfHash b, ts)).
Proof.
  intros H1 H2 Hne Hb. pose proof (identifier_hex _ Hne Hb) as Hi. destruct b as [algo hash filter]. cbn [bfAlgorithm bfHash bfFilter] in *.
  unfold encodeBloomFilter. cbn [bfAlgorithm bfHash bfFilter].
  repeat (apply elem_of_cons in H1 as [->|H1]; [|]); [..|by apply elem_of_nil in H1];
  (repeat (apply elem_of_cons in H2 as [->|H2]; [|]); [..|by apply elem_of_nil in H2]);
  cbn -[words sprintf hex_EncodeToString]; eexists _, _; (split; [split_words; rewrite (words_ident _ Hi); reflexivity|by split_and!]).
Qed.

Lemma words_pshard s : printable_pshard s → ∃ t, encodePshard s (pContext s) (pSubjectZone s) "" = Ok t ∧ words t = pshard_words s.
Proof.
  intros [H1 H2 [H3 H4] _ _ _ H6 _]. unfold encodePshard.
  destruct (words_sigs _ H6) as (l & -> & Hl & _). cbn [mbind outcome_bind]. eexists. split; [reflexivity|].
  destruct (annotation_text "" "  )" l _ (or_introl eq_refl) eq_refl Hl) as [E1 E2]. set (header := sprintf (TypePshard :: _)).
  assert (∀ ps, starts_blank (sprintf ps) = true → words (sprintf ps) = annotation_words (pSignatures s) →
    words (sprintf (header :: ps)) = pshard_words s) as Hs.
  { intros ps P1 P2. unfold header. rewrite sprintf_flat. cbn [app]. split_printed. rewrite (words_cons (encodeBloomFilter _)) by auto.
    rewrite P2, words_range_from, words_range_to by done. by rewrite (words_ident _ H1), (words_ident _ H2). }
  rewrite <-(Hs _ E1 E2). by destruct l as [|? [|]].
Qed.

Lemma pshard_spec s ts : printable_pshard s → no_paren ts →
  pshard ((Lex_word <$> pshard_words s) ++ ts)%list = Some (reread_pshard s, ts).
Proof.
  intros [H1 H2 [H3 H4] H5 H6 [H7 H8] H9 _] Hts. unfold pshard, pshard_words.
  destruct (words_bloom _ H5 H6 H7 H8) as (w1 & w2 & -> & E1 & E2). pose proof (identifier_hex _ H7 H8) as Hi.
  cbn [fmap list_fmap app]. do 3 rule_step. erewrite parse_bind by by apply shardRange_spec. cbn beta iota.
  rewrite (parse_bind bfAlgo _ _ _ _ (E1 _)), (parse_bind bfHash' _ _ _ _ (E2 _)). rule_step.
  erewrite parse_bind; [|by apply annotation_spec; [|intros _]].
  unfold mret, parser_ret. f_equal. f_equal. rewrite (AddSig_fold pSignatures Pshard_set_sigs) by (done || by intros []).
  rewrite hex_roundtrip by done. cbn. unfold reread_pshard. by destruct (pBloomFilter s).
Qed.

(** ** Zone files *)

Definition printable (w : SigSection) : Prop :=
  match w with
  | WAssertion a => printable_assertion true a
  | WShard s => printable_shard s
  | WPshard s => printable_pshard s
  | WZone z => printable_zone z
  end.
(** The section as the parser gives it back: open ends of ranges become the words for them,
    name sets become plain strings. *)
Definition reread (w : SigSection) : SigSection :=
  match w with
  | WAssertion a => WAssertion (reread_assertion a)
  | WShard s => WShard (reread_shard s)
  | WPshard s => WPshard (reread_pshard s)
  | WZone z => WZone (reread_zone z)
  end.
Definition section_words (w : SigSection) : list string :=
  match w with
  | WAssertion a => assertion_words true a
  | WShard s => shard_words s
  | WPshard s => pshard_words s
  | WZone z => zone_words z
  end.

Lemma words_section w : printable w → ∃ t, EncodeSection (SigSection_section w) = Ok t ∧ words t = section_words w.
Proof.
  destruct w; intros H; [apply (words_assertion true _ "" H); by left|by apply words_shard|by apply words_pshard|by apply words_zone].
Qed.
Lemma section_spec w ts : printable w → no_paren ts → section ((Lex_word <$> section_words w) ++ ts)%list = Some (reread w, ts).
Proof.
  intros H Hts. unfold section. erewrite parse_bind by reflexivity.
  destruct w; cbn [printable section_words reread] in *.
  - exact (parse_bind _ _ _ _ _ (assertion_spec true _ _ H Hts)).
  - exact (parse_bind _ _ _ _ _ (shard_spec _ _ H Hts)).
  - exact (parse_bind _ _ _ _ _ (pshard_spec _ _ H Hts)).
  - exact (parse_bind _ _ _ _ _ (zone_spec _ _ H Hts)).
Qed.
Lemma section_start w : ∃ t rest, Lex_word <$> section_words w = t :: rest ∧ is_section t = true ∧ t ≠ T lParenthesis.
Proof. destruct w; by eexists _, _. Qed.

Lemma sections_spec ws : Forall printable ws → sections (Lex_word <$> concat (section_words <$> ws)) = Some (reread <$> ws, []).
Proof.
  intros Hw. unfold sections. rewrite <-(app_nil_r (Lex_word <$> _)), lex_concat.
  rewrite (rep_good _ _ _ reread no_paren); [done| |done|done].
  eapply Forall_impl; [exact Hw|]. intros w H. split; [|by intros; apply section_spec].
  destruct (section_start w) as (t & rest & E & Hs & Ht). exists t, rest. split_and!; [done|done|]. intros rest' [= ?]. done.
Qed.

(** Printing does not see what [reread] changes. *)
Lemma encodeObjects_reread content indent : encodeObjects (reread_object <$> content) indent = encodeObjects content indent.
Proof.
  unfold encodeObjects. assert (∀ o, encode_object (reread_object o) = encode_object o) as H; [by intros [t []]|].
  assert (mapM encode_object (reread_object <$> content) = mapM encode_object content) as ->; [|done].
  induction content as [|o content IH]; [done|]. cbn. rewrite H. by rewrite IH.
Qed.
Lemma encodeAssertion_reread a context zone indent top :
  encodeAssertion (reread_assertion a) context zone indent top = encodeAssertion a context zone indent top.
Proof.
  unfold encodeAssertion. cbn [reread_assertion aContent aSignatures aSubjectName]. by rewrite length_fmap, !encodeObjects_reread.
Qed.
Lemma encode_content_reread content context zone indent :
  encode_content (reread_assertion <$> content) context zone indent = encode_content content context zone indent.
Proof.
  unfold encode_content. assert (∀ f : Assertion → outcome string, (∀ a, f (reread_assertion a) = f a) →
    traverse f (reread_assertion <$> content) = traverse f content) as H.
  { intros f Hf. induction content as [|a content IH]; [done|]. cbn. by rewrite Hf, IH. }
  rewrite H; [done|]. intros a. apply encodeAssertion_reread.
Qed.
Lemma range_idem s : range_from (range_from s) = range_from s ∧ range_to (range_to s) = range_to s.
Proof. unfold range_from, range_to. destruct (String.eqb_spec s ""); [done|]. by rewrite str_eqb_neq. Qed.
Lemma EncodeSection_reread w : EncodeSection (SigSection_section (reread w)) = EncodeSection (SigSection_section w).
Proof.
  destruct w as [a|s|s|z]; cbn [reread SigSection_section EncodeSection].
  - apply encodeAssertion_reread.
  - unfold encodeShard. cbn [reread_shard sContent sContext sSubjectZone sRangeFrom sRangeTo sSignatures]. rewrite encode_content_reread. by destruct (range_idem (sRangeFrom s)) as [-> _], (range_idem (sRangeTo s)) as [_ ->].
  - unfold encodePshard. cbn [reread_pshard pBloomFilter pContext pSubjectZone pRangeFrom pRangeTo pSignatures]. by destruct (range_idem (pRangeFrom s)) as [-> _], (range_idem (pRangeTo s)) as [_ ->].
  - unfold encodeZone. cbn [reread_zone zContent zContext zSubjectZone zSignatures]. by rewrite encode_content_reread.
Qed.

(** The text of printable sections, and its words. *)
Lemma Encode_words ws : Forall printable ws →
  ∃ text, Encode (SigSection_section <$> ws) = Ok text ∧ words text = concat (section_words <$> ws).
Proof.
  intros Hw. assert (∃ l, traverse EncodeSection (SigSection_section <$> ws) = Ok l ∧ words <$> l = section_words <$> ws) as (l & E & Hl).
  { induction Hw as [|w ws H _ (l & E & Hl)]; [by exists []|]. destruct (words_section w H) as (t & Et & Ht).
    exists (t :: l). cbn. rewrite Et. cbn. rewrite E. cbn. by rewrite Ht, Hl. }
  eexists. unfold Encode. rewrite E. split; [reflexivity|]. by rewrite words_join, Hl.
Qed.

(** C30: a printed zone file is read back.  Sections of the four kinds with printable parts
    are printed without a panic, and the parser turns the text into the same sections, except
    that an open end of a range becomes the word for it and a name set becomes a plain string;
    printing these again gives the same text.  The text must have no comment sign and no line
    over the scanner's limit. *)
Theorem zonefile_roundtrip ws :
  Forall printable ws → ws ≠ [] →
  ∃ text, Encode (SigSection_section <$> ws) = Ok text ∧ Encode (SigSection_section <$> (reread <$> ws)) = Ok text ∧
    (plain text → ∀ output, parse text output = (reread <$> ws, Ok (reread <$> ws))).
Proof.
  intros Hw Hne. destruct (Encode_words ws Hw) as (text & E & Ht). exists text. split_and!; [done| |].
  - rewrite <-E. unfold Encode. assert (traverse EncodeSection (SigSection_section <$> (reread <$> ws)) =
      traverse EncodeSection (SigSection_section <$> ws)) as ->; [|done].
    clear. induction ws as [|w ws IH]; [done|]. cbn [fmap list_fmap traverse] in *. by rewrite EncodeSection_reread, IH.
  - intros Hp output. unfold parse. rewrite tokens_plain, Ht, sections_spec by done.
    rewrite bool_decide_eq_false_2; [done|]. by destruct ws.
Qed.
End Sections.

(** ** What the parser gets wrong *)

Section Parsed.
Context `{!AddrLib, !ZoneLib, !ObjLib}.

Lemma object_type_value ts o rest : object ts = Some (o, rest) → objType o = OTNameset → ∃ s, objValue o = VString s.
Proof.
  unfold object, mbind, parser_bind, mret, parser_ret. unfold mbind, option_bind. intros E Ht. destruct (oType ts) as [[t ts']|]; [|done].
  destruct (decide (t = OTNameset)) as [->|Hne].
  - cbn in E. destruct (freeText ts') as [[s ts1]|]; [|done]. injection E as <- _. by eexists.
  - exfalso. apply Hne. rewrite <-Ht. clear Hne Ht. repeat (case_match; simplify_eq/=; try done).
Qed.

(** A name set in a zone file is lost.  A name set that can be marshalled is printed and
    read back as an object the marshaller refuses, because its value is a plain string; so is
    whatever the parser makes of an object of that type. *)
Theorem parsed_nameset_is_refused :
  (∀ ts o rest, object ts = Some (o, rest) → objType o = OTNameset →
     Object_MarshalArray o = Err "expected OTNameset value to be NamesetExpr") ∧
  (∀ o, printable_object o → objType o = OTNameset →
     is_ok (Object_MarshalArray o) = true ∧
     Object_MarshalArray (reread_object o) = Err "expected OTNameset value to be NamesetExpr").
Proof.
  split.
  - intros ts o rest E Ht. destruct (object_type_value _ _ _ E Ht) as [s Hs]. unfold Object_MarshalArray. by rewrite Ht, Hs.
  - intros [t v] Hp Ht. cbn in Ht. subst t. unfold printable_object in Hp. cbn in Hp.
    destruct v; by decompose [and or] Hp.
Qed.
End Parsed.

(** ** A zone file *)

(** Addresses in dotted form. *)
Fixpoint undot (s : string) : string :=
  match s with EmptyString => EmptyString | String c s' => String (if Ascii.eqb c "." then " "%char else c) (undot s') end.
Definition dotted (s : string) : option (list Z) := mapM Atoi (words (undot s)).
Definition file_addresses : AddrLib := {|
  ResolveTCPAddr s := None;
  ParseUDPAddr s := None;
  IP_String ip := str_join "." (dec <$> ip);
  IA_String ia := dec (iaI ia)
|}.
Definition file_lib : ZoneLib := {|
  ParseIP := dotted;
  snet_ParseUDPAddr s := if s =ₛ "1,[10.0.0.9]" then Some (mkIA 1 0, [10; 0; 0; 9], 0) else None;
  fmt_other _ := ""
|}.

Section Example.
Local Existing Instance file_addresses.
Local Existing Instance file_lib.
Local Existing Instance be_objlib.

Definition f_id : PublicKeyID := mkPublicKeyID Ed25519 RainsKeySpace 3.
Definition f_sig (data : SigData) : Sig := mkSig f_id 1000 2000 data false.
Definition f_key : PublicKey := mkPublicKey f_id 0 0 (KeyEd25519 (repeat 171 32)).
Definition f_objects : list Object :=
  [mkObject OTIP4Addr (VIP [192; 0; 2; 1]); mkObject OTScionAddr (VScion (mkSCIONAddress (mkIA 1 0) [10; 0; 0; 9]));
   mkObject OTName (VName (mkObjName "web" [OTIP4Addr; OTIP6Addr])); mkObject OTDelegation (VPublicKey f_key);
   mkObject OTCertInfo (VCertificate (mkCertificate PTTLS CUEndEntity Sha256 [1; 255]));
   mkObject OTServiceInfo (VServiceInfo (mkServiceInfo "srv" 443 1)); mkObject OTRegistrar (VString "the registrar");
   mkObject OTNextKey (VPublicKey (mkPublicKey f_id 5 6 (KeyEd25519 (repeat 1 32)))); mkObject OTNameset (VNamesetExpr "a b")].
Definition f_inner (name : string) (sigs : list Sig) : Assertion :=
  mkAssertion sigs name "" "" [mkObject OTRedirection (VString "ns.ch.")] 0 0 false.
Definition f_sections : list SigSection :=
  [WAssertion (mkAssertion [f_sig (DataBytes [7; 8])] "www" "ch." "." f_objects 0 0 false);
   WShard (mkShard [] "ch." "." "" "m" [f_inner "a" [f_sig DataNil]; f_inner "b" []] 0 0 false);
   WPshard (mkPshard [f_sig DataNil; f_sig (DataBytes [9])] "ch." "." "m" "" (mkBloomFilter BloomKM12 Fnv64 [0; 1]) 0 0 false);
   WZone (mkZone [f_sig DataNil] "ch." "." [f_inner "c" [f_sig DataNil; f_sig DataNil]] 0 0 false)].

Ltac printable_tac :=
  repeat match goal with
  | |- Forall byte _ => repeat constructor; unfold byte; cbn; lia
  | |- Forall _ [] => constructor
  | |- Forall _ (_ :: _) => constructor
  | |- Forall _ (onTypes _) => cbn
  | |- identifier _ => split; [split; [discriminate|reflexivity]|reflexivity]
  | |- range_ok _ => first [left; reflexivity|right]
  | |- _ ∧ _ => split
  | |- _ ≠ _ => discriminate
  | |- _ = _ => reflexivity
  | |- _ ∈ _ => by (cbn; set_solver)
  | |- validity_ok _ => unfold validity_ok; cbn; lia
  | |- in_int64 _ => unfold in_int64; cbn; lia
  | |- in_uint16 _ => unfold in_uint16; cbn; lia
  | |- sig_data_ok _ => cbn
  | |- printable _ => cbn
  | |- True => exact I
  | |- key_id_ok _ => split
  | |- key_ok _ => split; [|cbn]
  | |- printable_sig _ => split
  | |- printable_assertion _ _ => split; cbn
  | |- printable_shard _ => split; cbn
  | |- printable_pshard _ => split; cbn
  | |- printable_zone _ => split; cbn
  end.

Lemma f_objects_printable : Forall printable_object f_objects.
Proof.
  unfold f_objects. repeat (apply Forall_cons_2); [..|apply Forall_nil_2]; unfold printable_object; cbn [objType objValue].
  - split; [by right|]. printable_tac.
  - printable_tac.
  - printable_tac.
  - split; [printable_tac|]. left. split; [by left|done].
  - printable_tac.
  - printable_tac.
  - right. split; [by left|]. exists ["the"; "registrar"]. printable_tac.
  - split; [printable_tac|]. right. printable_tac.
  - split; [done|]. exists ["a"; "b"]. printable_tac.
Qed.
Lemma f_sections_printable : Forall printable f_sections.
Proof.
  assert (printable_object (mkObject OTRedirection (VString "ns.ch."))) as Hr by (left; printable_tac).
  unfold f_sections. repeat (apply Forall_cons_2); [..|apply Forall_nil_2]; printable_tac; try exact f_objects_printable; try exact Hr.
Qed.
Definition f_text : string := match Encode (SigSection_section <$> f_sections) with Ok t => t | _ => "" end.
Lemma f_text_plain : plain f_text.
Proof. split; [vm_compute; repeat split; discriminate|]. apply (bool_decide_unpack _). vm_compute. exact I. Qed.

Lemma zonefile_roundtrip_witness : parse f_text [] = (reread <$> f_sections, Ok (reread <$> f_sections)).
Proof.
  destruct (zonefile_roundtrip f_sections f_sections_printable) as (text & E & _ & H); [discriminate|].
  unfold f_text. rewrite E. apply H. change text with (match Ok text with Ok t => t | _ => "" end). rewrite <-E. exact f_text_plain.
Defined.

Lemma queries_roundtrip_witness :
  ∃ text, Encode (SecQuery <$> [mkQueryName "." "www.ch." [OTIP4Addr; OTName] (-5) [4] 0 0]) = Ok text ∧
    DecodeNameQueriesUnsafe text = Some [mkQueryName "." "www.ch." [OTIP4Addr; OTName] (-5) [4] 0 0].
Proof.
  refine (proj1 (queries_roundtrip [mkQueryName "." "www.ch." [OTIP4Addr; OTName] (-5) [4] 0 0] _)).
  constructor; [|constructor]. split; cbn; try done; printable_tac; by vm_compute.
Defined.

Lemma parsed_nameset_is_refused_witness :
  Object_MarshalArray (mkObject OTNameset (VString "a b")) = Err "expected OTNameset value to be NamesetExpr".
Proof. apply (proj1 parsed_nameset_is_refused [T namesetType; ID "a"; ID "b"] _ []); reflexivity. Defined.

(** A file with anything behind its sections is read as if it ended there. *)
Lemma garbage_is_ignored : parse (f_text +:+ " garbage [ :Z:") [] = (reread <$> f_sections, Ok (reread <$> f_sections)).
Proof. vm_compute. reflexivity. Qed.
(** After a file that was read, a malformed one is answered with the sections of the first. *)
Lemma malformed_file_repeats_output :
  let '(output, _) := parse f_text [] in (parse ":A: www [" output).2 = Ok (reread <$> f_sections).
Proof. vm_compute. reflexivity. Qed.
End Example.
