(* ===== verification/ZoneParser.v ===== *)
(** * The generated parser of zone files

    Models the parser that goyacc generated into
    attic/internal/pkg/zonefile/zoneFileParser.go: its tables, the loop of [Parse] with its
    stack and its lookahead, the recovery from errors, and the action of every rule.  The
    rules themselves, by recursive descent, are in [ZoneFile].

    The labels of [Parse] are functions: [iterate] goes from [ZFPnewstate] to the next
    [ZFPstack] or to the end.  A table that is read outside its bounds is a panic. *)

From S2P Require Import Prelude Cbor Keys Object Query BitArray BloomFilter Section Message Siglib ConnectionCache Server Connection ZoneFile.
Local Open Scope string_scope.
Local Open Scope Z_scope.

(** ** Values on the stack *)

(** What stands for nil and for zero values. *)
Definition noAssertion : Assertion := mkAssertion [] "" "" "" [] 0 0 false.
Definition noShard : Shard := mkShard [] "" "" "" "" [] 0 0 false.
Definition noPshard : Pshard := mkPshard [] "" "" "" "" (mkBloomFilter 0 0 []) 0 0 false.
Definition noZone : Zone := mkZone [] "" "" [] 0 0 false.
Definition noObject : Object := mkObject 0 (VOther CNil).
Definition noSig : Sig := mkSig zeroPublicKeyID 0 0 DataNil false.

(** One field per type of the grammar; a value has those of its parts that it was made from,
    too.  The state [yys] is kept beside the value; [publicKey] is not used.  A shard range
    always has two elements. *)
Record ZFPSymType := mkSym {
  syStr : string;
  syAssertion : Assertion;
  syAssertions : list Assertion;
  syShard : Shard;
  syPshard : Pshard;
  syZone : Zone;
  sySections : list SigSection;
  syObjects : list Object;
  syObject : Object;
  syObjectTypes : list OType;
  syObjectType : OType;
  sySignatures : list Sig;
  sySignature : Sig;
  syShardRange : string * string;
  syProtocolType : Z;
  syCertUsage : Z;
  syHashType : HashAlgo;
  syBfAlgo : Z
}.

Definition zeroSym : ZFPSymType := mkSym "" noAssertion [] noShard noPshard noZone [] [] noObject [] 0 [] noSig ("", "") 0 0 0 0.

Definition set_str (x : string) (v : ZFPSymType) : ZFPSymType :=
  mkSym x (syAssertion v) (syAssertions v) (syShard v) (syPshard v) (syZone v) (sySections v) (syObjects v) (syObject v) (syObjectTypes v) (syObjectType v) (sySignatures v) (sySignature v) (syShardRange v) (syProtocolType v) (syCertUsage v) (syHashType v) (syBfAlgo v).
Definition set_assertion (x : Assertion) (v : ZFPSymType) : ZFPSymType :=
  mkSym (syStr v) x (syAssertions v) (syShard v) (syPshard v) (syZone v) (sySections v) (syObjects v) (syObject v) (syObjectTypes v) (syObjectType v) (sySignatures v) (sySignature v) (syShardRange v) (syProtocolType v) (syCertUsage v) (syHashType v) (syBfAlgo v).
Definition set_assertions (x : list Assertion) (v : ZFPSymType) : ZFPSymType :=
  mkSym (syStr v) (syAssertion v) x (syShard v) (syPshard v) (syZone v) (sySections v) (syObjects v) (syObject v) (syObjectTypes v) (syObjectType v) (sySignatures v) (sySignature v) (syShardRange v) (syProtocolType v) (syCertUsage v) (syHashType v) (syBfAlgo v).
Definition set_shard (x : Shard) (v : ZFPSymType) : ZFPSymType :=
  mkSym (syStr v) (syAssertion v) (syAssertions v) x (syPshard v) (syZone v) (sySections v) (syObjects v) (syObject v) (syObjectTypes v) (syObjectType v) (sySignatures v) (sySignature v) (syShardRange v) (syProtocolType v) (syCertUsage v) (syHashType v) (syBfAlgo v).
Definition set_pshard (x : Pshard) (v : ZFPSymType) : ZFPSymType :=
  mkSym (syStr v) (syAssertion v) (syAssertions v) (syShard v) x (syZone v) (sySections v) (syObjects v) (syObject v) (syObjectTypes v) (syObjectType v) (sySignatures v) (sySignature v) (syShardRange v) (syProtocolType v) (syCertUsage v) (syHashType v) (syBfAlgo v).
Definition set_zone (x : Zone) (v : ZFPSymType) : ZFPSymType :=
  mkSym (syStr v) (syAssertion v) (syAssertions v) (syShard v) (syPshard v) x (sySections v) (syObjects v) (syObject v) (syObjectTypes v) (syObjectType v) (sySignatures v) (sySignature v) (syShardRange v) (syProtocolType v) (syCertUsage v) (syHashType v) (syBfAlgo v).
Definition set_sections (x : list SigSection) (v : ZFPSymType) : ZFPSymType :=
  mkSym (syStr v) (syAssertion v) (syAssertions v) (syShard v) (syPshard v) (syZone v) x (syObjects v) (syObject v) (syObjectTypes v) (syObjectType v) (sySignatures v) (sySignature v) (syShardRange v) (syProtocolType v) (syCertUsage v) (syHashType v) (syBfAlgo v).
Definition set_objects (x : list Object) (v : ZFPSymType) : ZFPSymType :=
  mkSym (syStr v) (syAssertion v) (syAssertions v) (syShard v) (syPshard v) (syZone v) (sySections v) x (syObject v) (syObjectTypes v) (syObjectType v) (sySignatures v) (sySignature v) (syShardRange v) (syProtocolType v) (syCertUsage v) (syHashType v) (syBfAlgo v).
Definition set_object (x : Object) (v : ZFPSymType) : ZFPSymType :=
  mkSym (syStr v) (syAssertion v) (syAssertions v) (syShard v) (syPshard v) (syZone v) (sySections v) (syObjects v) x (syObjectTypes v) (syObjectType v) (sySignatures v) (sySignature v) (syShardRange v) (syProtocolType v) (syCertUsage v) (syHashType v) (syBfAlgo v).
Definition set_objectTypes (x : list OType) (v : ZFPSymType) : ZFPSymType :=
  mkSym (syStr v) (syAssertion v) (syAssertions v) (syShard v) (syPshard v) (syZone v) (sySections v) (syObjects v) (syObject v) x (syObjectType v) (sySignatures v) (sySignature v) (syShardRange v) (syProtocolType v) (syCertUsage v) (syHashType v) (syBfAlgo v).
Definition set_objectType (x : OType) (v : ZFPSymType) : ZFPSymType :=
  mkSym (syStr v) (syAssertion v) (syAssertions v) (syShard v) (syPshard v) (syZone v) (sySections v) (syObjects v) (syObject v) (syObjectTypes v) x (sySignatures v) (sySignature v) (syShardRange v) (syProtocolType v) (syCertUsage v) (syHashType v) (syBfAlgo v).
Definition set_signatures (x : list Sig) (v : ZFPSymType) : ZFPSymType :=
  mkSym (syStr v) (syAssertion v) (syAssertions v) (syShard v) (syPshard v) (syZone v) (sySections v) (syObjects v) (syObject v) (syObjectTypes v) (syObjectType v) x (sySignature v) (syShardRange v) (syProtocolType v) (syCertUsage v) (syHashType v) (syBfAlgo v).
Definition set_signature (x : Sig) (v : ZFPSymType) : ZFPSymType :=
  mkSym (syStr v) (syAssertion v) (syAssertions v) (syShard v) (syPshard v) (syZone v) (sySections v) (syObjects v) (syObject v) (syObjectTypes v) (syObjectType v) (sySignatures v) x (syShardRange v) (syProtocolType v) (syCertUsage v) (syHashType v) (syBfAlgo v).
Definition set_shardRange (x : string * string) (v : ZFPSymType) : ZFPSymType :=
  mkSym (syStr v) (syAssertion v) (syAssertions v) (syShard v) (syPshard v) (syZone v) (sySections v) (syObjects v) (syObject v) (syObjectTypes v) (syObjectType v) (sySignatures v) (sySignature v) x (syProtocolType v) (syCertUsage v) (syHashType v) (syBfAlgo v).
Definition set_protocolType (x : Z) (v : ZFPSymType) : ZFPSymType :=
  mkSym (syStr v) (syAssertion v) (syAssertions v) (syShard v) (syPshard v) (syZone v) (sySections v) (syObjects v) (syObject v) (syObjectTypes v) (syObjectType v) (sySignatures v) (sySignature v) (syShardRange v) x (syCertUsage v) (syHashType v) (syBfAlgo v).
Definition set_certUsage (x : Z) (v : ZFPSymType) : ZFPSymType :=
  mkSym (syStr v) (syAssertion v) (syAssertions v) (syShard v) (syPshard v) (syZone v) (sySections v) (syObjects v) (syObject v) (syObjectTypes v) (syObjectType v) (sySignatures v) (sySignature v) (syShardRange v) (syProtocolType v) x (syHashType v) (syBfAlgo v).
Definition set_hashType (x : HashAlgo) (v : ZFPSymType) : ZFPSymType :=
  mkSym (syStr v) (syAssertion v) (syAssertions v) (syShard v) (syPshard v) (syZone v) (sySections v) (syObjects v) (syObject v) (syObjectTypes v) (syObjectType v) (sySignatures v) (sySignature v) (syShardRange v) (syProtocolType v) (syCertUsage v) x (syBfAlgo v).
Definition set_bfAlgo (x : Z) (v : ZFPSymType) : ZFPSymType :=
  mkSym (syStr v) (syAssertion v) (syAssertions v) (syShard v) (syPshard v) (syZone v) (sySections v) (syObjects v) (syObject v) (syObjectTypes v) (syObjectType v) (sySignatures v) (sySignature v) (syShardRange v) (syProtocolType v) (syCertUsage v) (syHashType v) x.


(** ** The tables *)

Definition ZFPExca : list Z :=
  [-1; 1; 1; -1; -2; 0].
Definition ZFPAct : list Z :=
  [128; 3; 37; 38; 82; 129; 130; 131; 132; 133; 134; 135; 136; 137; 138; 139; 140; 141; 142; 53; 55; 54; 56; 57;
   58; 59; 60; 61; 62; 63; 64; 65; 66; 16; 27; 107; 95; 94; 72; 73; 93; 75; 161; 11; 11; 29; 92; 98;
   96; 91; 101; 102; 103; 104; 69; 81; 156; 36; 27; 33; 145; 146; 147; 148; 149; 150; 151; 89; 90; 53; 55; 54;
   56; 57; 58; 59; 60; 61; 62; 63; 64; 65; 66; 68; 157; 124; 28; 99; 97; 121; 122; 123; 25; 70; 111; 112;
   113; 118; 85; 86; 87; 15; 11; 12; 13; 14; 74; 125; 165; 164; 17; 18; 19; 163; 160; 71; 159; 34; 155; 154;
   153; 158; 75; 152; 1; 143; 126; 117; 162; 129; 130; 131; 132; 133; 134; 135; 136; 137; 138; 139; 140; 141; 142; 53;
   55; 54; 56; 57; 58; 59; 60; 61; 62; 63; 64; 65; 66; 116; 115; 109; 114; 108; 106; 83; 88; 80; 79; 78;
   77; 76; 67; 35; 32; 31; 30; 23; 22; 21; 20; 100; 120; 144; 110; 84; 26; 24; 127; 52; 51; 50; 49; 48;
   47; 46; 45; 44; 43; 42; 40; 41; 39; 7; 105; 119; 9; 5; 8; 4; 2; 10; 6].
Definition ZFPPact : list Z :=
  [-1000; -1000; 97; -1000; -1000; -1000; -1000; -14; -14; -14; -14; 174; 173; 172; 171; -1000; 35; -1000; -1000; -1000; 41; 170; 169; 168;
   11; -1000; 167; 33; 134; 166; 50; 50; -7; -1000; -1000; -1000; -3; 60; -1000; -1000; -1000; -1000; -1000; -1000; -1000; -1000; -1000; -1000;
   -1000; -1000; -1000; -1000; -1000; 165; 164; 163; 162; 161; 31; 159; 73; 160; 159; 159; 25; 22; 16; -8; -9; 44; 43; 12;
   -1000; 158; -1000; -1000; -10; -1000; -1000; -1000; -1000; 157; 155; -1000; 66; -1000; -1000; -1000; 156; 155; 155; 154; 153; 123; 134; -1000;
   -1000; -1000; -1000; -1000; 54; -1000; -1000; -1000; -1000; 39; 122; 120; 121; -1000; 29; -1000; -1000; -1000; 119; 116; 115; 114; 10; 38;
   112; -1000; -1000; -1000; -1000; -1000; 110; -4; -1000; -1000; -1000; -1000; -1000; -1000; -1000; -1000; -1000; -1000; -1000; -1000; -1000; -1000; -1000; -1000;
   109; -1000; -1000; -1000; -1000; -1000; -1000; -1000; -1000; -1000; -1000; 105; -1000; -1000; -1000; -1000; -1000; -1000; -1000; -1000; 104; -1000].
Definition ZFPPgo : list Z :=
  [0; 210; 209; 208; 207; 206; 83; 205; 204; 203; 202; 1; 201; 2; 3; 200; 199; 198; 197; 196; 195; 194; 193; 192;
   191; 190; 189; 188; 187; 186; 0; 101; 185; 92; 184; 4; 183; 182; 181; 180; 179; 124].
Definition ZFPR1 : list Z :=
  [0; 41; 3; 3; 3; 3; 3; 1; 1; 2; 10; 10; 4; 4; 5; 6; 6; 6; 6; 9; 9; 7; 7; 8;
   39; 39; 39; 40; 40; 40; 40; 11; 11; 12; 12; 13; 13; 14; 14; 14; 14; 14; 14; 14; 14; 14; 14; 14;
   14; 14; 14; 15; 29; 29; 30; 30; 30; 30; 30; 30; 30; 30; 30; 30; 30; 30; 30; 30; 17; 16; 18; 19;
   20; 21; 22; 23; 24; 25; 26; 27; 28; 36; 36; 36; 37; 37; 37; 38; 38; 38; 38; 38; 38; 38; 35; 35;
   31; 32; 32; 33; 33; 34].
Definition ZFPR2 : list Z :=
  [0; 1; 0; 2; 2; 2; 2; 1; 2; 6; 0; 2; 1; 2; 7; 2; 2; 2; 2; 0; 2; 1; 2; 7;
   1; 1; 1; 1; 1; 1; 1; 1; 2; 5; 7; 1; 2; 1; 1; 1; 1; 1; 1; 1; 1; 1; 1; 1;
   1; 1; 1; 5; 1; 2; 1; 1; 1; 1; 1; 1; 1; 1; 1; 1; 1; 1; 1; 1; 2; 2; 2; 2;
   4; 2; 5; 4; 2; 2; 4; 4; 6; 1; 1; 1; 1; 1; 1; 1; 1; 1; 1; 1; 1; 1; 1; 2;
   3; 1; 2; 1; 2; 6].
Definition ZFPChk : list Z :=
  [-1000; -41; -3; -11; -4; -7; -1; -12; -5; -8; -2; 5; 6; 7; 8; -31; 47; -31; -31; -31; 4; 4; 4; 4;
   -32; -33; -34; 23; 45; 4; 4; 4; 4; 48; -33; 4; 24; -13; -14; -15; -17; -16; -18; -19; -20; -21; -22; -23;
   -24; -25; -26; -27; -28; 9; 11; 10; 12; 13; 14; 15; 16; 17; 18; 19; 20; 21; 22; 4; -6; 4; 43; -6;
   45; 42; 46; -14; 4; 4; 4; 4; 4; 24; -35; 4; -36; 25; 26; 27; 4; -35; -35; 24; 24; 24; 45; 45;
   4; 44; 4; 44; -40; 38; 39; 40; 41; -10; 4; 45; 4; 4; -37; 28; 29; 30; 4; 4; 4; 4; -13; -9;
   -39; 35; 36; 37; 46; -11; 4; -29; -30; 9; 10; 11; 12; 13; 14; 15; 16; 17; 18; 19; 20; 21; 22; 4;
   -38; 31; 32; 33; 34; 35; 36; 37; 4; 4; 4; 4; 46; 46; -11; 4; 4; 46; -30; 4; 4; 4].
Definition ZFPDef : list Z :=
  [2; -2; 1; 3; 4; 5; 6; 31; 12; 21; 7; 0; 0; 0; 0; 32; 0; 13; 22; 8; 0; 0; 0; 0;
   0; 97; 99; 0; 0; 0; 0; 0; 0; 96; 98; 100; 0; 0; 35; 37; 38; 39; 40; 41; 42; 43; 44; 45;
   46; 47; 48; 49; 50; 0; 0; 0; 0; 0; 0; 0; 0; 0; 0; 0; 0; 0; 0; 0; 0; 0; 0; 0;
   10; 0; 33; 36; 0; 68; 69; 70; 71; 0; 73; 94; 0; 81; 82; 83; 0; 76; 77; 0; 0; 0; 0; 19;
   15; 17; 16; 18; 0; 27; 28; 29; 30; 0; 0; 0; 0; 95; 0; 84; 85; 86; 0; 0; 0; 0; 0; 0;
   0; 24; 25; 26; 9; 11; 0; 0; 52; 54; 55; 56; 57; 58; 59; 60; 61; 62; 63; 64; 65; 66; 67; 72;
   0; 87; 88; 89; 90; 91; 92; 93; 75; 78; 79; 0; 34; 14; 20; 23; 101; 51; 53; 74; 0; 80].
Definition ZFPTok1 : list Z :=
  [1].
Definition ZFPTok2 : list Z :=
  [2; 3; 4; 5; 6; 7; 8; 9; 10; 11; 12; 13; 14; 15; 16; 17; 18; 19; 20; 21; 22; 23; 24; 25;
   26; 27; 28; 29; 30; 31; 32; 33; 34; 35; 36; 37; 38; 39; 40; 41; 42; 43; 44; 45; 46; 47; 48].
Definition ZFPTok3 : list Z :=
  [0].

Definition ZFPPrivate : Z := 57344.
Definition ZFPLast : Z := 211.
Definition ZFPFlag : Z := -1000.
Definition ZFPEofCode : Z := 1.
Definition ZFPErrCode : Z := 2.
Definition ZFPInitialStackSize : Z := 16.

(** The constants of the terminals: [ID] is 57346, the others follow in order. *)
Definition terminals : list Terminal :=
  [assertionType; shardType; pshardType; zoneType; nameType; ip4Type; ip6Type; scionType; redirType; delegType; namesetType; certType;
   srvType; regrType; regtType; infraType; extraType; nextType; sigType; ed25519Type; unspecified; tls; rhine; trustAnchor; endEntity;
   zoneAuth; noHash; sha256; sha384; sha512; shake256; fnv64; fnv128; bloomKM12; bloomKM16; bloomKM20; bloomKM24; rains; rangeBegin;
   rangeEnd; lBracket; rBracket; lParenthesis; rParenthesis].
Definition char_of (t : option Tok) : Z :=
  match t with
  | None => 0
  | Some (ID _) => 57346
  | Some (T t) => 57347 + match list_find (t =.) terminals with Some (i, _) => Z.of_nat i | None => 0 end
  end.

(** The loop over [ZFPTok3], two at a time. *)
Fixpoint tok3_loop (l : list Z) (char token : Z) : outcome Z :=
  match l with
  | [] => Ok token
  | a :: l' =>
      if a =? char then at_index l' 0
      else match l' with [] => Ok a | _ :: l'' => tok3_loop l'' char a end
  end.
(** The internal number of what [Lex] returned. *)
Definition token_of (char : Z) : outcome Z :=
  token ←
    (if char <=? 0 then at_index ZFPTok1 0
     else if char <? Z.of_nat (length ZFPTok1) then at_index ZFPTok1 char
     else if (ZFPPrivate <=? char) && (char <? ZFPPrivate + Z.of_nat (length ZFPTok2)) then at_index ZFPTok2 (char - ZFPPrivate)
     else tok3_loop ZFPTok3 char 0);
  if token =? 0 then at_index ZFPTok2 1 else Ok token.

(** ** The state of the parser *)

(** [psStack] are the slots of [ZFPS] up to [ZFPp] with their states, the top first;
    [psAbove] are the slots above it, which keep the values that were there: slots that were
    never written, or come from growing, are zero.  [psChar] is negative when there is no
    lookahead.  [psOutput] is the variable [output]. *)
Record Parser := mkParser {
  psStack : list (Z * ZFPSymType);
  psAbove : list ZFPSymType;
  psState : Z;
  psVal : ZFPSymType;
  psLex : ZFPLex;
  psLval : ZFPSymType;
  psChar : Z;
  psToken : Z;
  psErrflag : Z;
  psOutput : list SigSection
}.

(** [ZFPstack] *)
Definition push (p : Parser) : Parser :=
  mkParser ((psState p, psVal p) :: psStack p) (tail (psAbove p)) (psState p) (psVal p) (psLex p) (psLval p) (psChar p) (psToken p) (psErrflag p) (psOutput p).

(** [ZFPlex1]; [Lex] writes the word into the value only for [ID]. *)
Definition ZFPlex1 (p : Parser) : outcome Parser :=
  '(t, lex) ← Lex (psLex p);
  let lval := match t with Some (ID word) => set_str word (psLval p) | _ => psLval p end in
  let char := char_of t in
  token ← token_of char;
  Ok (mkParser (psStack p) (psAbove p) (psState p) (psVal p) lex lval char token (psErrflag p) (psOutput p)).
Definition lookahead (p : Parser) : outcome Parser := if psChar p <? 0 then ZFPlex1 p else Ok p.

(** A valid shift to the state [n]. *)
Definition shift (p : Parser) (n : Z) : Parser :=
  push (mkParser (psStack p) (psAbove p) n (psLval p) (psLex p) (psLval p) (-1) (-1)
          (if 0 <? psErrflag p then psErrflag p - 1 else psErrflag p) (psOutput p)).

(** The exception table: to the entries of the state, then to the token or the default. *)
Fixpoint exca_find (l : list Z) (state : Z) : outcome (list Z) :=
  match l with
  | a :: b :: l' => if (a =? -1) && (b =? state) then Ok l' else exca_find l' state
  | _ => Panic "index out of range"
  end.
Fixpoint exca_token (l : list Z) (token : Z) : outcome Z :=
  match l with
  | a :: b :: l' => if (a <? 0) || (a =? token) then Ok b else exca_token l' token
  | _ => Panic "index out of range"
  end.

Section Parse.
Context {ZL : ZoneLib}.

(** ** The actions *)

(** [$i] of the rule, from the slots of its right-hand side. *)
Definition dollar (d : list ZFPSymType) (i : Z) : ZFPSymType := nth (Z.to_nat (i - 1)) d zeroSym.
Definition key_value (d : list ZFPSymType) : PublicKey :=
  logged noPublicKey (DecodeEd25519PublicKeyData (syStr (dollar d 4)) (syStr (dollar d 3))).

(** The value of the left-hand side for the rule [n]; [v] is the value by default.  Rules
    without an action keep it.  The sections are pointers that only the value refers to. *)
Definition action (n : Z) (d : list ZFPSymType) (v : ZFPSymType) : ZFPSymType :=
  let S i := dollar d i in
  let str i := syStr (dollar d i) in
  let obj t x := set_object (mkObject t x) v in
  match n with
  | 2 => set_sections [] v
  | 3 => set_sections (sySections (S 1) ++ [WAssertion (syAssertion (S 2))]) v
  | 4 => set_sections (sySections (S 1) ++ [WShard (syShard (S 2))]) v
  | 5 => set_sections (sySections (S 1) ++ [WPshard (syPshard (S 2))]) v
  | 6 => set_sections (sySections (S 1) ++ [WZone (syZone (S 2))]) v
  | 8 => set_zone (foldl Zone_AddSig (syZone (S 1)) (sySignatures (S 2))) v
  | 9 => set_zone (mkZone [] (str 2) (str 3) (syAssertions (S 5)) 0 0 false) v
  | 10 | 19 => set_assertions [] v
  | 11 | 20 => set_assertions (syAssertions (S 1) ++ [syAssertion (S 2)]) v
  | 13 => set_shard (foldl Shard_AddSig (syShard (S 1)) (sySignatures (S 2))) v
  | 14 => set_shard (mkShard [] (str 2) (str 3) (syShardRange (S 4)).1 (syShardRange (S 4)).2 (syAssertions (S 6)) 0 0 false) v
  | 15 => set_shardRange (str 1, str 2) v
  | 16 => set_shardRange ("<", str 2) v
  | 17 => set_shardRange (str 1, ">") v
  | 18 => set_shardRange ("<", ">") v
  | 22 => set_pshard (foldl Pshard_AddSig (syPshard (S 1)) (sySignatures (S 2))) v
  | 23 => set_pshard (mkPshard [] (str 2) (str 3) (syShardRange (S 4)).1 (syShardRange (S 4)).2
                        (mkBloomFilter (syBfAlgo (S 5)) (syHashType (S 6)) (hex_DecodeString (str 7)).1) 0 0 false) v
  | 24 => set_hashType Shake256 v
  | 25 => set_hashType Fnv64 v
  | 26 => set_hashType Fnv128 v
  | 27 => set_bfAlgo BloomKM12 v
  | 28 => set_bfAlgo BloomKM16 v
  | 29 => set_bfAlgo BloomKM20 v
  | 30 => set_bfAlgo BloomKM24 v
  | 32 => set_assertion (foldl Assertion_AddSig (syAssertion (S 1)) (sySignatures (S 2))) v
  | 33 => set_assertion (mkAssertion [] (str 2) "" "" (syObjects (S 4)) 0 0 false) v
  | 34 => set_assertion (mkAssertion [] (str 2) (str 3) (str 4) (syObjects (S 6)) 0 0 false) v
  | 35 => set_objects [syObject (S 1)] v
  | 36 => set_objects (syObjects (S 1) ++ [syObject (S 2)]) v
  | 51 => obj OTName (VName (mkObjName (str 2) (syObjectTypes (S 4))))
  | 52 => set_objectTypes [syObjectType (S 1)] v
  | 53 => set_objectTypes (syObjectTypes (S 1) ++ [syObjectType (S 2)]) v
  | 54 => set_objectType OTName v
  | 55 => set_objectType OTIP4Addr v
  | 56 => set_objectType OTIP6Addr v
  | 57 => set_objectType OTScionAddr v
  | 58 => set_objectType OTRedirection v
  | 59 => set_objectType OTDelegation v
  | 60 => set_objectType OTNameset v
  | 61 => set_objectType OTCertInfo v
  | 62 => set_objectType OTServiceInfo v
  | 63 => set_objectType OTRegistrar v
  | 64 => set_objectType OTRegistrant v
  | 65 => set_objectType OTInfraKey v
  | 66 => set_objectType OTExtraKey v
  | 67 => set_objectType OTNextKey v
  | 68 => obj OTIP6Addr (VIP (default [] (ParseIP (str 2))))
  | 69 => obj OTIP4Addr (VIP (default [] (ParseIP (str 2))))
  | 70 => obj OTScionAddr (match ParseSCIONAddress (str 2) with Ok sa => VScion sa | _ => nil_scion end)
  | 71 => obj OTRedirection (VString (str 2))
  | 72 => obj OTDelegation (VPublicKey (key_value d))
  | 73 => obj OTNameset (VString (str 2))
  | 74 => obj OTCertInfo (VCertificate (logged (mkCertificate 0 0 0 [])
            (DecodeCertificate (syProtocolType (S 2)) (syCertUsage (S 3)) (syHashType (S 4)) (str 5))))
  | 75 => obj OTServiceInfo (VServiceInfo (logged (mkServiceInfo "" 0 0) (DecodeSrv (str 2) (str 3) (str 4))))
  | 76 => obj OTRegistrar (VString (str 2))
  | 77 => obj OTRegistrant (VString (str 2))
  | 78 => obj OTInfraKey (VPublicKey (key_value d))
  | 79 => obj OTExtraKey (VPublicKey (key_value d))
  | 80 =>
      let '(vs, vu) := logged (0, 0) (DecodeValidity (str 5) (str 6)) in
      obj OTNextKey (VPublicKey (mkPublicKey (pkID (key_value d)) vs vu (pkKey (key_value d))))
  | 81 => set_protocolType PTUnspecified v
  | 82 => set_protocolType PTTLS v
  | 83 => set_protocolType PTRhine v
  | 84 => set_certUsage CUTrustAnchor v
  | 85 => set_certUsage CUEndEntity v
  | 86 => set_certUsage CUZoneAuth v
  | 87 => set_hashType NoHashAlgo v
  | 88 => set_hashType Sha256 v
  | 89 => set_hashType Sha384 v
  | 90 => set_hashType Sha512 v
  | 91 => set_hashType Shake256 v
  | 92 => set_hashType Fnv64 v
  | 93 => set_hashType Fnv128 v
  | 95 => set_str (str 1 +:+ " " +:+ str 2) v
  | 96 => set_signatures (sySignatures (S 2)) v
  | 97 => set_signatures [sySignature (S 1)] v
  | 98 => set_signatures (sySignatures (S 1) ++ [sySignature (S 2)]) v
  | 100 =>
      let sig := sySignature (S 1) in
      set_signature (mkSig (sigPublicKeyID sig) (sigValidSince sig) (sigValidUntil sig) (DataBytes (hex_DecodeString (str 2)).1) (sigSign sig)) v
  | 101 =>
      let '(vs, vu) := logged (0, 0) (DecodeValidity (str 5) (str 6)) in
      set_signature (mkSig (logged zeroPublicKeyID (DecodePublicKeyID (str 4))) vs vu DataNil false) v
  | _ => v
  end.
(** The first rule writes the variable [output]. *)
Definition action_output (n : Z) (d : list ZFPSymType) (output : list SigSection) : list SigSection :=
  if n =? 1 then sySections (dollar d 1) else output.

(** ** The loop *)

(** The state after a reduction to the symbol [n] on top of the state [s]. *)
Definition goto_state (s n : Z) : outcome Z :=
  g ← at_index ZFPPgo n;
  let j := g + s + 1 in
  if ZFPLast <=? j then at_index ZFPAct g
  else
    state ← at_index ZFPAct j;
    c ← at_index ZFPChk state;
    if c =? - n then Ok state else at_index ZFPAct g.

Definition reduce (p : Parser) (n : Z) : outcome Parser :=
  k ← at_index ZFPR2 n;
  let k := Z.to_nat k in
  let popped := rev (take k (psStack p)).*2 in
  let above := (popped ++ psAbove p)%list in
  let val := default zeroSym (head above) in
  lhs ← at_index ZFPR1 n;
  let stack := drop k (psStack p) in
  match stack with
  | [] => Panic "index out of range"
  | (s, _) :: _ =>
      state ← goto_state s lhs;
      Ok (push (mkParser stack above state (action n popped val) (psLex p) (psLval p) (psChar p) (psToken p) (psErrflag p)
                  (action_output n popped (psOutput p))))
  end.

(** Popping the stack to a state that shifts "error": this state, the stack and what is above. *)
Fixpoint recover (stack : list (Z * ZFPSymType)) (above : list ZFPSymType) : outcome (option (Z * list (Z * ZFPSymType) * list ZFPSymType)) :=
  match stack with
  | [] => Ok None
  | (s, v) :: stack' =>
      n ← at_index ZFPPact s;
      let n := n + ZFPErrCode in
      if (0 <=? n) && (n <? ZFPLast) then
        state ← at_index ZFPAct n;
        c ← at_index ZFPChk state;
        if c =? ZFPErrCode then Ok (Some (state, stack, above)) else recover stack' (v :: above)
      else recover stack' (v :: above)
  end.

(** The next state of the parser, or its end with the result. *)
Abbreviation Next := (Parser + Z * Parser)%type (only parsing).

(** [lex.Error] has no effect but on the position of the lexer. *)
Definition error_action (p : Parser) : outcome Next :=
  let retry lex :=
    r ← recover (psStack p) (psAbove p);
    match r with
    | Some (state, stack, above) =>
        Ok (inl (push (mkParser stack above state (psVal p) lex (psLval p) (psChar p) (psToken p) 3 (psOutput p))))
    | None => Ok (inr (1, p))
    end in
  if psErrflag p =? 0 then '(lex, _) ← Lex_Error (psLex p); retry lex
  else if (psErrflag p =? 1) || (psErrflag p =? 2) then retry (psLex p)
  else if psToken p =? ZFPEofCode then Ok (inr (1, p))
  else Ok (inl (mkParser (psStack p) (psAbove p) (psState p) (psVal p) (psLex p) (psLval p) (-1) (-1) (psErrflag p) (psOutput p))).

(** [ZFPdefault] *)
Definition default_action (p : Parser) : outcome Next :=
  n ← at_index ZFPDef (psState p);
  if n =? -2 then
    p ← lookahead p;
    entries ← exca_find ZFPExca (psState p);
    n ← exca_token entries (psToken p);
    if n <? 0 then Ok (inr (0, p))
    else if n =? 0 then error_action p
    else p ← reduce p n; Ok (inl p)
  else if n =? 0 then error_action p
  else p ← reduce p n; Ok (inl p).

(** [ZFPnewstate] *)
Definition iterate (p : Parser) : outcome Next :=
  n ← at_index ZFPPact (psState p);
  if n <=? ZFPFlag then default_action p
  else
    p ← lookahead p;
    let n := n + psToken p in
    if (n <? 0) || (ZFPLast <=? n) then default_action p
    else
      n ← at_index ZFPAct n;
      c ← at_index ZFPChk n;
      if c =? psToken p then Ok (inl (shift p n)) else default_action p.

(** [None]: the parser is still running. *)
Fixpoint Parse_loop (fuel : nat) (p : Parser) : option (outcome (Z * Parser)) :=
  match fuel with
  | O => None
  | S fuel' =>
      match iterate p with
      | Ok (inl p) => Parse_loop fuel' p
      | Ok (inr r) => Some (Ok r)
      | Err e => Some (Err e)
      | Panic e => Some (Panic e)
      end
  end.
Definition newParser (lex : ZFPLex) (output : list SigSection) : Parser :=
  push (mkParser [] [] 0 zeroSym lex zeroSym (-1) (-1) 0 output).
(** The result and the variable [output]. *)
Definition Parse (fuel : nat) (lex : ZFPLex) (output : list SigSection) : option (outcome (Z * list SigSection)) :=
  r ← Parse_loop fuel (newParser lex output);
  Some ('(code, p) ← r; Ok (code, psOutput p)).
(** [parse] as it is written, with the variable [output]. *)
Definition parse_file (fuel : nat) (zoneFile : string) (output : list SigSection) : option (outcome (list SigSection * outcome (list SigSection))) :=
  r ← Parse fuel (mkLex (removeComments zoneFile) 0 0) output;
  Some ('(_, output) ← r;
        Ok (output, if bool_decide (output = []) then Err "zonefile malformed. Was not able to parse it." else Ok output)).
End Parse.
