(* ===== verification/ZoneParserFacts.v ===== *)
(** * The generated parser follows the grammar

    The tables of [ZoneParser] against the rules of [ZoneFile]: on every input the parser
    ends, reads its tables inside their bounds, and gives the result of recursive descent.

    [runs stack ts R]: from every state of the parser with this stack and these tokens left,
    the loop ends as the result [R] of the rules says.  The lemmas go through the rules
    backwards, from the continuation of a rule to the rule. *)

From S2P Require Import Prelude Cbor Keys Object Query BitArray BloomFilter Section Message Siglib ConnectionCache Server Connection ZoneFile ZoneFileFacts ZoneParser.
Local Open Scope string_scope.
Local Open Scope Z_scope.
Local Open Scope list_scope.

(** ** The table of actions *)

Inductive Act := AShift (s : Z) | AReduce (n : Z) | AAccept | AError.
#[export] Instance Act_eq_dec : EqDecision Act.
Proof. solve_decision. Defined.

(** What the parser does in the state [s] with the token [tok]. *)
Definition rule (n : Z) : Act := if n =? 0 then AError else AReduce n.
Definition default_of (s tok : Z) : outcome Act :=
  n ← at_index ZFPDef s;
  if n =? -2 then entries ← exca_find ZFPExca s; n ← exca_token entries tok; Ok (if n <? 0 then AAccept else rule n)
  else Ok (rule n).
Definition act_of (s tok : Z) : outcome Act :=
  n ← at_index ZFPPact s;
  if n <=? ZFPFlag then default_of s tok
  else if (n + tok <? 0) || (ZFPLast <=? n + tok) then default_of s tok
  else n ← at_index ZFPAct (n + tok); c ← at_index ZFPChk n; if c =? tok then Ok (AShift n) else default_of s tok.

(** The internal number of the next token. *)
Definition code (t : option Tok) : Z := match token_of (char_of t) with Ok c => c | _ => 0 end.
Lemma token_of_code t : token_of (char_of t) = Ok (code t).
Proof. destruct t as [[[]|]|]; vm_compute; reflexivity. Qed.
Lemma char_of_nonneg t : 0 ≤ char_of t.
Proof. unfold char_of. destruct t as [[t|]|]; [|lia..]. destruct (list_find _ _) as [[]|]; lia. Qed.
Definition codes : list Z := seqZ 1 48.
Lemma code_in t : code t ∈ codes.
Proof. apply (bool_decide_unpack _). destruct t as [[[]|]|]; vm_compute; exact I. Qed.

(** The action is [a] for all tokens that satisfy [P]. *)
Definition acts (P : Z → bool) (s : Z) (a : Act) : bool :=
  forallb (λ tok, implb (P tok) (match act_of s tok with Ok b => bool_decide (b = a) | _ => false end)) codes.
Lemma acts_spec P s a t : acts P s a = true → P (code t) = true → act_of s (code t) = Ok a.
Proof.
  unfold acts. rewrite forallb_forall. intros H HP. specialize (H _ (proj1 (list_elem_of_In _ _) (code_in t))). rewrite HP in H. cbn [implb] in H.
  destruct (act_of s (code t)); [|done..]. by apply bool_decide_eq_true_1 in H as ->.
Qed.

Section Runs.
Context {ZL : ZoneLib}.

(** ** States *)

Definition valid (s : Z) : bool := (0 <=? s) && (s <? 166).
(** The grammar has no "error": no state shifts it. *)
Definition no_error_shift (s : Z) : bool :=
  match at_index ZFPPact s with
  | Ok n =>
      negb ((0 <=? n + ZFPErrCode) && (n + ZFPErrCode <? ZFPLast)) ||
      match at_index ZFPAct (n + ZFPErrCode) with
      | Ok st => match at_index ZFPChk st with Ok c => negb (c =? ZFPErrCode) | _ => false end
      | _ => false
      end
  | _ => false
  end.
Lemma valid_no_error s : valid s = true → no_error_shift s = true.
Proof.
  intros H. assert (forallb no_error_shift (seqZ 0 166) = true) as Hall by (vm_compute; reflexivity). rewrite forallb_forall in Hall.
  apply Hall, list_elem_of_In, elem_of_seqZ. unfold valid in H. lia.
Qed.
Lemma recover_none stk : ∀ above, Forall (λ s, valid s = true) stk.*1 → recover stk above = Ok None.
Proof.
  induction stk as [|[s v] stk IH]; intros above H; [done|]. cbn [fmap list_fmap fst] in H. apply Forall_cons in H as [Hs H]. cbn [recover].
  apply valid_no_error in Hs. unfold no_error_shift in Hs. destruct (at_index ZFPPact s) as [n| |]; [|done..]. cbn [mbind outcome_bind].
  destruct ((0 <=? n + ZFPErrCode) && _); [|by apply IH]. cbn [negb orb] in Hs. destruct (at_index ZFPAct _) as [st| |]; [|done..].
  cbn [mbind outcome_bind]. destruct (at_index ZFPChk st) as [c| |]; [|done..]. cbn [mbind outcome_bind].
  destruct (c =? ZFPErrCode); [done|]. by apply IH.
Qed.

Lemma Act_valid i s : at_index ZFPAct i = Ok s → valid s = true.
Proof.
  intros E. assert (forallb valid ZFPAct = true) as H by (vm_compute; reflexivity). rewrite forallb_forall in H.
  apply H, list_elem_of_In. unfold at_index in E. case_decide; [|done]. apply or_panic_Ok in E. by eapply list_elem_of_lookup_2.
Qed.
Lemma default_no_shift s tok n : default_of s tok ≠ Ok (AShift n).
Proof.
  unfold default_of, rule. intros (d & _ & Hb)%bind_ok. destruct (d =? -2); [do 2 (apply bind_ok in Hb as (? & _ & Hb))|]; by repeat case_match.
Qed.
Lemma act_of_valid s tok n : act_of s tok = Ok (AShift n) → valid n = true.
Proof.
  unfold act_of. intros (m & _ & E)%bind_ok. pose proof (default_no_shift s tok n) as Hno.
  destruct (m <=? ZFPFlag); [done|]. destruct (_ || _); [done|]. apply bind_ok in E as (k & Ek & E). apply bind_ok in E as (c & _ & E).
  destruct (c =? tok); [|done]. injection E as <-. by eapply Act_valid.
Qed.
Lemma goto_valid s n g : goto_state s n = Ok g → valid g = true.
Proof.
  unfold goto_state. intros (j & _ & E)%bind_ok. destruct (_ <=? _); [by eapply Act_valid|]. apply bind_ok in E as (st & Es & E).
  apply bind_ok in E as (c & _ & E). destruct (c =? _); [injection E as <-|]; by eapply Act_valid.
Qed.

(** ** Positions of the parser *)

(** The parser has the stack [stk], the top of which is its state, the tokens [ts] are left
    and [output] is [o].  The next token may have been read. *)
Record At (o : list SigSection) (stk : list (Z * ZFPSymType)) (ts : list Tok) (p : Parser) : Prop := {
  at_stack : psStack p = stk;
  at_state : head stk.*1 = Some (psState p);
  at_valid : Forall (λ s, valid s = true) stk.*1;
  at_err : psErrflag p = 0;
  at_out : psOutput p = o;
  at_lex : lex_ok (psLex p);
  at_look : (psChar p < 0 ∧ Lex_word <$> lex_rest (psLex p) = ts) ∨
    (0 ≤ psChar p ∧ psToken p = code (head ts) ∧ (∀ w, head ts = Some (ID w) → syStr (psLval p) = w) ∧
     Lex_word <$> lex_rest (psLex p) = tail ts)
}.

Lemma lookahead_At o stk ts p : At o stk ts p → ∃ p', lookahead p = Ok p' ∧ At o stk ts p' ∧ psState p' = psState p ∧
  0 ≤ psChar p' ∧ psToken p' = code (head ts) ∧ (∀ w, head ts = Some (ID w) → syStr (psLval p') = w) ∧
  Lex_word <$> lex_rest (psLex p') = tail ts.
Proof.
  intros [H1 H2 Hv H3 H4 H5 H6]. unfold lookahead. destruct H6 as [[Hc Hr]|(Hc & Ht & Hl & Hr)].
  - destruct (Z.ltb_spec (psChar p) 0); [|lia]. unfold ZFPlex1. destruct (Lex_spec _ H5) as (lex & -> & Hok & Hrest). cbn [mbind outcome_bind].
    rewrite token_of_code. cbn [mbind outcome_bind].
    assert (Lex_word <$> head (lex_rest (psLex p)) = head ts) as Hh by (rewrite <-Hr; by destruct (lex_rest (psLex p))).
    assert (Lex_word <$> lex_rest lex = tail ts) as Ht by (rewrite <-Hr, Hrest; by destruct (lex_rest (psLex p))).
    rewrite Hh. eexists. split; [reflexivity|]. pose proof (char_of_nonneg (head ts)).
    assert (∀ w, head ts = Some (ID w) → syStr match head ts with Some (ID word) => set_str word (psLval p) | _ => psLval p end = w) as Hs
      by by intros w ->.
    split_and!; try done. split; cbn; try done. right. by split_and!.
  - destruct (Z.ltb_spec (psChar p) 0); [lia|]. exists p. split_and!; try done. split; try done. right. by split_and!.
Qed.
Lemma lookahead_idem p : 0 ≤ psChar p → lookahead p = Ok p.
Proof. intros H. unfold lookahead. destruct (Z.ltb_spec (psChar p) 0); [lia|done]. Qed.

(** One turn of the loop does what the table says, after reading a token or not. *)
Definition perform (a : Act) (p : Parser) : outcome (Parser + Z * Parser) :=
  match a with
  | AShift n => Ok (inl (shift p n))
  | AReduce n => p ← reduce p n; Ok (inl p)
  | AAccept => Ok (inr (0, p))
  | AError => error_action p
  end.
Definition looked (ts : list Tok) (p : Parser) : Prop :=
  (∀ w, head ts = Some (ID w) → syStr (psLval p) = w) ∧ Lex_word <$> lex_rest (psLex p) = tail ts.
Lemma default_At o s x stk ts p a : At o ((s, x) :: stk) ts p → default_of s (code (head ts)) = Ok a →
  ∃ p', At o ((s, x) :: stk) ts p' ∧ default_action p = perform a p'.
Proof.
  intros Hp E. assert (psState p = s) as Hs by (destruct Hp as [_ [= <-] _ _ _ _ _]; done). unfold default_of in E. unfold default_action. rewrite Hs.
  destruct (at_index ZFPDef s) as [n| |]; [|done..]. cbn [mbind outcome_bind] in *.
  destruct (n =? -2).
  - destruct (lookahead_At _ _ _ _ Hp) as (p' & -> & Hp' & Hs' & _ & Ht & _). cbn [mbind outcome_bind]. rewrite Hs', Hs, Ht. exists p'. split; [done|].
    destruct (exca_find ZFPExca s) as [l| |]; [|done..]. cbn [mbind outcome_bind] in *. destruct (exca_token l _) as [m| |]; [|done..].
    injection E as <-. cbn [mbind outcome_bind]. unfold rule. destruct (m <? 0); [done|]. by destruct (m =? 0).
  - exists p. split; [done|]. injection E as <-. unfold rule. by destruct (n =? 0).
Qed.
Lemma iterate_At o s x stk ts p a : At o ((s, x) :: stk) ts p → act_of s (code (head ts)) = Ok a →
  ∃ p', At o ((s, x) :: stk) ts p' ∧ iterate p = perform a p' ∧ ((∃ n, a = AShift n) → looked ts p').
Proof.
  intros Hp E. assert (psState p = s) as Hs by (destruct Hp as [_ [= <-] _ _ _ _ _]; done). unfold act_of in E. unfold iterate. rewrite Hs.
  destruct (at_index ZFPPact s) as [n| |]; [|done..]. cbn [mbind outcome_bind] in *.
  assert (∀ tok b, default_of s tok = Ok b → ¬ ∃ m, b = AShift m) as Hno.
  { intros tok b Hb [m ->]. by eapply default_no_shift. }
  destruct (n <=? ZFPFlag).
  { destruct (default_At _ _ _ _ _ _ _ Hp E) as (p' & Hp' & E'). exists p'. split_and!; [done|done|]. intros H. by destruct (Hno _ _ E). }
  destruct (lookahead_At _ _ _ _ Hp) as (p' & -> & Hp' & Hs' & Hc & Ht & Hl & Hr). cbn [mbind outcome_bind]. rewrite Ht.
  assert (∀ b, default_of s (code (head ts)) = Ok b → ∃ q, At o ((s, x) :: stk) ts q ∧ default_action p' = perform b q ∧
    ((∃ m, b = AShift m) → looked ts q)) as Hd.
  { intros b Hb. destruct (default_At _ _ _ _ _ _ _ Hp' Hb) as (q & Hq & E'). exists q. split_and!; [done|done|]. intros H. by destruct (Hno _ _ Hb). }
  destruct ((n + code (head ts) <? 0) || (ZFPLast <=? n + code (head ts))); [by apply Hd|].
  destruct (at_index ZFPAct _) as [m| |]; [|done..]. cbn [mbind outcome_bind] in *. destruct (at_index ZFPChk m) as [c| |]; [|done..].
  cbn [mbind outcome_bind] in *. destruct (c =? _); [|by apply Hd]. injection E as <-. exists p'. split_and!; [done|done|]. by split.
Qed.

(** ** Ends of the loop *)

Definition ends (p : Parser) (r : Z * list SigSection) : Prop :=
  ∃ n, ∀ fuel, (n ≤ fuel)%nat → ∃ q, Parse_loop fuel p = Some (Ok q) ∧ (q.1, psOutput q.2) = r.
Lemma ends_step p p' r : iterate p = Ok (inl p') → ends p' r → ends p r.
Proof.
  intros E [n H]. exists (S n). intros [|fuel] Hf; [lia|]. destruct (H fuel) as (q & Hq & Hr); [lia|]. exists q. cbn. by rewrite E.
Qed.
Lemma ends_now p c q : iterate p = Ok (inr (c, q)) → ends p (c, psOutput q).
Proof. intros E. exists 1%nat. intros [|fuel] Hf; [lia|]. exists (c, q). cbn. by rewrite E. Qed.

(** The result and the variable [output] that belong to a result of the rules. *)
Definition final (R : option (list SigSection * list Tok)) (o : list SigSection) : Z * list SigSection :=
  match R with Some (l, []) => (0, l) | Some (l, _) => (1, l) | None => (1, o) end.
Definition runs (stk : list (Z * ZFPSymType)) (ts : list Tok) (R : option (list SigSection * list Tok)) : Prop :=
  ∀ o p, At o stk ts p → ends p (final R o).

(** *** The four actions *)

Lemma runs_error s x stk ts : act_of s (code (head ts)) = Ok AError → runs ((s, x) :: stk) ts None.
Proof.
  intros E o p Hp. destruct (iterate_At _ _ _ _ _ _ _ Hp E) as (p' & Hp' & Ei & _). destruct Hp' as [H1 _ Hv H3 H4 H5 _].
  destruct (Lex_Error_ok _ H5) as [[lex pos] El]. cbn [perform] in Ei. unfold error_action in Ei. rewrite H3, El, H1 in Ei.
  cbn [mbind outcome_bind] in Ei. change (0 =? 0) with true in Ei. cbn iota in Ei. rewrite recover_none in Ei by done.
  cbn [mbind outcome_bind final] in *. rewrite <-H4. by apply ends_now.
Qed.
Lemma runs_shift s x stk t ts s' R : act_of s (code (Some t)) = Ok (AShift s') →
  (∀ v, (∀ w, t = ID w → syStr v = w) → runs ((s', v) :: (s, x) :: stk) ts R) → runs ((s, x) :: stk) (t :: ts) R.
Proof.
  intros E H o p Hp. destruct (iterate_At _ _ _ _ _ _ _ Hp E) as (p' & Hp' & Ei & Hl). destruct Hl as [Hl Hr]; [by eexists|].
  destruct Hp' as [H1 H2 Hv H3 H4 H5 _]. eapply ends_step; [exact Ei|]. apply (H (psLval p')).
  - intros w ->. by apply Hl.
  - unfold shift, push. split; cbn; [by rewrite H1|done| |by rewrite H3|done|done|by left].
    apply Forall_cons. split; [by eapply act_of_valid|done].
Qed.
(** [stk] is the stack with the right-hand side of the rule, [stk'] without it. *)
Lemma reduce_At o p n k lhs g s x stk ts s0 x0 stk' : At o ((s, x) :: stk) ts p → act_of s (code (head ts)) = Ok (AReduce n) →
  at_index ZFPR2 n = Ok (Z.of_nat k) → at_index ZFPR1 n = Ok lhs → drop k ((s, x) :: stk) = (s0, x0) :: stk' → goto_state s0 lhs = Ok g →
  let popped := rev (take k ((s, x) :: stk)).*2 in
  ∃ p' v, iterate p = Ok (inl p') ∧ (∀ y, head popped = Some y → v = y) ∧
    At (action_output n popped o) ((g, action n popped v) :: (s0, x0) :: stk') ts p'.
Proof.
  intros Hp E H2 H1 Hd Hg popped. destruct (iterate_At _ _ _ _ _ _ _ Hp E) as (p' & Hp' & Ei & _). destruct Hp' as [G1 G2 Gv G3 G4 G5 G6].
  cbn [perform] in Ei. unfold reduce in Ei. rewrite H2 in Ei. cbn [mbind outcome_bind] in Ei. rewrite H1 in Ei. cbn [mbind outcome_bind] in Ei.
  rewrite Nat2Z.id, G1, Hd in Ei. cbn [mbind outcome_bind] in Ei. rewrite Hg in Ei.
  cbn [mbind outcome_bind] in Ei. fold popped in Ei. rewrite G4 in Ei. clearbody popped. eexists _, (default zeroSym (head (popped ++ psAbove p'))). split_and!; [exact Ei| |].
  - intros y Hy. by destruct popped as [|y' ys]; [|cbn in *; simplify_eq].
  - split; cbn; try done. apply Forall_cons. split; [by eapply goto_valid|]. apply (Forall_drop _ k) in Gv. rewrite <-fmap_drop, Hd in Gv. exact Gv.
Qed.
Lemma runs_reduce n k lhs g s x stk ts s0 x0 stk' R : act_of s (code (head ts)) = Ok (AReduce n) → n ≠ 1 →
  at_index ZFPR2 n = Ok (Z.of_nat k) → at_index ZFPR1 n = Ok lhs → drop k ((s, x) :: stk) = (s0, x0) :: stk' → goto_state s0 lhs = Ok g →
  (∀ v, (∀ y, head (rev (take k ((s, x) :: stk)).*2) = Some y → v = y) →
     runs ((g, action n (rev (take k ((s, x) :: stk)).*2) v) :: (s0, x0) :: stk') ts R) →
  runs ((s, x) :: stk) ts R.
Proof.
  intros E Hn H2 H1 Hd Hg H o p Hp. destruct (reduce_At _ _ _ _ _ _ _ _ _ _ _ _ _ Hp E H2 H1 Hd Hg) as (p' & v & Ei & Hv & Hp').
  unfold action_output in Hp'. destruct (Z.eqb_spec n 1) as [|_]; [done|]. eapply ends_step; [exact Ei|]. by eapply (H v).
Qed.

(** ** Steps of the rules *)

Abbreviation Stack := (list (Z * ZFPSymType)) (only parsing).
Abbreviation Rest A := (A → parser (list SigSection)) (only parsing).

Lemma parser_assoc {A B C} (m : parser A) (f : A → parser B) (g : B → parser C) ts : ((m ≫= f) ≫= g) ts = (m ≫= (λ a, f a ≫= g)) ts.
Proof. unfold mbind, parser_bind. by destruct (m ts) as [[]|]. Qed.

Lemma runs_ret {A} (a : A) (f : Rest A) stk ts : runs stk ts (f a ts) → runs stk ts ((mret a ≫= f) ts).
Proof. done. Qed.

Abbreviation tcode t := (code (Some (T t))).
Lemma tcode_inj t t' : tcode t = tcode t' → t = t'.
Proof.
  assert (∀ t, terminals !! Z.to_nat (tcode t - 5) = Some t) as H by (intros []; vm_compute; reflexivity).
  intros E. apply (f_equal (λ c, terminals !! Z.to_nat (c - 5))) in E. rewrite !H in E. by simplify_eq.
Qed.
Lemma code_not_term t x : x ≠ Some (T t) → (code x =? tcode t) = false.
Proof.
  intros H. apply Z.eqb_neq. intros E. destruct x as [[t'|w]|].
  - apply tcode_inj in E as ->. done.
  - revert E. destruct t; vm_compute; discriminate.
  - revert E. destruct t; vm_compute; discriminate.
Qed.

Lemma code_none : code None = 1.
Proof. vm_compute. reflexivity. Qed.
Lemma code_ident w : code (Some (ID w)) = 4.
Proof. vm_compute. reflexivity. Qed.
Lemma tcode_not_ident t : (code (Some (T t)) =? 4) = false.
Proof. destruct t; vm_compute; reflexivity. Qed.

(** What is known about the next token. *)
Definition next (Q : Z → bool) (ts : list Tok) : Prop := Q (code (head ts)) = true.
Definition any (c : Z) : bool := true.
Definition inside (cs : list Z) (c : Z) : bool := existsb (Z.eqb c) cs.
Definition outside (cs : list Z) (c : Z) : bool := negb (existsb (Z.eqb c) cs).
(** Among the tokens with [Q], [s] shifts [c] to [s'] and has no action for the others. *)
Definition shifts_only (Q : Z → bool) (c s s' : Z) : bool :=
  acts (λ x, x =? c) s (AShift s') && acts (λ x, Q x && negb (x =? c)) s AError.

Lemma runs_term Q t s s' x stk ts (f : Rest ()) : next Q ts → shifts_only Q (tcode t) s s' = true →
  (∀ v ts', (length ts' < length ts)%nat → runs ((s', v) :: (s, x) :: stk) ts' (f () ts')) → runs ((s, x) :: stk) ts ((term t ≫= f) ts).
Proof.
  unfold shifts_only. intros Hc [Hs He]%andb_true_iff H. destruct (decide (head ts = Some (T t))) as [Ht|Ht].
  - destruct ts as [|t' ts]; [done|]. injection Ht as ->. unfold mbind, parser_bind, term. rewrite decide_True by done. cbn.
    eapply runs_shift; [apply (acts_spec _ _ _ _ Hs), Z.eqb_refl|]. intros v _. apply H. cbn. lia.
  - assert ((term t ≫= f) ts = None) as ->.
    { unfold mbind, parser_bind, term. destruct ts as [|[t'|] ts]; try done. rewrite decide_False by (intros ->; done). done. }
    apply runs_error, (acts_spec _ _ _ _ He). unfold next in Hc. by rewrite Hc, code_not_term.
Qed.
Lemma runs_ident Q s s' x stk ts (f : Rest string) : next Q ts → shifts_only Q 4 s s' = true →
  (∀ v ts', (length ts' < length ts)%nat → runs ((s', v) :: (s, x) :: stk) ts' (f (syStr v) ts')) → runs ((s, x) :: stk) ts ((ident ≫= f) ts).
Proof.
  unfold shifts_only. intros Hc [Hs He]%andb_true_iff H. destruct ts as [|[t|w] ts].
  - apply runs_error, (acts_spec _ _ _ _ He). unfold next in Hc. by rewrite Hc.
  - apply runs_error, (acts_spec _ _ _ _ He). unfold next in Hc. cbn [head] in *. by rewrite Hc, tcode_not_ident.
  - eapply runs_shift; [apply (acts_spec _ _ _ _ Hs); by rewrite code_ident|]. intros v Hv. rewrite <-(Hv w eq_refl). apply H. cbn. lia.
Qed.
(** One case per alternative. *)
Lemma runs_one_of {A} Q (alts : list (Terminal * A)) s x stk ts (f : Rest A) : next Q ts →
  acts (λ c, Q c && negb (existsb (λ p, c =? tcode p.1) alts)) s AError = true →
  Forall (λ p, ∀ ts', (length ts' < length ts)%nat → runs ((s, x) :: stk) (T p.1 :: ts') (f p.2 ts')) alts → runs ((s, x) :: stk) ts ((one_of alts ≫= f) ts).
Proof.
  intros HQ He Hf. assert ((∀ p, p ∈ alts → head ts ≠ Some (T p.1)) → runs ((s, x) :: stk) ts None) as Hno.
  { intros H. apply runs_error, (acts_spec _ _ _ _ He). unfold next in HQ. rewrite HQ. cbn [andb]. apply negb_true_iff, not_true_is_false. intros (p & Hp & E)%existsb_exists.
    rewrite code_not_term in E; [done|]. apply H. by apply list_elem_of_In. }
  unfold mbind, parser_bind, one_of. destruct ts as [|[t|w] ts]; [by apply Hno| |by apply Hno].
  destruct (list_find _ alts) as [[i [t' a]]|] eqn:El; cbn [mbind option_bind].
  - apply list_find_Some in El as (El & Ht & _). cbn in Ht. subst t'. apply (Forall_lookup_1 _ _ _ _ Hf El). cbn. lia.
  - apply list_find_None in El. rewrite Forall_forall in El. apply Hno. intros p Hp [= ->]. by eapply El.
Qed.

(** *** Repetition *)

Definition shrinks {A} (p : parser A) : Prop := ∀ ts a ts', p ts = Some (a, ts') → (length ts' < length ts)%nat.
Lemma many_fuel {A} more (p : parser A) : shrinks p → ∀ n n' ts, (length ts ≤ n)%nat → (length ts ≤ n')%nat → many n more p ts = many n' more p ts.
Proof.
  intros Hp. induction n as [|n IH]; intros [|n'] [|t ts] Hn Hn'; cbn in Hn, Hn'; try done || lia. cbn. destruct (more t); [|done].
  destruct (p (t :: ts)) as [[a ts']|] eqn:E; [|done]. apply Hp in E. cbn in *. by rewrite (IH n') by lia.
Qed.
Lemma rep_unfold {A B} more (p : parser A) (f : list A → parser B) ts : shrinks p →
  (rep more p ≫= f) ts = match head ts with
    | Some t => if more t then (p ≫= (λ a, rep more p ≫= (λ l, f (a :: l)))) ts else f [] ts
    | None => f [] ts
    end.
Proof.
  intros Hp. unfold mbind, parser_bind, rep. destruct ts as [|t ts]; [done|]. cbn [head length many]. destruct (more t); [|done].
  destruct (p (t :: ts)) as [[a ts']|] eqn:E; [|done]. apply Hp in E. cbn in *. rewrite (many_fuel _ _ Hp _ (length ts')) by lia.
  by destruct (many (length ts') more p ts') as [[]|].
Qed.

(** A list that the grammar builds from the left: [g] is the state behind a list, whose value
    is [get]; [p] leads back to it with a value more. *)
Lemma runs_rep {A B} (cs : list Z) more (p : parser A) (get : ZFPSymType → B) (add : B → A → B) g (below : Stack) (k : Rest B) :
  shrinks p → (∀ t, more t = inside cs (code (Some t))) →
  (∀ v ts (f : Rest A), next (inside cs) ts → (∀ a v' ts', (length ts' < length ts)%nat → get v' = add (get v) a → runs ((g, v') :: below) ts' (f a ts')) → runs ((g, v) :: below) ts ((p ≫= f) ts)) →
  outside cs (code None) = true → ∀ ts v,
  (∀ v ts', (length ts' ≤ length ts)%nat → next (outside cs) ts' → runs ((g, v) :: below) ts' (k (get v) ts')) →
  runs ((g, v) :: below) ts ((rep more p ≫= (λ l, k (foldl add (get v) l))) ts).
Proof.
  intros Hp Hm Hstep Hend ts. remember (length ts) as n eqn:En. revert ts En.
  induction (lt_wf n) as [n _ IH]; intros ts En v Hdone. rewrite (rep_unfold _ _ _ _ Hp). destruct ts as [|t ts]; cbn [head].
  - apply (Hdone v []); [lia|exact Hend].
  - destruct (more t) eqn:Et; [|apply (Hdone v (t :: ts)); [lia|]].
    2:{ unfold next, outside. fold (inside cs (code (head (t :: ts)))). cbn [head]. by rewrite <-Hm, Et. }
    apply (Hstep v); [unfold next; cbn [head]; by rewrite <-Hm|]. intros a v' ts' Hl Hv. cbn [foldl]. rewrite <-Hv. apply (IH (length ts')); [lia|done|].
    intros w ts2 H2. apply Hdone. lia.
Qed.

Lemma bind_ext {A B} (m : parser A) (f g : A → parser B) ts : (∀ a ts', f a ts' = g a ts') → (m ≫= f) ts = (m ≫= g) ts.
Proof. intros H. unfold mbind, parser_bind. destruct (m ts) as [[a ts']|]; [apply H|done]. Qed.
Definition snoc {A} (l : list A) (a : A) : list A := l ++ [a].
Lemma foldl_snoc {A} (l l' : list A) : foldl snoc l l' = l ++ l'.
Proof. revert l. induction l' as [|a l' IH]; intros l; cbn; [by rewrite app_nil_r|]. rewrite IH. unfold snoc. by rewrite <-app_assoc. Qed.
(** The same for a rule with one element in front of the repetition, or with none. *)
Lemma runs_list {A} (cs : list Z) more (p : parser A) (get : ZFPSymType → list A) g (below : Stack) (k : Rest (list A)) h :
  shrinks p → (∀ t, more t = inside cs (code (Some t))) →
  (∀ v ts (f : Rest A), next (inside cs) ts →
     (∀ a v' ts', (length ts' < length ts)%nat → get v' = get v ++ [a] → runs ((g, v') :: below) ts' (f a ts')) → runs ((g, v) :: below) ts ((p ≫= f) ts)) →
  outside cs (code None) = true → ∀ ts v, (∀ l ts', h l ts' = k (get v ++ l) ts') →
  (∀ v ts', (length ts' ≤ length ts)%nat → next (outside cs) ts' → runs ((g, v) :: below) ts' (k (get v) ts')) →
  runs ((g, v) :: below) ts ((rep more p ≫= h) ts).
Proof.
  intros Hp Hm Hstep Hend ts v Hh Hdone. rewrite (bind_ext _ h (λ l, k (foldl snoc (get v) l))).
  - by apply (runs_rep cs).
  - intros l ts'. by rewrite foldl_snoc.
Qed.

(** *** Tactics *)

(** The action of the table, from the next token or from what is known about it. *)
Ltac lr_act :=
  match goal with
  | |- act_of _ (code (head (_ :: _))) = _ => vm_compute; reflexivity
  | H : next ?Q ?ts |- act_of _ (code (head ?ts)) = _ => apply (acts_spec Q); [vm_compute; reflexivity|exact H]
  | |- _ => apply (acts_spec any); [vm_compute; reflexivity|reflexivity]
  end.
Ltac lr_known := match goal with H : next _ ?ts |- next _ ?ts => exact H | |- _ => exact (eq_refl : next any _) end.
Ltac lr_shift := eapply runs_shift; [vm_compute; reflexivity|intros ?v ?Hv].
Ltac lr_reduce n :=
  let k := eval vm_compute in (match at_index ZFPR2 n with Ok z => Z.to_nat z | _ => O end) in
  eapply (runs_reduce n k); [lr_act|discriminate|vm_compute; reflexivity|vm_compute; reflexivity|reflexivity|vm_compute; reflexivity|];
  let v := fresh "v" in let Hv := fresh "Hv" in
  intros v Hv; cbn [take rev fmap list_fmap app head snd] in Hv |- *; first [specialize (Hv _ eq_refl); subst v | clear Hv].
Ltac lr_peek := match goal with |- runs _ ?ts ((peek ≫= ?h) ?ts) => change ((peek ≫= h) ts) with (h (head ts) ts); cbv beta end.
(** The reduction by default of the state. *)
Ltac lr_default :=
  match goal with |- runs ((?s, _) :: _) _ _ =>
    let n := eval vm_compute in (match act_of s 1 with Ok (AReduce n) => n | _ => 0 end) in lr_reduce n
  end.
(** The goal is about the value on the top of the stack. *)
Ltac lr_use H := match goal with |- runs ((_, ?v) :: _) _ _ => apply (H v); cbn [length] in *; lia end.
Ltac lr_target s c := eval vm_compute in (match act_of s c with Ok (AShift n) => n | _ => 0 end).
Ltac lr_next :=
  match goal with
  | |- runs _ _ (((_ ≫= _) ≫= _) _) => rewrite parser_assoc
  | |- runs _ _ ((mret _ ≫= _) _) => apply runs_ret; cbv beta
  | |- context [logged (0, 0) ?m] => destruct (logged (0, 0) m) as [?vs ?vu] eqn:?Ev
  | |- runs ((?s, _) :: _) ?ts ((term ?t ≫= _) ?ts) =>
      let s' := lr_target s (tcode t) in eapply (runs_term _ t s s'); [lr_known|vm_compute; reflexivity|intros ?v ?ts ?Hl]
  | |- runs ((?s, _) :: _) ?ts ((ident ≫= _) ?ts) =>
      let s' := lr_target s 4 in eapply (runs_ident _ s s'); [lr_known|vm_compute; reflexivity|intros ?v ?ts ?Hl]
  end.
Ltac lr_alts :=
  eapply runs_one_of; [lr_known|vm_compute; reflexivity|repeat (apply Forall_cons_2); [..|apply Forall_nil_2]; cbn [fst snd]; intros ?ts ?Hl; lr_shift].

(** *** Types *)

Lemma shrinks_one_of {A} (alts : list (Terminal * A)) : shrinks (one_of alts).
Proof. intros [|[t|] ts] a ts' E; cbn in E; try done. destruct (list_find _ _) as [[? []]|]; [|done]. injection E as _ <-. cbn. lia. Qed.

Definition oType_codes : list Z := (λ p, tcode p.1) <$> oType_alts.
Lemma runs_oType s g x stk ts (f : Rest OType) : (s = 107 ∧ g = 128) ∨ (s = 127 ∧ g = 162 ∧ next (inside oType_codes) ts) →
  (∀ a v ts', (length ts' < length ts)%nat → syObjectType v = a → runs ((g, v) :: (s, x) :: stk) ts' (f a ts')) →
  runs ((s, x) :: stk) ts ((oType ≫= f) ts).
Proof.
  intros [[-> ->]|(-> & -> & Hn)] H; unfold oType; lr_alts; lr_default; (apply H; [lia|reflexivity]).
Qed.
Lemma is_oType_codes t : is_oType t = inside oType_codes (code (Some t)).
Proof. destruct t as [[]|]; vm_compute; reflexivity. Qed.
Lemma runs_oTypes x stk ts (f : Rest (list OType)) :
  (∀ v ts', (length ts' < length ts)%nat → next (outside oType_codes) ts' → runs ((127, v) :: (107, x) :: stk) ts' (f (syObjectTypes v) ts')) →
  runs ((107, x) :: stk) ts ((oTypes ≫= f) ts).
Proof.
  intros H. unfold oTypes. lr_next. apply (runs_oType 107 128); [by left|]. intros a v ts' Hl Ha. lr_default. lr_next.
  apply (runs_list oType_codes _ _ syObjectTypes _ _ f); [apply shrinks_one_of|apply is_oType_codes| |reflexivity|intros l ts2; by rewrite <-Ha|].
  - intros v' ts2 f' Hn Hf. apply (runs_oType 127 162); [by right|]. intros b v2 ts3 Hl3 Hb. lr_default. apply Hf; [done|]. by rewrite <-Hb.
  - intros v' ts2 Hl2 Hn. apply H; [lia|done].
Qed.

(** *** Free text *)

Lemma shrinks_ident : shrinks ident.
Proof. intros [|[|w] ts] a ts' E; cbn in E; try done. injection E as _ <-. cbn. lia. Qed.
Lemma is_ident_codes t : is_ident t = inside [4] (code (Some t)).
Proof. destruct t as [[]|]; vm_compute; reflexivity. Qed.
Lemma runs_freeText s g x stk ts (f : Rest string) : (s, g) ∈ [(59, 82); (62, 89); (63, 90)] →
  (∀ v ts', (length ts' < length ts)%nat → next (outside [4]) ts' → runs ((g, v) :: (s, x) :: stk) ts' (f (syStr v) ts')) →
  runs ((s, x) :: stk) ts ((freeText ≫= f) ts).
Proof.
  intros Hs H. unfold freeText. lr_next. set_unfold in Hs. destruct_or! Hs; simplify_eq; (lr_next; lr_default; lr_next;
    apply (runs_rep [4] _ _ syStr (λ s t, s +:+ " " +:+ t) _ _ f); [apply shrinks_ident|apply is_ident_codes| |reflexivity|];
    [intros v' ts2 f' Hn Hf; lr_next; lr_default; apply Hf; [lia|reflexivity]|intros v' ts2 Hl2 Hn; apply H; [lia|done]]).
Qed.

(** *** Objects *)

Lemma runs_protocolType x stk ts (f : Rest Z) :
  (∀ v ts', (length ts' < length ts)%nat → runs ((84, v) :: (60, x) :: stk) ts' (f (syProtocolType v) ts')) →
  runs ((60, x) :: stk) ts ((protocolType ≫= f) ts).
Proof. intros H. unfold protocolType. lr_alts; lr_default; exact (H _ _ Hl). Qed.
Lemma runs_certUsage x stk ts (f : Rest Z) :
  (∀ v ts', (length ts' < length ts)%nat → runs ((110, v) :: (84, x) :: stk) ts' (f (syCertUsage v) ts')) →
  runs ((84, x) :: stk) ts ((certUsage' ≫= f) ts).
Proof. intros H. unfold certUsage'. lr_alts; lr_default; exact (H _ _ Hl). Qed.
Lemma runs_hashType x stk ts (f : Rest HashAlgo) :
  (∀ v ts', (length ts' < length ts)%nat → runs ((144, v) :: (110, x) :: stk) ts' (f (syHashType v) ts')) →
  runs ((110, x) :: stk) ts ((hashType ≫= f) ts).
Proof. intros H. unfold hashType. lr_alts; lr_default; exact (H _ _ Hl). Qed.

(** The state [s] in front of an object and [g] behind it. *)
Definition object_states (s g : Z) (ts : list Tok) : Prop :=
  (g = 38 ∧ (s = 28 ∨ s = 94)) ∨ (g = 75 ∧ (s = 37 ∨ s = 118) ∧ next (inside oType_codes) ts).
(** Conditions on constants are computed. *)
Ltac lr_if := repeat match goal with |- context [if ?b then _ else _] => let r := eval vm_compute in b in change b with r; cbv iota end.
Lemma action_next d v vs vu : logged (0, 0) (DecodeValidity (syStr (dollar d 5)) (syStr (dollar d 6))) = (vs, vu) →
  action 80 d v = set_object (mkObject OTNextKey (VPublicKey (mkPublicKey (pkID (key_value d)) vs vu (pkKey (key_value d))))) v.
Proof. intros E. unfold action. by rewrite E. Qed.
Ltac lr_object :=
  repeat first
    [ lr_next
    | apply runs_oTypes; intros ?v ?ts ?Hl ?Hn
    | (apply (runs_freeText 59 82) || apply (runs_freeText 62 89) || apply (runs_freeText 63 90)); [set_solver|intros ?v ?ts ?Hl ?Hn]
    | apply runs_protocolType; intros ?v ?ts ?Hl
    | apply runs_certUsage; intros ?v ?ts ?Hl
    | apply runs_hashType; intros ?v ?ts ?Hl ].
Lemma runs_object s g x stk ts (f : Rest Object) : object_states s g ts →
  (∀ v ts', (length ts' < length ts)%nat → runs ((g, v) :: (s, x) :: stk) ts' (f (syObject v) ts')) →
  runs ((s, x) :: stk) ts ((object ≫= f) ts).
Proof.
  intros Hs H. unfold object, oType. lr_next. destruct Hs as [(-> & [-> | ->])|(-> & [-> | ->] & Hn)]; lr_alts; lr_if; unfold key_rule; lr_object;
    try (lr_default; lr_default; apply H; lia);
    (lr_default; erewrite action_next by exact Ev; lr_default; apply H; lia).
Qed.

(** *** Every element takes a token *)

Definition no_longer {A} (p : parser A) : Prop := ∀ ts a ts', p ts = Some (a, ts') → (length ts' ≤ length ts)%nat.
Lemma no_longer_shrinks {A} (p : parser A) : shrinks p → no_longer p.
Proof. intros H ts a ts' E. apply H in E. lia. Qed.
Lemma no_longer_ret {A} (a : A) : no_longer (mret a).
Proof. intros ts b ts' [= _ <-]. lia. Qed.
Lemma no_longer_peek : no_longer peek.
Proof. intros ts b ts' [= _ <-]. lia. Qed.
Lemma bind_Some {A B} (p : parser A) (f : A → parser B) ts b ts' : (p ≫= f) ts = Some (b, ts') → ∃ a ts1, p ts = Some (a, ts1) ∧ f a ts1 = Some (b, ts').
Proof. unfold mbind, parser_bind. destruct (p ts) as [[a ts1]|]; [|done]. by exists a, ts1. Qed.
Lemma no_longer_bind {A B} (p : parser A) (f : A → parser B) : no_longer p → (∀ a, no_longer (f a)) → no_longer (p ≫= f).
Proof. intros Hp Hf ts b ts' (a & ts1 & E1 & E2)%bind_Some. apply Hp in E1. apply Hf in E2. lia. Qed.
Lemma shrinks_bind {A B} (p : parser A) (f : A → parser B) : shrinks p → (∀ a, no_longer (f a)) → shrinks (p ≫= f).
Proof. intros Hp Hf ts b ts' (a & ts1 & E1 & E2)%bind_Some. apply Hp in E1. apply Hf in E2. lia. Qed.
Lemma shrinks_peek {A} (f : option Tok → parser A) : (∀ t, shrinks (f t)) → shrinks (peek ≫= f).
Proof. intros Hf ts b ts' E. by apply Hf in E. Qed.
Lemma shrinks_term t : shrinks (term t).
Proof. intros [|[t'|] ts] a ts' E; cbn in E; try done. destruct (decide _); [|done]. injection E as _ <-. cbn. lia. Qed.
Lemma no_longer_rep {A} more (p : parser A) : shrinks p → no_longer (rep more p).
Proof.
  intros Hp ts. unfold rep. generalize (length ts) at 1. intros n. revert ts. induction n as [|n IH]; intros [|t ts] l ts' E; cbn in E;
    destruct (more _) || idtac; try done; try (injection E as _ <-; cbn; lia).
  destruct (p (t :: ts)) as [[a ts1]|] eqn:E1; [|done]. cbn in E. apply Hp in E1. destruct (many n more p ts1) as [[l1 ts2]|] eqn:E2; [|done].
  injection E as _ <-. apply IH in E2. lia.
Qed.
Ltac shrink :=
  repeat first
    [ apply shrinks_ident | apply shrinks_term | apply shrinks_one_of | apply no_longer_ret | apply no_longer_peek
    | apply shrinks_peek; intros ? | apply shrinks_bind; [|intros ?] | apply no_longer_bind; [|intros ?]
    | apply no_longer_rep | case_match | apply no_longer_shrinks ].
Lemma shrinks_object : shrinks object.
Proof. unfold object, key_rule, oTypes, freeText, oType, protocolType, certUsage', hashType. shrink. Qed.
Lemma shrinks_signature : shrinks signature.
Proof. unfold signature, signatureMeta. shrink. Qed.
Lemma shrinks_assertion : shrinks assertion.
Proof. unfold assertion, assertionBody, objects, annotation, annotationBody. shrink; (apply shrinks_object || apply shrinks_signature). Qed.

(** *** Lists of objects *)

Lemma runs_objects s g x stk ts (f : Rest (list Object)) : (s = 28 ∧ g = 37) ∨ (s = 94 ∧ g = 118) →
  (∀ v ts', (length ts' < length ts)%nat → next (outside oType_codes) ts' → runs ((g, v) :: (s, x) :: stk) ts' (f (syObjects v) ts')) →
  runs ((s, x) :: stk) ts ((objects ≫= f) ts).
Proof.
  intros Hs H. unfold objects. lr_next. apply (runs_object s 38); [unfold object_states; naive_solver|]. intros v ts' Hl.
  destruct Hs as [[-> ->]|[-> ->]]; (lr_default; lr_next;
    apply (runs_list oType_codes _ _ syObjects _ _ f);
      [apply shrinks_object|apply is_oType_codes| |reflexivity|reflexivity|intros v' ts2 Hl2 Hn; apply H; [lia|done]];
    intros v' ts2 f' Hn Hf; apply (runs_object _ 75); [unfold object_states; naive_solver|]; intros v2 ts3 Hl3; lr_default; by apply Hf).
Qed.

(** *** Signatures *)

Lemma head_ident ts : (∃ w ts', ts = ID w :: ts') ∨ (next (outside [4]) ts ∧ ∀ w, head ts ≠ Some (ID w)).
Proof.
  destruct ts as [|[t|w] ts]; [right|right|left; by eexists _, _]; (split; [|done]); [reflexivity|]. unfold next, outside. cbn [head existsb].
  by rewrite tcode_not_ident.
Qed.
Lemma head_term t ts : (∃ ts', ts = T t :: ts') ∨ (next (outside [tcode t]) ts ∧ head ts ≠ Some (T t)).
Proof.
  destruct (decide (head ts = Some (T t))) as [E|E].
  - left. destruct ts; [done|]. injection E as ->. by eexists.
  - right. split; [|done]. unfold next, outside. cbn [existsb]. by rewrite code_not_term.
Qed.
Lemma action_meta d v vs vu : logged (0, 0) (DecodeValidity (syStr (dollar d 5)) (syStr (dollar d 6))) = (vs, vu) →
  action 101 d v = set_signature (mkSig (logged zeroPublicKeyID (DecodePublicKeyID (syStr (dollar d 4)))) vs vu DataNil false) v.
Proof. intros E. unfold action. by rewrite E. Qed.
Definition sig_codes : list Z := [tcode sigType].
Lemma is_sig_codes t : is_term sigType t = inside sig_codes (code (Some t)).
Proof. destruct t as [[]|]; vm_compute; reflexivity. Qed.

Lemma runs_signature s g x stk ts (f : Rest Sig) : (s = 16 ∧ g = 25) ∨ (s = 24 ∧ g = 34 ∧ next (inside sig_codes) ts) →
  (∀ v ts', (length ts' < length ts)%nat → runs ((g, v) :: (s, x) :: stk) ts' (f (sySignature v) ts')) →
  runs ((s, x) :: stk) ts ((signature ≫= f) ts).
Proof.
  intros Hs H. unfold signature, signatureMeta. destruct Hs as [(-> & ->)|(-> & -> & Hn)]; repeat lr_next;
    (lr_default; erewrite action_meta by exact Ev;
     lr_peek; match goal with |- runs _ ?ts _ => destruct (head_ident ts) as [(w & ts' & E)|[Hn' Hw]] end;
     [subst; cbn [head]; rewrite parser_assoc;
      match goal with |- runs _ _ ((ident ≫= ?h) (ID ?w :: ?ts)) => change ((ident ≫= h) (ID w :: ts)) with (h w ts); cbv beta end;
      lr_shift; lr_default; specialize (Hv w eq_refl); subst w; apply H; cbn [length] in *; lia
     |match goal with |- context [match head ?ts with _ => _ end] => destruct (head ts) as [[]|]; [|by edestruct Hw|] end;
      lr_next; lr_default; apply H; lia]).
Qed.

Lemma term_cons {A} t (f : () → parser A) ts : (term t ≫= f) (T t :: ts) = f () ts.
Proof. unfold mbind, parser_bind, term. by rewrite decide_True. Qed.
Lemma ident_cons {A} w (f : string → parser A) ts : (ident ≫= f) (ID w :: ts) = f w ts.
Proof. done. Qed.

(** An annotation behind the body of a section in the state [b], or none. *)
Lemma runs_annotation b g x stk ts (f : Rest (list Sig)) : (b, g) ∈ [(7, 15); (8, 17); (9, 18); (10, 19)] →
  (∀ v ts', (length ts' < length ts)%nat → runs ((g, v) :: (b, x) :: stk) ts' (f (sySignatures v) ts')) →
  (next (outside [tcode lParenthesis]) ts → runs ((b, x) :: stk) ts (f [] ts)) →
  runs ((b, x) :: stk) ts ((annotation ≫= f) ts).
Proof.
  intros Hb H1 H0. unfold annotation, annotationBody. lr_next. lr_peek. destruct (head_term lParenthesis ts) as [[ts' ->]|[Hn Hh]].
  2:{ rewrite bool_decide_eq_false_2 by done. lr_next. by apply H0. }
  rewrite bool_decide_eq_true_2 by done.
  assert (Hlen : (length ts' < length (T lParenthesis :: ts'))%nat) by (cbn; lia). set_unfold in Hb. destruct_or! Hb; simplify_eq;
    (repeat lr_next; rewrite term_cons; lr_shift; repeat lr_next; eapply (runs_signature 16 25); [by left|]; intros v1 ts1 Hl1; lr_default; lr_next;
     apply (runs_list sig_codes _ _ sySignatures _ _ (λ sigs, (term rParenthesis;; mret sigs) ≫= f));
     [apply shrinks_signature|apply is_sig_codes| |reflexivity|reflexivity|];
     [intros v2 ts2 f' Hn Hf; apply (runs_signature 24 34); [by right|]; intros v3 ts3 Hl3; lr_default; by apply Hf
     |intros v2 ts2 Hl2 Hn; repeat lr_next; lr_default; lr_use H1]).
Qed.


(** *** Assertions *)

Lemma match_ident {A} ts (p q : parser A) : (∀ w, head ts ≠ Some (ID w)) → (match head ts with Some (ID _) => p | _ => q end) = q.
Proof. destruct (head ts) as [[]|]; intros H; [done|by edestruct H|done]. Qed.
Lemma runs_assertion s g x stk ts (f : Rest Assertion) : (s, g) ∈ [(2, 3); (105, 125); (119, 158)] → next (inside [tcode assertionType]) ts →
  (∀ v ts', (length ts' < length ts)%nat → runs ((g, v) :: (s, x) :: stk) ts' (f (syAssertion v) ts')) →
  runs ((s, x) :: stk) ts ((assertion ≫= f) ts).
Proof.
  intros Hs Hn H. unfold assertion, assertionBody.
  assert (∀ v ts1, (length ts1 < length ts)%nat → runs ((7, v) :: (s, x) :: stk) ts1
    ((annotation ≫= (λ sigs, mret (foldl Assertion_AddSig (syAssertion v) sigs) ≫= f)) ts1)) as Hbody.
  { intros v ts1 Hl. set_unfold in Hs. destruct_or! Hs; simplify_eq;
      (apply (runs_annotation 7 15); [set_solver|intros v1 ts2 Hl2; lr_default; lr_next; lr_use H|];
       intros Hn1; lr_default; lr_next; lr_use H). }
  set_unfold in Hs. destruct_or! Hs; simplify_eq; (repeat lr_next; lr_peek;
    match goal with |- runs _ ?ts _ => destruct (head_ident ts) as [(w & ts' & ->)|[Hn' Hw]] end;
    [cbn [head]; repeat lr_next; rewrite ident_cons; lr_shift; rewrite <-(Hv w eq_refl); repeat lr_next;
     apply (runs_objects 94 118); [by right|]; intros ?v ?ts ?Hl ?Hn; repeat lr_next; lr_default; repeat lr_next; lr_use Hbody
    |rewrite match_ident by done; repeat lr_next; apply (runs_objects 28 37); [by left|]; intros ?v ?ts ?Hl ?Hn; repeat lr_next; lr_default;
     repeat lr_next; lr_use Hbody]).
Qed.
(** *** Shards, pshards and zones *)

Definition assertion_codes : list Z := [tcode assertionType].
Lemma is_assertion_codes t : is_term assertionType t = inside assertion_codes (code (Some t)).
Proof. destruct t as [[]|]; vm_compute; reflexivity. Qed.
Lemma runs_content s x stk ts (f : Rest (list Assertion)) g : (s, g) ∈ [(72, 105); (95, 119)] →
  (∀ v ts', (length ts' ≤ length ts)%nat → next (outside assertion_codes) ts' → runs ((g, v) :: (s, x) :: stk) ts' (f (syAssertions v) ts')) →
  runs ((s, x) :: stk) ts ((content_rule ≫= f) ts).
Proof.
  intros Hs H. unfold content_rule. set_unfold in Hs. destruct_or! Hs; simplify_eq;
    (lr_default; apply (runs_list assertion_codes _ _ syAssertions _ _ f);
       [apply shrinks_assertion|apply is_assertion_codes| |reflexivity|reflexivity|intros v2 ts2; apply H];
     intros v2 ts2 f' Hn Hf; first [apply (runs_assertion 105 125)|apply (runs_assertion 119 158)]; [set_solver|exact Hn|]; intros v3 ts3 Hl3; lr_default; by apply Hf).
Qed.
Lemma runs_shardRange s g x stk ts (f : Rest (string * string)) : (s, g) ∈ [(30, 68); (31, 71)] →
  (∀ v ts', (length ts' < length ts)%nat → runs ((g, v) :: (s, x) :: stk) ts' (f ((syShardRange v).1, (syShardRange v).2) ts')) →
  runs ((s, x) :: stk) ts ((shardRange ≫= f) ts).
Proof.
  intros Hs H. unfold shardRange. rewrite !parser_assoc. lr_peek.
  set_unfold in Hs. destruct_or! Hs; simplify_eq; (destruct (head_term rangeBegin ts) as [[ts' ->]|[Hn Hh]];
    [rewrite bool_decide_eq_true_2 by done; repeat lr_next; rewrite term_cons; lr_shift|rewrite bool_decide_eq_false_2 by done];
    repeat lr_next; lr_peek;
    match goal with |- runs _ ?ts _ => destruct (head_term rangeEnd ts) as [[ts2 ->]|[Hn2 Hh2]] end;
    [rewrite bool_decide_eq_true_2 by done; repeat lr_next; rewrite term_cons; lr_shift|rewrite bool_decide_eq_false_2 by done
    |rewrite bool_decide_eq_true_2 by done; repeat lr_next; rewrite term_cons; lr_shift|rewrite bool_decide_eq_false_2 by done];
    repeat lr_next; lr_default; lr_use H).
Qed.
Lemma runs_bfAlgo x stk ts (f : Rest Z) :
  (∀ v ts', (length ts' < length ts)%nat → runs ((100, v) :: (71, x) :: stk) ts' (f (syBfAlgo v) ts')) →
  runs ((71, x) :: stk) ts ((bfAlgo ≫= f) ts).
Proof. intros H. unfold bfAlgo. lr_alts; lr_default; exact (H _ _ Hl). Qed.
Lemma runs_bfHash x stk ts (f : Rest HashAlgo) :
  (∀ v ts', (length ts' < length ts)%nat → runs ((120, v) :: (100, x) :: stk) ts' (f (syHashType v) ts')) →
  runs ((100, x) :: stk) ts ((bfHash' ≫= f) ts).
Proof. intros H. unfold bfHash'. lr_alts; lr_default; exact (H _ _ Hl). Qed.
(** The end of a section: the annotation and its reduction. *)
Ltac lr_annotation b g H :=
  apply (runs_annotation b g); [set_solver|intros ?v ?ts ?Hl; lr_default; repeat lr_next; lr_use H|intros ?Hn; lr_default; repeat lr_next; lr_use H].

Lemma runs_shard x stk ts (f : Rest Shard) : next (inside [tcode shardType]) ts →
  (∀ v ts', (length ts' < length ts)%nat → runs ((4, v) :: (2, x) :: stk) ts' (f (syShard v) ts')) →
  runs ((2, x) :: stk) ts ((shard ≫= f) ts).
Proof.
  intros Hn H. unfold shard. repeat lr_next. apply (runs_shardRange 30 68); [set_solver|]. intros ?v ?ts ?Hl. repeat lr_next.
  apply (runs_content 95 _ _ _ _ 119); [set_solver|]. intros ?v ?ts ?Hl ?Hn. repeat lr_next. lr_default. lr_annotation 8 17 H.
Qed.
Lemma runs_pshard x stk ts (f : Rest Pshard) : next (inside [tcode pshardType]) ts →
  (∀ v ts', (length ts' < length ts)%nat → runs ((5, v) :: (2, x) :: stk) ts' (f (syPshard v) ts')) →
  runs ((2, x) :: stk) ts ((pshard ≫= f) ts).
Proof.
  intros Hn H. unfold pshard. repeat lr_next. apply (runs_shardRange 31 71); [set_solver|]. intros ?v ?ts ?Hl. repeat lr_next.
  apply runs_bfAlgo. intros ?v ?ts ?Hl. repeat lr_next. apply runs_bfHash. intros ?v ?ts ?Hl. repeat lr_next. lr_default. lr_annotation 9 18 H.
Qed.
Lemma runs_zone x stk ts (f : Rest Zone) : next (inside [tcode zoneType]) ts →
  (∀ v ts', (length ts' < length ts)%nat → runs ((6, v) :: (2, x) :: stk) ts' (f (syZone v) ts')) →
  runs ((2, x) :: stk) ts ((zone ≫= f) ts).
Proof.
  intros Hn H. unfold zone. repeat lr_next.
  apply (runs_content 72 _ _ _ _ 105); [set_solver|]. intros ?v ?ts ?Hl ?Hn. repeat lr_next. lr_default. lr_annotation 10 19 H.
Qed.
(** *** Sections *)

Definition section_codes : list Z := (λ t, tcode t) <$> [assertionType; shardType; pshardType; zoneType].
Lemma is_section_codes t : is_section t = inside section_codes (code (Some t)).
Proof. destruct t as [[]|]; vm_compute; reflexivity. Qed.
Lemma shrinks_section : shrinks section.
Proof. unfold section, shard, pshard, zone, shardRange, content_rule, annotation, annotationBody, bfAlgo, bfHash'. shrink; (apply shrinks_assertion || apply shrinks_signature || done). Qed.

Lemma runs_section x v ts (f : Rest SigSection) : next (inside section_codes) ts →
  (∀ a v' ts', (length ts' < length ts)%nat → sySections v' = sySections v ++ [a] → runs [(2, v'); (0, x)] ts' (f a ts')) →
  runs [(2, v); (0, x)] ts ((section ≫= f) ts).
Proof.
  intros Hn H. unfold section. rewrite parser_assoc. lr_peek. destruct ts as [|[t|w] ts]; [done| |by vm_compute in Hn].
  destruct t; try (by vm_compute in Hn); cbn [head]; lr_next;
    [apply (runs_assertion 2 3); [set_solver|done|]|apply runs_shard; [done|]|apply runs_pshard; [done|]|apply runs_zone; [done|]];
    intros v' ts' Hl; lr_default; lr_next; by apply H.
Qed.

(** The end of the input, or a token that starts no section. *)
Lemma runs_end x v ts : next (outside section_codes) ts → runs [(2, v); (0, x)] ts (Some (sySections v, ts)).
Proof.
  intros Hn o p Hp. edestruct (reduce_At o p 1 1) as (p' & w & Ei & _ & Hp'); [exact Hp|lr_act|vm_compute; reflexivity|vm_compute; reflexivity|reflexivity|vm_compute; reflexivity|].
  eapply ends_step; [exact Ei|]. cbn in Hp'. destruct ts as [|t ts].
  - destruct (iterate_At _ _ _ _ _ _ AAccept Hp') as (q & Hq & Eq & _); [vm_compute; reflexivity|]. cbn [perform] in Eq.
    assert (final (Some (sySections v, [])) o = (0, psOutput q)) as -> by by rewrite (at_out _ _ _ _ Hq). by apply ends_now.
  - refine (runs_error _ _ _ _ _ _ _ Hp'). destruct t as [[]|w']; vm_compute; reflexivity.
Qed.
Lemma runs_sections x ts : runs [(0, x)] ts (sections ts).
Proof.
  assert (sections ts = (rep is_section section ≫= mret) ts) as ->.
  { unfold sections, mbind, parser_bind. by destruct (rep _ _ ts) as [[]|]. }
  lr_default. apply (runs_list section_codes _ _ sySections _ _ mret); [apply shrinks_section|apply is_section_codes| |reflexivity|reflexivity|].
  - intros v' ts' f Hn Hf. by apply runs_section.
  - intros v' ts' _ Hn. by apply runs_end.
Qed.

(** C29: On every file the generated parser ends and reads none of its tables out of bounds: it
    accepts the file, rejects it behind its sections or rejects one of its sections exactly as
    the rules say, [output] included, so [parse] is the recursive descent of [ZoneFile]. *)
Theorem Parse_follows_grammar zoneFile output : ∃ n, ∀ fuel, (n ≤ fuel)%nat →
  Parse fuel (mkLex (removeComments zoneFile) 0 0) output = Some (Ok (final (sections (tokens zoneFile)) output)) ∧
  parse_file fuel zoneFile output = Some (Ok (parse zoneFile output)).
Proof.
  assert (At output [(0, zeroSym)] (tokens zoneFile) (newParser (mkLex (removeComments zoneFile) 0 0) output)) as Hat.
  { split; try done; cbn; [by apply Forall_singleton|split; cbn; lia|]. left. split; [done|]. by unfold tokens, lex_rest; cbn; rewrite drop_0. }
  destruct (runs_sections _ _ _ _ Hat) as [n H]. exists n. intros fuel Hf. destruct (H fuel Hf) as ([c q] & E & Eq).
  assert (Parse fuel (mkLex (removeComments zoneFile) 0 0) output = Some (Ok (final (sections (tokens zoneFile)) output))) as EP.
  { unfold Parse. rewrite E, <-Eq. done. }
  split; [exact EP|]. unfold parse_file. rewrite EP. unfold parse, final. by destruct (sections _) as [[l []]|].
Qed.
End Runs.
