(* ===== verification/KeyManager.v ===== *)
(** * The key manager

    Models attic/internal/pkg/keyManager/keyManager.go: key pairs in PEM files, the private
    one encrypted with a password, and the self-signed delegation made from them. *)

From S2P Require Import Prelude Cbor Keys Object Query BitArray BloomFilter Section SectionFacts Message Siglib SiglibFacts ConnectionCache Server Connection ZoneFile ZoneFileFacts.
Local Open Scope string_scope.
Local Open Scope Z_scope.

Definition pubSuffix : string := "_pub.pem".
Definition SecSuffix : string := "_sec.pem".
Definition KeyAlgo : string := "keyAlgo".
Definition KeyPhaseHeader : string := "keyPhase".
Definition salt : string := "salt".
Definition iv : string := "iv".
Definition HexEncoding : string := "hexEncoding".

(** ** The libraries *)

(** [pem.Block] *)
Record PemBlock := mkPemBlock { pemType : string; pemHeaders : gmap string string; pemBytes : list Z }.
#[export] Instance PemBlock_eq_dec : EqDecision PemBlock.
Proof. solve_decision. Defined.

(** scrypt, AES in the mode CFB, encoding/pem, and the source of randomness: the result of
    its [n]-th use. *)
Class KeyLib := {
  scrypt_Key : list Z → list Z → outcome (list Z);               (* password, salt *)
  cfb_Encrypt : list Z → list Z → list Z → list Z;               (* key, initialisation vector, text *)
  cfb_Decrypt : list Z → list Z → list Z → list Z;
  pem_Encode : PemBlock → outcome (list Z);
  pem_Decode : list Z → option PemBlock * list Z;
  rand_Read : nat → nat → outcome (list Z);                      (* number of the use, length *)
  ed25519_GenerateKey : nat → outcome (list Z * list Z)          (* public and private key *)
}.

(** Their documented contract; [pem_ok] are the blocks that the text format can represent. *)
Class KeyLibLaws `{KeyLib, Ed25519Lib} := {
  pem_ok : PemBlock → Prop;
  scrypt_length pwd s k : scrypt_Key pwd s = Ok k → length k = 32%nat;
  cfb_inverse k i m : cfb_Decrypt k i (cfb_Encrypt k i m) = m;
  pem_roundtrip b : pem_ok b → ∃ d, pem_Encode b = Ok d ∧ pem_Decode d = (Some b, []);
  rand_length n m r : rand_Read n m = Ok r → length r = m ∧ Forall byte r;
  generated n pk sk : ed25519_GenerateKey n = Ok (pk, sk) → pk = ed25519_Public sk
}.

Definition aes_BlockSize : nat := 16.
Definition aes_NewCipher (key : list Z) : outcome (list Z) :=
  if bool_decide (length key ∈ [16; 24; 32]%nat) then Ok key else Err "crypto/aes: invalid key size".

(** Directories with their files by name. *)
Notation Disk := (gmap string (gmap string (list Z))) (only parsing).

(** [ioutil.ReadFile(path.Join(folder, name))] *)
Definition ReadFile (disk : Disk) (folder name : string) : option (list Z) := files ← disk !! folder; files !! name.
(** The names of a directory in order; [None] without the directory. *)
Definition ReadDir (disk : Disk) (folder : string) : option (list string) :=
  files ← disk !! folder; Some (sort_slice str_ltb (map_to_list files).*1).
(** A file of the directory; [None] without it. *)
Definition WriteFile (disk : Disk) (folder name : string) (data : list Z) : option Disk :=
  files ← disk !! folder; Some (<[folder := <[name := data]> files]> disk).

Section KeyManager.
Context {KL : KeyLib}.

(** ** Loading *)

(** The block is nil if the file has no PEM data; this is an error only if there is something
    else in the file. *)
Definition loadPemBlock (disk : Disk) (folder name : string) : outcome (option PemBlock) :=
  match ReadFile disk folder name with
  | None => Err "Was not able to read key file"
  | Some data =>
      let '(pblock, rest) := pem_Decode data in
      if negb (length rest =? 0)%nat then Err "Was not able to decode pem encoded key" else Ok pblock
  end.

Definition LoadPublicKeys (disk : Disk) (keyPath : string) : outcome (list (option PemBlock)) :=
  match ReadDir disk keyPath with
  | None => Err "Was not able to read directory"
  | Some names => traverse (loadPemBlock disk keyPath) (filter (λ n, HasSuffix n pubSuffix = true) names)
  end.

(** ** Generating *)

(** The salt, the initialisation vector and the encrypted key; [n] counts the uses of
    randomness. *)
Definition encryptPrivateKey (n : nat) (pwd : string) (privateKey : list Z) : outcome (list Z * list Z * list Z) :=
  saltVal ← rand_Read n 8;
  dk ← scrypt_Key (bytes_of_string pwd) saltVal;
  block ← aes_NewCipher dk;
  ivVal ← rand_Read (S n) aes_BlockSize;
  Ok (saltVal, ivVal, cfb_Encrypt block ivVal privateKey).

(** The parameter [description] hides the constant of that name: its value is the name of
    its header.  Later entries of a map literal replace earlier ones. *)
Definition pem_headers (algo description : string) (phase : Z) (rest : list (string * string)) : gmap string string :=
  foldl (λ m kv, <[kv.1 := kv.2]> m) ∅ ([(KeyAlgo, algo); (KeyPhaseHeader, dec phase); (description, description)] ++ rest)%list.

Definition createPEMBlocks (n : nat) (description algo pwd : string) (phase : Z) (publicKey privateKey : list Z)
    : outcome (PemBlock * PemBlock) :=
  let blockPublic := mkPemBlock "RAINS PUBLIC KEY"
    (pem_headers algo description phase [(HexEncoding, hex_EncodeToString publicKey)]) publicKey in
  '(saltVal, ivVal, ciphertext) ← encryptPrivateKey n pwd privateKey;
  Ok (blockPublic, mkPemBlock "RAINS ENCRYPTED PRIVATE KEY"
    (pem_headers algo description phase [(salt, hex_EncodeToString saltVal); (iv, hex_EncodeToString ivVal)]) ciphertext).

(** The disk and the error.  Both files are created before anything is written to them.  The
    error of [createPEMBlocks] is overwritten: its nil block is dereferenced by
    [pem.Encode]. *)
Definition GenerateKey (disk : Disk) (n : nat) (keyPath name description algo pwd : string) (phase : Z)
    : outcome (Disk * option string) :=
  match AtoSig algo with
  | Ok a =>
      if a =? Ed25519 then
        match ed25519_GenerateKey n with
        | Ok (publicKey, privateKey) =>
            let blocks := createPEMBlocks (S n) description algo pwd phase publicKey privateKey in
            match WriteFile disk keyPath (name +:+ pubSuffix) [] with
            | None => Ok (disk, Some "Was not able to create file for public key")
            | Some disk =>
                match WriteFile disk keyPath (name +:+ SecSuffix) [] with
                | None => Ok (disk, Some "Was not able to create file for private key")
                | Some disk =>
                    match blocks with
                    | Ok (publicBlock, privateBlock) =>
                        match pem_Encode publicBlock with
                        | Ok data =>
                            let disk := default disk (WriteFile disk keyPath (name +:+ pubSuffix) data) in
                            match pem_Encode privateBlock with
                            | Ok data => Ok (default disk (WriteFile disk keyPath (name +:+ SecSuffix) data), None)
                            | _ => Ok (disk, Some "Was not able to write private pem block to file")
                            end
                        | _ => Ok (disk, Some "Was not able to write public pem block to file")
                        end
                    | _ => Panic "nil pointer dereference"
                    end
                end
            end
        | _ => Ok (disk, Some "Was not able to generate ed25519 key pair")
        end
      else Ok (disk, Some "ed448 key algorithm type not yet supported")
  | _ => Ok (disk, Some "unsupported algorithm")
  end.

(** ** Reading private keys *)

(** [pblock.Headers[key]] *)
Definition header (b : PemBlock) (key : string) : string := default "" (pemHeaders b !! key).
Definition hex_header (b : PemBlock) (key : string) : outcome (list Z) :=
  let '(data, ok) := hex_DecodeString (header b key) in if negb ok then Err "encoding/hex" else Ok data.

(** [cipher.NewCFBDecrypter] panics on a vector of the wrong length. *)
Definition DecryptKey (disk : Disk) (keyPath name pwd : string) : outcome PemBlock :=
  pblock ← loadPemBlock disk keyPath name;
  match pblock with
  | None => Panic "nil pointer dereference"
  | Some b =>
      saltVal ← hex_header b salt;
      ivVal ← hex_header b iv;
      dk ← scrypt_Key (bytes_of_string pwd) saltVal;
      block ← aes_NewCipher dk;
      if negb (length ivVal =? aes_BlockSize)%nat then Panic "IV length must equal block size"
      else Ok (mkPemBlock (pemType b) (pemHeaders b) (cfb_Decrypt block ivVal (pemBytes b)))
  end.

Definition PemToKeyID (block : PemBlock) : outcome (PublicKeyID * PrivKeyVal) :=
  match Atoi (header block KeyPhaseHeader) with
  | None => Err "Was not able to parse key phase from pem"
  | Some phase =>
      match AtoSig (header block KeyAlgo) with
      | Ok algo =>
          if algo =? Ed25519 then Ok (mkPublicKeyID algo RainsKeySpace phase, PrivEd25519 (pemBytes block))
          else Err "not yet supported signature algo type"
      | _ => Err "Was not able to parse key algorithm from pem"
      end
  end.

(** ** The self-signed delegation *)

(** [path.Split]: behind the last slash. *)
Fixpoint path_Split (s : string) : string * string :=
  match s with
  | EmptyString => ("", "")
  | String c s' =>
      let '(dir, file) := path_Split s' in
      if negb (dir =ₛ "") then (String c dir, file)
      else if Ascii.eqb c "/" then (String c "", file) else ("", String c file)
  end.
(** [path.Join] drops the slash at the end. *)
Fixpoint clean_dir (dir : string) : string :=
  match dir with
  | EmptyString => EmptyString
  | String c EmptyString => if Ascii.eqb c "/" then EmptyString else dir
  | String c dir' => String c (clean_dir dir')
  end.

Context {OL : ObjLib} {CW : CborWriter} {CE : CborEncoder} {ED : Ed25519Lib}.

(** The assertion that [util.Save] stores. *)
Definition SelfSignedDelegation (disk : Disk) (now : Z) (srcPath pwd zone context : string) (validityPeriod : Z) : outcome Assertion :=
  let '(dir, file) := path_Split srcPath in
  let folder := clean_dir dir in
  block ← DecryptKey disk folder (file +:+ SecSuffix) pwd;
  '(keyID, privateKey) ← PemToKeyID block;
  pubBlock ← loadPemBlock disk folder (file +:+ pubSuffix);
  match pubBlock with
  | None => Panic "nil pointer dereference"
  | Some pubBlock =>
      let pkey := mkPublicKey keyID 0 0 (KeyEd25519 (pemBytes pubBlock)) in
      let assertion := mkAssertion [] "@" zone context [mkObject OTDelegation (VPublicKey pkey)] 0 0 false in
      let sig := mkSig keyID (unix now) (unix_after now validityPeriod) DataNil false in
      '(w, err) ← SignSectionUnsafe (WAssertion (Assertion_AddSig assertion sig)) {[ keyID := privateKey ]};
      match w, err with
      | WAssertion a, None => Ok a
      | _, Some e => Err e
      | _, None => Panic "unreachable"
      end
  end.
End KeyManager.

(** ** A generated key can be used *)

Section Generated.
Context {KL : KeyLib} {ED : Ed25519Lib} {KLL : KeyLibLaws}.

Lemma ReadFile_WriteFile disk folder name data disk' n :
  WriteFile disk folder name data = Some disk' →
  ReadFile disk' folder n = if decide (n = name) then Some data else ReadFile disk folder n.
Proof.
  unfold WriteFile, ReadFile. destruct (disk !! folder) as [files|] eqn:E; [|done]. cbn. intros [= <-]. rewrite lookup_insert_eq. cbn.
  case_decide as Hn; [subst; apply lookup_insert_eq|by rewrite lookup_insert_ne].
Qed.
Lemma WriteFile_again disk folder name data disk' name' data' :
  WriteFile disk folder name data = Some disk' → is_Some (WriteFile disk' folder name' data').
Proof. unfold WriteFile. destruct (disk !! folder) as [files|]; [|done]. cbn. intros [= <-]. rewrite lookup_insert_eq. by eexists. Qed.


Definition private_block (algo description : string) (phase : Z) (saltVal ivVal ciphertext : list Z) : PemBlock :=
  mkPemBlock "RAINS ENCRYPTED PRIVATE KEY"
    (pem_headers algo description phase [(salt, hex_EncodeToString saltVal); (iv, hex_EncodeToString ivVal)]) ciphertext.
Definition public_block (algo description : string) (phase : Z) (publicKey : list Z) : PemBlock :=
  mkPemBlock "RAINS PUBLIC KEY" (pem_headers algo description phase [(HexEncoding, hex_EncodeToString publicKey)]) publicKey.

(** The text format can represent the blocks of a key: no colon or line break in its headers. *)
Definition pem_representable (algo description : string) (phase : Z) : Prop :=
  (∀ publicKey, pem_ok (public_block algo description phase publicKey)) ∧
  (∀ saltVal ivVal ciphertext, pem_ok (private_block algo description phase saltVal ivVal ciphertext)).

(** What a successful call leaves on the disk. *)
Lemma GenerateKey_files disk n folder name description algo pwd phase disk' :
  GenerateKey disk n folder name description algo pwd phase = Ok (disk', None) →
  pem_representable algo description phase →
  ∃ pk sk saltVal ivVal ciphertext,
    AtoSig algo = Ok Ed25519 ∧ pk = ed25519_Public sk ∧ encryptPrivateKey (S n) pwd sk = Ok (saltVal, ivVal, ciphertext) ∧
    loadPemBlock disk' folder (name +:+ SecSuffix) = Ok (Some (private_block algo description phase saltVal ivVal ciphertext)) ∧
    loadPemBlock disk' folder (name +:+ pubSuffix) = Ok (Some (public_block algo description phase pk)).
Proof.
  unfold GenerateKey. intros H [Hpub Hsec]. destruct (AtoSig algo) as [a| |] eqn:Ea; [|done..]. destruct (Z.eqb_spec a Ed25519) as [->|]; [|done].
  destruct (ed25519_GenerateKey n) as [[pk sk]| |] eqn:Eg; [|done..]. destruct (WriteFile disk _ _ []) as [d1|] eqn:E1; [|done].
  destruct (WriteFile d1 _ _ []) as [d2|] eqn:E2; [|done]. unfold createPEMBlocks in H.
  destruct (encryptPrivateKey (S n) pwd sk) as [[[saltVal ivVal] ciphertext]| |] eqn:Ee; [|done..]. cbn [mbind outcome_bind] in H.
  destruct (pem_roundtrip (public_block algo description phase pk) (Hpub _)) as (dp & Ep & Dp).
  destruct (pem_roundtrip (private_block algo description phase saltVal ivVal ciphertext) (Hsec _ _ _)) as (ds & Es & Ds).
  unfold public_block, private_block in Ep, Es. rewrite Ep in H. rewrite Es in H. injection H as <-.
  destruct (WriteFile_again _ _ _ _ _ (name +:+ pubSuffix) dp E2) as [d3 E3]. rewrite E3. cbn [default from_option id].
  destruct (WriteFile_again _ _ _ _ _ (name +:+ SecSuffix) ds E3) as [d4 E4]. rewrite E4. cbn [default from_option id].
  exists pk, sk, saltVal, ivVal, ciphertext. split_and!; [done|by apply generated in Eg|done|..].
  - unfold loadPemBlock. rewrite (ReadFile_WriteFile _ _ _ _ _ _ E4), decide_True by done. by rewrite Ds.
  - unfold loadPemBlock. rewrite (ReadFile_WriteFile _ _ _ _ _ _ E4), decide_False by (by intros ?%str_app_inj_l).
    rewrite (ReadFile_WriteFile _ _ _ _ _ _ E3), decide_True by done. by rewrite Dp.
Qed.

(** The headers: [description] takes the place of the two entries before it, the entries
    behind it that of [description]. *)
Lemma header_rest algo description phase k v k' v' t bs : k ≠ k' →
  header (mkPemBlock t (pem_headers algo description phase [(k, v); (k', v')]) bs) k = v ∧
  header (mkPemBlock t (pem_headers algo description phase [(k, v); (k', v')]) bs) k' = v'.
Proof.
  intros Hne. unfold header, pem_headers. cbn [foldl app pemHeaders fst snd].
  rewrite lookup_insert_ne, !lookup_insert_eq by done. done.
Qed.
Lemma header_phase algo description phase saltVal ivVal c :
  header (private_block algo description phase saltVal ivVal c) KeyPhaseHeader =
    (if description =ₛ KeyPhaseHeader then KeyPhaseHeader else dec phase) ∧
  header (private_block algo description phase saltVal ivVal c) KeyAlgo =
    (if description =ₛ KeyAlgo then KeyAlgo else algo).
Proof.
  unfold header, private_block, pem_headers. cbn [foldl app pemHeaders fst snd].
  split; rewrite !(lookup_insert_ne _ iv), !(lookup_insert_ne _ salt) by done.
  - destruct (String.eqb_spec description KeyPhaseHeader) as [->|Hne]; [by rewrite lookup_insert_eq|].
    by rewrite lookup_insert_ne, lookup_insert_eq.
  - destruct (String.eqb_spec description KeyAlgo) as [->|Hne]; [by rewrite lookup_insert_eq|].
    rewrite (lookup_insert_ne _ description), (lookup_insert_ne _ KeyPhaseHeader) by done. by rewrite lookup_insert_eq.
Qed.

Lemma hex_header_ok b key data : header b key = hex_EncodeToString data → Forall byte data → hex_header b key = Ok data.
Proof. intros E H. unfold hex_header. by rewrite E, hex_roundtrip. Qed.

(** The password that encrypted a key decrypts it. *)
Lemma DecryptKey_ok disk folder file pwd n sk algo description phase saltVal ivVal ciphertext :
  encryptPrivateKey n pwd sk = Ok (saltVal, ivVal, ciphertext) →
  loadPemBlock disk folder file = Ok (Some (private_block algo description phase saltVal ivVal ciphertext)) →
  DecryptKey disk folder file pwd = Ok (private_block algo description phase saltVal ivVal sk).
Proof.
  unfold encryptPrivateKey, DecryptKey. intros E ->. cbn [mbind outcome_bind].
  destruct (rand_Read n 8) as [s| |] eqn:Es; [|done..]. cbn [mbind outcome_bind] in E.
  destruct (scrypt_Key _ s) as [k| |] eqn:Ek; [|done..]. cbn [mbind outcome_bind] in E.
  assert (aes_NewCipher k = Ok k) as Ea by (unfold aes_NewCipher; by rewrite (scrypt_length _ _ _ Ek)).
  rewrite Ea in E. cbn [mbind outcome_bind] in E. destruct (rand_Read (S n) aes_BlockSize) as [i| |] eqn:Ei; [|done..].
  injection E as <- <- <-. apply rand_length in Es as [_ Hs], Ei as [Hl Hi].
  destruct (header_rest algo description phase salt (hex_EncodeToString s) iv (hex_EncodeToString i) "RAINS ENCRYPTED PRIVATE KEY"
    (cfb_Encrypt k i sk)) as [H1 H2]; [done|].
  unfold private_block. rewrite (hex_header_ok _ salt s), (hex_header_ok _ iv i) by done. cbn [mbind outcome_bind].
  rewrite Ek. cbn [mbind outcome_bind]. rewrite Ea. cbn [mbind outcome_bind]. rewrite Hl. cbn. by rewrite cfb_inverse.
Qed.

(** C35: a generated key is found again.  After a successful [GenerateKey], reading the
    private key with the same password gives back the identifier and a key whose public half
    is in the public file, unless the description is the name of one of the two headers in
    front of it: its text then takes their place, and the key is refused. *)
Theorem GenerateKey_roundtrip disk n folder name description algo pwd phase disk' :
  GenerateKey disk n folder name description algo pwd phase = Ok (disk', None) →
  pem_representable algo description phase → in_int64 phase →
  ∃ block sk pub, DecryptKey disk' folder (name +:+ SecSuffix) pwd = Ok block ∧
    loadPemBlock disk' folder (name +:+ pubSuffix) = Ok (Some pub) ∧ pemBytes pub = ed25519_Public sk ∧
    (description ∉ [KeyAlgo; KeyPhaseHeader] → PemToKeyID block = Ok (mkPublicKeyID Ed25519 RainsKeySpace phase, PrivEd25519 sk)) ∧
    (description ∈ [KeyAlgo; KeyPhaseHeader] → is_err (PemToKeyID block) = true).
Proof.
  intros H Hpem Hp. destruct (GenerateKey_files _ _ _ _ _ _ _ _ _ H Hpem) as (pk & sk & s & i & c & Ea & -> & Ee & L1 & L2).
  pose proof (DecryptKey_ok _ _ _ _ _ _ _ _ _ _ _ _ Ee L1) as Ed.
  eexists _, sk, _. split_and!; [exact Ed|exact L2|done|..]; intros Hd; unfold PemToKeyID;
    destruct (header_phase algo description phase s i sk) as [-> ->].
  - rewrite !str_eqb_neq by set_solver. by rewrite Atoi_dec, Ea.
  - apply elem_of_cons in Hd as [->|Hd%list_elem_of_singleton]; [|by subst].
    rewrite (str_eqb_neq KeyAlgo KeyPhaseHeader), Atoi_dec by done. done.
Qed.
End Generated.

(** ** The self-signed delegation is accepted *)

Section SelfSigned.
Context {KL : KeyLib} {ED : Ed25519Lib} {KLL : KeyLibLaws} {EDL : Ed25519Laws} {OL : ObjLib} {CW : CborWriter} {CE : CborEncoder}.

Lemma path_Split_join folder name : no_char "/" name → path_Split (folder +:+ "/" +:+ name) = (folder +:+ "/", name).
Proof.
  intros Hn. assert (path_Split name = ("", name)) as E.
  { induction name as [|c name IH]; [done|]. destruct Hn as [Hc Hn]. cbn. rewrite IH by done. cbn.
    destruct (Ascii.eqb_spec c "/"); [done|done]. }
  induction folder as [|c folder IH].
  - change ("" +:+ "/" +:+ name) with (String "/" name). cbn. by rewrite E.
  - rewrite str_app_cons. cbn [path_Split]. rewrite IH. by destruct folder.
Qed.
Lemma clean_dir_slash folder : clean_dir (folder +:+ "/") = folder.
Proof.
  induction folder as [|c folder IH]; [done|]. rewrite str_app_cons. cbn [clean_dir].
  destruct (folder +:+ "/") eqn:E; [by destruct folder|]. by rewrite IH.
Qed.

(** The delegation of [zone] to the key [pk], with its signature still to be made. *)
Definition self_delegation (zone context : string) (id : PublicKeyID) (pk : list Z) (since until : Z) : Assertion :=
  mkAssertion [mkSig id since until DataNil false] "@" zone context
    [mkObject OTDelegation (VPublicKey (mkPublicKey id 0 0 (KeyEd25519 pk)))] 0 0 false.

Lemma self_delegation_ready now zone context id sk since until :
  Algorithm id = Ed25519 ∧ KeySpace id = RainsKeySpace → since ≤ until → unix now ≤ until → clean context zone = true →
  is_ok (encode (DontAddSigInMarshaller (self_delegation zone context id (ed25519_Public sk) since until))) = true →
  signable now {[ id := PrivEd25519 sk ]} {[ id := [mkPublicKey id since until (KeyEd25519 (ed25519_Public sk))] ]}
    (WAssertion (self_delegation zone context id (ed25519_Public sk) since until)).
Proof.
  intros [H1 H2] Hs Hu Hc He. split_and!; [done| | |exact He].
  - apply Forall_singleton. split_and!; [done..|]. exists sk.
    exists [mkPublicKey id since until (KeyEd25519 (ed25519_Public sk))], (mkPublicKey id since until (KeyEd25519 (ed25519_Public sk))).
    split_and!; [apply lookup_singleton_eq|apply lookup_singleton_eq| |done].
    unfold getPublicKey. by rewrite !(proj2 (Z.leb_le _ _)) by done.
  - cbn. unfold Assertion_CheckStringFields. cbn. by rewrite Hc.
Qed.

(** The self-signed delegation of a generated key is accepted.  From the two files of a
    key, [SelfSignedDelegation] makes an assertion about the zone that delegates it to the
    key, and [CheckSectionSignatures] accepts it under this key from the beginning to the
    end of the validity period. *)
Theorem SelfSignedDelegation_accepted disk n folder name description algo pwd phase disk' now zone context period maxVal :
  GenerateKey disk n folder name description algo pwd phase = Ok (disk', None) →
  pem_representable algo description phase → in_int64 phase →
  description ∉ [KeyAlgo; KeyPhaseHeader] → no_char "/" name → 0 ≤ period → clean context zone = true →
  let id := mkPublicKeyID Ed25519 RainsKeySpace phase in
  let until := unix_after now period in
  (∀ sk, is_ok (encode (DontAddSigInMarshaller (self_delegation zone context id (ed25519_Public sk) (unix now) until))) = true) →
  ∃ a saltVal ivVal sk, let pk := ed25519_Public sk in
    DecryptKey disk' folder (name +:+ SecSuffix) pwd = Ok (private_block algo description phase saltVal ivVal sk) ∧
    SelfSignedDelegation disk' now (folder +:+ "/" +:+ name) pwd zone context period = Ok a ∧
    assertion_body a = assertion_body (self_delegation zone context id pk (unix now) until) ∧
    ∀ now', unix now ≤ unix now' ≤ until →
      ∃ a', CheckSectionSignatures now' (WAssertion a) (Some {[ id := [mkPublicKey id (unix now) until (KeyEd25519 pk)] ]}) maxVal =
        Ok (WAssertion a', true).
Proof.
  intros H Hpem Hp Hd Hn Hper Hc id until Henc.
  destruct (GenerateKey_files _ _ _ _ _ _ _ _ _ H Hpem) as (pk & sk & s & i & c & Ea & -> & Ee & L1 & L2).
  assert (unix now ≤ until) as Hu by (apply Z.div_le_mono; lia).
  pose proof (DecryptKey_ok _ _ _ _ _ _ _ _ _ _ _ _ Ee L1) as Ed.
  assert (PemToKeyID (private_block algo description phase s i sk) = Ok (id, PrivEd25519 sk)) as Ek.
  { unfold PemToKeyID. destruct (header_phase algo description phase s i sk) as [-> ->]. rewrite !str_eqb_neq by set_solver.
    by rewrite Atoi_dec, Ea. }
  set (d := self_delegation zone context id (ed25519_Public sk) (unix now) until).
  set (pkeys := {[ id := [mkPublicKey id (unix now) until (KeyEd25519 (ed25519_Public sk))] ]} : gmap PublicKeyID (list PublicKey)).
  assert (∀ now', unix now' ≤ until → signable now' {[ id := PrivEd25519 sk ]} pkeys (WAssertion d)) as Hr
    by (intros; by apply self_delegation_ready).
  destruct (assertion_sign_check now _ pkeys maxVal d (Hr now Hu)) as (a & a' & S1 & _ & _ & _ & S2).
  exists a, s, i, sk. cbv zeta. split_and!; [exact Ed| |exact S2|].
  - unfold SelfSignedDelegation. rewrite path_Split_join, clean_dir_slash, Ed by done. cbn [mbind outcome_bind]. rewrite Ek.
    cbn [mbind outcome_bind]. rewrite L2. cbn [mbind outcome_bind pemBytes public_block].
    match goal with |- context [SignSectionUnsafe ?w ?k] => change (SignSectionUnsafe w k) with (SignSectionUnsafe (WAssertion d) k) end.
    by rewrite S1.
  - intros now' [_ Hn']. destruct (assertion_sign_check now' _ pkeys maxVal d (Hr now' Hn')) as (b & b' & T1 & T2 & _).
    rewrite S1 in T1. injection T1 as ->. by exists b'.
Qed.
End SelfSigned.

(** ** Concrete keys *)

Local Existing Instance be_objlib.
Local Existing Instance toy_cbor.
Local Existing Instance toy_ed25519.
Local Existing Instance toy_ed25519_laws.
Local Existing Instance toy_encoder.

(** A block is written as one number; there is no encryption, and the source of randomness
    always has the same number. *)
Definition toy_keylib : KeyLib := {|
  scrypt_Key _ _ := Ok (replicate 32 1);
  cfb_Encrypt _ _ m := m;
  cfb_Decrypt _ _ m := m;
  pem_Encode b := Ok [Zpos (countable.encode (pemType b, pemHeaders b, pemBytes b))];
  pem_Decode d :=
    match d with
    | [Zpos p] => match countable.decode p with Some (t, h, bs) => (Some (mkPemBlock t h bs), []) | None => (None, d) end
    | _ => (None, d)
    end;
  rand_Read _ m := Ok (replicate m 7);
  ed25519_GenerateKey _ := Ok (ed25519_Public [3], [3])
|}.
Local Existing Instance toy_keylib.
Local Instance toy_keylib_laws : KeyLibLaws.
Proof.
  refine {| pem_ok _ := True |}.
  - by intros _ _ k [= <-].
  - done.
  - intros [t h bs] _. eexists. split; [reflexivity|]. cbn -[countable.encode countable.decode]. by rewrite countable.decode_encode.
  - intros _ m r [= <-]. split; [apply length_replicate|]. by apply Forall_replicate.
  - by intros _ pk sk [= <- <-].
Defined.
Lemma toy_representable algo description phase : pem_representable algo description phase.
Proof. done. Qed.

(** A key of phase 2 in an empty directory. *)
Definition key_disk : Disk := {[ "keys" := ∅ ]}.
Definition generated_disk (description : string) : Disk :=
  match GenerateKey key_disk 0 "keys" "zone" description "ed25519" "pwd" 2 with Ok (d, _) => d | _ => ∅ end.
Definition key_id : PublicKeyID := mkPublicKeyID Ed25519 RainsKeySpace 2.

Lemma GenerateKey_roundtrip_witness :
  ∃ block sk, DecryptKey (generated_disk "my key") "keys" "zone_sec.pem" "pwd" = Ok block ∧
    PemToKeyID block = Ok (key_id, PrivEd25519 sk).
Proof.
  destruct (GenerateKey_roundtrip key_disk 0 "keys" "zone" "my key" "ed25519" "pwd" 2 (generated_disk "my key"))
    as (block & sk & pub & E1 & E2 & E3 & E4 & _); [vm_compute; reflexivity|apply toy_representable|done|].
  exists block, sk. split; [exact E1|]. apply E4. by apply (bool_decide_unpack _).
Defined.

Lemma SelfSignedDelegation_accepted_witness :
  ∃ a pk, SelfSignedDelegation (generated_disk "my key") 0 "keys/zone" "pwd" "ch." "." Hour = Ok a ∧
    ∃ a', CheckSectionSignatures (Minute) (WAssertion a)
      (Some {[ key_id := [mkPublicKey key_id 0 3600 (KeyEd25519 pk)] ]}) w_max = Ok (WAssertion a', true).
Proof.
  destruct (SelfSignedDelegation_accepted key_disk 0 "keys" "zone" "my key" "ed25519" "pwd" 2 (generated_disk "my key") 0 "ch." "." Hour w_max)
    as (a & ? & ? & sk & _ & E1 & _ & E2); [vm_compute; reflexivity|apply toy_representable|done|by apply (bool_decide_unpack _)|cbn; done|done|done|done|].
  exists a, (ed25519_Public sk). split; [exact E1|]. apply (E2 Minute). vm_compute. split; discriminate.
Defined.
