(* ===== verification/Publisher.v ===== *)
(** * The publisher

    Models attic/internal/pkg/publisher: a zone file is loaded, its assertions are grouped into
    shards and pshards, signature meta data is added, the sections are checked and signed, and
    the result is stored and sent to the zone's servers.

    The assertions of a zone are shared with nothing else: shards hold copies.  A copy shares
    the array of objects, which only sorting writes, and every section is sorted or none. *)

From S2P Require Import Prelude Cbor Keys Object Query BitArray BloomFilter Section Message Siglib ConnectionCache Server Connection ZoneFile KeyManager.
Local Open Scope string_scope.
Local Open Scope Z_scope.

(** ** publisherConfig.go *)

Record ShardingConfig := mkShardingConfig {
  KeepShards : bool;
  cfgDoSharding : bool;
  NofAssertionsPerShard : Z;
  MaxShardSize : Z
}.
Record BloomFilterConfig := mkBloomFilterConfig { BFAlgo : Z; BFHash : HashAlgo; BloomFilterSize : Z }.
Record PShardingConfig := mkPShardingConfig {
  KeepPshards : bool;
  cfgDoPsharding : bool;
  NofAssertionsPerPshard : Z;
  BloomFilterConf : BloomFilterConfig
}.
(** [SigSigningInterval] is in nanoseconds. *)
Record MetaDataConfig := mkMetaDataConfig {
  AddSignatureMetaData : bool;
  AddSigMetaDataToAssertions : bool;
  AddSigMetaDataToShards : bool;
  AddSigMetaDataToPshards : bool;
  SignatureAlgorithm : SigAlgo;
  cfgKeyPhase : Z;
  SigValidSince : Z;
  SigValidUntil : Z;
  SigSigningInterval : Z
}.
Record ConsistencyConfig := mkConsistencyConfig {
  DoConsistencyCheck : bool;
  SortShards : bool;
  SortZone : bool;
  SigNotExpired : bool;
  cfgCheckStringFields : bool
}.
Record PubConfig := mkPubConfig {
  ZonefilePath : string;
  AuthServers : list NetAddr;
  PrivateKeyPath : string;
  ShardingConf : ShardingConfig;
  PShardingConf : PShardingConfig;
  MetaDataConf : MetaDataConfig;
  ConsistencyConf : ConsistencyConfig;
  DoSigning : bool;
  MaxZoneSize : Z;
  OutputPath : string;
  DoPublish : bool
}.

Definition pub_DefaultConfig (now : Z) : PubConfig := {|
  ZonefilePath := "data/zonefiles/zf.txt";
  AuthServers := [];
  PrivateKeyPath := "data/keys/key_sec.pem";
  ShardingConf := {| cfgDoSharding := true; KeepShards := false; MaxShardSize := 1000; NofAssertionsPerShard := -1 |};
  PShardingConf := {|
    cfgDoPsharding := true; KeepPshards := false; NofAssertionsPerPshard := 50;
    BloomFilterConf := {| BFAlgo := BloomKM12; BFHash := Shake256; BloomFilterSize := 200 |}
  |};
  MetaDataConf := {|
    AddSignatureMetaData := true; AddSigMetaDataToAssertions := true; AddSigMetaDataToShards := true;
    AddSigMetaDataToPshards := true; SignatureAlgorithm := Ed25519; cfgKeyPhase := 0;
    SigValidSince := unix now; SigValidUntil := unix_after now (24 * Hour); SigSigningInterval := Minute
  |};
  ConsistencyConf := {|
    DoConsistencyCheck := true; SortShards := false; SortZone := false; SigNotExpired := false; cfgCheckStringFields := false
  |};
  DoSigning := true;
  MaxZoneSize := 60000;
  OutputPath := "";
  DoPublish := true
|}.

(** [LoadConfig] on what [json.Unmarshal] read from the file, or its error: the interval is
    given in seconds. *)
Definition pub_LoadConfig (read : outcome PubConfig) : outcome PubConfig :=
  c ← read;
  let md := MetaDataConf c in
  Ok (mkPubConfig (ZonefilePath c) (AuthServers c) (PrivateKeyPath c) (ShardingConf c) (PShardingConf c)
    (mkMetaDataConfig (AddSignatureMetaData md) (AddSigMetaDataToAssertions md) (AddSigMetaDataToShards md) (AddSigMetaDataToPshards md)
       (SignatureAlgorithm md) (cfgKeyPhase md) (SigValidSince md) (SigValidUntil md) (int64_wrap (SigSigningInterval md * Second)))
    (ConsistencyConf c) (DoSigning c) (MaxZoneSize c) (OutputPath c) (DoPublish c)).

(** ** Splitting the content of the zone file *)

Fixpoint split_loop (keepShards keepPshards : bool) (l : list SigSection) (z : option Zone) (shards : list Shard) (pshards : list Pshard)
    : outcome (Zone * list Shard * list Pshard) :=
  match l with
  | [] => match z with Some z => Ok (z, shards, pshards) | None => Err "Zone is not in zonefile" end
  | WShard s :: l' => split_loop keepShards keepPshards l' z (if keepShards then shards ++ [s] else shards)%list pshards
  | WPshard s :: l' => split_loop keepShards keepPshards l' z shards (if keepPshards then pshards ++ [s] else pshards)%list
  | WZone z :: l' => split_loop keepShards keepPshards l' (Some z) shards pshards
  | WAssertion _ :: _ => Err "Unexpected type in zonefile"
  end.
Definition splitZoneContent (zoneContent : list SigSection) (keepShards keepPshards : bool) : outcome (Zone * list Shard * list Pshard) :=
  split_loop keepShards keepPshards zoneContent None [] [].

(** ** Grouping by the number of names *)

Section ByNumber.
Context {C : Type} (fresh : outcome C) (close : C → string → string → C) (add : C → Assertion → outcome C) (limit : Z).

(** The loop that shards and pshards have in common.  [all] is the slice and [rest] what is
    left of it from index [i] on; [shards] are finished, [shard] is being filled. *)
Fixpoint number_loop (all : list Assertion) (i : Z) (rest : list Assertion) (shards : list C) (nameCount : Z) (prev prevShard : string) (shard : C)
    : outcome (list C) :=
  match rest with
  | [] => Ok (shards ++ [close shard prevShard ""])%list
  | a :: rest' =>
      let new := negb (prev =ₛ aSubjectName a) in
      let nameCount := if new then nameCount + 1 else nameCount in
      let prev := if new then aSubjectName a else prev in
      '(shards, nameCount, prevShard, shard) ←
        (if limit <? nameCount then
           shard' ← fresh;
           last ← at_index all (i - 1);
           Ok ((shards ++ [close shard prevShard (aSubjectName a)])%list, 1, aSubjectName last, shard')
         else Ok (shards, nameCount, prevShard, shard));
      shard ← add shard a;
      number_loop all (i + 1) rest' shards nameCount prev prevShard shard
  end.
Definition group_by_number (assertions : list Assertion) : outcome (list C) :=
  shard ← fresh; number_loop assertions 0 assertions [] 0 "" "" shard.
End ByNumber.

Definition new_shard (subjectZone context : string) : Shard := mkShard [] subjectZone context "" "" [] 0 0 false.
Definition Shard_set_range (s : Shard) (from to : string) : Shard :=
  mkShard (sSignatures s) (sSubjectZone s) (sContext s) from to (sContent s) (sValidSince s) (sValidUntil s) (sSign s).
Definition Shard_append (s : Shard) (l : list Assertion) : Shard := Shard_set_content s (sContent s ++ l).

Definition groupAssertionsToShardsByNumber (subjectZone context : string) (assertions : list Assertion) (config : ShardingConfig)
    : outcome (list Shard) :=
  group_by_number (Ok (new_shard subjectZone context)) Shard_set_range (λ s a, Ok (Shard_append s [Assertion_Copy a "" ""]))
    (NofAssertionsPerShard config) assertions.

Section Publisher.
Context {AL : AddrLib} {ZL : ZoneLib} {OL : ObjLib} {BL : BloomLib} {CW : CborWriter} {CE : CborEncoder} {ED : Ed25519Lib}.

(** [make] panics on a negative length; [/] and [%] round towards zero.  A size that is no
    multiple of eight is rounded up to bytes and multiplied by eight again. *)
Definition newPshard (subjectZone context : string) (config : BloomFilterConfig) : outcome Pshard :=
  let n := BloomFilterSize config in
  let size := if Z.rem n 8 =? 0 then Z.quot n 8 else (Z.quot n 8 + 1) * 8 in
  if size <? 0 then Panic "makeslice: len out of range"
  else Ok (mkPshard [] subjectZone context "" "" (mkBloomFilter (BFAlgo config) (BFHash config) (replicate (Z.to_nat size) 0)) 0 0 false).
Definition Pshard_set_range (s : Pshard) (from to : string) : Pshard :=
  mkPshard (pSignatures s) (pSubjectZone s) (pContext s) from to (pBloomFilter s) (pValidSince s) (pValidUntil s) (pSign s).

(** The assertion is added with the zone and context, which are removed from it afterwards. *)
Definition groupAssertionsToPshards (subjectZone context : string) (assertions : list Assertion) (config : PShardingConfig)
    : outcome (list Pshard * list Assertion) :=
  l ← group_by_number (newPshard subjectZone context (BloomFilterConf config)) Pshard_set_range
        (λ s a, Pshard_AddAssertion s (Assertion_Copy a context subjectZone)) (NofAssertionsPerPshard config) assertions;
  Ok (l, Assertion_RemoveContextAndSubjectZone <$> assertions).

(** ** Grouping by size *)

(** Runs of assertions with the same name. *)
Fixpoint groupAssertionByName (assertions : list Assertion) : list (list Assertion) :=
  match assertions with
  | [] => []
  | a :: l =>
      match groupAssertionByName l with
      | (b :: g) :: gs =>
          if aSubjectName a =ₛ aSubjectName b then (Assertion_Copy a "" "" :: b :: g) :: gs else [Assertion_Copy a "" ""] :: (b :: g) :: gs
      | gs => [Assertion_Copy a "" ""] :: gs
      end
  end.

(** [len(encoder.EncodeSection(shard)) > config.MaxShardSize] *)
Definition too_large (max : Z) (s : Shard) : outcome bool :=
  text ← EncodeSection (SecShard s); Ok (max <? Z.of_nat (String.length text)).

Fixpoint size_loop (subjectZone context : string) (max : Z) (all : list (list Assertion)) (i : Z) (rest : list (list Assertion))
    (shards : list Shard) (prevShard : string) (shard : Shard) : outcome (list Shard) :=
  match rest with
  | [] => Ok (shards ++ [Shard_set_range shard prevShard ""])%list
  | sameNameA :: rest' =>
      large ← too_large max (Shard_append shard sameNameA);
      if large : bool then
        if bool_decide (sContent shard = []) then Err "Assertions with the same name are too long"
        else
          first ← at_index sameNameA 0;
          before ← at_index all (i - 1);
          last ← at_index before 0;
          let shard' := Shard_append (new_shard subjectZone context) sameNameA in
          large ← too_large max shard';
          if large : bool then Err "Assertions with the same name are too long"
          else size_loop subjectZone context max all (i + 1) rest'
                 (shards ++ [Shard_set_range shard prevShard (aSubjectName first)])%list (aSubjectName last) shard'
      else size_loop subjectZone context max all (i + 1) rest' shards prevShard (Shard_append shard sameNameA)
  end.
Definition groupAssertionsToShardsBySize (subjectZone context : string) (assertions : list Assertion) (config : ShardingConfig)
    : outcome (list Shard) :=
  let groups := groupAssertionByName assertions in
  size_loop subjectZone context (MaxShardSize config) groups 0 groups [] "" (new_shard subjectZone context).

(** ** Sharding *)

(** [sort.Slice(assertions, ...)] sorts the content of the zone itself. *)
Definition sort_assertions (sort : bool) (assertions : list Assertion) : list Assertion :=
  if sort then sort_slice (λ x y, Assertion_CompareTo x y <? 0) assertions else assertions.

(** The shards, and the assertions as they are left. *)
Definition DoSharding (zone ctx : string) (assertions : list Assertion) (shards : list Shard) (config : ShardingConfig) (sortAssertions : bool)
    : outcome (list Shard * list Assertion) :=
  let assertions := sort_assertions sortAssertions assertions in
  newShards ←
    (if 0 <? MaxShardSize config then groupAssertionsToShardsBySize zone ctx assertions config
     else if 0 <? NofAssertionsPerShard config then groupAssertionsToShardsByNumber zone ctx assertions config
     else Err "MaxShardSize or NofAssertionsPerShard must be positive when DoSharding is set");
  Ok ((newShards ++ shards)%list, assertions).

Definition DoPsharding (zone ctx : string) (assertions : list Assertion) (pshards : list Pshard) (conf : PShardingConfig) (sortAssertions : bool)
    : outcome (list Pshard * list Assertion) :=
  let assertions := sort_assertions sortAssertions assertions in
  if 0 <? NofAssertionsPerPshard conf then
    '(newPshards, assertions) ← groupAssertionsToPshards zone ctx assertions conf;
    Ok ((newPshards ++ pshards)%list, assertions)
  else Err "NofAssertionsPerPshard must be positive when DoPsharding is set".

(** ** Signature meta data *)

(** The loop over the sections of one kind: every signature starts a step later than the one
    before. *)
Fixpoint stamp_all {W} (add : W → Sig → W) (step : Z) (sig : Sig) (l : list W) : list W :=
  match l with
  | [] => []
  | w :: l' =>
      add w sig :: stamp_all add step
        (mkSig (sigPublicKeyID sig) (int64_wrap (sigValidSince sig + step)) (int64_wrap (sigValidUntil sig + step)) DataNil false) l'
  end.

(** An integer division by zero panics. *)
Definition addSignatureMetaData (z : Zone) (shards : list Shard) (pshards : list Pshard) (config : MetaDataConfig)
    : outcome (Zone * list Shard * list Pshard) :=
  let sig := mkSig (mkPublicKeyID (SignatureAlgorithm config) RainsKeySpace (cfgKeyPhase config))
               (SigValidSince config) (SigValidUntil config) DataNil false in
  let z := Zone_AddSig z sig in
  let interval := SigSigningInterval config in
  let step (n : nat) := Z.quot (if (n =? 0)%nat then interval else Z.quot interval (Z.of_nat n)) Second in
  if (length (zContent z) =? 0)%nat then Panic "integer divide by zero"
  else
    let content := if AddSigMetaDataToAssertions config
                   then stamp_all Assertion_AddSig (step (length (zContent z))) sig (zContent z) else zContent z in
    let shards := if AddSigMetaDataToShards config then stamp_all Shard_AddSig (step (length shards)) sig shards else shards in
    let pshards := if AddSigMetaDataToPshards config then stamp_all Pshard_AddSig (step (length pshards)) sig pshards else pshards in
    Ok (Zone_set_content z content, shards, pshards).

(** ** Checks *)

(** The section as the check leaves it. *)
Definition doConsistencyCheck (now : Z) (s : SigSection) (config : ConsistencyConfig) : outcome (SigSection * bool) :=
  if DoConsistencyCheck config then ValidSectionAndSignature now s
  else
    s ← (if SortShards config then SigSection_Sort s else Ok s);
    ok ← (if cfgCheckStringFields config then CheckStringFields (SigSection_section s) else Ok true);
    if negb ok then Ok (s, false)
    else Ok (s, if SigNotExpired config then SigSection_NotExpired now s else true).

(** The sections one after the other, up to the first that is refused. *)
Fixpoint check_loop (now : Z) (config : ConsistencyConfig) (l : list SigSection) : outcome (list SigSection * bool) :=
  match l with
  | [] => Ok ([], true)
  | s :: l' =>
      '(s, ok) ← doConsistencyCheck now s config;
      if negb ok then Ok (s :: l', false)
      else '(l', ok) ← check_loop now config l'; Ok (s :: l', ok)
  end.
Definition isConsistent (now : Z) (z : Zone) (shards : list Shard) (pshards : list Pshard) (config : ConsistencyConfig)
    : outcome (list SigSection * bool) :=
  check_loop now config (WZone z :: (WShard <$> shards) ++ (WPshard <$> pshards))%list.

(** ** Signing *)

Context {KL : KeyLib}.

(** The private keys in a directory, each with the empty password. *)
Fixpoint load_keys (disk : Disk) (path : string) (names : list string) (output : gmap PublicKeyID PrivKeyVal)
    : outcome (gmap PublicKeyID PrivKeyVal) :=
  match names with
  | [] => Ok output
  | name :: names' =>
      if HasSuffix name SecSuffix then
        keyPem ← DecryptKey disk path name "";
        '(keyID, pkey) ← PemToKeyID keyPem;
        match output !! keyID with
        | Some _ => Err "Two keys for the same key meta data are not allowed"
        | None => load_keys disk path names' (<[keyID := pkey]> output)
        end
      else load_keys disk path names' output
  end.
Definition LoadPrivateKeys (disk : Disk) (path : string) : outcome (gmap PublicKeyID PrivKeyVal) :=
  match ReadDir disk path with
  | None => Err "Was not able to read directory"
  | Some names => load_keys disk path names ∅
  end.

Fixpoint sign_loop (ks : gmap PublicKeyID PrivKeyVal) (l : list SigSection) : outcome (list SigSection) :=
  match l with
  | [] => Ok []
  | s :: l' =>
      '(s, err) ← SignSectionUnsafe s ks;
      match err with
      | Some e => Err ("Was not able to sign: " +:+ e)
      | None => l' ← sign_loop ks l'; Ok (s :: l')
      end
  end.
(** [sections] are the zone, the shards and the pshards. *)
Definition signZoneContent (disk : Disk) (sections : list SigSection) (keyPath : string) : outcome (list SigSection) :=
  ks ← LoadPrivateKeys disk keyPath; sign_loop ks sections.

(** ** Sending *)

Context {CS : CborStream} {IN : Internet} {TG : TokenGen}.

(** No notification closes the connection. *)
Definition handleResponse (n : Notification) : bool := false.

(** The loop until the deadline; [None] if more rounds are needed.  The type assertion is on
    the message that was sent. *)
Fixpoint await_response (rounds : nat) (conn : Conn) (msg : Message) (deadline : Z) (s : Net) : option (outcome (Net * option string)) :=
  if inet_now (netEvents s) <? deadline then
    match rounds with
    | O => None
    | S rounds' =>
        match ReceiveMessage conn (Some (deadline - inet_now (netEvents s))) s with
        | Ok (s, inl err) => Some (Ok (s, Some ("error receiving message: " +:+ err)))
        | Ok (s, inr replyMsg) =>
            match at_index (mContent replyMsg) 0 with
            | Ok (SecNotification n) =>
                if bool_decide (nToken n = mToken msg) then
                  match at_index (mContent msg) 0 with
                  | Ok (SecNotification m) => if handleResponse m then Some (Ok (s, None)) else await_response rounds' conn msg deadline s
                  | _ => Some (Panic "interface conversion")
                  end
                else await_response rounds' conn msg deadline s
            | Ok _ => await_response rounds' conn msg deadline s
            | _ => Some (Panic "index out of range")
            end
        | Err e => Some (Err e)
        | Panic e => Some (Panic e)
        end
    end
  else Some (Ok (s, Some "timeout while waiting for response")).

(** The error; [None] for nil. *)
Definition connectAndSendMsg (rounds : nat) (msg : Message) (server : NetAddr) (s : Net) : option (outcome (Net * option string)) :=
  match CreateConnection server s with
  | Ok (s, None) => Some (Ok (s, Some "unable to establish a connection"))
  | Ok (s, Some conn) =>
      let closed (r : option (outcome (Net * option string))) :=
        match r with Some (Ok (s, e)) => Some ('(s, _) ← wire (Closed conn) s; Ok (s, e)) | _ => r end in
      match WriteMessage conn msg s with
      | Ok (s, Some err) => closed (Some (Ok (s, Some ("unable send message: " +:+ err))))
      | Ok (s, None) => closed (await_response rounds conn msg (inet_now (netEvents s) + Second) s)
      | Err e => Some (Err e)
      | Panic e => Some (Panic e)
      end
  | Err e => Some (Err e)
  | Panic e => Some (Panic e)
  end.

(** The servers that were not reached; the connections run one after the other here.  A nil
    address is sent over the channel as it is, and is counted as a success. *)
Fixpoint publishSections (rounds : nat) (msg : Message) (servers : list NetAddr) (s : Net) : option (outcome (Net * list NetAddr)) :=
  match servers with
  | [] => Some (Ok (s, []))
  | server :: servers' =>
      match connectAndSendMsg rounds msg server s with
      | Some (Ok (s, err)) =>
          match publishSections rounds msg servers' s with
          | Some (Ok (s, l)) => Some (Ok (s, match err with Some _ => if bool_decide (server = NilAddr) then l else server :: l | None => l end))
          | r => r
          end
      | Some (Err e) => Some (Err e)
      | Some (Panic e) => Some (Panic e)
      | None => None
      end
  end.

(** ** Publishing *)

(** The files of the publisher, the keys, what the zone file parser left behind, and the
    network. *)
Record PubState := mkPubState { psFiles : gmap string string; psKeys : Disk; psOutput : list SigSection; psNet : Net }.

Definition LoadZonefile (path : string) (s : PubState) : PubState * outcome (list SigSection) :=
  match psFiles s !! path with
  | None => (s, Err "no such file")
  | Some data =>
      let '(output, r) := parse data (psOutput s) in (mkPubState (psFiles s) (psKeys s) output (psNet s), r)
  end.
(** Writing succeeds. *)
Definition EncodeAndStore (path : string) (sections : list AnySection) (s : PubState) : outcome PubState :=
  text ← Encode sections; Ok (mkPubState (<[path := text]> (psFiles s)) (psKeys s) (psOutput s) (psNet s)).

(** What is stored and sent. *)
Definition prepare (now : Z) (config : PubConfig) (disk : Disk) (zoneContent : list SigSection) : outcome (list SigSection) :=
  let sc := ShardingConf config in
  let pc := PShardingConf config in
  let cc := ConsistencyConf config in
  '(z, shards, pshards) ← splitZoneContent zoneContent (KeepShards sc) (KeepPshards pc);
  '(shards, content) ←
    (if cfgDoSharding sc then DoSharding (zSubjectZone z) (zContext z) (zContent z) shards sc (SortShards cc) else Ok (shards, zContent z));
  '(pshards, content) ←
    (if cfgDoPsharding pc
     then DoPsharding (zSubjectZone z) (zContext z) content pshards pc (negb (KeepShards sc) && SortShards cc)
     else Ok (pshards, content));
  let z := Zone_set_content z (sort_assertions (SortZone cc) content) in
  '(z, shards, pshards) ←
    (if AddSignatureMetaData (MetaDataConf config) then addSignatureMetaData z shards pshards (MetaDataConf config) else Ok (z, shards, pshards));
  '(sections, ok) ← isConsistent now z shards pshards cc;
  if negb ok then Err "sections are not consistent"
  else if DoSigning config then signZoneContent disk sections (PrivateKeyPath config)
  else Ok sections.

Definition publishZone (rounds : nat) (config : PubConfig) (zoneContent : list AnySection) (s : Net) : option (outcome (Net * list NetAddr)) :=
  if DoPublish config then
    match net_token s with
    | Ok (s, tok) => publishSections rounds (mkMessage [NoCapability] tok zoneContent []) (AuthServers config) s
    | Err e => Some (Err e)
    | Panic e => Some (Panic e)
    end
  else Some (Ok (s, [])).

(** The state, the servers that were not reached, and the error. *)
Definition Publish (rounds : nat) (now : Z) (config : PubConfig) (s : PubState) : option (outcome (PubState * list NetAddr * option string)) :=
  let '(s, loaded) := LoadZonefile (ZonefilePath config) s in
  match zoneContent ← loaded; prepare now config (psKeys s) zoneContent with
  | Panic e => Some (Panic e)
  | Err e => Some (Ok (s, [], Some e))
  | Ok sections =>
      let output := SigSection_section <$> sections in
      match (if OutputPath config =ₛ "" then Ok s else EncodeAndStore (OutputPath config) output s) with
      | Panic e => Some (Panic e)
      | Err e => Some (Ok (s, [], Some e))
      | Ok s =>
          match publishZone rounds config output (psNet s) with
          | Some (Ok (net, unreached)) => Some (Ok (mkPubState (psFiles s) (psKeys s) (psOutput s) net, unreached, None))
          | Some (Err e) => Some (Err e)
          | Some (Panic e) => Some (Panic e)
          | None => None
          end
      end
  end.
End Publisher.
