(* ===== verification/PublisherFacts.v ===== *)
(** * Theorems about the publisher

    The sections made from a sorted zone represent it: every shard contains exactly the
    assertions in its range, the ranges cover all names, and no pshard denies an assertion of
    the zone. *)

From S2P Require Import Prelude Cbor Keys Object Query BitArray BloomFilter Section SectionFacts Message Siglib SiglibFacts ConnectionCache Server Connection ZoneFile ZoneFileRoundtrip KeyManager Publisher.
Local Open Scope string_scope.
Local Open Scope Z_scope.

(** ** Cutting a list of assertions *)

Definition last_name (l : list Assertion) : string := default "" (aSubjectName <$> last l).
Definition name_le (a b : Assertion) : Prop := aSubjectName b <ₛ aSubjectName a = false.
(** The empty string leaves a side open. *)
Definition between (lo hi n : string) : Prop := (lo = "" ∨ lo <ₛ n = true) ∧ (hi = "" ∨ n <ₛ hi = true).

Lemma last_name_snoc l a : last_name (l ++ [a]) = aSubjectName a.
Proof. unfold last_name. by rewrite last_snoc. Qed.
Lemma last_name_elem l : l ≠ [] → ∃ a, a ∈ l ∧ last_name l = aSubjectName a.
Proof.
  intros Hl. destruct (exists_last Hl) as (k & a & ->). exists a. rewrite last_name_snoc. split; [|done]. apply elem_of_app. right. by left.
Qed.
Lemma str_leb_trans s t u : t <ₛ s = false → u <ₛ t = false → u <ₛ s = false.
Proof.
  intros H1 H2. destruct (u <ₛ s) eqn:E; [|done]. destruct (str_ltb_total s t) as [H|[->|H]]; [|congruence..].
  by rewrite (str_ltb_trans u s t) in H2.
Qed.
Lemma str_lt_le_trans s t u : s <ₛ t = true → u <ₛ t = false → s <ₛ u = true.
Proof.
  intros H1 H2. destruct (str_ltb_total t u) as [H|[<-|H]]; [by apply (str_ltb_trans s t u)|done|congruence].
Qed.
Lemma str_le_lt_trans s t u : t <ₛ s = false → t <ₛ u = true → s <ₛ u = true.
Proof.
  intros H1 H2. destruct (str_ltb_total s t) as [H|[->|H]]; [by apply (str_ltb_trans s t u)|done|congruence].
Qed.

(** Everything in [l] lies below everything in [k]. *)
Definition below (l k : list Assertion) : Prop :=
  ∀ a b, a ∈ l → b ∈ k → aSubjectName a <ₛ aSubjectName b = true.

Lemma sorted_last l a : StronglySorted name_le l → a ∈ l → last_name l <ₛ aSubjectName a = false.
Proof.
  intros Hs Ha. destruct (exists_last (l:=l)) as (k & b & ->); [by intros ->; apply elem_of_nil in Ha|]. rewrite last_name_snoc.
  apply elem_of_app in Ha as [Ha|Ha%list_elem_of_singleton]; [|subst; apply str_ltb_irrefl].
  apply (StronglySorted_app_1_elem_of name_le k [b] a b Hs Ha). by left.
Qed.
Lemma last_name_app l k : k ≠ [] → last_name (l ++ k) = last_name k.
Proof. intros Hk. destruct (exists_last Hk) as (k' & b & ->). by rewrite app_assoc, !last_name_snoc. Qed.

(** A list that is sorted falls apart where the name changes. *)
Lemma sorted_boundary l a k : StronglySorted name_le (l ++ a :: k) → last_name l ≠ aSubjectName a → below l (a :: k).
Proof.
  intros Hs Hne x y Hx Hy.
  assert (∀ z, z ∈ l → ∀ w, w ∈ a :: k → name_le z w) as Hle by (intros; by eapply StronglySorted_app_1_elem_of).
  apply StronglySorted_app_1_l in Hs as Hl. apply StronglySorted_app_1_r in Hs as [Hk Ha]%StronglySorted_inv.
  destruct (last_name_elem l) as (b & Hb & Eb); [by intros ->; apply elem_of_nil in Hx|].
  assert (aSubjectName b <ₛ aSubjectName x = false) as Hxb by (rewrite <-Eb; by apply sorted_last).
  apply (str_le_lt_trans _ (aSubjectName b)); [done|]. apply (str_lt_le_trans _ (aSubjectName a)).
  - destruct (str_ltb_total (aSubjectName b) (aSubjectName a)) as [H|[H|H]]; [done|congruence|].
    assert (name_le b a) as Hba by (apply Hle; [done|by left]). unfold name_le in Hba. congruence.
  - apply elem_of_cons in Hy as [->|Hy]; [apply str_ltb_irrefl|]. rewrite Forall_forall in Ha. by apply Ha.
Qed.

(** The range of the group [g] between [l] and [k]. *)
Lemma group_between l g k lo hi :
  below l (g ++ k) → below g k → Forall (λ a, aSubjectName a ≠ "") (l ++ g ++ k) →
  (lo = "" ∧ l = [] ∨ l ≠ [] ∧ lo = last_name l ∧ ∀ b, b ∈ l → lo <ₛ aSubjectName b = false) →
  (hi = "" ∧ k = [] ∨ ∃ b k', k = b :: k' ∧ hi = aSubjectName b ∧ ∀ x, x ∈ k → aSubjectName x <ₛ hi = false) →
  (∀ a, a ∈ g → between lo hi (aSubjectName a)) ∧ (∀ a, a ∈ (l ++ g ++ k)%list → between lo hi (aSubjectName a) → a ∈ g).
Proof.
  intros Hl Hg Hn Hlo Hhi. rewrite Forall_forall in Hn. split.
  - intros a Ha. split.
    + destruct Hlo as [[-> _]|(Hne & -> & _)]; [by left|right]. destruct (last_name_elem l Hne) as (b & Hb & ->). apply Hl; [done|].
      apply elem_of_app. by left.
    + destruct Hhi as [[-> _]|(b & k' & -> & -> & _)]; [by left|right]. apply Hg; [done|by left].
  - intros a [Ha|[Ha|Ha]%elem_of_app]%elem_of_app [H1 H2]; [|done|]; exfalso.
    + destruct Hlo as [[_ ->]|(Hne & -> & Hle)]; [by apply elem_of_nil in Ha|]. rewrite (Hle a Ha) in H1. destruct H1 as [H1|H1]; [|done].
      destruct (last_name_elem l Hne) as (b & Hb & Eb). apply (Hn b); [apply elem_of_app; by left|congruence].
    + destruct Hhi as [[_ ->]|(b & k' & -> & -> & Hge)]; [by apply elem_of_nil in Ha|]. rewrite (Hge a Ha) in H2. destruct H2 as [H2|H2]; [|done].
      apply (Hn b); [|done]. apply elem_of_app. right. apply elem_of_app. right. by left.
Qed.
(** The beginning of a range, in front of [rest]. *)
Definition starts (before : list Assertion) (from : string) (rest : list Assertion) : Prop :=
  from = "" ∧ before = [] ∨ before ≠ [] ∧ from = last_name before ∧ below before rest.
Lemma starts_below before from rest : starts before from rest → below before rest.
Proof. intros [[_ ->]|(_ & _ & H)]; [by intros ? ? ?%elem_of_nil|done]. Qed.
Lemma starts_known before from rest l : starts before from rest → from = "" ∨ ∃ a, a ∈ (before ++ l)%list ∧ from = aSubjectName a.
Proof.
  intros [[-> _]|(Hne & -> & _)]; [by left|]. destruct (last_name_elem before Hne) as (a & Ha & E). right. exists a.
  split; [|done]. apply elem_of_app. by left.
Qed.
Lemma starts_last before from rest : StronglySorted name_le before → starts before from rest →
  from = "" ∧ before = [] ∨ before ≠ [] ∧ from = last_name before ∧ ∀ b, b ∈ before → from <ₛ aSubjectName b = false.
Proof. intros Hs [H|(Hne & -> & _)]; [by left|right]. split_and!; [done..|]. intros b. by apply sorted_last. Qed.

Section Cutting.
Context {C : Type} (c0 : C) (close : C → string → string → C) (add : C → Assertion → outcome C).

Fixpoint add_all (c : C) (l : list Assertion) : outcome C :=
  match l with [] => Ok c | a :: l' => c ← add c a; add_all c l' end.
Lemma add_all_snoc c l a c' : add_all c l = Ok c' → add_all c (l ++ [a]) = add c' a.
Proof.
  revert c. induction l as [|b l IH]; intros c; cbn; [intros [= ->]; by destruct (add c' a)|].
  destruct (add c b); [|done..]. cbn. apply IH.
Qed.

(** The assertions cut into groups at changes of the name, and the sections made of them: each
    has the range from the last name of the group before to the first of the next. *)
Inductive cutting : string → list (list Assertion) → list C → Prop :=
| cut_last from g c : add_all c0 g = Ok c → cutting from [g] [close c from ""]
| cut_more from g a h gs c cs :
    add_all c0 g = Ok c → g ≠ [] → last_name g ≠ aSubjectName a →
    cutting (last_name g) ((a :: h) :: gs) cs → cutting from (g :: (a :: h) :: gs) (close c from (aSubjectName a) :: cs).

(** The section [c] represents the group [g] of the assertions [all]. *)
Definition represents (all g : list Assertion) (c : C) : Prop :=
  ∃ lo hi filled, c = close filled lo hi ∧ add_all c0 g = Ok filled ∧
    (lo = "" ∨ ∃ a, a ∈ all ∧ lo = aSubjectName a) ∧ (hi = "" ∨ ∃ a, a ∈ all ∧ hi = aSubjectName a) ∧
    (∀ a, a ∈ g → between lo hi (aSubjectName a)) ∧
    (∀ a, a ∈ all → between lo hi (aSubjectName a) → a ∈ g).


Lemma cutting_represents before from gs cs :
  cutting from gs cs → StronglySorted name_le (before ++ concat gs) → Forall (λ a, aSubjectName a ≠ "") (before ++ concat gs) →
  starts before from (concat gs) →
  Forall2 (represents (before ++ concat gs)) gs cs.
Proof.
  intros Hc. revert before. induction Hc as [from g c Hg|from g a h gs c cs Hg Hne Hla Hc IH]; intros before Hs Hn Hf.
  - constructor; [|constructor]. cbn [concat] in *. exists from, "", c.
    apply StronglySorted_app_1_l in Hs as Hs1.
    destruct (group_between before g [] from "") as [H1 H2]; try done.
    + by eapply starts_below.
    + by intros ? ? _ ?%elem_of_nil.
    + by eapply starts_last.
    + by left.
    + split_and!; try done; [by eapply starts_known|by left].
  - cbn [concat] in Hs, Hn, Hf. apply StronglySorted_app_1_l in Hs as Hs1. apply StronglySorted_app_1_r in Hs as Hs2.
    apply StronglySorted_app_1_r in Hs2. assert (StronglySorted name_le ((before ++ g) ++ (a :: h) ++ concat gs)) as Hs' by by rewrite <-app_assoc.
    apply sorted_boundary in Hs' as Hb; [|by rewrite last_name_app].
    constructor.
    + destruct (group_between before g ((a :: h) ++ concat gs) from (aSubjectName a)) as [H1 H2]; try done.
      * by eapply starts_below.
      * intros x y Hx. apply Hb, elem_of_app. by right.
      * by eapply starts_last.
      * right. exists a, (h ++ concat gs)%list. split_and!; [done..|]. intros x Hx.
        apply StronglySorted_inv in Hs2 as [_ Ha]. cbn in Hx. apply elem_of_cons in Hx as [->|Hx]; [apply str_ltb_irrefl|].
        rewrite Forall_forall in Ha. by apply Ha.
      * exists from, (aSubjectName a), c. split_and!; try done; [by eapply starts_known|]. right. exists a. split; [|done].
        cbn [concat]. rewrite !elem_of_app. right. right. left. by left.
    + cbn [concat]. rewrite app_assoc. apply (IH (before ++ g)%list); [done|by rewrite <-app_assoc|]. right.
      split_and!; [by destruct before|by rewrite last_name_app|done].
Qed.

(** Every name is in some range. *)
Lemma cutting_covers from gs cs n :
  cutting from gs cs → StronglySorted name_le (concat gs) → from = "" ∨ from <ₛ n = true →
  ∃ c filled lo hi, c ∈ cs ∧ c = close filled lo hi ∧ between lo hi n.
Proof.
  induction 1 as [from g c Hg|from g a h gs c cs Hg Hne Hla Hc IH]; intros Hs Hn.
  - exists (close c from ""), c, from, "". split_and!; [by left|done|]. split; [done|by left].
  - cbn [concat] in Hs. destruct (n <ₛ aSubjectName a) eqn:E.
    + exists (close c from (aSubjectName a)), c, from, (aSubjectName a). split_and!; [by left|done|]. split; [done|by right].
    + destruct IH as (c' & filled & lo & hi & Hc' & -> & Hb).
      * by apply StronglySorted_app_1_r in Hs.
      * right. destruct (last_name_elem g Hne) as (l & Hl & ->). apply (str_lt_le_trans _ (aSubjectName a)); [|done].
        apply (sorted_boundary g a (h ++ concat gs) Hs Hla); [done|by left].
      * exists (close filled lo hi), filled, lo, hi. split_and!; [by right|done..].
Qed.
End Cutting.

(** ** Grouping by number *)

(** The number of names in a list, counted at changes; [prev] comes in front. *)
Fixpoint runs (prev : string) (l : list Assertion) : Z :=
  match l with
  | [] => 0
  | a :: l' => (if prev =ₛ aSubjectName a then 0 else 1) + runs (aSubjectName a) l'
  end.
Lemma runs_snoc prev l a :
  runs prev (l ++ [a]) = runs prev l + (if (if decide (l = []) then prev else last_name l) =ₛ aSubjectName a then 0 else 1).
Proof.
  revert prev. induction l as [|b l IH]; intros prev; cbn [runs app].
  - rewrite decide_True by done. lia.
  - rewrite IH, (decide_False (P:=b :: l = [])) by done.
    assert ((if decide (l = []) then aSubjectName b else last_name l) = last_name (b :: l)) as ->; [|lia].
    case_decide as Hl; [by subst|]. symmetry. exact (last_name_app [b] l Hl).
Qed.
Lemma runs_nonneg prev l : 0 ≤ runs prev l.
Proof. revert prev. induction l as [|a l IH]; intros prev; cbn; [done|]. specialize (IH (aSubjectName a)). destruct (_ =ₛ _); lia. Qed.

Lemma runs_single a : aSubjectName a ≠ "" → runs "" [a] = 1.
Proof. intros H. cbn [runs]. by rewrite str_eqb_neq. Qed.

Lemma last_before (pre cur rest : list Assertion) : cur ≠ [] →
  ∃ b, at_index (pre ++ cur ++ rest)%list (Z.of_nat (length (pre ++ cur)) - 1) = Ok b ∧ last_name cur = aSubjectName b.
Proof.
  intros Hcur. destruct (exists_last Hcur) as (k & b & Ek). exists b. split; [|by rewrite Ek, last_name_snoc].
  unfold at_index. rewrite decide_True by (rewrite Ek, !length_app; cbn; lia).
  replace (Z.to_nat (Z.of_nat (length (pre ++ cur)) - 1)) with (length (pre ++ k)) by (rewrite Ek, !length_app; cbn; lia).
  assert ((pre ++ cur ++ rest) = ((pre ++ k) ++ b :: rest))%list as -> by (rewrite Ek, <-!app_assoc; done). by rewrite list_lookup_middle.
Qed.

Section Number.
Context {C : Type} (c0 : C) (close : C → string → string → C) (add : C → Assertion → outcome C) (limit : Z).
Context (P : C → Prop) (P0 : P c0) (Padd : ∀ c a, P c → ∃ c', add c a = Ok c' ∧ P c').
Context (Hlimit : 1 ≤ limit).

Lemma number_loop_cuts all rest : ∀ pre cur from c finished,
  all = (pre ++ cur ++ rest)%list → (cur = [] → pre = []) → add_all add c0 cur = Ok c → P c → runs "" cur ≤ limit →
  Forall (λ a, aSubjectName a ≠ "") (cur ++ rest)%list →
  ∃ g gs cs, number_loop (Ok c0) close add limit all (Z.of_nat (length (pre ++ cur))) rest finished (runs "" cur) (last_name cur) from c =
      Ok (finished ++ cs)%list ∧
    cutting c0 close add from ((cur ++ g)%list :: gs) cs ∧ concat ((cur ++ g)%list :: gs) = (cur ++ rest)%list ∧
    Forall (λ g, runs "" g ≤ limit) ((cur ++ g)%list :: gs).
Proof.
  induction rest as [|a rest IH]; intros pre cur from c finished Ha Hpre Hc HP Hr Hn.
  { exists [], [], [close c from ""]. cbn. rewrite !app_nil_r in *. split_and!; [done|by constructor|done|by repeat constructor]. }
  cbn [number_loop]. set (new := negb (last_name cur =ₛ aSubjectName a)).
  assert (aSubjectName a ≠ "") as Hna by (rewrite Forall_forall in Hn; apply Hn, elem_of_app; right; by left).
  assert ((if new then runs "" cur + 1 else runs "" cur) = runs "" (cur ++ [a])) as Ec.
  { rewrite runs_snoc. unfold new. case_decide as Hcur; [subst; change (last_name []) with ""|].
    { by destruct (_ =ₛ _). }
    destruct (_ =ₛ _); cbn; lia. }
  assert ((if new then aSubjectName a else last_name cur) = aSubjectName a) as En.
  { unfold new. destruct (String.eqb_spec (last_name cur) (aSubjectName a)) as [E|]; done. }
  rewrite Ec, En. destruct (Z.ltb_spec limit (runs "" (cur ++ [a]))) as [Hgt|Hle].
  - assert (cur ≠ []) as Hcur by (intros ->; cbn [app] in Hgt; rewrite runs_single in Hgt by done; lia).
    assert (last_name cur ≠ aSubjectName a) as Hla.
    { intros E. rewrite runs_snoc, decide_False in Hgt by done. rewrite E, str_eqb_refl in Hgt. lia. }
    destruct (last_before pre cur (a :: rest) Hcur) as (b & Ei & Eb). rewrite <-Ha in Ei.
    cbn [mbind outcome_bind]. rewrite Ei. cbn [mbind outcome_bind].
    destruct (Padd c0 a P0) as (c1 & E1 & HP1). rewrite E1. cbn [mbind outcome_bind].
    destruct (IH (pre ++ cur)%list [a] (aSubjectName b) c1 (finished ++ [close c from (aSubjectName a)])%list) as (g & gs & cs & E & Hcut & Hcc & Hall).
    + rewrite Ha. cbn. by rewrite <-app_assoc.
    + done.
    + cbn. by rewrite E1.
    + done.
    + by rewrite runs_single.
    + rewrite Forall_app in Hn |- *. destruct Hn as [_ Hn]. apply Forall_cons in Hn as [Hn1 Hn2]. by repeat constructor.
    + exists [], (([a] ++ g)%list :: gs), (close c from (aSubjectName a) :: cs). rewrite app_nil_r. split_and!.
      * replace (Z.of_nat (length (pre ++ cur)) + 1) with (Z.of_nat (length ((pre ++ cur) ++ [a]))) by (rewrite length_app; cbn; lia).
        rewrite <-(runs_single a Hna).
        change (aSubjectName a) with (last_name [a]) at 2. cbn [last_name last default fmap option_fmap option_map from_option id] in *.
        rewrite E. by rewrite <-app_assoc.
      * constructor; [done..|]. by rewrite Eb.
      * cbn [concat] in Hcc |- *. by rewrite Hcc.
      * by constructor.
  - cbn [mbind outcome_bind]. destruct (Padd c a HP) as (c1 & E1 & HP1). rewrite E1. cbn [mbind outcome_bind].
    destruct (IH pre (cur ++ [a])%list from c1 finished) as (g & gs & cs & E & Hcut & Hcc & Hall).
    + rewrite Ha. by rewrite <-app_assoc.
    + by destruct cur.
    + by rewrite (add_all_snoc _ _ _ _ _ Hc).
    + done.
    + done.
    + by rewrite <-app_assoc.
    + exists (a :: g), gs, cs. rewrite <-!app_assoc in Hcut, Hcc, Hall. rewrite <-app_assoc in Hcc. split_and!; [|done..].
      rewrite last_name_snoc in E. rewrite <-E. f_equal. rewrite !length_app. cbn. lia.
Qed.

Lemma group_by_number_cuts all : Forall (λ a, aSubjectName a ≠ "") all →
  ∃ gs cs, group_by_number (Ok c0) close add limit all = Ok cs ∧ cutting c0 close add "" gs cs ∧ concat gs = all ∧
    Forall (λ g, runs "" g ≤ limit) gs.
Proof.
  intros Hn. destruct (number_loop_cuts all all [] [] "" c0 []) as (g & gs & cs & E & Hc & Hcc & Hall); try done; [cbn; lia|].
  exists (g :: gs), cs. split_and!; [exact E|done..].
Qed.
End Number.

(** ** Grouping by size *)

Notation copy := (λ a, Assertion_Copy a "" "") (only parsing).
Definition fill (zone ctx : string) (l : list Assertion) : Shard := Shard_append (new_shard zone ctx) (copy <$> l).
Definition add_copy (s : Shard) (a : Assertion) : outcome Shard := Ok (Shard_append s [copy a]).

Lemma Shard_append_app s l k : Shard_append (Shard_append s l) k = Shard_append s (l ++ k).
Proof. unfold Shard_append, Shard_set_content. cbn. by rewrite app_assoc. Qed.
Lemma Shard_append_nil s : Shard_append s [] = s.
Proof. unfold Shard_append, Shard_set_content. rewrite app_nil_r. by destruct s. Qed.
Lemma add_all_copy zone ctx l : add_all add_copy (new_shard zone ctx) l = Ok (fill zone ctx l).
Proof.
  unfold fill. generalize (new_shard zone ctx) as s. induction l as [|a l IH]; intros s; cbn; [by rewrite Shard_append_nil|].
  by rewrite IH, Shard_append_app.
Qed.

(** The runs of equal names. *)
Fixpoint name_runs (l : list Assertion) : list (list Assertion) :=
  match l with
  | [] => []
  | a :: l' =>
      match name_runs l' with
      | (b :: g) :: gs => if aSubjectName a =ₛ aSubjectName b then (a :: b :: g) :: gs else [a] :: (b :: g) :: gs
      | gs => [a] :: gs
      end
  end.
Lemma groupAssertionByName_runs l : groupAssertionByName l = (λ r : list Assertion, copy <$> r) <$> name_runs l.
Proof.
  induction l as [|a l IH]; [done|]. cbn. rewrite IH. destruct (name_runs l) as [|[|b g] gs]; [done..|]. cbn.
  by destruct (aSubjectName a =ₛ aSubjectName b).
Qed.
Lemma concat_runs l : concat (name_runs l) = l.
Proof.
  induction l as [|a l IH]; [done|]. cbn. rewrite <-IH at 2. destruct (name_runs l) as [|[|b g] gs]; [done..|].
  by destruct (aSubjectName a =ₛ aSubjectName b).
Qed.

(** Non-empty runs of one name each, with a change of the name between them. *)
Inductive runs_ok : list (list Assertion) → Prop :=
| runs_nil : runs_ok []
| runs_one a r : Forall (λ b, aSubjectName b = aSubjectName a) r → runs_ok [a :: r]
| runs_more a r b s rs :
    Forall (λ b, aSubjectName b = aSubjectName a) r → aSubjectName a ≠ aSubjectName b → runs_ok ((b :: s) :: rs) →
    runs_ok ((a :: r) :: (b :: s) :: rs).
Lemma name_runs_ok l : runs_ok (name_runs l).
Proof.
  induction l as [|a l IH]; [constructor|]. cbn. inversion IH as [E|b r Hr E|b r c s rs Hr Hbc Hrs E]; [by repeat constructor|..];
    (destruct (String.eqb_spec (aSubjectName a) (aSubjectName b)) as [Eab|Hab]; [|by constructor; [constructor|done|rewrite <-?E in IH]]).
  - constructor. constructor; [done|]. by rewrite Eab.
  - constructor; [|congruence|done]. constructor; [done|]. by rewrite Eab.
Qed.

Lemma runs_ok_app l k : runs_ok (l ++ k) → runs_ok k.
Proof. induction l as [|r l IH]; [done|]. intros H. apply IH. cbn in H. inversion H; subst; [constructor|done]. Qed.
Lemma runs_inv b s k : runs_ok ((b :: s) :: k) →
  Forall (λ x, aSubjectName x = aSubjectName b) s ∧ match k with [] => True | (a :: _) :: _ => aSubjectName b ≠ aSubjectName a | _ => False end.
Proof. intros H. by inversion H. Qed.
Lemma run_last_name b s : Forall (λ x, aSubjectName x = aSubjectName b) s → last_name (b :: s) = aSubjectName b.
Proof.
  intros H. destruct (last_name_elem (b :: s)) as (x & Hx & ->); [done|]. apply elem_of_cons in Hx as [->|Hx]; [done|].
  rewrite Forall_forall in H. by apply H.
Qed.
Lemma runs_boundary l r k : runs_ok (l ++ r :: k) → ∃ b s, r = b :: s ∧ last_name (concat (l ++ [r])) = aSubjectName b.
Proof.
  intros H%runs_ok_app. destruct r as [|b s]; [by inversion H|]. exists b, s. split; [done|].
  rewrite concat_app. cbn. rewrite app_nil_r, last_name_app by done. by apply run_last_name, (runs_inv b s k).
Qed.

Notation copies := (fmap (M:=list) (λ r : list Assertion, copy <$> r)) (only parsing).
(** The run in front of the next one. *)
Lemma last_run pre cur a g rest : cur ≠ [] → runs_ok (pre ++ cur ++ (a :: g) :: rest) →
  ∃ b s, at_index (copies (pre ++ cur ++ (a :: g) :: rest)%list) (Z.of_nat (length (pre ++ cur)) - 1) = Ok (copy <$> b :: s) ∧
    last_name (concat cur) = aSubjectName b ∧ aSubjectName b ≠ aSubjectName a.
Proof.
  intros Hne Hok. destruct (exists_last Hne) as (k & r0 & Ek).
  destruct (runs_boundary (pre ++ k) r0 ((a :: g) :: rest)) as (b & s & Er0 & Elast).
  { rewrite <-!app_assoc. by rewrite Ek, <-!app_assoc in Hok. }
  exists b, s. split_and!.
  - unfold at_index. rewrite decide_True by (rewrite Ek, !length_app; cbn; lia).
    replace (Z.to_nat (Z.of_nat (length (pre ++ cur)) - 1)) with (length (pre ++ k)) by (rewrite Ek, !length_app; cbn; lia).
    assert ((pre ++ cur ++ (a :: g) :: rest) = ((pre ++ k) ++ (b :: s) :: (a :: g) :: rest))%list as -> by (rewrite Ek, Er0, <-!app_assoc; done).
    rewrite list_lookup_fmap, list_lookup_middle by done. done.
  - rewrite concat_app, concat_app, <-app_assoc in Elast. rewrite Ek, concat_app. rewrite last_name_app in Elast; [done|].
    cbn. rewrite Er0. by destruct (concat k).
  - rewrite Ek, <-!app_assoc in Hok. apply runs_ok_app, runs_ok_app in Hok. rewrite Er0 in Hok. by destruct (runs_inv _ _ _ Hok).
Qed.

Section Size.
Context {AL : AddrLib} {ZL : ZoneLib} (zone ctx : string) (max : Z).

Definition fits (l : list Assertion) : Prop := too_large max (fill zone ctx l) = Ok false.
Definition overflows (l : list Assertion) : Prop := too_large max (fill zone ctx l) = Ok true.
Context (G : Assertion → Prop) (total : ∀ l, Forall G l → fits l ∨ overflows l).

Lemma fill_app l k : Shard_append (fill zone ctx l) (copy <$> k) = fill zone ctx (l ++ k).
Proof. unfold fill. by rewrite Shard_append_app, fmap_app. Qed.

Lemma size_loop_cuts rest : ∀ pre cur from finished,
  runs_ok (pre ++ cur ++ rest) → (cur = [] → pre = []) → (cur = [] ∨ fits (concat cur)) → Forall G (concat cur ++ concat rest)%list →
  let r := size_loop zone ctx max ((λ r : list Assertion, copy <$> r) <$> (pre ++ cur ++ rest)%list) (Z.of_nat (length (pre ++ cur)))
             ((λ r : list Assertion, copy <$> r) <$> rest) finished from (fill zone ctx (concat cur)) in
  (∃ g gs cs, r = Ok (finished ++ cs)%list ∧ cutting (new_shard zone ctx) Shard_set_range add_copy from ((concat cur ++ g)%list :: gs) cs ∧
     concat ((concat cur ++ g)%list :: gs) = (concat cur ++ concat rest)%list ∧ Forall (λ g, g = [] ∨ fits g) ((concat cur ++ g)%list :: gs)) ∨
  (∃ g, g ∈ rest ∧ overflows g ∧ r = Err "Assertions with the same name are too long").
Proof.
  induction rest as [|g rest IH]; intros pre cur from finished Hok Hpre Hfit HG; cbn zeta.
  { left. exists [], [], [Shard_set_range (fill zone ctx (concat cur)) from ""]. rewrite !app_nil_r. split_and!; [done|..].
    - constructor. apply add_all_copy.
    - cbn. by rewrite ?app_nil_r.
    - constructor; [|constructor]. destruct Hfit as [->|]; [by left|by right]. }
  assert (runs_ok ((pre ++ cur) ++ g :: rest)) as Hok' by by rewrite <-app_assoc.
  assert (g ≠ []) as Hg by (apply runs_ok_app in Hok'; destruct g; [by inversion Hok'|done]).
  change ((λ r : list Assertion, copy <$> r) <$> g :: rest) with ((copy <$> g) :: ((λ r : list Assertion, copy <$> r) <$> rest)).
  cbn [size_loop]. rewrite fill_app.
  assert (concat (cur ++ [g]) = (concat cur ++ g)%list) as Ecat by (rewrite concat_app; cbn; by rewrite app_nil_r).
  cbn [concat] in HG. assert (Forall G g ∧ Forall G (concat cur ++ g)%list ∧ Forall G (concat rest)) as (HG1 & HG2 & HG3) by (rewrite !Forall_app in *; tauto).
  destruct (total (concat cur ++ g)%list HG2) as [Hf|Ho].
  - unfold fits in Hf. rewrite Hf. cbn [mbind outcome_bind]. rewrite <-Ecat.
    destruct (IH pre (cur ++ [g])%list from finished) as [(h & gs & cs & E & Hc & Hcc & Hall)|(h & Hh & Hbig & E)].
    + by rewrite <-app_assoc.
    + by destruct cur.
    + right. unfold fits. by rewrite Ecat.
    + rewrite Ecat. by rewrite Forall_app.
    + left. exists (g ++ h)%list, gs, cs. rewrite <-app_assoc in E. rewrite Ecat in Hc, Hcc, Hall. rewrite <-app_assoc in Hc, Hcc, Hall.
      split_and!; [|done| |done].
      * rewrite <-E. f_equal. rewrite !length_app. cbn. lia.
      * rewrite Hcc. cbn. by rewrite <-app_assoc.
    + right. exists h. rewrite <-app_assoc in E. split_and!; [by right|done|]. rewrite <-E. f_equal. rewrite !length_app. cbn. lia.
  - pose proof Ho as Hbig. unfold overflows in Hbig. rewrite Hbig. cbn [mbind outcome_bind].
    destruct (decide (concat cur = [])) as [Hcur|Hcur].
    { right. exists g. rewrite Hcur in Ho. split_and!; [by left|done|]. rewrite bool_decide_eq_true_2; [done|]. by rewrite Hcur. }
    rewrite bool_decide_eq_false_2 by (by destruct (concat cur)).
    destruct g as [|a g]; [done|]. destruct (last_run pre cur a g rest) as (b & s & Ei & Elb & Hba); [by intros ->|done|].
    change (at_index (copy <$> a :: g) 0) with (Ok (copy a)). cbn [mbind outcome_bind]. rewrite Ei. cbn [mbind outcome_bind].
    change (at_index (copy <$> b :: s) 0) with (Ok (copy b)). cbn [mbind outcome_bind].
    change (Shard_append (new_shard zone ctx) (copy <$> a :: g)) with (fill zone ctx (a :: g)).
    destruct (total (a :: g) HG1) as [Hf|Hbig']; [|right; exists (a :: g); unfold overflows in *; rewrite Hbig'; split_and!; [by left|done..]].
    unfold fits in Hf. rewrite Hf. cbn [mbind outcome_bind].
    replace (fill zone ctx (a :: g)) with (fill zone ctx (concat [a :: g])) by (cbn; by rewrite app_nil_r).
    destruct (IH (pre ++ cur)%list [a :: g] (aSubjectName b) (finished ++ [Shard_set_range (fill zone ctx (concat cur)) from (aSubjectName a)])%list)
      as [(h & gs & cs & E & Hc & Hcc & Hall)|(h & Hh & Hb & E)].
    + by rewrite <-app_assoc.
    + done.
    + right. unfold fits. cbn. by rewrite app_nil_r.
    + cbn [concat]. rewrite app_nil_r. by rewrite Forall_app.
    + left. exists [], ((concat [a :: g] ++ h)%list :: gs), (Shard_set_range (fill zone ctx (concat cur)) from (aSubjectName a) :: cs).
      rewrite app_nil_r. cbn [concat app] in Hc, Hcc, Hall |- *. rewrite !app_nil_r in *. split_and!.
      * rewrite <-!app_assoc in E. etransitivity; [|exact E]. f_equal; try done; [rewrite !length_app; cbn; lia|cbn; by rewrite app_nil_r].
      * constructor; [apply add_all_copy|done|by rewrite Elb|]. by rewrite Elb.
      * by rewrite Hcc.
      * constructor; [|done]. destruct Hfit as [->|]; [by left|by right].
    + right. exists h. split_and!; [by right|done|]. rewrite <-!app_assoc in E. etransitivity; [|exact E]. f_equal; try done; rewrite !length_app; cbn; lia.
Qed.
End Size.

(** ** The shards of a zone *)

Definition good_name (n : string) : Prop := n ≠ "" ∧ n ≠ "<" ∧ n ≠ ">".
Definition good_sigs (a : Assertion) : Prop := Forall (λ sig, match sigData sig with DataOther _ => False | _ => True end) (aSignatures a).

(** The shards contain the assertions once and in order; each is consistent and contains every
    assertion in its range; every name is in the range of one. *)
Definition complete_shards (zone ctx : string) (assertions : list Assertion) (shards : list Shard) : Prop :=
  concat (sContent <$> shards) = copy <$> assertions ∧
  Forall (λ s, sSubjectZone s = zone ∧ sContext s = ctx ∧ Shard_IsConsistent s = true ∧
    ∀ a, a ∈ assertions → Shard_InRange s (aSubjectName a) = true → copy a ∈ sContent s) shards ∧
  ∀ n, ∃ s, s ∈ shards ∧ Shard_InRange s n = true.

Lemma Shard_InRange_between s n : sRangeFrom s ≠ "<" → sRangeTo s ≠ ">" →
  Shard_InRange s n = true ↔ between (sRangeFrom s) (sRangeTo s) n.
Proof.
  intros H1 H2. unfold Shard_InRange, between. rewrite (str_eqb_neq _ _ H1), (str_eqb_neq _ _ H2).
  destruct (String.eqb_spec (sRangeFrom s) ""), (String.eqb_spec (sRangeTo s) ""); cbn;
    repeat rewrite ?orb_true_iff, ?andb_true_iff, ?orb_false_r; naive_solver.
Qed.
Lemma consistent_in_range s l :
  Forall (λ a, Shard_InRange s (aSubjectName a) = true) l → shard_consistent_loop s (copy <$> l) = true.
Proof. induction 1 as [|a l Ha _ IH]; [done|]. cbn. by rewrite Ha. Qed.

Lemma contents_concat gs shards :
  Forall2 (λ g s, sContent s = copy <$> g) gs shards → concat (sContent <$> shards) = copy <$> concat gs.
Proof. induction 1 as [|g s gs shards E _ IH]; [done|]. cbn. by rewrite E, IH, fmap_app. Qed.

Lemma cutting_complete zone ctx gs shards :
  cutting (new_shard zone ctx) Shard_set_range add_copy "" gs shards → StronglySorted name_le (concat gs) →
  Forall (λ a, good_name (aSubjectName a)) (concat gs) → complete_shards zone ctx (concat gs) shards.
Proof.
  intros Hc Hs Hn. rewrite Forall_forall in Hn.
  assert (Forall2 (represents (new_shard zone ctx) Shard_set_range add_copy (concat gs)) gs shards) as Hr.
  { apply (cutting_represents _ _ _ [] "" gs shards Hc Hs); [|by left]. apply Forall_forall. intros a Ha. by apply Hn. }
  assert (∀ lo, lo = "" ∨ (∃ a, a ∈ concat gs ∧ lo = aSubjectName a) → lo ≠ "<" ∧ lo ≠ ">") as Hlo.
  { intros lo [->|(a & Ha & ->)]; [done|]. by destruct (Hn a Ha) as (_ & ? & ?). }
  assert (∀ g s, represents (new_shard zone ctx) Shard_set_range add_copy (concat gs) g s →
    sContent s = copy <$> g ∧ sSubjectZone s = zone ∧ sContext s = ctx ∧ (∀ n, Shard_InRange s n = true ↔ between (sRangeFrom s) (sRangeTo s) n) ∧
    (∀ a, a ∈ g → Shard_InRange s (aSubjectName a) = true) ∧
    (∀ a, a ∈ concat gs → Shard_InRange s (aSubjectName a) = true → a ∈ g)) as Hshard.
  { intros g s (lo & hi & filled & -> & Ef & Hl & Hh & H1 & H2). rewrite add_all_copy in Ef. injection Ef as <-.
    destruct (Hlo lo Hl) as [Hl1 _], (Hlo hi Hh) as [_ Hh1].
    assert (∀ n, Shard_InRange (Shard_set_range (fill zone ctx g) lo hi) n = true ↔ between lo hi n) as HR by (intros n; by apply Shard_InRange_between).
    split_and!; [done..|intros a Ha; by apply HR, H1|]. intros a Ha Hi. by apply H2, HR. }
  split_and!.
  - apply contents_concat. eapply Forall2_impl; [exact Hr|]. intros g s Hg. by apply Hshard.
  - apply Forall_forall. intros s Hsh. apply list_elem_of_lookup_1 in Hsh as [i Hi]. destruct (Forall2_lookup_r _ _ _ _ _ Hr Hi) as (g & _ & Hg).
    destruct (Hshard g s Hg) as (E & Ez & Ec & _ & H1 & H2). split_and!; [done..| |].
    + unfold Shard_IsConsistent. rewrite E. apply consistent_in_range. by apply Forall_forall.
    + intros a Ha Hi'. rewrite E. apply list_elem_of_fmap. exists a. auto.
  - intros n. destruct (cutting_covers _ _ _ "" gs shards n Hc Hs) as (s & filled & lo & hi & Hsh & -> & Hb); [by left|].
    eexists. split; [exact Hsh|]. apply list_elem_of_lookup_1 in Hsh as [i Hi]. destruct (Forall2_lookup_r _ _ _ _ _ Hr Hi) as (g & _ & Hg).
    destruct (Hshard g _ Hg) as (_ & _ & _ & HR & _). by apply HR.
Qed.

Lemma cutting_Forall zone ctx from gs shards (Q : list Assertion → Prop) :
  cutting (new_shard zone ctx) Shard_set_range add_copy from gs shards → Forall Q gs →
  Forall (λ s, ∃ g lo hi, Q g ∧ s = Shard_set_range (fill zone ctx g) lo hi) shards.
Proof.
  induction 1 as [from g c Hg|from g a h gs c cs Hg _ _ _ IH]; intros HQ; rewrite add_all_copy in Hg; injection Hg as <-;
    apply Forall_cons in HQ as [HQ HQ']; constructor; auto; by eexists g, _, _.
Qed.
Lemma runs_copy prev l : runs prev (copy <$> l) = runs prev l.
Proof. revert prev. induction l as [|a l IH]; intros prev; [done|]. cbn. by rewrite IH. Qed.

Section Sharding.
Context {AL : AddrLib} {ZL : ZoneLib} {OL : ObjLib} {OLL : ObjLibLaws}.

Lemma sorted_names l : StronglySorted (cmp_le Assertion_CompareTo) l → StronglySorted name_le l.
Proof.
  induction 1 as [|a l _ IH Ha]; constructor; [done|]. eapply Forall_impl; [exact Ha|]. intros b Hab. unfold cmp_le, Assertion_CompareTo in Hab.
  unfold name_le. destruct (aSubjectName b <ₛ aSubjectName a) eqn:E; [|done]. apply str_ltb_spec in E.
  pose proof (cmp_anti (cmp:=str_cmp) (aSubjectName b) (aSubjectName a) I I) as Ea. rewrite E in Ea. rewrite Ea in Hab. change (1 ≤ 0) in Hab. lia.
Qed.

Lemma sort_assertions_sorted sort assertions :
  sort = true ∧ Forall assertion_wf assertions ∨ StronglySorted name_le assertions ∧ sort = false →
  StronglySorted name_le (sort_assertions sort assertions) ∧ sort_assertions sort assertions ≡ₚ assertions.
Proof.
  intros [[-> Hw]|[Hs ->]]; [|done]. split; [|apply sort_slice_Permutation]. apply sorted_names.
  by apply (sort_slice_sorted assertion_wf Assertion_CompareTo).
Qed.

(** Printing cannot fail on signatures of the expected type. *)
Lemma encode_sigs_total sigs : Forall (λ sig, match sigData sig with DataOther _ => False | _ => True end) sigs → ∃ l, encode_sigs sigs = Ok l.
Proof.
  unfold encode_sigs. induction 1 as [|sig sigs Hs _ (l & E)]; [by exists []|].
  assert (∃ t, encodeEd25519Signature sig = Ok t) as (t & Et).
  { unfold encodeEd25519Signature. destruct (sigData sig) as [|[|]|]; [by eexists..|done]. }
  exists (t :: l). cbn. rewrite Et. cbn. by rewrite E.
Qed.
Lemma too_large_total max zone ctx l : Forall good_sigs l → fits zone ctx max l ∨ overflows zone ctx max l.
Proof.
  intros Hl. unfold fits, overflows, too_large. cbn [EncodeSection]. unfold encodeShard, encode_content. cbn [sContent fill Shard_append Shard_set_content new_shard app].
  assert (∃ k, traverse (λ a, encodeAssertion a ctx zone ("" +:+ indent4) false) (copy <$> l) = Ok k) as (k & Ek).
  { induction Hl as [|a l Ha _ (k & E)]; [by exists []|]. destruct (encode_sigs_total _ Ha) as (sigs & Es).
    assert (∃ t, encodeAssertion (copy a) ctx zone ("" +:+ indent4) false = Ok t) as (t & Et).
    { unfold encodeAssertion. change (aSignatures (Assertion_Copy a "" "")) with (aSignatures a). rewrite Es. cbn. destruct (_ <? _); by eexists. }
    exists (t :: k). cbn. cbn in Et. rewrite Et. cbn. cbn in E. by rewrite E. }
  cbn [sContext sSubjectZone fill]. change (sContext (fill zone ctx l)) with ctx. change (sSubjectZone (fill zone ctx l)) with zone. rewrite Ek. cbn. destruct (max <? _); auto.
Qed.

End Sharding.

(** ** The pshards of a zone *)

Section Psharding.
Context {BL : BloomLib} {CW : CborWriter} (zone ctx : string).

(** A pshard that is being filled. *)
Definition open_pshard (p : Pshard) : Prop :=
  pContext p = ctx ∧ pSubjectZone p = zone ∧ pRangeFrom p = "" ∧ pRangeTo p = "" ∧
  filter_ok (bfFilter (pBloomFilter p)) ∧ hash_supported (bfHash (pBloomFilter p)).
Definition add_assertion (p : Pshard) (a : Assertion) : outcome Pshard := Pshard_AddAssertion p (Assertion_Copy a ctx zone).
(** The filter contains everything of the assertion. *)
Definition covers (p : Pshard) (a : Assertion) : Prop :=
  ∀ o, o ∈ aContent a → BloomFilter_Contains (pBloomFilter p) (aSubjectName a) zone ctx (objType o) = Ok true.

Lemma add_assertion_ok p a : open_pshard p →
  ∃ p', add_assertion p a = Ok p' ∧ open_pshard p' ∧ covers p' a ∧ ∀ b, covers p b → covers p' b.
Proof.
  intros (H1 & H2 & H3 & H4 & H5 & H6). unfold add_assertion, Pshard_AddAssertion. cbn [aContext aSubjectZone aSubjectName aContent Assertion_Copy].
  rewrite H1, H2, !str_eqb_refl. cbn [negb]. unfold Pshard_InRange. rewrite H3, H4. cbn [String.eqb orb andb negb].
  destruct (add_types_ok (aContent a) (pBloomFilter p) (aSubjectName a) zone ctx H5 H6) as (bf & -> & F1 & F2 & F3 & F4).
  eexists. split; [reflexivity|]. split_and!; [|done|].
  - unfold open_pshard. cbn. by rewrite F2.
  - intros b Hb o Ho. by apply F4, Hb.
Qed.
Lemma add_all_covers g : ∀ p p', open_pshard p → add_all add_assertion p g = Ok p' →
  open_pshard p' ∧ (∀ a, a ∈ g → covers p' a) ∧ ∀ b, covers p b → covers p' b.
Proof.
  induction g as [|a g IH]; intros p p' Hp E.
  { cbn in E. injection E as <-. split_and!; [done| |done]. by intros ? ?%elem_of_nil. }
  cbn in E. destruct (add_assertion_ok p a Hp) as (p1 & E1 & Hp1 & Ha & Hm). rewrite E1 in E. cbn in E.
  destruct (IH p1 p' Hp1 E) as (Hp' & Hg & Hm'). split_and!; [done| |auto]. intros b [->|Hb]%elem_of_cons; auto.
Qed.

Lemma Pshard_InRange_between p n : Pshard_InRange p n = true ↔ between (pRangeFrom p) (pRangeTo p) n.
Proof.
  unfold Pshard_InRange, between. destruct (String.eqb_spec (pRangeFrom p) ""), (String.eqb_spec (pRangeTo p) ""); cbn;
    repeat rewrite ?orb_true_iff, ?andb_true_iff, ?orb_false_r; naive_solver.
Qed.

Lemma newPshard_open conf : 0 < BloomFilterSize conf < 2 ^ 59 → hash_supported (BFHash conf) →
  ∃ p, newPshard zone ctx conf = Ok p ∧ open_pshard p.
Proof.
  intros Hs Hh. unfold newPshard. set (size := if _ =? 0 then _ else _).
  assert (0 < size < 2 ^ 60) as Hsize.
  { unfold size. rewrite Z.rem_mod_nonneg, Z.quot_div_nonneg by lia. pose proof (Z.div_mod (BloomFilterSize conf) 8).
    pose proof (Z.mod_pos_bound (BloomFilterSize conf) 8). destruct (Z.eqb_spec (BloomFilterSize conf mod 8) 0); lia. }
  destruct (Z.ltb_spec size 0); [lia|]. eexists. split; [reflexivity|].
  unfold open_pshard, filter_ok. cbn [pContext pSubjectZone pRangeFrom pRangeTo pBloomFilter bfFilter bfHash].
  rewrite length_replicate. split_and!; [done..| |lia|done]. destruct (Z.to_nat size) eqn:E; [lia|done].
Qed.

(** C32: no pshard denies an assertion of the zone.  Over sorted assertions, every pshard
    whose range has the name of an assertion contains all its types in the filter, so that
    [IsNonexistent] never claims that it does not exist, and every name is in the range of
    some pshard.  The assertions of the zone are left without zone and context. *)
Theorem groupAssertionsToPshards_sound assertions config :
  StronglySorted name_le assertions → Forall (λ a, aSubjectName a ≠ "") assertions →
  0 < NofAssertionsPerPshard config → 0 < BloomFilterSize (BloomFilterConf config) < 2 ^ 59 →
  hash_supported (BFHash (BloomFilterConf config)) →
  ∃ pshards, groupAssertionsToPshards zone ctx assertions config = Ok (pshards, Assertion_RemoveContextAndSubjectZone <$> assertions) ∧
    (∀ p a, p ∈ pshards → a ∈ assertions → Pshard_InRange p (aSubjectName a) = true → covers p a) ∧
    (∀ p a q, p ∈ pshards → a ∈ assertions → TrimSuffix (qName q) zone = aSubjectName a →
       (∃ o, o ∈ aContent a ∧ objType o ∈ qTypes q) → Pshard_IsNonexistent p q ≠ Ok true) ∧
    (∀ n, ∃ p, p ∈ pshards ∧ Pshard_InRange p n = true).
Proof.
  intros Hs Hn Hnof Hsize Hh. destruct (newPshard_open (BloomFilterConf config) Hsize Hh) as (p0 & E0 & Hp0).
  destruct (group_by_number_cuts p0 Pshard_set_range add_assertion (NofAssertionsPerPshard config) open_pshard Hp0) with (all := assertions)
    as (gs & pshards & E & Hc & Hcc & _); [|lia|done|].
  { intros p a Hp. destruct (add_assertion_ok p a Hp) as (p' & ? & ? & _). by exists p'. }
  exists pshards. subst assertions.
  assert (Forall2 (represents p0 Pshard_set_range add_assertion (concat gs)) gs pshards) as Hr
    by (apply (cutting_represents _ _ _ [] "" gs pshards Hc Hs Hn); by left).
  assert (∀ p, p ∈ pshards → pContext p = ctx ∧ pSubjectZone p = zone ∧
    ∀ a, a ∈ concat gs → Pshard_InRange p (aSubjectName a) = true → covers p a) as Hcov.
  { intros p Hp. apply list_elem_of_lookup_1 in Hp as [i Hi]. destruct (Forall2_lookup_r _ _ _ _ _ Hr Hi) as (g & _ & lo & hi & filled & -> & Ef & _ & _ & _ & H2).
    destruct (add_all_covers g p0 filled Hp0 Ef) as ((Hctx & Hz & _) & Hg & _). split_and!; [done..|]. intros a Ha Hin.
    apply Hg, H2; [done|]. by apply (Pshard_InRange_between (Pshard_set_range filled lo hi)). }
  split_and!.
  - unfold groupAssertionsToPshards. rewrite E0. unfold add_assertion in E. by rewrite E.
  - intros p a Hp Ha. by apply Hcov.
  - intros p a q Hp Ha Hq (o & Ho & Ht). destruct (Hcov p Hp) as (Hctx & Hz & Hc'). unfold Pshard_IsNonexistent. rewrite Hz, Hq.
    repeat case_match; try done. eapply nonexistent_loop_false; [exact Ht|]. rewrite Hz, Hctx. apply Hc'; [done| |done].
    by destruct (Pshard_InRange p (aSubjectName a)).
  - intros n. destruct (cutting_covers _ _ _ "" gs pshards n Hc Hs) as (p & filled & lo & hi & Hp & -> & Hb); [by left|].
    eexists. split; [exact Hp|]. by apply Pshard_InRange_between.
Qed.
End Psharding.

(** ** A zone with three names *)

Section Example.
Local Existing Instance file_addresses.
Local Existing Instance file_lib.
Local Existing Instance be_objlib.
Local Existing Instance be_objlib_laws.
Local Existing Instance toy_bloom.
Local Existing Instance toy_cbor.

Definition p_assertion (name : string) : Assertion := mkAssertion [] name "" "" [mkObject OTIP4Addr (VIP [192; 0; 2; 1])] 0 0 false.
Definition p_zone : list Assertion := p_assertion <$> ["a"; "a"; "b"; "c"].

Lemma p_zone_sorted : StronglySorted name_le p_zone.
Proof. repeat constructor. Qed.
Lemma p_zone_names : Forall (λ a, good_name (aSubjectName a)) p_zone.
Proof. by repeat constructor. Qed.


Definition p_pconfig : PShardingConfig := mkPShardingConfig false true 2 (mkBloomFilterConfig BloomKM12 Fnv64 64).
Lemma groupAssertionsToPshards_sound_witness :
  ∃ pshards, groupAssertionsToPshards "ch." "." p_zone p_pconfig = Ok (pshards, p_zone) ∧
    ∀ p, p ∈ pshards → Pshard_IsNonexistent p (mkQueryName "." "b" [OTIP4Addr] 0 [] 0 0) ≠ Ok true.
Proof.
  destruct (groupAssertionsToPshards_sound "ch." "." p_zone p_pconfig) as (pshards & E & _ & Hn & _).
  - exact p_zone_sorted.
  - by repeat constructor.
  - reflexivity.
  - split; reflexivity.
  - by right; left.
  - exists pshards. split; [exact E|]. intros p Hp.
    apply (Hn p (p_assertion "b") _ Hp); [by right; right; left|reflexivity|].
    exists (mkObject OTIP4Addr (VIP [192; 0; 2; 1])). split; by left.
Defined.

(** The size is tested while the range of the shard is open: with it, the shard can be over
    the limit. *)
Lemma size_without_range :
  match DoSharding "ch." "." (p_assertion <$> ["ahost"; "averylongnameofahost"]) [] (mkShardingConfig false true 0 73) false with
  | Ok (s :: _, _) => too_large 73 s = Ok true
  | _ => False
  end.
Proof. vm_compute. reflexivity. Qed.
End Example.
