(* ===== verification/PublisherSigning.v ===== *)
(** * Signing and sending what is published

    Two theorems about the end of [Publish]: the sections that carry the meta data of
    [addSignatureMetaData] can be signed, and the servers accept the signatures; and no
    server is ever counted as reached, whatever it answers. *)

From S2P Require Import Prelude Cbor Keys Object Query BitArray BloomFilter Section SectionFacts Message Siglib SiglibFacts ConnectionCache Server EngineFacts Connection ZoneFile ZoneFileRoundtrip KeyManager Publisher.
Local Open Scope string_scope.
Local Open Scope Z_scope.

(** ** Signature meta data *)

Section Ready.
Context {S : Type} {WS : WithSig S} {WL : WithSigLaws S} {CW : CborWriter} {CE : CborEncoder} {ED : Ed25519Lib}.
Context (now : Z) (ks : gmap PublicKeyID PrivKeyVal) (pkeys : gmap PublicKeyID (list PublicKey)).

(** Whether a section can be signed depends on its body and its signatures. *)
Lemma ready_body (s t : S) :
  body t = body s → Forall (coverable now ks pkeys) (AllSigs t) → ready now ks pkeys s → ready now ks pkeys t.
Proof.
  intros Hb Hc (H1 & _ & H2 & H3).
  assert (signing t = true) as Ht by (by rewrite <-signing_body, Hb, signing_body).
  split_and!; [done|done| |].
  - by rewrite <-Check_body, Hb, Check_body.
  - unfold encode in *. by rewrite <-Marshal_body, Hb, Marshal_body.
Qed.
Lemma ready_AddSig (s : S) g : ready now ks pkeys s → coverable now ks pkeys g → ready now ks pkeys (AddSig s g).
Proof.
  intros Hr Hg. pose proof (frame_AddSig s g) as [= Hb _]. apply (ready_body s); [done| |done].
  rewrite AllSigs_AddSig. apply Forall_app. split; [apply Hr|by apply Forall_singleton].
Qed.
End Ready.

Lemma imap_Forall {W} (P : W → Prop) (f : nat → W → W) l :
  Forall P l → (∀ k w, (k < length l)%nat → P w → P (f k w)) → Forall P (imap f l).
Proof.
  intros Hl Hf. apply Forall_lookup. intros k w Hk. rewrite list_lookup_imap in Hk. apply fmap_Some in Hk as (x & Hx & ->).
  apply Hf; [by eapply lookup_lt_Some|]. by eapply Forall_lookup_1.
Qed.

Section Stamps.
Context {OL : ObjLib} {CW : CborWriter} {CE : CborEncoder} {ED : Ed25519Lib} {EDL : Ed25519Laws}.
Context (now : Z) (ks : gmap PublicKeyID PrivKeyVal) (pkeys : gmap PublicKeyID (list PublicKey)).

(** A new signature keeps every kind of section signable. *)
Lemma shard_AddSig s g :
  signable now ks pkeys (WShard s) → coverable now ks pkeys g → signable now ks pkeys (WShard (Shard_AddSig s g)).
Proof.
  intros [Hr Hc] Hg. split; [|exact Hc].
  change (DontAddSigInMarshaller (Shard_AddSig s g)) with (AddSig (DontAddSigInMarshaller s) g). by apply ready_AddSig.
Qed.
Lemma pshard_AddSig s g :
  signable now ks pkeys (WPshard s) → coverable now ks pkeys g → signable now ks pkeys (WPshard (Pshard_AddSig s g)).
Proof.
  intros Hr Hg. cbn [signable].
  change (DontAddSigInMarshaller (Pshard_AddSig s g)) with (AddSig (DontAddSigInMarshaller s) g). by apply ready_AddSig.
Qed.
Lemma zone_AddSig z g :
  signable now ks pkeys (WZone z) → coverable now ks pkeys g → signable now ks pkeys (WZone (Zone_AddSig z g)).
Proof.
  intros [Hr Hc] Hg. split; [|exact Hc].
  change (DontAddSigInMarshaller (Zone_AddSig z g)) with (AddSig (DontAddSigInMarshaller z) g). by apply ready_AddSig.
Qed.
(** So do new signatures on the content of a zone. *)
Lemma zone_content_AddSig z (sigs : nat → Sig) :
  signable now ks pkeys (WZone z) → (∀ k, (k < length (zContent z))%nat → coverable now ks pkeys (sigs k)) →
  signable now ks pkeys (WZone (Zone_set_content z (imap (λ k a, Assertion_AddSig a (sigs k)) (zContent z)))).
Proof.
  intros [Hr [Hi Hc]] Hg. split.
  - apply (ready_body now ks pkeys (DontAddSigInMarshaller z)); [|exact (proj1 (proj2 Hr))|exact Hr].
    change (zone_body (DontAddSigInMarshaller (Zone_set_content z (imap (λ k a, Assertion_AddSig a (sigs k)) (zContent z)))) =
            zone_body (DontAddSigInMarshaller z)).
    unfold zone_body. f_equal. cbn. clear. generalize (zContent z). intros l. revert sigs.
    induction l as [|a l IH]; intros sigs; [done|]. cbn. f_equal. apply (IH (λ k, sigs (Datatypes.S k))).
  - split; (apply imap_Forall; [done|]); intros k a Hk Ha; [exact Ha|].
    cbn [zContext zSubjectZone Zone_set_content] in *.
    change (Assertion_Copy (Assertion_SetSign true (Assertion_AddSig a (sigs k))) (zContext z) (zSubjectZone z))
      with (AddSig (Assertion_Copy (Assertion_SetSign true a) (zContext z) (zSubjectZone z)) (sigs k)).
    apply ready_AddSig; [done|by apply Hg].
Qed.

(** The signature [d] later. *)
Definition later (sig : Sig) (d : Z) : Sig :=
  mkSig (sigPublicKeyID sig) (sigValidSince sig + d) (sigValidUntil sig + d) DataNil false.
(** Without overflow up to the last one, the loop adds signatures that are a step apart. *)
Lemma stamp_all_spec {W} (add : W → Sig → W) step l : ∀ sig d, 0 ≤ step → 0 ≤ d →
  in_int64 (sigValidSince sig) → in_int64 (sigValidUntil sig) →
  in_int64 (sigValidSince sig + d + Z.of_nat (length l) * step) → in_int64 (sigValidUntil sig + d + Z.of_nat (length l) * step) →
  stamp_all add step (later sig d) l = imap (λ k w, add w (later sig (d + Z.of_nat k * step))) l.
Proof.
  induction l as [|w l IH]; intros sig d Hs Hd H1 H2 H3 H4; [done|]. cbn [stamp_all imap length] in *.
  f_equal; [by rewrite Z.add_0_r|]. cbn [later sigPublicKeyID sigValidSince sigValidUntil].
  rewrite !int64_wrap_id by (unfold in_int64 in *; nia).
  replace (mkSig _ _ _ _ _) with (later sig (d + step)) by (unfold later; f_equal; lia).
  rewrite IH by (try done; unfold in_int64 in *; nia). apply imap_ext. intros k x _. cbn. do 2 f_equal. lia.
Qed.

(** The sections with signatures that share the interval evenly. *)
Definition spaced {W} (add : W → Sig → W) (on : bool) (interval : Z) (sig : Sig) (l : list W) : list W :=
  if on then imap (λ k w, add w (later sig (Z.of_nat k * (interval / Z.of_nat (length l) / Second)))) l else l.
Lemma step_fits interval (n : nat) : 0 ≤ interval →
  0 ≤ interval / Z.of_nat n / Second ∧ Z.of_nat n * (interval / Z.of_nat n / Second) ≤ interval / Second.
Proof.
  intros Hi. destruct (decide (n = 0%nat)) as [->|Hn].
  { cbn. rewrite Zdiv_0_r. split; [done|]. by apply Z.div_pos. }
  split; [apply Z.div_pos; [apply Z.div_pos; lia|done]|].
  assert (interval / Z.of_nat n / Second = interval / Second / Z.of_nat n) as ->.
  { rewrite !Z.div_div by (done || lia). by rewrite Z.mul_comm. }
  apply Z.mul_div_le. lia.
Qed.
Lemma spaced_Forall {W} (add : W → Sig → W) (P : W → Prop) on interval sig l : 0 ≤ interval →
  Forall P l → (∀ d w, 0 ≤ d ≤ interval / Second → P w → P (add w (later sig d))) → Forall P (spaced add on interval sig l).
Proof.
  intros Hi Hl Hadd. unfold spaced. destruct on; [|done]. apply imap_Forall; [done|]. intros k w Hk Hw. apply Hadd; [|done].
  destruct (step_fits interval (length l) Hi). nia.
Qed.

Lemma spaced_zone z on interval sig : 0 ≤ interval → signable now ks pkeys (WZone z) →
  (∀ d, 0 ≤ d ≤ interval / Second → coverable now ks pkeys (later sig d)) → coverable now ks pkeys sig →
  signable now ks pkeys (WZone (Zone_set_content (Zone_AddSig z sig) (spaced Assertion_AddSig on interval sig (zContent z)))).
Proof.
  intros Hi Hz Hd Hs. pose proof (zone_AddSig z sig Hz Hs) as Hz'. unfold spaced. destruct on; [|exact Hz'].
  apply (zone_content_AddSig (Zone_AddSig z sig)); [done|]. intros k Hk. apply Hd.
  change (zContent (Zone_AddSig z sig)) with (zContent z) in Hk. destruct (step_fits interval (length (zContent z)) Hi). nia.
Qed.

Lemma stamp_spaced {W} (add : W → Sig → W) interval sig l : 0 ≤ interval → sigData sig = DataNil → sigSign sig = false →
  in_int64 (sigValidSince sig) → sigValidSince sig ≤ sigValidUntil sig → in_int64 (sigValidUntil sig + interval / Second) →
  stamp_all add (Z.quot (if (length l =? 0)%nat then interval else Z.quot interval (Z.of_nat (length l))) Second) sig l =
  spaced add true interval sig l.
Proof.
  intros Hi Hd Hg H1 H2 H3. destruct (decide (l = [])) as [->|Hl]; [done|].
  assert (length l ≠ 0%nat) as Hn by (by destruct l). rewrite (proj2 (Nat.eqb_neq _ _) Hn).
  rewrite (Z.quot_div_nonneg interval) by lia. rewrite Z.quot_div_nonneg by (done || apply Z.div_pos; lia). destruct (step_fits interval (length l) Hi).
  replace sig with (later sig 0) at 1 by (destruct sig; unfold later; cbn in *; subst; f_equal; lia).
  rewrite stamp_all_spec by (try done; unfold in_int64 in *; lia). apply imap_ext. done.
Qed.
End Stamps.

(** ** What is published is accepted *)

Section Accepted.
Context {OL : ObjLib} {CW : CborWriter} {CE : CborEncoder} {ED : Ed25519Lib} {EDL : Ed25519Laws} {KL : KeyLib}.
Context (config : MetaDataConfig).

(** The signature meta data of the configuration, and what is asked of it: the first and the
    last signature can be represented, and the interval is shorter than the validity. *)
Definition config_id : PublicKeyID := mkPublicKeyID (SignatureAlgorithm config) RainsKeySpace (cfgKeyPhase config).
Definition config_sig : Sig := mkSig config_id (SigValidSince config) (SigValidUntil config) DataNil false.
Definition config_ok : Prop :=
  SignatureAlgorithm config = Ed25519 ∧ 0 ≤ SigSigningInterval config ∧ in_int64 (SigValidSince config) ∧
  in_int64 (SigValidUntil config + SigSigningInterval config / Second) ∧
  SigValidSince config + SigSigningInterval config / Second ≤ SigValidUntil config.

Lemma addSignatureMetaData_spec z shards pshards : config_ok →
  let i := SigSigningInterval config in
  addSignatureMetaData z shards pshards config =
    if (length (zContent z) =? 0)%nat then Panic "integer divide by zero"
    else Ok (Zone_set_content (Zone_AddSig z config_sig) (spaced Assertion_AddSig (AddSigMetaDataToAssertions config) i config_sig (zContent z)),
             spaced Shard_AddSig (AddSigMetaDataToShards config) i config_sig shards,
             spaced Pshard_AddSig (AddSigMetaDataToPshards config) i config_sig pshards).
Proof.
  intros (Ha & Hi & H1 & H2 & H3) i. unfold addSignatureMetaData. fold config_id. fold config_sig.
  change (zContent (Zone_AddSig z config_sig)) with (zContent z). fold i. cbn beta zeta.
  assert (0 ≤ i / Second) by (by apply Z.div_pos). rewrite !stamp_spaced by (try done; cbn; fold i in H3; lia).
  by destruct (length (zContent z) =? 0)%nat, (AddSigMetaDataToAssertions config), (AddSigMetaDataToShards config), (AddSigMetaDataToPshards config).
Qed.

Section Keys.
Context (now : Z) (ks : gmap PublicKeyID PrivKeyVal) (pkeys : gmap PublicKeyID (list PublicKey)) (maxVal : MaxCacheValidity).

Lemma config_coverable sk keys d : config_ok →
  ks !! config_id = Some (PrivEd25519 sk) →
  pkeys !! config_id = Some (mkPublicKey config_id (SigValidSince config) (SigValidUntil config) (KeyEd25519 (ed25519_Public sk)) :: keys) →
  unix now ≤ SigValidUntil config → 0 ≤ d ≤ SigSigningInterval config / Second →
  coverable now ks pkeys (later config_sig d).
Proof.
  intros (Ha & Hi & _ & _ & Hv) Hks Hpk Hnow Hd. split_and!; [done|exact Ha|done|done|cbn; lia|].
  eexists sk, _, (mkPublicKey config_id (SigValidSince config) (SigValidUntil config) (KeyEd25519 (ed25519_Public sk))).
  split_and!; [exact Hks|exact Hpk| |reflexivity]. cbn. by rewrite !(proj2 (Z.leb_le _ _)) by lia.
Qed.

(** Sections that can be signed are signed, and the signatures are accepted. *)
Lemma sign_loop_accepted l : Forall (signable now ks pkeys) l →
  ∃ signed, sign_loop ks l = Ok signed ∧ all_meta <$> signed = all_meta <$> l ∧
    Forall (λ s, ∃ s', CheckSectionSignatures now s (Some pkeys) maxVal = Ok (s', true) ∧ all_sigs s' = all_sigs s) signed.
Proof.
  induction 1 as [|s l Hs _ (signed & E & Em & Ha)]; [by exists []|].
  destruct (sign_check_section now ks pkeys maxVal s Hs) as (s' & s'' & E1 & E2 & E3 & E4).
  exists (s' :: signed). cbn. rewrite E1. cbn. rewrite E. split_and!; [done|by f_equal|]. constructor; [by exists s''|done].
Qed.

(** C33: the servers accept what is published.  For a configuration with an Ed25519 key, a
    private key for it in the directory and a zone that is not empty, [addSignatureMetaData]
    gives the sections signatures that divide the signing interval, [signZoneContent] makes
    them all, and [CheckSectionSignatures] accepts every section under the public key and
    keeps its signatures.  On an empty zone, [addSignatureMetaData] divides by zero. *)
Theorem signed_sections_are_accepted z shards pshards disk keyPath sk keys : config_ok →
  LoadPrivateKeys disk keyPath = Ok ks → ks !! config_id = Some (PrivEd25519 sk) →
  pkeys !! config_id = Some (mkPublicKey config_id (SigValidSince config) (SigValidUntil config) (KeyEd25519 (ed25519_Public sk)) :: keys) →
  unix now ≤ SigValidUntil config →
  Forall (signable now ks pkeys) (WZone z :: (WShard <$> shards) ++ (WPshard <$> pshards)) →
  if (length (zContent z) =? 0)%nat then is_panic (addSignatureMetaData z shards pshards config) = true
  else ∃ z' shards' pshards' signed,
    addSignatureMetaData z shards pshards config = Ok (z', shards', pshards') ∧
    shards' = spaced Shard_AddSig (AddSigMetaDataToShards config) (SigSigningInterval config) config_sig shards ∧
    pshards' = spaced Pshard_AddSig (AddSigMetaDataToPshards config) (SigSigningInterval config) config_sig pshards ∧
    zContent z' = spaced Assertion_AddSig (AddSigMetaDataToAssertions config) (SigSigningInterval config) config_sig (zContent z) ∧
    let sections := (WZone z' :: (WShard <$> shards') ++ (WPshard <$> pshards'))%list in
    signZoneContent disk sections keyPath = Ok signed ∧ all_meta <$> signed = all_meta <$> sections ∧
    Forall (λ s, ∃ s', CheckSectionSignatures now s (Some pkeys) maxVal = Ok (s', true) ∧ all_sigs s' = all_sigs s) signed.
Proof.
  intros Hok Hload Hks Hpk Hnow [Hz [Hs Hp]%Forall_app]%Forall_cons. rewrite addSignatureMetaData_spec by done.
  destruct (length (zContent z) =? 0)%nat; [done|].
  pose proof (λ d, config_coverable sk keys d Hok Hks Hpk Hnow) as Hcov.
  set (z' := Zone_set_content _ _). set (shards' := spaced Shard_AddSig _ _ _ _). set (pshards' := spaced Pshard_AddSig _ _ _ _).
  destruct (sign_loop_accepted (WZone z' :: (WShard <$> shards') ++ (WPshard <$> pshards'))) as (signed & E & Em & Ha).
  - destruct Hok as (_ & Hi & _). constructor; [|apply Forall_app; split].
    + apply spaced_zone; [done..|]. replace config_sig with (later config_sig 0) by (unfold later; cbn; by rewrite !Z.add_0_r).
      apply Hcov. split; [done|]. by apply Z.div_pos.
    + rewrite Forall_fmap in *. apply spaced_Forall; [done..|]. intros d w Hd Hw. apply shard_AddSig; auto.
    + rewrite Forall_fmap in *. apply spaced_Forall; [done..|]. intros d w Hd Hw. apply pshard_AddSig; auto.
  - exists z', shards', pshards', signed. split_and!; try done. unfold signZoneContent. by rewrite Hload.
Qed.
End Keys.
End Accepted.

(** ** What the publisher makes of the answers *)

Section Sending.
Context {AL : AddrLib} {ZL : ZoneLib} {OL : ObjLib} {BL : BloomLib} {CW : CborWriter} {CE : CborEncoder} {ED : Ed25519Lib}.
Context {KL : KeyLib} {CS : CborStream} {IN : Internet} {TG : TokenGen}.

Lemma await_response_fails rounds : ∀ conn msg deadline s s' e,
  await_response rounds conn msg deadline s = Some (Ok (s', e)) → e ≠ None.
Proof. induction rounds as [|rounds IH]; intros conn msg deadline s s' e; cbn; repeat case_match; naive_solver. Qed.
Lemma connectAndSendMsg_fails rounds msg server s s' e :
  connectAndSendMsg rounds msg server s = Some (Ok (s', e)) → e ≠ None.
Proof.
  unfold connectAndSendMsg. intros H. destruct (CreateConnection server s) as [[s1 [conn|]]| |]; [|naive_solver..].
  destruct (WriteMessage conn msg s1) as [[s2 [err|]]| |]; [| |done..].
  - destruct (wire _ s2) as [[??]| |]; naive_solver.
  - destruct (await_response rounds conn msg _ s2) as [[[s3 e3]| |]|] eqn:E; [|done..]. apply await_response_fails in E.
    destruct (wire _ s3) as [[??]| |]; naive_solver.
Qed.
Lemma publishSections_unreached rounds msg servers : ∀ s s' l,
  publishSections rounds msg servers s = Some (Ok (s', l)) → l = filter (λ a, a ≠ NilAddr) servers.
Proof.
  induction servers as [|server servers IH]; intros s s' l; cbn [publishSections]; [by intros [= _ <-]|].
  destruct (connectAndSendMsg rounds msg server s) as [[[s1 e]| |]|] eqn:E; [|done..]. apply connectAndSendMsg_fails in E.
  destruct (publishSections rounds msg servers s1) as [[[s2 l2]| |]|] eqn:E2; [|done..]. apply IH in E2 as ->.
  destruct e; [|done]. rewrite filter_cons. case_bool_decide; [rewrite decide_False by tauto|rewrite decide_True by done]; by intros [= _ <-].
Qed.

(** C34: no server is counted as reached.  Whatever the servers answer, when [Publish] returns
    without an error it reports every server of the configuration that has an address as not reached; and an
    answer that does refer to the message stops the program, because the type assertion is
    made on the message that was sent, which has no notification in front. *)
Theorem no_server_is_reached :
  (∀ rounds now config s s' l, Publish rounds now config s = Some (Ok (s', l, None)) → DoPublish config = true →
     l = filter (λ a, a ≠ NilAddr) (AuthServers config)) ∧
  (∀ rounds conn msg deadline s s' reply n rest, inet_now (netEvents s) < deadline →
     ReceiveMessage conn (Some (deadline - inet_now (netEvents s))) s = Ok (s', inr reply) →
     mContent reply = SecNotification n :: rest → nToken n = mToken msg →
     (∀ m rest', mContent msg ≠ SecNotification m :: rest') →
     ∃ why, await_response (Datatypes.S rounds) conn msg deadline s = Some (Panic why)).
Proof.
  split.
  - intros rounds now config s s' l. unfold Publish. destruct (LoadZonefile _ s) as [s1 loaded].
    destruct (zoneContent ← loaded; _) as [sections| |]; [|done..]. destruct (if _ =ₛ "" then _ else _) as [s2| |]; [|done..].
    unfold publishZone. intros H Hp. rewrite Hp in H. destruct (net_token _) as [[s3 tok]| |]; [|done..].
    destruct (publishSections _ _ _ s3) as [[[s4 l4]| |]|] eqn:E; [|done..]. injection H as _ <-. by apply publishSections_unreached in E.
  - intros rounds conn msg deadline s s' reply n rest Hd Hr Hc Ht Hm. cbn [await_response].
    rewrite (proj2 (Z.ltb_lt _ _) Hd), Hr, Hc.
    change (at_index (SecNotification n :: rest) 0) with (Ok (SecNotification n)). cbn iota. rewrite bool_decide_true by done.
    destruct (mContent msg) as [|[| | | | |m] rest'] eqn:E; cbn; try (by eexists). by destruct (Hm m rest').
Qed.
End Sending.

(** ** A zone that is published *)

Section Example.
Local Existing Instance file_addresses.
Local Existing Instance file_lib.
Local Existing Instance be_objlib.
Local Existing Instance toy_bloom.
Local Existing Instance toy_cbor.
Local Existing Instance toy_encoder.
Local Existing Instance toy_ed25519.
Local Existing Instance toy_ed25519_laws.
Local Existing Instance toy_keylib.
Local Existing Instance toy_stream.
Local Existing Instance toy_tokens.

(** Every server answers with a notification for [tok]; an event takes 400 milliseconds. *)
Definition answering (tok : Token) : Internet := {|
  inet_dial events a := Some (mkConn (length events) a);
  inet_write _ _ _ := true;
  inet_read _ _ _ :=
    match Message_MarshalCBOR (mkMessage [] tok [SecNotification (mkNotification tok NTHeartbeat "")] []) empty_stream with
    | Ok bytes => Some bytes
    | _ => None
    end;
  inet_now events := Z.of_nat (length events) * 400000000
|}.

Definition e_assertion (name : string) : Assertion := mkAssertion [] name "" "" [mkObject OTIP4Addr (VIP [192; 0; 2; 1])] 0 0 false.
Definition e_zone : Zone := mkZone [] "ch." "." (e_assertion <$> ["a"; "b"; "c"]) 0 0 false.
Definition e_metadata : MetaDataConfig := mkMetaDataConfig true true true true Ed25519 2 100 1000 (Minute).
Definition e_config : PubConfig := {|
  ZonefilePath := "zone.txt";
  AuthServers := [TCPAddr (mkAddr "tcp" "192.0.2.1:55553")];
  PrivateKeyPath := "keys";
  ShardingConf := mkShardingConfig false true 2 0;
  PShardingConf := mkPShardingConfig false true 2 (mkBloomFilterConfig BloomKM12 Fnv64 64);
  MetaDataConf := e_metadata;
  ConsistencyConf := mkConsistencyConfig true false false false false;
  DoSigning := true;
  MaxZoneSize := 60000;
  OutputPath := "out.txt";
  DoPublish := true
|}.
Definition e_disk : Disk := match GenerateKey key_disk 0 "keys" "zone" "my key" "ed25519" "" 2 with Ok (d, _) => d | _ => ∅ end.
Definition e_state : PubState :=
  mkPubState {[ "zone.txt" := match Encode [SecZone e_zone] with Ok text => text | _ => "" end ]} e_disk [] (mkNet [] 0).
Definition e_pkeys : gmap PublicKeyID (list PublicKey) :=
  {[ config_id e_metadata := [mkPublicKey (config_id e_metadata) 100 1000 (KeyEd25519 (ed25519_Public [3]))] ]}.
Definition e_ks : gmap PublicKeyID PrivKeyVal := {[ config_id e_metadata := PrivEd25519 [3] ]}.
Definition e_shard : Shard := mkShard [] "ch." "." "" "b" [e_assertion "a"] 0 0 false.
Definition e_pshard : Pshard := mkPshard [] "ch." "." "" "" (mkBloomFilter BloomKM12 Fnv64 [16]) 0 0 false.

(** The whole program: the file it writes contains the sections that were prepared, and all
    servers are reported. *)
Lemma Publish_writes_file :
  match Publish (IN:=answering (token_at 9)) 10 0 e_config e_state, prepare 0 e_config e_disk [WZone e_zone] with
  | Some (Ok (s, unreached, None)), Ok sections =>
      unreached = AuthServers e_config ∧ length sections = 5%nat ∧
      Encode (SigSection_section <$> sections) = Ok (default "" (psFiles s !! "out.txt"))
  | _, _ => False
  end.
Proof. vm_compute. split; [|split]; reflexivity. Qed.

(** Sections without signatures whose text is in order can be signed. *)
Lemma unsigned_ready {S} {WS : WithSig S} {WL : WithSigLaws S} (s : S) :
  signing s = true → AllSigs s = [] → CheckStringFields (toSection s) = Ok true → is_ok (encode s) = true → ready 0 e_ks e_pkeys s.
Proof. intros H1 H2 H3 H4. split_and!; [done| |done|done]. rewrite H2. constructor. Qed.
Lemma e_signable : Forall (signable 0 e_ks e_pkeys) [WZone e_zone; WShard e_shard; WPshard e_pshard].
Proof.
  repeat (apply Forall_cons_2); [..|apply Forall_nil_2].
  - split; [by apply unsigned_ready; vm_compute|]. split; repeat (apply Forall_cons_2); try apply Forall_nil_2; try done; by apply unsigned_ready; vm_compute.
  - split; [by apply unsigned_ready; vm_compute|]. split; repeat (apply Forall_cons_2); try apply Forall_nil_2; try done; by apply unsigned_ready; vm_compute.
  - by apply (unsigned_ready (S:=Pshard)); vm_compute.
Qed.

Lemma signed_sections_are_accepted_witness :
  ∃ z' shards' pshards' signed, addSignatureMetaData e_zone [e_shard] [e_pshard] e_metadata = Ok (z', shards', pshards') ∧
    signZoneContent e_disk (WZone z' :: (WShard <$> shards') ++ (WPshard <$> pshards')) "keys" = Ok signed ∧
    Forall (λ s, ∃ s', CheckSectionSignatures 0 s (Some e_pkeys) w_max = Ok (s', true) ∧ all_sigs s' = all_sigs s) signed.
Proof.
  destruct (signed_sections_are_accepted e_metadata 0 e_ks e_pkeys w_max e_zone [e_shard] [e_pshard] e_disk "keys" [3] [])
    as (z' & shards' & pshards' & signed & E1 & _ & _ & _ & E2 & _ & E3).
  - split_and!; vm_compute; try done; split; done.
  - vm_compute. reflexivity.
  - vm_compute. reflexivity.
  - vm_compute. reflexivity.
  - vm_compute. discriminate.
  - exact e_signable.
  - exists z', shards', pshards', signed. split; [exact E1|]. split; [exact E2|exact E3].
Defined.

(** A server that acknowledges the message. *)
Lemma no_server_is_reached_witness :
  ∃ why, await_response (IN:=answering (token_at 0)) 1 (mkConn 0 (mkAddr "tcp" "")) (mkMessage [] (token_at 0) [SecZone e_zone] []) Second (mkNet [] 0) =
    Some (Panic why).
Proof.
  destruct (no_server_is_reached (IN:=answering (token_at 0))) as [_ H].
  eapply (H 0%nat); [vm_compute; reflexivity|vm_compute; reflexivity|reflexivity|reflexivity|discriminate].
Defined.
End Example.
