(* ===== verification/Rhine.v ===== *)
(** * The data of a secure delegation

    Models rhineSig.go, dsp.go, nds.go, logWitness.go, aggLoggerConfirm.go, csr.go and psr.go
    of src/offlineauth/rhine and the functions of util.go they use: what a child zone, its
    parent, the authority, the logs and the aggregators sign, and how each of them checks it.

    Times are instants in nanoseconds.  Structures that are signed are hashed field after
    field, without separators. *)

From S2P Require Import Prelude Cbor Keys Merkle MerkleFacts RhineTree.
Local Open Scope string_scope.
Local Open Scope Z_scope.

(** ** Keys *)

(** A [crypto.PublicKey] by its dynamic type: nil, [ed25519.PublicKey], a pointer to one,
    [*rsa.PublicKey], or another type. *)
Inductive RPubKey := NoKey | EdKey (k : list Z) | EdKeyPtr (k : list Z) | RsaKey (k : list Z) | OtherKey.
Inductive RPrivKey := EdPriv (k : list Z) | RsaPriv (k : list Z) | OtherPriv.
#[export] Instance RPubKey_eq_dec : EqDecision RPubKey.
Proof. solve_decision. Defined.

(** crypto/rsa, the key formats of x509, and [time.Time.MarshalBinary]. *)
Class RhineCrypto := {
  rsa_SignPSS : list Z → list Z → outcome (list Z);           (* private key, hash *)
  rsa_VerifyPSS : list Z → list Z → list Z → bool;            (* public key, hash, signature *)
  MarshalPKCS1PublicKey : list Z → list Z;
  MarshalPKIXPublicKey : list Z → outcome (list Z);
  ParsePKCS1PublicKey : list Z → outcome (list Z);
  ParsePKIXPublicKey : list Z → outcome RPubKey;
  time_MarshalBinary : Z → outcome (list Z)
}.

(** [type ZoneOwner], [type Agg], [type Log] and [type Authority] *)
Record Named := mkNamed { nmName : string; nmPubkey : RPubKey }.
Abbreviation ZoneOwner := Named (only parsing).
Abbreviation Agg := Named (only parsing).
Abbreviation Log := Named (only parsing).
Abbreviation Authority := Named (only parsing).
(** [logMap[name].Pubkey]: nil for a name that is not in the map. *)
Definition key_of (m : gmap string Named) (name : string) : RPubKey :=
  match m !! name with Some l => nmPubkey l | None => NoKey end.

(** ** util.go *)

Section Util.
Context {RC : RhineCrypto}.

Definition EncodePublicKey (key : RPubKey) : outcome (list Z * string) :=
  match key with
  | RsaKey k => Ok (MarshalPKCS1PublicKey k, "RSA")
  | EdKeyPtr k | EdKey k => b ← MarshalPKIXPublicKey k; Ok (b, "Ed25519")
  | _ => Err "unsupported key"
  end.
Definition DecodePublicKey (key : list Z) (alg : string) : outcome RPubKey :=
  if alg =ₛ "RSA" then k ← ParsePKCS1PublicKey key; Ok (RsaKey k)
  else if alg =ₛ "Ed25519" then
    k ← ParsePKIXPublicKey key;
    match k with EdKey k => Ok (EdKey k) | _ => Err "public key type / alg type mismatch" end
  else Err "unsupported alg".

Definition EqualKeys (a b : RPubKey) : bool :=
  match a with
  | EdKey k => match b with EdKey k' => bool_decide (k' = k) | _ => false end
  | RsaKey k => match b with RsaKey k' => bool_decide (k' = k) | _ => false end
  | _ => false
  end.
End Util.

(** The text behind the first dot. *)
Fixpoint GetParentZone (subzone : string) : string :=
  match subzone with
  | EmptyString => ""
  | String c s => if Ascii.eqb c "." then s else GetParentZone s
  end.

(** ** rhineSig.go *)

Definition ED25519 : Z := 0.
Definition RSAPSSSHA256 : Z := 1.

(** [None] is a nil postfix. *)
Record RhineSig := mkRhineSig { rsAlgorithm : Z; rsData : list Z; rsSignature : list Z; rsDataPostfix : option (list Z) }.
Definition newRhineSig (data : list Z) : RhineSig := mkRhineSig ED25519 data [] None.
Definition signData (rs : RhineSig) : list Z := (rsData rs ++ default [] (rsDataPostfix rs))%list.

Section Signatures.
Context {RC : RhineCrypto} {SL : Sha256Lib} {ED : Ed25519Lib}.

(** The signature and the error; some callers go on after an error. *)
Definition RhineSig_Sign (rs : RhineSig) (priv : RPrivKey) : RhineSig * option string :=
  match priv with
  | EdPriv k => (mkRhineSig ED25519 (rsData rs) (ed25519_Sign k (signData rs)) (rsDataPostfix rs), None)
  | RsaPriv k =>
      match rsa_SignPSS k (sha256_Sum256 (signData rs)) with
      | Ok s => (mkRhineSig RSAPSSSHA256 (rsData rs) s (rsDataPostfix rs), None)
      | Err e | Panic e => (mkRhineSig RSAPSSSHA256 (rsData rs) [] (rsDataPostfix rs), Some e)
      end
  | OtherPriv => (rs, Some "unsupported private key type")
  end.
Definition signed_or_error (r : RhineSig * option string) : outcome RhineSig :=
  match r.2 with Some e => Err e | None => Ok r.1 end.

(** Keys of any other type verify everything. *)
Definition RhineSig_Verify (rs : RhineSig) (pub : RPubKey) : bool :=
  match pub with
  | EdKey k => ed25519_Verify k (signData rs) (rsSignature rs)
  | RsaKey k => rsa_VerifyPSS k (sha256_Sum256 (signData rs)) (rsSignature rs)
  | _ => true
  end.

(** ** dsa.go *)

(** [byte(x)] *)
Definition byte_of (x : Z) : Z := x mod 256.

Definition GetDSumToBytes (d : DSum) : outcome (list Z) :=
  t ← time_MarshalBinary (dsExp d);
  Ok (sha256_Sum256 (bytes_of_string (daZone (dsDacc d)) ++ Roothash (dsDacc d) ++ [byte_of (dsAlv d)] ++ dsCert d ++ t)%list).

(** ** nds.go *)

Record NdsToSign := mkNdsToSign {
  ndsLog : list string;
  ndsAgg : list string;
  ndsZone : ZoneOwner;
  ndsAl : AuthorityLevel;
  TbsCert : list Z;
  ndsExp : Z
}.
Record Nds := mkNds { ndsNds : NdsToSign; Signednds : RhineSig }.

Definition names_bytes (l : list string) : list Z := concat (bytes_of_string <$> l).

Definition NdsToSignBytes (n : Nds) : outcome (list Z) :=
  let d := ndsNds n in
  t ← time_MarshalBinary (ndsExp d);
  Ok (sha256_Sum256 (names_bytes (ndsLog d) ++ names_bytes (ndsAgg d) ++ bytes_of_string (nmName (ndsZone d)) ++
        [byte_of (ndsAl d)] ++ TbsCert d ++ t)%list).

Definition Nds_Sign (n : Nds) (priv : RPrivKey) : outcome Nds :=
  byt ← NdsToSignBytes n;
  s ← signed_or_error (RhineSig_Sign (newRhineSig byt) priv);
  Ok (mkNds (ndsNds n) s).

(** [Ok ()] for a nil error. *)
Definition VerifyNDS (n : Nds) (pubKey : RPubKey) : outcome unit :=
  encNDS ← NdsToSignBytes n;
  if negb (bool_decide (encNDS = rsData (Signednds n))) then Err "Signed data not matching with NDS content"
  else if negb (RhineSig_Verify (Signednds n) pubKey) then Err "Signature on NDS not by correct key-pair"
  else Ok ().

Definition ConstructDSum (n : Nds) : DSum :=
  mkDSum (mkDAcc (nmName (ndsZone (ndsNds n))) []) (ndsAl (ndsNds n)) (TbsCert (ndsNds n)) (ndsExp (ndsNds n)).

(** ** logWitness.go *)

Record Lwit := mkLwit { lwRsig : RhineSig; lwNdsBytes : list Z; lwLog : string; lwLogList : list string }.

Definition lwit_hash (ndsBytes : list Z) (name : string) (loglist : list string) : list Z :=
  sha256_Sum256 (ndsBytes ++ bytes_of_string name ++ names_bytes loglist)%list.

Definition CreateLwit (nds : Nds) (loge : Log) (loglist : list string) (privkey : RPrivKey) : outcome Lwit :=
  byt ← NdsToSignBytes nds;
  res ← signed_or_error (RhineSig_Sign (newRhineSig (lwit_hash byt (nmName loge) loglist)) privkey);
  Ok (mkLwit res byt (nmName loge) loglist).

Definition VerifyLwit (l : Lwit) (pubKey : RPubKey) : bool :=
  if negb (RhineSig_Verify (lwRsig l) pubKey) then false
  else bool_decide (lwit_hash (lwNdsBytes l) (lwLog l) (lwLogList l) = rsData (lwRsig l)).
Definition VerifyLwitSlice (lwitlist : list Lwit) (logMap : gmap string Log) : bool :=
  foldl (λ res lw, res && VerifyLwit lw (key_of logMap (lwLog lw))) true lwitlist.

(** Without the bytes of the NDS, the nil slice is compared. *)
Definition MatchWithLwits (n : Nds) (lwitslist : list Lwit) : bool :=
  let ndsByt := match NdsToSignBytes n with Ok b => b | _ => [] end in
  foldl (λ res lw, res && bool_decide (lwNdsBytes lw = ndsByt)) true lwitslist.

(** ** aggLoggerConfirm.go *)

Record Confirm := mkConfirm { cfRsig : RhineSig; cfNdsHashBytes : list Z; cfDsum : DSum; cfEntityName : string; AggOrLog : Z }.

Definition confirm_hash (aggOrLog : Z) (ndsHash : list Z) (name : string) (dsum : list Z) : list Z :=
  sha256_Sum256 ((if aggOrLog =? 0 then ndsHash else []) ++ bytes_of_string name ++ dsum)%list.

(** The field [AggOrLog] of the result is not set. *)
Definition CreateConfirm (aggOrLog : Z) (nds : Nds) (entName : string) (dsu : DSum) (privkey : RPrivKey) : outcome Confirm :=
  byt ← (if aggOrLog =? 0 then NdsToSignBytes nds else Ok []);
  dsumByt ← GetDSumToBytes dsu;
  res ← signed_or_error (RhineSig_Sign (newRhineSig (confirm_hash aggOrLog byt entName dsumByt)) privkey);
  Ok (mkConfirm res byt dsu entName 0).

Definition VerifyConfirm (c : Confirm) (pubKey : RPubKey) : bool :=
  if negb (RhineSig_Verify (cfRsig c) pubKey) then false
  else
    match GetDSumToBytes (cfDsum c) with
    | Ok dsumByt => bool_decide (confirm_hash (AggOrLog c) (cfNdsHashBytes c) (cfEntityName c) dsumByt = rsData (cfRsig c))
    | _ => false
    end.
Definition VerifyAggConfirmSlice (clist : list Confirm) (aggMap : gmap string Agg) : bool :=
  foldl (λ res lc, res && VerifyConfirm lc (key_of aggMap (cfEntityName lc))) true clist.
Definition VerifyLogConfirmSlice (clist : list Confirm) (logMap : gmap string Log) : bool :=
  foldl (λ res lc, res && VerifyConfirm lc (key_of logMap (cfEntityName lc))) true clist.

Definition MatchWithConfirm (n : Nds) (conf : list Confirm) : bool :=
  match NdsToSignBytes n with
  | Ok sigBytes => foldl (λ res c, res && ((AggOrLog c =? 0) && bool_decide (sigBytes = cfNdsHashBytes c))) true conf
  | _ => false
  end.
End Signatures.

(** ** Certificates *)

(** The fields of [pkix.Extension] and of the certificates and requests of x509 that are
    used.  [PkixName] is a distinguished name. *)
Record Extension := mkExtension { extId : list Z; extCritical : bool; extValue : list Z }.
Record X509Cert (PkixName : Type) := mkX509Cert {
  certRaw : list Z;
  RawTBSCertificate : list Z;
  IsPrecertificate : bool;                     (* has the extension of a poisoned certificate *)
  certPublicKey : RPubKey;
  certIssuer : PkixName;
  certSubject : PkixName;
  certSerialNumber : Z;
  certNotBefore : Z;
  certNotAfter : Z;
  certKeyUsage : Z;
  certDNSNames : list string;
  certSCTList : list (list Z)
}.
Record CertificateRequest (PkixName : Type) := mkCertificateRequest {
  reqRaw : list Z;
  reqPublicKey : RPubKey;
  reqSubject : PkixName;
  reqExtensions : list Extension;
  reqDNSNames : list string
}.
Arguments mkX509Cert {PkixName}.
Arguments certRaw {PkixName} _.
Arguments RawTBSCertificate {PkixName} _.
Arguments IsPrecertificate {PkixName} _.
Arguments certPublicKey {PkixName} _.
Arguments certIssuer {PkixName} _.
Arguments certSubject {PkixName} _.
Arguments certSerialNumber {PkixName} _.
Arguments certNotBefore {PkixName} _.
Arguments certNotAfter {PkixName} _.
Arguments certKeyUsage {PkixName} _.
Arguments certDNSNames {PkixName} _.
Arguments certSCTList {PkixName} _.
Arguments mkCertificateRequest {PkixName}.
Arguments reqRaw {PkixName} _.
Arguments reqPublicKey {PkixName} _.
Arguments reqSubject {PkixName} _.
Arguments reqExtensions {PkixName} _.
Arguments reqDNSNames {PkixName} _.

(** csr.go *)
Definition CsrExtOID : list Z := [1; 3; 500; 9].
Record CsrExt := mkCsrExt {
  extZone : ZoneOwner;
  extAl : Z;
  extExp : Z;
  extRevocation : Z;
  extCAuthority : Authority;
  extLogs : list string;
  extRid : list Z
}.

(** x509, asn1 and the certificate transparency library. *)
Class CtLib := {
  PkixName : Type;
  CommonName : string → PkixName;
  Name_String : PkixName → string;
  CertPool : Type;
  ParseCertificate : list Z → outcome (X509Cert PkixName);
  (* the pool of roots, the DNS name or "" for any, and whether critical extensions are ignored *)
  cert_Verify : X509Cert PkixName → CertPool → string → bool → outcome unit;
  CreateCertificate : X509Cert PkixName → X509Cert PkixName → RPubKey → RPrivKey → outcome (list Z);
  RemoveCTPoison : list Z → outcome (list Z);
  RemoveSCTList : list Z → outcome (list Z);
  ParseCertificateRequest : list Z → outcome (CertificateRequest PkixName);
  CheckSignature : CertificateRequest PkixName → outcome unit;
  CreateCertificateRequest : CertificateRequest PkixName → RPrivKey → outcome (list Z);
  asn1_Marshal : CsrExt → outcome (list Z);
  asn1_Unmarshal : list Z → outcome CsrExt;
  SCT : Type;
  MerkleTreeLeaf : Type;
  MerkleTreeLeafForEmbeddedSCT : X509Cert PkixName → X509Cert PkixName → outcome MerkleTreeLeaf;
  ExtractSCT : list Z → outcome SCT;
  VerifySCTSignature : RPubKey → SCT → MerkleTreeLeaf → outcome unit
}.
Abbreviation Cert := (X509Cert PkixName) (only parsing).

Section Requests.
Context {RC : RhineCrypto} {SL : Sha256Lib} {ED : Ed25519Lib} {CT : CtLib}.

(** An error of [RemoveCTPoison] leaves the nil slice. *)
Definition ExtractTbsRCAndHash (cert : Cert) : list Z :=
  let tbsbytes := RawTBSCertificate cert in
  let tbsbytes := if IsPrecertificate cert then match RemoveCTPoison tbsbytes with Ok b => b | _ => [] end else tbsbytes in
  sha256_Sum256 (match RemoveSCTList tbsbytes with Ok b => b | _ => tbsbytes end).

(** ** dsp.go *)

Record Dsp := mkDsp { dspDsum : DSum; EpochT : Z; dspSig : RhineSig; dspProof : MPathProof }.

(** [string(dsp.EpochT)] is the text of the rune. *)
Definition dsp_bytes (dsp : Dsp) : outcome (list Z) :=
  data ← GetDSumToBytes (dspDsum dsp); Ok (data ++ string_of_rune (EpochT dsp))%list.

(** The proof as it is left, and the error. *)
Definition Dsp_Sign (dsp : Dsp) (priv : RPrivKey) : Dsp * option string :=
  match dsp_bytes dsp with
  | Ok data =>
      let '(s, err) := RhineSig_Sign (newRhineSig data) priv in
      (mkDsp (dspDsum dsp) (EpochT dsp) s (dspProof dsp), err)
  | Err e | Panic e => (dsp, Some e)
  end.

Definition Dsp_Verify (dsp : Dsp) (pub : RPubKey) (zname : string) (rcertp : Cert) (alC : AuthorityLevel) : outcome bool :=
  match dsp_bytes dsp with
  | Ok data =>
      if negb (RhineSig_Verify (mkRhineSig ED25519 data (rsSignature (dspSig dsp)) None) pub) then Ok false
      else
        match VerifyMPathProof (dspProof dsp) (Roothash (dsDacc (dspDsum dsp))) zname with
        | Ok true =>
            if negb (bool_decide (dsCert (dspDsum dsp) = ExtractTbsRCAndHash rcertp)) then Ok false
            else Ok (CheckLegalDelegationAuthority (dsAlv (dspDsum dsp)) alC)
        | Ok false | Err _ => Ok false
        | Panic e => Panic e
        end
  | _ => Ok false
  end.

(** ** csr.go *)

Record Csr := mkCsr {
  csrZone : ZoneOwner;
  csrCa : Authority;
  csrLogs : list string;
  csrAl : AuthorityLevel;
  csrExp : Z;
  csrCsr : CertificateRequest PkixName;
  csrRevocation : Z;
  csrRid : list Z;
  signedcsr : list Z;
  csrPkey : RPubKey
}.
Definition emptyRequest : CertificateRequest PkixName := mkCertificateRequest [] NoKey (CommonName "") [] [].

(** A nil key of the authority is replaced by one of another type, also in the request. *)
Definition with_key (ca : Authority) : Authority := match nmPubkey ca with NoKey => mkNamed (nmName ca) OtherKey | _ => ca end.
Definition CreateCSRExtension (csr : Csr) : outcome Extension :=
  data ← asn1_Marshal (mkCsrExt (csrZone csr) (csrAl csr) (csrExp csr) (csrRevocation csr) (with_key (csrCa csr)) (csrLogs csr) (csrRid csr));
  Ok (mkExtension CsrExtOID true data).

Definition Csr_Sign (csr : Csr) (priv : RPrivKey) : outcome Csr :=
  ext ← CreateCSRExtension csr;
  let name := nmName (csrZone csr) in
  let req := mkCertificateRequest [] (nmPubkey (csrZone csr)) (CommonName ("RHINE_ZONE_OWNER:" +:+ name)) [ext] [name] in
  signed ← CreateCertificateRequest req priv;
  Ok (mkCsr (csrZone csr) (with_key (csrCa csr)) (csrLogs csr) (csrAl csr) (csrExp csr) req (csrRevocation csr) (csrRid csr) signed (csrPkey csr)).

(** The address of the loop variable is kept, so that the last extension is parsed if any
    has the identifier. *)
Definition FindCSRExt (exts : list Extension) : outcome CsrExt :=
  match last exts with
  | None => Err "No CsrExt to parse"
  | Some ext =>
      if existsb (λ e, bool_decide (extId e = CsrExtOID)) exts then asn1_Unmarshal (extValue ext)
      else Err "ext OID is not CsrExt"
  end.

Definition VerifyCSR (csr : list Z) : outcome Csr :=
  csrRequest ← ParseCertificateRequest csr;
  _ ← CheckSignature csrRequest;
  csrExt ← FindCSRExt (reqExtensions csrRequest);
  Ok (mkCsr (extZone csrExt) (extCAuthority csrExt) (extLogs csrExt) (byte_of (extAl csrExt)) (extExp csrExt) csrRequest
        (extRevocation csrExt) (extRid csrExt) csr (reqPublicKey csrRequest)).

Definition CheckAgainstCert (csr : Csr) (precert : Cert) : outcome bool :=
  let cs := csrCsr csr in
  if (Name_String (reqSubject cs) =ₛ Name_String (certSubject precert)) && EqualKeys (reqPublicKey cs) (certPublicKey precert) then
    a ← at_index (certDNSNames precert) 0;
    b ← at_index (reqDNSNames cs) 0;
    Ok (a =ₛ b)
  else Ok false.

(** The request with its identifier, from the present time. *)
Definition createRID (now : Z) (csr : Csr) : outcome Csr :=
  t0 ← time_MarshalBinary now;
  '(keyBytes, _) ← EncodePublicKey (nmPubkey (csrZone csr));
  t1 ← time_MarshalBinary (csrExp csr);
  let rid := sha256_Sum256 (t0 ++ bytes_of_string (nmName (csrZone csr)) ++ keyBytes ++ [byte_of (csrAl csr)] ++ t1 ++
               [byte_of (csrRevocation csr)] ++ bytes_of_string (nmName (csrCa csr)) ++ names_bytes (csrLogs csr))%list in
  Ok (mkCsr (csrZone csr) (csrCa csr) (csrLogs csr) (csrAl csr) (csrExp csr) (csrCsr csr) (csrRevocation csr) rid (signedcsr csr) (csrPkey csr)).

(** nds.go *)
Definition CheckAgainstCSR (n : Nds) (csr : Csr) : bool :=
  bool_decide (ndsLog (ndsNds n) = csrLogs csr) && (nmName (ndsZone (ndsNds n)) =ₛ nmName (csrZone csr)) && (ndsAl (ndsNds n) =? csrAl csr).

(** ** psr.go *)

Record Psr := mkPsr { psrCsr : Csr; psignedcsr : RhineSig; psrPcert : Cert; ChildZone : string; ParentZone : string }.

Definition CheckRCertNameAndValid (pcert : Cert) (pzone : string) (roots : CertPool) : outcome unit := cert_Verify pcert roots pzone false.
Definition CheckRCertValid (cert : Cert) (roots : CertPool) : outcome unit := cert_Verify cert roots "" true.

(** From the signature of the parent and its certificate. *)
Definition Psr_Verify (acsr : RhineSig) (pcert : Cert) (roots : CertPool) : outcome Psr :=
  csr ← VerifyCSR (rsData acsr);
  let zone := nmName (csrZone csr) in
  let pzone := GetParentZone zone in
  _ ← CheckRCertNameAndValid pcert pzone roots;
  if negb (RhineSig_Verify acsr (certPublicKey pcert)) then Err "Rhinesig invalid"
  else Ok (mkPsr csr acsr pcert zone pzone).
Definition GetLogs (psr : Psr) : list string := csrLogs (psrCsr psr).
Definition GetAlFromCSR (psr : Psr) : AuthorityLevel := csrAl (psrCsr psr).

(** ** SCTs *)

(** [pubKey[i]] panics when there are more timestamps than keys. *)
Fixpoint verify_scts (leaf : MerkleTreeLeaf) (scts : list (list Z)) (pubKey : list RPubKey) : outcome unit :=
  match scts with
  | [] => Ok ()
  | sctEmb :: scts' =>
      sct ← ExtractSCT sctEmb;
      match pubKey with
      | [] => Panic "index out of range"
      | k :: pubKey' => _ ← VerifySCTSignature k sct leaf; verify_scts leaf scts' pubKey'
      end
  end.
Definition VerifyEmbeddedSCTs (cert issuercert : Cert) (pubKey : list RPubKey) : outcome unit :=
  mLeaf ← MerkleTreeLeafForEmbeddedSCT cert issuercert;
  verify_scts mLeaf (certSCTList cert) pubKey.
End Requests.
