(* ===== verification/RhineLog.v ===== *)
(** * The delegation status log

    Models src/offlineauth/rhine/dsaLog.go, and from merkleTree.go the removal and restoration
    of the links of a tree around serialization.

    The log keeps the accumulators of zones in a map that serves as a cache, and writes them
    to a key-value store.  A serialized tree is a value: nodes that were shared are written
    twice.  Writing to the store succeeds. *)

From S2P Require Import Prelude Cbor Keys Merkle MerkleFacts RhineTree Rhine.
Local Open Scope string_scope.
Local Open Scope Z_scope.

(** ** merkleTree.go: links *)

(** Recursion over the pointers has a depth limit; exceeding it is a stack overflow. *)
Fixpoint DeleteLinks (depth : nat) (h : list Node) (n : nat) : outcome (list Node) :=
  match depth with
  | O => Panic "stack overflow"
  | S depth' =>
      let h := alter (set_parent None) n h in
      h ← match nLeft (node_at h n) with Some l => DeleteLinks depth' h l | None => Ok h end;
      match nRight (node_at h n) with Some r => DeleteLinks depth' h r | None => Ok h end
  end.
Fixpoint RestoreLinks (depth : nat) (h : list Node) (n : nat) (par : option nat) (leafList : list nat)
    : outcome (list Node * list nat) :=
  match depth with
  | O => Panic "stack overflow"
  | S depth' =>
      let h := alter (set_parent par) n h in
      '(h, leafList) ← match nLeft (node_at h n) with
                       | Some l => RestoreLinks depth' h l (Some n) leafList
                       | None => Ok (h, leafList)
                       end;
      let leafList := if nLeaf (node_at h n) then (leafList ++ [n])%list else leafList in
      match nRight (node_at h n) with
      | Some r => RestoreLinks depth' h r (Some n) leafList
      | None => Ok (h, leafList)
      end
  end.

Definition PrepareForMarshalling (m : MerkleTree) : outcome MerkleTree :=
  h ← DeleteLinks (S (length (mtNodes m))) (mtNodes m) (mtRoot m);
  Ok (mkMerkleTree h (mtRoot m) (MerkleRootInternal m) []).
Definition RestoreAfterMarshalling (m : MerkleTree) : outcome MerkleTree :=
  '(h, leafs) ← RestoreLinks (S (length (mtNodes m))) (mtNodes m) (mtRoot m) None [];
  Ok (mkMerkleTree h (mtRoot m) (MerkleRootInternal m) leafs).

(** ** Serialized accumulators *)

(** A node without its parent; [VNil] is a nil pointer. *)
Inductive VNode := VNil | VNodeOf (leaf dup : bool) (hash : list Z) (c : DSLeafContent) (l r : VNode).
Record DSAVal := mkDSAVal {
  valZone : string;
  valAlv : AuthorityLevel;
  valExp : Z;
  valCert : list Z;
  valRoot : VNode;
  valMerkleRoot : list Z;
  valSubzones : list DSLeafContent;
  valSignature : list Z
}.

(** [SerializeCBOR] and [DeserializeCBOR] of accumulators, and their contract. *)
Class DsaCodec := { dsa_Marshal : DSAVal → outcome (list Z); dsa_Unmarshal : list Z → outcome DSAVal }.
Class DsaCodecLaws `{DsaCodec} : Prop := { dsa_roundtrip v : ∃ b, dsa_Marshal v = Ok b ∧ dsa_Unmarshal b = Ok v }.

Fixpoint node_value (depth : nat) (h : list Node) (p : option nat) : VNode :=
  match depth, p with
  | S depth', Some p =>
      let n := node_at h p in
      VNodeOf (nLeaf n) (nDup n) (nHash n) (nC n) (node_value depth' h (nLeft n)) (node_value depth' h (nRight n))
  | _, _ => VNil
  end.
Definition dsa_value (dsa : DSA) : DSAVal :=
  let m := dsaAcc dsa in
  mkDSAVal (dsaZone dsa) (dsaAlv dsa) (dsaExp dsa) (dsaCert dsa)
    (node_value (S (length (mtNodes m))) (mtNodes m) (Some (mtRoot m))) (MerkleRootInternal m) (dsaSubzones dsa) (dsaSignature dsa).

(** The nodes of a value are allocated behind the existing ones, children first. *)
Fixpoint load_node (v : VNode) (h : list Node) : list Node * option nat :=
  match v with
  | VNil => (h, None)
  | VNodeOf leaf dup hash c l r =>
      let '(h, l) := load_node l h in
      let '(h, r) := load_node r h in
      ((h ++ [mkNode None l r leaf dup hash c])%list, Some (length h))
  end.
(** The accumulator before its links are restored; without a root there is nothing to restore. *)
Definition load_dsa (v : DSAVal) : outcome DSA :=
  let '(h, root) := load_node (valRoot v) [] in
  match root with
  | Some root =>
      Ok (mkDSA (valZone v) (valAlv v) (valExp v) (valCert v) (mkMerkleTree h root (valMerkleRoot v) []) (valSubzones v) (valSignature v))
  | None => Panic "nil pointer dereference"
  end.
Definition set_acc (dsa : DSA) (m : MerkleTree) : DSA :=
  mkDSA (dsaZone dsa) (dsaAlv dsa) (dsaExp dsa) (dsaCert dsa) m (dsaSubzones dsa) (dsaSignature dsa).

(** ** dsaLog.go *)

(** The zero [time.Time], the first instant of the year 1. *)
Definition zero_time : Z := -62135596800000000000.

Definition CACHE_MAX_SIZE : Z := 10000.

Record DSALog := mkDSALog { zoneToDSA : gmap string DSA; dsT : Z }.
Definition NewDSALog : DSALog := mkDSALog ∅ 0.
(** The key-value store. *)
Abbreviation DB := (gmap string (list Z)) (only parsing).

Section Log.
Context {RC : RhineCrypto} {SL : Sha256Lib} {ED : Ed25519Lib} {DC : DsaCodec}.

(** All values in the order of their keys, with a signature over the last one; nothing for
    a list of zones. *)
Definition DSRetrieve (zones : list string) (privkey : RPrivKey) (db : DB) : outcome (list (list Z) * list (list Z)) :=
  match zones with
  | [] =>
      let res := (λ k, default [] (db !! k)) <$> sort_slice str_ltb (map_to_list db).*1 in
      last ← at_index res (Z.of_nat (length res) - 1);
      Ok (res, [rsSignature (RhineSig_Sign (newRhineSig last) privkey).1])
  | _ => Ok ([], [])
  end.

(** The accumulator of a zone, from the cache or else from the store; it is not added to the
    cache. *)
Definition find_dsa (d : DSALog) (db : DB) (zone : string) : outcome DSA :=
  match zoneToDSA d !! zone with
  | Some dsa => Ok dsa
  | None =>
      match db !! zone with
      | None => Err "Parent zone is not in Delegation Transperancy!"
      | Some val =>
          match dsa_Unmarshal val with
          | Ok v => dsa ← load_dsa v; m ← RestoreAfterMarshalling (dsaAcc dsa); Ok (set_acc dsa m)
          | Err _ => Err "Parent zone is not in Delegation Transperancy!"
          | Panic e => Panic e
          end
      end
  end.

Definition DSProofRet (d : DSALog) (db : DB) (PZone CZone : string) (ptype : Z) : outcome Dsp :=
  log ← find_dsa d db PZone;
  path ← (if ptype =? ProofOfPresence then GetMPathProofPresence (dsaAcc log) CZone
          else if ptype =? ProofOfAbsence then GetMPathProofAbsence (dsaAcc log) CZone
          else Ok None);
  match path with
  | None => Err "Claim of absence/presence wrong!"
  | Some path => Ok (mkDsp (GetDSum log) (dsT d) (newRhineSig []) path)
  end.

(** The accumulator is serialized without links, which are restored even after an error. *)
Definition store_dsa (db : DB) (zone : string) (dsa : DSA) : outcome (DSA * DB * option string) :=
  m ← PrepareForMarshalling (dsaAcc dsa);
  let bytes := dsa_Marshal (dsa_value (set_acc dsa m)) in
  m ← RestoreAfterMarshalling m;
  match bytes with
  | Ok b => Ok (set_acc dsa m, <[zone := b]> db, None)
  | Err e => Ok (set_acc dsa m, db, Some e)
  | Panic e => Panic e
  end.

(** The map, the store and the error.  [victim] is the key that is dropped from a full
    cache.  The parent is looked up in the cache only. *)
Definition AddDelegationStatus (victim : string) (d : DSALog) (db : DB) (pZone : string) (pAlv : AuthorityLevel) (pCert : list Z) (exp : Z)
    (cZone : string) (cAlv : AuthorityLevel) (cCert : list Z) : outcome (DSALog * DB * option string) :=
  let newDelegZone := mkDSLeafZone cZone cAlv ExistingZone in
  let cache := if CACHE_MAX_SIZE <? Z.of_nat (size (zoneToDSA d)) then delete victim (zoneToDSA d) else zoneToDSA d in
  dsa ←
    match cache !! pZone with
    | None =>
        content ← InsertNewDSLeafZone [] newDelegZone;
        newTree ← NewTree content;
        Ok (mkDSA pZone pAlv exp pCert newTree content [])
    | Some dsa =>
        content ← InsertNewDSLeafZone (dsaSubzones dsa) newDelegZone;
        newTree ← RebuildTreeWith (dsaAcc dsa) content;
        Ok (mkDSA (dsaZone dsa) (dsaAlv dsa) (dsaExp dsa) (dsaCert dsa) newTree content (dsaSignature dsa))
    end;
  '(dsa, db, err) ← store_dsa db pZone dsa;
  let cache := <[pZone := dsa]> cache in
  match err with
  | Some e => Ok (mkDSALog cache (dsT d), db, Some e)
  | None =>
      let content := [mkDSLeafContent GetNegativeInfinityZone GetPositiveInfinityZone] in
      newTreeChild ← NewTree content;
      '(dsanew, db, err) ← store_dsa db cZone (mkDSA cZone cAlv zero_time cCert newTreeChild content []);
      Ok (mkDSALog (<[cZone := dsanew]> cache) (dsT d), db, err)
  end.
End Log.
