(* ===== verification/RhineStore.v ===== *)
(** * Trees of the delegation status log in memory and in the store

    The links of a Merkle tree survive serialization in place; a tree that is read back from
    the store is a tree over the same contents with the same root; and the number of levels
    of a tree, which decides whether its proofs are accepted, is the same in all of them. *)

From S2P Require Import Prelude Cbor Keys Merkle MerkleFacts RhineTree Rhine RhineLog.

Section Links.
Context {SL : Sha256Lib}.

(** ** Restoring the links *)

Definition parent_at (h : list Node) (p : nat) : option nat := nParent (node_at h p).
(** The same nodes up to their parents. *)
Definition relinked (h h' : list Node) : Prop := extends h h' ∧ length h' = length h.

Lemma relinked_refl h : relinked h h.
Proof. split; [|done]. intros p n Hn. exists (nParent n). by rewrite set_parent_same. Qed.
Lemma relinked_at h h' p n : relinked h h' → h !! p = Some n → ∃ q, h' !! p = Some (set_parent q n).
Proof. intros [E _]. apply E. Qed.
Lemma relinked_node h h' p : relinked h h' → node_at h' p = set_parent (parent_at h' p) (node_at h p).
Proof.
  intros [E L]. unfold parent_at. destruct (h !! p) as [n|] eqn:Hn.
  - destruct (E p n Hn) as [q Hq]. by rewrite (node_at_lookup _ _ _ Hq), (node_at_lookup _ _ _ Hn).
  - assert (h' !! p = None) as Hn' by (apply lookup_ge_None; apply lookup_ge_None in Hn; lia). unfold node_at. by rewrite Hn, Hn'.
Qed.
Lemma relinked_set h h' p q : relinked h h' → relinked h (alter (set_parent q) p h').
Proof.
  intros [E L]. split; [|by rewrite length_alter]. intros x n Hn. destruct (E x n Hn) as [q' Hq']. destruct (decide (x = p)) as [->|Hne].
  - exists q. by rewrite list_lookup_alter_eq, Hq'.
  - exists q'. by rewrite list_lookup_alter_ne.
Qed.
Lemma parent_at_set h p q x : p < length h → parent_at (alter (set_parent q) p h) x = if decide (x = p) then q else parent_at h x.
Proof.
  intros Hp. unfold parent_at, node_at. case_decide as Hx; [subst x|by rewrite list_lookup_alter_ne].
  destruct (lookup_lt_is_Some_2 h p Hp) as [n Hn]. by rewrite list_lookup_alter_eq, Hn.
Qed.
Lemma relinked_eq h h' : relinked h h' → (∀ x, x < length h → parent_at h' x = parent_at h x) → h' = h.
Proof.
  intros Hr Hp. apply list_eq. intros x. destruct (h !! x) as [n|] eqn:Hn.
  - destruct (relinked_at _ _ _ _ Hr Hn) as [q Hq]. specialize (Hp x (lookup_lt_Some _ _ _ Hn)). unfold parent_at in Hp.
    rewrite (node_at_lookup _ _ _ Hq), (node_at_lookup _ _ _ Hn) in Hp. cbn in Hp. rewrite Hq, Hp. by rewrite set_parent_same.
  - apply lookup_ge_None. destruct Hr as [_ ->]. by apply lookup_ge_None.
Qed.

Lemma DeleteLinks_ok depth h : merkle_wf h → ∀ h' p, relinked h h' → p < length h → p < depth →
  ∃ h'', DeleteLinks depth h' p = Ok h'' ∧ relinked h h''.
Proof.
  intros W. induction depth as [|depth IH]; intros h' p Hr Hp Hd; [lia|]. cbn [DeleteLinks].
  destruct (lookup_lt_is_Some_2 h p Hp) as [n Hn]. pose proof (relinked_set h h' p None Hr) as Hr1.
  set (h1 := alter _ _ _) in *. rewrite (relinked_node h h1 p Hr1), (node_at_lookup _ _ _ Hn). cbn [set_parent nLeft nRight].
  destruct (nLeaf n) eqn:El.
  - destruct (wf_ends h W p n Hn El) as [-> E2]. cbn [mbind outcome_bind].
    rewrite (relinked_node h h1 p Hr1), (node_at_lookup _ _ _ Hn). cbn. rewrite E2. by eexists.
  - destruct (wf_inner h W p n Hn El) as (l & r & -> & E2 & Hl & Hlr & _).
    destruct (IH h1 l) as (h2 & -> & Hr2); [done|lia|lia|]. cbn [mbind outcome_bind].
    rewrite (relinked_node h h2 p Hr2), (node_at_lookup _ _ _ Hn). cbn. rewrite E2. apply IH; [done|lia|lia].
Qed.

(** The nodes from which the parents lead to [p]. *)
Inductive below (h : list Node) (p : nat) : nat → Prop :=
| below_here : below h p p
| below_up x q : parent_at h x = Some q → below h p q → below h p x.
Lemma below_child h p x : below h p x → x = p ∨ ∃ c, parent_at h c = Some p ∧ below h c x.
Proof.
  induction 1 as [|x q Hq _ [->|(c & Hc & Hb)]]; [by left|right..].
  - exists x. split; [done|constructor].
  - exists c. split; [done|]. by eapply below_up.
Qed.
Lemma below_root h root : merkle_wf h → orphans h [root] → ∀ x, x < length h → below h root x.
Proof.
  intros W O x. remember (length h - x) as k eqn:Ek. revert x Ek. induction k as [k IH] using lt_wf_ind. intros x -> Hx.
  destruct (lookup_lt_is_Some_2 h x Hx) as [n Hn]. destruct (nParent n) as [q|] eqn:Eq.
  - destruct (wf_parent h W x n q Hn Eq) as (Hlt & nq & Hq & _). apply lookup_lt_Some in Hq.
    apply (below_up _ _ _ q); [unfold parent_at; by rewrite (node_at_lookup _ _ _ Hn)|]. by apply (IH (length h - q)); [lia|..].
  - assert (x ∈ [root]) as ->%list_elem_of_singleton by (apply O; eauto). constructor.
Qed.
Lemma child_of h p n c : merkle_wf h → h !! p = Some n → parent_at h c = Some p → nLeft n = Some c ∨ nRight n = Some c.
Proof.
  intros W Hn Hc. unfold parent_at, node_at in Hc. destruct (h !! c) as [m|] eqn:Hm; [|done]. cbn in Hc.
  destruct (wf_parent h W c m p Hm Hc) as (_ & nq & Hq & _ & H). by simplify_eq.
Qed.

Definition leaf_of (h : list Node) (x : nat) : Prop := ∃ n, h !! x = Some n ∧ nLeaf n = true.

(** What restoring the links below [p] does to nodes whose parents were lost: every parent is
    left alone or restored, those below [p] are restored, and the leaves below it are
    collected. *)
Definition restored (h h' h'' : list Node) (p : nat) (ls : list nat) : Prop :=
  relinked h h'' ∧ (∀ x, parent_at h'' x = parent_at h' x ∨ parent_at h'' x = parent_at h x) ∧
  (∀ x, below h p x → parent_at h'' x = parent_at h x) ∧ Forall (leaf_of h) ls ∧ (∀ x, below h p x → leaf_of h x → x ∈ ls).

Lemma restored_leaf h h' h1 p n : merkle_wf h → relinked h h1 → h !! p = Some n → nLeaf n = true →
  parent_at h1 p = parent_at h p → (∀ x, x ≠ p → parent_at h1 x = parent_at h' x) → restored h h' h1 p [p].
Proof.
  intros W Hr Hn El Hp Hx.
  assert (∀ x, below h p x → x = p) as Hb.
  { intros x [->|(c & Hc & _)]%below_child; [done|]. apply (child_of h p n) in Hc; [|done|done].
    destruct (wf_ends h W p n Hn El). destruct Hc; congruence. }
  split_and!; [done| | |by apply Forall_singleton; exists n|intros x ->%Hb _; by left].
  - intros x. destruct (decide (x = p)) as [->|]; [by right|left; by apply Hx].
  - by intros x ->%Hb.
Qed.
Lemma restored_inner h h' h1 h2 h3 p n l r ls1 ls2 : merkle_wf h → h !! p = Some n → nLeaf n = false →
  nLeft n = Some l → nRight n = Some r →
  parent_at h1 p = parent_at h p → (∀ x, x ≠ p → parent_at h1 x = parent_at h' x) →
  restored h h1 h2 l ls1 → restored h h2 h3 r ls2 → restored h h' h3 p (ls1 ++ ls2).
Proof.
  intros W Hn El E1 E2 Hp Hx (_ & A2 & B2 & C2 & D2) (Hr & A3 & B3 & C3 & D3).
  assert (∀ x, parent_at h2 x = parent_at h x → parent_at h3 x = parent_at h x) as Hkeep.
  { intros x Hx2. destruct (A3 x); congruence. }
  assert (∀ x, below h p x → x = p ∨ below h l x ∨ below h r x) as Hb.
  { intros x [->|(c & Hc & Hb)]%below_child; [by left|right]. apply (child_of h p n) in Hc; [|done|done].
    destruct Hc as [Hc|Hc]; simplify_eq; auto. }
  split_and!; [done| | |by apply Forall_app|].
  - intros x. destruct (decide (x = p)) as [->|Hne].
    + right. apply Hkeep. destruct (A2 p); congruence.
    + rewrite <-(Hx x Hne). destruct (A3 x) as [->|]; [apply A2|by right].
  - intros x [->|[Hbl|Hbr]]%Hb; [|by apply Hkeep, B2|by apply B3]. apply Hkeep. destruct (A2 p); congruence.
  - intros x [->|[Hbl|Hbr]]%Hb Hl; apply elem_of_app; [|by left; apply D2|by right; apply D3].
    destruct Hl as (m & Hm & Hlm). simplify_eq. congruence.
Qed.

Lemma RestoreLinks_ok depth h : merkle_wf h → ∀ h' p n leafs, relinked h h' → h !! p = Some n → p < depth →
  ∃ h'' ls, RestoreLinks depth h' p (nParent n) leafs = Ok (h'', leafs ++ ls) ∧ restored h h' h'' p ls.
Proof.
  intros W. induction depth as [|depth IH]; intros h' p n leafs Hr Hn Hd; [lia|]. cbn [RestoreLinks].
  pose proof (lookup_lt_Some _ _ _ Hn) as Hp. pose proof (relinked_set h h' p (nParent n) Hr) as Hr1.
  assert (∀ x, parent_at (alter (set_parent (nParent n)) p h') x = if decide (x = p) then nParent n else parent_at h' x) as Hset.
  { intros x. apply parent_at_set. by destruct Hr as [_ ->]. }
  set (h1 := alter _ _ _) in *.
  assert (parent_at h1 p = parent_at h p) as Hset1
    by (rewrite Hset, decide_True by done; unfold parent_at; by rewrite (node_at_lookup _ _ _ Hn)).
  assert (∀ x, x ≠ p → parent_at h1 x = parent_at h' x) as Hset2 by (intros x Hx; by rewrite Hset, decide_False).
  rewrite (relinked_node h h1 p Hr1), (node_at_lookup _ _ _ Hn). cbn [set_parent nLeft nRight nLeaf].
  destruct (nLeaf n) eqn:El.
  - destruct (wf_ends h W p n Hn El) as [-> E2]. cbn [mbind outcome_bind].
    rewrite (relinked_node h h1 p Hr1), (node_at_lookup _ _ _ Hn). cbn. rewrite El, E2. eexists h1, [p]. split; [done|].
    by apply (restored_leaf h h' h1 p n).
  - destruct (wf_inner h W p n Hn El) as (l & r & E1 & E2 & Hl & Hlr & _). rewrite E1.
    destruct (lookup_lt_is_Some_2 h l) as [nl Hnl]; [lia|]. destruct (lookup_lt_is_Some_2 h r) as [nr Hnr]; [lia|].
    pose proof (wf_child h W p n l Hn (or_introl E1)) as Pl. rewrite (node_at_lookup _ _ _ Hnl) in Pl.
    pose proof (wf_child h W p n r Hn (or_intror E2)) as Pr. rewrite (node_at_lookup _ _ _ Hnr) in Pr.
    destruct (IH h1 l nl leafs) as (h2 & ls1 & R1 & G1); [done|done|lia|]. rewrite Pl in R1. rewrite R1.
    cbn [mbind outcome_bind]. rewrite (relinked_node h h2 p (proj1 G1)), (node_at_lookup _ _ _ Hn). cbn [set_parent nRight nLeaf].
    rewrite El, E2. destruct (IH h2 r nr (leafs ++ ls1)) as (h3 & ls2 & R2 & G2); [apply G1|done|lia|]. rewrite Pr in R2. rewrite R2.
    exists h3, (ls1 ++ ls2). rewrite <-app_assoc. split; [done|]. by apply (restored_inner h h' h1 h2 h3 p n l r).
Qed.

(** Restoring the links from the root gives back the nodes, and the list of all leaves. *)
Lemma RestoreLinks_root h h' root : merkle_wf h → orphans h [root] → relinked h h' →
  ∃ ls, RestoreLinks (S (length h')) h' root None [] = Ok (h, ls) ∧ Forall (leaf_of h) ls ∧ ∀ x, leaf_of h x → x ∈ ls.
Proof.
  intros W O Hr. destruct (proj1 (O root)) as (n & Hn & Pn); [by left|].
  destruct (RestoreLinks_ok (S (length h')) h W h' root n [] Hr Hn) as (h'' & ls & E & G1 & _ & G2 & G3 & G4).
  { destruct Hr as [_ ->]. apply lookup_lt_Some in Hn. lia. }
  rewrite Pn in E. pose proof (below_root h root W O) as Hb.
  assert (h'' = h) as -> by (apply relinked_eq; [done|]; auto).
  exists ls. split_and!; [done|done|]. intros x Hl. apply G4; [|done]. destruct Hl as (m & Hm & _). eapply Hb, lookup_lt_Some, Hm.
Qed.

(** Serializing a tree in place leaves a tree over the same contents. *)
Lemma relink_ok t cs : merkle_ok t cs →
  ∃ t1 t2, PrepareForMarshalling t = Ok t1 ∧ relinked (mtNodes t) (mtNodes t1) ∧ mtRoot t1 = mtRoot t ∧
    MerkleRootInternal t1 = MerkleRootInternal t ∧ RestoreAfterMarshalling t1 = Ok t2 ∧ mtNodes t2 = mtNodes t ∧
    mtRoot t2 = mtRoot t ∧ merkle_ok t2 cs ∧ MerkleRoot t2 = MerkleRoot t.
Proof.
  intros (W & O & Hr & Hl & Ha & Hc). destruct (proj1 (O (mtRoot t))) as (n & Hn & _); [by left|].
  destruct (DeleteLinks_ok (S (length (mtNodes t))) (mtNodes t) W (mtNodes t) (mtRoot t)) as (h1 & E1 & R1).
  { apply relinked_refl. } { by eapply lookup_lt_Some. } { apply lookup_lt_Some in Hn. lia. }
  destruct (RestoreLinks_root (mtNodes t) h1 (mtRoot t) W O R1) as (ls & E2 & G1 & G2).
  unfold PrepareForMarshalling, RestoreAfterMarshalling. rewrite E1. cbn [mbind outcome_bind].
  do 2 eexists. split_and!; [done|done|done|done|cbn [mtNodes mtRoot]; by rewrite E2|done|done| |done].
  split_and!; [done|done|done|done|done|]. cbn. intros c. split.
  - intros (x & -> & Hx)%list_elem_of_fmap. rewrite Forall_forall in G1. destruct (G1 x Hx) as (m & Hm & Hlm).
    rewrite (node_at_lookup _ _ _ Hm). by eapply Ha.
  - intros (x & -> & Hx)%Hc%list_elem_of_fmap. apply (list_elem_of_fmap_2 (λ p, nC (node_at (mtNodes t) p))), G2.
    rewrite Forall_forall in Hl. by apply Hl.
Qed.

(** ** Trees from the store *)

Fixpoint vsize (v : VNode) : nat := match v with VNil => 0 | VNodeOf _ _ _ _ l r => vsize l + vsize r + 1 end.
Definition vhash (v : VNode) : list Z := match v with VNil => [] | VNodeOf _ _ hash _ _ _ => hash end.
Definition vleaf (v : VNode) : bool := match v with VNil => false | VNodeOf leaf _ _ _ _ _ => leaf end.
Fixpoint vcontents (v : VNode) : list DSLeafContent :=
  match v with VNil => [] | VNodeOf leaf _ _ c l r => vcontents l ++ (if leaf then [c] else []) ++ vcontents r end.
(** The value of a well-formed tree. *)
Fixpoint vwf (v : VNode) : Prop :=
  match v with
  | VNil => False
  | VNodeOf true _ hash c l r => l = VNil ∧ r = VNil ∧ hash = CalculateHash c
  | VNodeOf false _ hash _ l r => vwf l ∧ vwf r ∧ hash = sha256_Sum256 (vhash l ++ vhash r)
  end.

(** The nodes of a value from position [base] on, with their links. *)
Definition vroot (v : VNode) (base : nat) : option nat := match v with VNil => None | _ => Some (base + vsize v - 1) end.
Fixpoint place (v : VNode) (base : nat) (par : option nat) : list Node :=
  match v with
  | VNil => []
  | VNodeOf leaf dup hash c l r =>
      let self := Some (base + vsize l + vsize r) in
      place l base self ++ place r (base + vsize l) self ++ [mkNode par (vroot l base) (vroot r (base + vsize l)) leaf dup hash c]
  end.
Lemma length_place v : ∀ base par, length (place v base par) = vsize v.
Proof. induction v as [|leaf dup hash c l IHl r IHr]; intros base par; [done|]. cbn. rewrite !length_app, IHl, IHr. cbn. lia. Qed.
Lemma load_node_place v : ∀ h par, load_node v h = (h ++ (set_parent None <$> place v (length h) par), vroot v (length h)).
Proof.
  induction v as [|leaf dup hash c l IHl r IHr]; intros h par; [cbn; by rewrite app_nil_r|]. cbn [load_node place].
  rewrite (IHl h (Some (length h + vsize l + vsize r))), (IHr _ (Some (length h + vsize l + vsize r))).
  rewrite !length_app, !length_fmap, !length_place, !fmap_app, <-!app_assoc. cbn. f_equal. f_equal. lia.
Qed.

(** What holds of the nodes of a value inside a list of nodes. *)
Definition placed_ok (h : list Node) (v : VNode) (base : nat) (par : option nat) (p : nat) (n : Node) : Prop :=
  (nLeaf n = true → nLeft n = None ∧ nRight n = None ∧ nHash n = CalculateHash (nC n) ∧ nC n ∈ vcontents v) ∧
  (nLeaf n = false → ∃ l r, nLeft n = Some l ∧ nRight n = Some r ∧ l < p ∧ r < p ∧
     nHash n = sha256_Sum256 (hash_at h l ++ hash_at h r) ∧ parent_at h l = Some p ∧ parent_at h r = Some p) ∧
  ((p = base + vsize v - 1 ∧ nParent n = par) ∨
   ∃ q nq, nParent n = Some q ∧ p < q ∧ h !! q = Some nq ∧ nLeaf nq = false ∧ (nLeft nq = Some p ∨ nRight nq = Some p)).

Lemma place_root v base par pre suf : v ≠ VNil → length pre = base →
  ∃ n, (pre ++ place v base par ++ suf) !! (base + vsize v - 1) = Some n ∧ nHash n = vhash v ∧ nParent n = par ∧ nLeaf n = vleaf v.
Proof.
  intros Hv <-. destruct v as [|leaf dup hash c l r]; [done|]. cbn [place vsize].
  exists (mkNode par (vroot l (length pre)) (vroot r (length pre + vsize l)) leaf dup hash c). split; [|done].
  rewrite <-!app_assoc, lookup_app_r by lia. rewrite lookup_app_r by (rewrite length_place; lia).
  rewrite lookup_app_r by (rewrite !length_place; lia). rewrite !length_place.
  by replace (length pre + (vsize l + vsize r + 1) - 1 - length pre - vsize l - vsize r) with 0 by lia.
Qed.

(** A node of a child of [self] is also a node of the whole. *)
Lemma placed_up h v base par v' base' self p n nq :
  placed_ok h v' base' (Some self) p n → v' ≠ VNil → h !! self = Some nq → nLeaf nq = false → p < self →
  nLeft nq = vroot v' base' ∨ nRight nq = vroot v' base' → (∀ c, c ∈ vcontents v' → c ∈ vcontents v) → placed_ok h v base par p n.
Proof.
  intros (H1 & H2 & H3) Hv Hq Hl Hlt Hc Hsub. split_and!; [|done|].
  - intros E. destruct (H1 E) as (? & ? & ? & ?). auto.
  - right. destruct H3 as [[-> Hp]|(q & m & H)]; [|by exists q, m]. exists self, nq. split_and!; try done. by destruct v'.
Qed.

Definition inner_node (par : option nat) (base : nat) (dup : bool) (hash : list Z) (c : DSLeafContent) (l r : VNode) : Node :=
  mkNode par (vroot l base) (vroot r (base + vsize l)) false dup hash c.
(** The pieces of an inner node. *)
Lemma place_inner base par pre suf dup hash c l r : length pre = base →
  let h := pre ++ place (VNodeOf false dup hash c l r) base par ++ suf in
  let self := base + vsize l + vsize r in
  h !! self = Some (inner_node par base dup hash c l r) ∧
  (∃ sufl, h = pre ++ place l base (Some self) ++ sufl) ∧
  (∃ prer sufr, h = prer ++ place r (base + vsize l) (Some self) ++ sufr ∧ length prer = base + vsize l).
Proof.
  intros <- h self. unfold h. cbn [place]. fold self. rewrite <-!app_assoc. split_and!.
  - rewrite lookup_app_r by lia. rewrite lookup_app_r by (rewrite length_place; lia).
    rewrite lookup_app_r by (rewrite !length_place; lia). rewrite !length_place. unfold self.
    by replace (length pre + vsize l + vsize r - length pre - vsize l - vsize r) with 0 by lia.
  - by eexists.
  - exists (pre ++ place l (length pre) (Some self)). eexists. rewrite <-!app_assoc. split; [done|]. by rewrite length_app, length_place.
Qed.
Lemma vwf_root v base : vwf v → v ≠ VNil ∧ vroot v base = Some (base + vsize v - 1) ∧ 1 ≤ vsize v.
Proof. destruct v; [done|]. intros _. split_and!; [done|done|cbn; lia]. Qed.
Lemma place_root_at h v base par pre suf : vwf v → h = pre ++ place v base par ++ suf → length pre = base →
  hash_at h (base + vsize v - 1) = vhash v ∧ parent_at h (base + vsize v - 1) = par.
Proof.
  intros [Hv _]%(vwf_root v base) -> Hb. destruct (place_root v base par pre suf Hv Hb) as (n & Hn & H1 & H2 & _).
  unfold hash_at, parent_at. by rewrite (node_at_lookup _ _ _ Hn).
Qed.

Lemma place_ok v : ∀ base par pre suf, vwf v → length pre = base → ∀ p n, base ≤ p < base + vsize v →
  (pre ++ place v base par ++ suf) !! p = Some n → placed_ok (pre ++ place v base par ++ suf) v base par p n.
Proof.
  induction v as [|leaf dup hash c l IHl r IHr]; intros base par pre suf Hv Hb p n Hp Hn; [done|]. destruct leaf.
  { destruct Hv as (-> & -> & ->). cbn in Hp. assert (p = base) as -> by lia.
    cbn in Hn. rewrite lookup_app_r, Hb, Nat.sub_diag in Hn by lia. cbn in Hn. injection Hn as <-. split_and!; [|done|]; cbn.
    - intros _. split_and!; [done..|by left].
    - left. split; [lia|done]. }
  destruct Hv as (Hl & Hr & Hh). destruct (place_inner base par pre suf dup hash c l r Hb) as (Hself & (sufl & El) & prer & sufr & Er & Lr).
  set (h := pre ++ _ ++ suf) in *. set (self := base + vsize l + vsize r) in *. cbn [vsize] in Hp.
  destruct (vwf_root l base Hl) as (Nl & Rl & Sl), (vwf_root r (base + vsize l) Hr) as (Nr & Rr & Sr).
  destruct (decide (p < base + vsize l)) as [Hpl|Hpl]; [|destruct (decide (p < self)) as [Hpr|Hpr]].
  - apply (placed_up h _ base par l base self p n (inner_node par base dup hash c l r)); [|done|done|done|lia|by left|].
    + rewrite El. apply IHl; [done|done|lia|by rewrite <-El].
    + intros x Hx. cbn. apply elem_of_app. by left.
  - apply (placed_up h _ base par r (base + vsize l) self p n (inner_node par base dup hash c l r)); [|done|done|done|lia|by right|].
    + rewrite Er. apply IHr; [done|done|unfold self in *; lia|by rewrite <-Er].
    + intros x Hx. cbn. apply elem_of_app. by right.
  - assert (p = self) as -> by (unfold self in *; lia). rewrite Hself in Hn. injection Hn as <-. split_and!; [done| |].
    + intros _. cbn [inner_node nLeft nRight nHash]. rewrite Rl, Rr.
      destruct (place_root_at h l base (Some self) pre sufl Hl El Hb) as [Hl1 Hl2].
      destruct (place_root_at h r (base + vsize l) (Some self) prer sufr Hr Er Lr) as [Hr1 Hr2].
      do 2 eexists. rewrite Hl1, Hr1. split_and!; [done|done|unfold self; lia|unfold self; lia|done|done|done].
    + left. split; [unfold self; cbn; lia|done].
Qed.

(** The nodes of a well-formed value are a well-formed tree. *)
Lemma place_wf v : vwf v → merkle_wf (place v 0 None) ∧ orphans (place v 0 None) [vsize v - 1] ∧
  hash_at (place v 0 None) (vsize v - 1) = vhash v ∧
  ∀ p n, place v 0 None !! p = Some n → nLeaf n = true → nC n ∈ vcontents v.
Proof.
  intros Hv. destruct (vwf_root v 0 Hv) as (Hn & _ & Hs). set (h := place v 0 None).
  assert (h = [] ++ place v 0 None ++ []) as Eh by (by rewrite app_nil_l, app_nil_r).
  assert (∀ p n, h !! p = Some n → p < vsize v ∧ placed_ok h v 0 None p n) as Hok.
  { intros p n Hp. assert (p < vsize v) as Hlt by (rewrite <-(length_place v 0 None); by eapply lookup_lt_Some). split; [done|].
    rewrite Eh. apply place_ok; [done|done|lia|by rewrite <-Eh]. }
  destruct (place_root_at h v 0 None [] [] Hv Eh eq_refl) as [Hh Hp]. rewrite Nat.add_0_l in Hh, Hp.
  assert (is_Some (h !! (vsize v - 1))) as [nr Hnr] by (apply lookup_lt_is_Some; unfold h; rewrite length_place; lia).
  split_and!; [split| |done|].
  - intros p n (_ & H & _)%Hok El. by apply H.
  - intros p n (_ & _ & H & _)%Hok El. destruct (H El) as (l & r & H1 & H2 & H3 & H4 & H5 & _). eauto 10.
  - intros p n q (_ & _ & _ & [[_ Hno]|(q' & nq & H1 & H2 & H3 & H4)])%Hok Hq; [congruence|]. simplify_eq. eauto.
  - intros p n (_ & H & _)%Hok El. destruct (H El) as (? & ? & _). done.
  - intros q nq p (_ & Hleaf & Hin & _)%Hok Hc. destruct (nLeaf nq) eqn:El; [destruct (Hleaf eq_refl) as (? & ? & _); naive_solver congruence|].
    destruct (Hin eq_refl) as (l & r & H1 & H2 & _ & _ & _ & H6 & H7). unfold parent_at in *. destruct Hc; congruence.
  - intros p. rewrite list_elem_of_singleton. split.
    + intros ->. exists nr. split; [done|]. unfold parent_at in Hp. by rewrite (node_at_lookup _ _ _ Hnr) in Hp.
    + intros (n & (_ & _ & _ & [[-> _]|(q & nq & H1 & _)])%Hok & Hno); [lia|congruence].
  - intros p n (_ & H & _)%Hok El. by apply H.
Qed.

(** ** The height of a tree *)

(** The root has two children, which are leaves or, for [b = false], inner nodes. *)
Definition root_children (b : bool) (h : list Node) (root : nat) : Prop :=
  ∃ n l r, h !! root = Some n ∧ nLeaf n = false ∧ nLeft n = Some l ∧ nRight n = Some r ∧
           nLeaf (node_at h l) = b ∧ nLeaf (node_at h r) = b.
Definition inner_at (h : list Node) (p : nat) : Prop := ∃ n, h !! p = Some n ∧ nLeaf n = false.

Lemma inner_extends h h' p : extends h h' → inner_at h p → inner_at h' p.
Proof. intros He (n & (q & Hn)%He & Hl). by eexists. Qed.
Lemma inner_node_at h p : inner_at h p → nLeaf (node_at h p) = false ∧ p < length h.
Proof. intros (n & Hn & Hl). rewrite (node_at_lookup _ _ _ Hn). split; [done|]. by eapply lookup_lt_Some. Qed.
Lemma join_children b h l r : l < length h → r < length h → nLeaf (node_at h l) = b → nLeaf (node_at h r) = b →
  root_children b (join h l r) (length h).
Proof.
  intros Hl Hr El Er. assert (∀ p, p < length h → nLeaf (node_at (join h l r) p) = nLeaf (node_at h p)) as Hk.
  { intros p [n Hn]%lookup_lt_is_Some. destruct (join_extends h l r Hl Hr p n Hn) as [q Hq].
    by rewrite (node_at_lookup _ _ _ Hn), (node_at_lookup _ _ _ Hq). }
  exists (joined h l r), l, r. rewrite join_new, !Hk by done. done.
Qed.

Lemma build_level_inner nl : ∀ h nodes, Forall (λ p, p < length h) nl → Forall (inner_at h) nodes →
  Forall (inner_at (build_level h nl nodes).1) (build_level h nl nodes).2.
Proof.
  induction nl as [nl IH] using (well_founded_induction (well_founded_ltof _ length)). intros h nodes Hl Hn.
  assert (∀ l r, l < length h → r < length h → Forall (inner_at (join h l r)) (nodes ++ [length h])) as Hj.
  { intros l r L R. apply Forall_app. split; [|constructor; [by exists (joined h l r); rewrite join_new|constructor]].
    eapply Forall_impl; [exact Hn|]. intros p. by apply inner_extends, join_extends. }
  destruct nl as [|l [|r nl]]; cbn [build_level]; [done|apply Forall_cons_1 in Hl as [Hl _]; by apply Hj|].
  apply Forall_cons_1 in Hl as [Hl [Hr Hnl]%Forall_cons_1]. apply IH; [unfold ltof; cbn; lia| |by apply Hj].
  eapply Forall_impl; [exact Hnl|]. intros p. rewrite join_length. lia.
Qed.
Lemma buildIntermediate_inner depth : ∀ h nl h' root, Forall (inner_at h) nl → buildIntermediate depth h nl = Ok (h', root) →
  root_children false h' root.
Proof.
  induction depth as [|depth IH]; intros h nl h' root Hn E; [done|]. cbn [buildIntermediate] in E.
  assert (Forall (inner_at (build_level h nl []).1) (build_level h nl []).2) as Hb.
  { apply build_level_inner; [|constructor]. eapply Forall_impl; [exact Hn|]. intros p Hp. by apply inner_node_at. }
  destruct nl as [|l [|r [|x nl]]]; try (destruct (build_level _ _ _) in E, Hb; by eapply IH).
  apply Forall_cons_1 in Hn as [Hl [Hr _]%Forall_cons_1]. injection E as <- <-. apply inner_node_at in Hl as [? ?], Hr as [? ?]. by apply join_children.
Qed.

(** A tree has one level exactly over at most two contents. *)
Lemma NewTree_children cs t : NewTree cs = Ok t → root_children (bool_decide (length (pad cs) = 2)) (mtNodes t) (mtRoot t).
Proof.
  unfold NewTree, buildWithContent. destruct cs as [|c cs']; [done|]. set (cs := c :: cs'). intros E. cbn [mbind outcome_bind] in E.
  destruct (buildIntermediate _ _ _) as [[h root]| |] eqn:Eb; [|done..]. injection E as <-. cbn [mtNodes mtRoot].
  assert (Forall (λ p, p < length (leaf_nodes cs) ∧ nLeaf (node_at (leaf_nodes cs) p) = true) (seq 0 (length (leaf_nodes cs)))) as Hl.
  { apply Forall_forall. intros p [_ Hp]%elem_of_seq. split; [done|]. destruct (lookup_lt_is_Some_2 (leaf_nodes cs) p) as [n Hn]; [done|].
    rewrite (node_at_lookup _ _ _ Hn). by apply leaf_nodes_lookup in Hn as (d & x & -> & _). }
  rewrite <-leaf_nodes_length. destruct (leaf_nodes cs) as [|n0 [|n1 [|n2 ns]]] eqn:El; [done| | |].
  - pose proof (pad_length cs ltac:(done)) as Hp. rewrite <-leaf_nodes_length, El in Hp. cbn in Hp. lia.
  - cbn in Eb, Hl. injection Eb as <- <-. apply Forall_cons_1 in Hl as [[L0 H0] [[L1 H1] _]%Forall_cons_1].
    by apply (join_children true [n0; n1] 0 1).
  - rewrite bool_decide_false by (cbn; lia). set (hs := n0 :: n1 :: n2 :: ns) in *.
    assert (Forall (λ p, p < length hs) (seq 0 (length hs))) as Hlt by (eapply Forall_impl; [exact Hl|naive_solver]).
    pose proof (build_level_inner _ _ [] Hlt ltac:(constructor)) as Hb.
    cbn [buildIntermediate] in Eb. change (seq 0 (length hs)) with (0 :: 1 :: 2 :: seq 3 (length ns)) in *.
    destruct (build_level _ _ _) in Eb, Hb. by eapply buildIntermediate_inner.
Qed.

Lemma climb_up fuel h p q path index : climb fuel h p (Some q) = Ok (path, index) →
  ∃ fuel' path' index', climb fuel' h q (nParent (node_at h q)) = Ok (path', index') ∧ length path = S (length path').
Proof.
  destruct fuel as [|fuel]; [done|]. cbn [climb]. intros E. destruct (nLeft _) as [l|]; [|done]. cbn [or_panic mbind outcome_bind] in E.
  exists fuel. case_bool_decide.
  - destruct (nRight _) as [r|]; [|done]. cbn [or_panic mbind outcome_bind] in E.
    destruct (climb _ _ _ _) as [[path' index']| |]; [|done..]. injection E as <- <-. by exists path', index'.
  - destruct (climb _ _ _ _) as [[path' index']| |]; [|done..]. injection E as <- <-. by exists path', index'.
Qed.

(** Paths have one hash in a tree of one level, and more in any other. *)
Lemma path_length t cs c path index b : merkle_ok t cs → root_children b (mtNodes t) (mtRoot t) →
  GetMerklePath t c = Ok (Some (path, index)) → if b then length path = 1 else 2 ≤ length path.
Proof.
  intros (W & O & _ & Hl & _) (n & l & r & Hn & Hi & El & Er & Bl & Br) E. unfold GetMerklePath in E.
  destruct (find_leaf t c) as [p|] eqn:Ef; [|done]. destruct (climb _ _ _ _) as [[path' index']| |] eqn:Ec; [|done..]. injection E as -> ->.
  unfold find_leaf in Ef. destruct (list_find _ _) as [[i p']|] eqn:Hp; [|done]. injection Ef as ->.
  apply list_find_Some in Hp as (Hp%list_elem_of_lookup_2 & _). rewrite Forall_forall in Hl. destruct (Hl p Hp) as (m & Hm & Hlm).
  rewrite (node_at_lookup _ _ _ Hm) in Ec. destruct (nParent m) as [q|] eqn:Eq.
  2:{ assert (p ∈ [mtRoot t]) as ->%list_elem_of_singleton by (apply O; eauto). congruence. }
  destruct (climb_up _ _ _ _ _ _ Ec) as (fuel' & path' & index' & Ec' & ->).
  destruct (wf_parent _ W p m q Hm Eq) as (_ & nq & Hq & Hqi & Hqc). rewrite (node_at_lookup _ _ _ Hq) in Ec'.
  assert (q = mtRoot t → b = true) as Hroot.
  { intros ->. assert (nLeaf (node_at (mtNodes t) p) = true) by (by rewrite (node_at_lookup _ _ _ Hm)).
    assert (nq = n) as -> by congruence. destruct Hqc; congruence. }
  destruct (nParent nq) as [q'|] eqn:Eq'.
  - destruct (climb_up _ _ _ _ _ _ Ec') as (f & pa & ia & _ & ->). destruct b; [|lia]. exfalso.
    pose proof (below_root _ _ W O q (lookup_lt_Some _ _ _ Hq)) as [->|(d & Hd & Hb)]%below_child.
    { destruct (proj1 (O (mtRoot t))) as (n' & Hn' & Hno); [by left|]. congruence. }
    assert (nLeaf (node_at (mtNodes t) d) = true) as Hdl by (apply (child_of _ _ _ _ W Hn) in Hd; destruct Hd; congruence).
    unfold parent_at, node_at in Hd. destruct (mtNodes t !! d) as [nd|] eqn:Hnd; [|done]. rewrite (node_at_lookup _ _ _ Hnd) in Hdl.
    apply below_child in Hb as [->|(x & Hx & _)]; [congruence|]. apply (child_of _ _ _ _ W Hnd) in Hx.
    destruct (wf_ends _ W d nd Hnd Hdl). destruct Hx; congruence.
  - assert (q ∈ [mtRoot t]) as ->%list_elem_of_singleton by (apply O; eauto). rewrite Hroot by done.
    by destruct fuel'; cbn in Ec'; injection Ec' as <- _.
Qed.

(** ** Through the store *)

Lemma node_value_relinked depth h h' : relinked h h' → ∀ p, node_value depth h' p = node_value depth h p.
Proof.
  intros Hr. induction depth as [|depth IH]; intros [p|]; [done..| |done]. cbn [node_value].
  rewrite (relinked_node h h' p Hr). cbn [set_parent nLeft nRight nLeaf nDup nHash nC]. by rewrite !IH.
Qed.
Lemma node_value_ok depth h : merkle_wf h → ∀ p n, h !! p = Some n → p < depth →
  let v := node_value depth h (Some p) in
  vwf v ∧ vhash v = nHash n ∧ ∀ c, c ∈ vcontents v ↔ ∃ x m, below h p x ∧ h !! x = Some m ∧ nLeaf m = true ∧ nC m = c.
Proof.
  intros W. induction depth as [|depth IH]; intros p n Hn Hd; [lia|]. cbn [node_value]. rewrite (node_at_lookup _ _ _ Hn).
  destruct (nLeaf n) eqn:El.
  - destruct (wf_ends h W p n Hn El) as [-> ->]. assert (node_value depth h None = VNil) as -> by (by destruct depth).
    split_and!; [cbn; split_and!; [done|done|by eapply wf_leaf]|done|]. cbn. intros c. rewrite list_elem_of_singleton. split.
    + intros ->. exists p, n. split_and!; [constructor|done..].
    + intros (x & m & [->|(d & Hd' & _)]%below_child & Hx & _ & <-); [by simplify_eq|].
      apply (child_of h p n) in Hd'; [|done|done]. destruct (wf_ends h W p n Hn El). destruct Hd'; congruence.
  - destruct (wf_inner h W p n Hn El) as (l & r & E1 & E2 & Hl & Hr & Eh). rewrite E1, E2.
    destruct (lookup_lt_is_Some_2 h l) as [nl Hnl]; [apply lookup_lt_Some in Hn; lia|].
    destruct (lookup_lt_is_Some_2 h r) as [nr Hnr]; [apply lookup_lt_Some in Hn; lia|].
    destruct (IH l nl Hnl) as (V1 & H1 & C1); [lia|]. destruct (IH r nr Hnr) as (V2 & H2 & C2); [lia|].
    split_and!; [cbn; split_and!; [done|done|]|done|].
    + rewrite H1, H2, Eh. unfold hash_at. by rewrite (node_at_lookup _ _ _ Hnl), (node_at_lookup _ _ _ Hnr).
    + intros c. cbn [vcontents app]. rewrite elem_of_app, C1, C2.
      pose proof (wf_child h W p n l Hn (or_introl E1)) as Pl. pose proof (wf_child h W p n r Hn (or_intror E2)) as Pr.
      assert (∀ x d, parent_at h d = Some p → below h d x → below h p x) as Hup.
      { intros x d Hd' Hb. induction Hb as [|x q Hq _ IHb]; [eapply below_up; [exact Hd'|constructor]|by eapply below_up]. }
      split; [intros [(x & m & Hb & Hm)|(x & m & Hb & Hm)]; exists x, m; (split; [eapply Hup; [|exact Hb]; done|done])|].
      intros (x & m & [->|(d & Hd' & Hb)]%below_child & Hm & Hlm & Hc); [congruence|].
      apply (child_of h p n) in Hd'; [|done|done]. destruct Hd' as [Hd'|Hd']; [left|right]; exists x, m; simplify_eq; done.
Qed.

Lemma place_contents v c : ∀ base par, c ∈ vcontents v → ∃ p n, place v base par !! p = Some n ∧ nLeaf n = true ∧ nC n = c.
Proof.
  intros base par Hc. enough (∃ n, n ∈ place v base par ∧ nLeaf n = true ∧ nC n = c) as (n & (p & Hp)%list_elem_of_lookup_1 & H)
    by (by exists p, n).
  revert base par Hc. induction v as [|leaf dup hash c' l IHl r IHr]; intros base par Hc; [by apply elem_of_nil in Hc|]. cbn [place].
  cbn [vcontents] in Hc. apply elem_of_app in Hc as [Hc|[Hc|Hc]%elem_of_app].
  - destruct (IHl base (Some (base + vsize l + vsize r)) Hc) as (n & Hn & H). exists n. split; [|done]. apply elem_of_app. by left.
  - destruct leaf; [|by apply elem_of_nil in Hc]. apply list_elem_of_singleton in Hc as ->. eexists.
    split; [do 2 (apply elem_of_app; right); by left|done].
  - destruct (IHr (base + vsize l) (Some (base + vsize l + vsize r)) Hc) as (n & Hn & H). exists n. split; [|done].
    apply elem_of_app. right. apply elem_of_app. by left.
Qed.

(** Its root has the same kind of children. *)
Lemma place_children b dup hash c l r : vwf l → vwf r → vleaf l = b → vleaf r = b →
  root_children b (place (VNodeOf false dup hash c l r) 0 None) (vsize (VNodeOf false dup hash c l r) - 1).
Proof.
  intros Hl Hr Bl Br. set (v := VNodeOf false dup hash c l r).
  destruct (place_inner 0 None [] [] dup hash c l r eq_refl) as (Hself & (sufl & El) & prer & sufr & Er & Lr).
  rewrite app_nil_l, app_nil_r in *. fold v in Hself, El, Er |- *.
  destruct (vwf_root l 0 Hl) as (Nl & Rl & Sl), (vwf_root r (0 + vsize l) Hr) as (Nr & Rr & Sr).
  destruct (place_root l 0 (Some (0 + vsize l + vsize r)) [] sufl Nl eq_refl) as (nl & Hnl & _ & _ & Hll). cbn [app] in El, Hnl. rewrite <-El in Hnl.
  destruct (place_root r (0 + vsize l) (Some (0 + vsize l + vsize r)) prer sufr Nr Lr) as (nr & Hnr & _ & _ & Hrl). rewrite <-Er in Hnr.
  exists (inner_node None 0 dup hash c l r), (0 + vsize l - 1), (0 + vsize l + vsize r - 1).
  rewrite (node_at_lookup _ _ _ Hnl), (node_at_lookup _ _ _ Hnr). cbn [inner_node nLeft nRight nLeaf].
  split_and!; [|done|done|done|congruence|congruence]. rewrite <-Hself. f_equal. cbn. lia.
Qed.
Lemma node_value_leaf depth h p n : h !! p = Some n → p < depth → vleaf (node_value depth h (Some p)) = nLeaf n.
Proof. intros Hn Hp. destruct depth; [lia|]. cbn. by rewrite (node_at_lookup _ _ _ Hn). Qed.
Lemma node_value_children b depth h root : merkle_wf h → root_children b h root → root < depth →
  let v := node_value depth h (Some root) in root_children b (place v 0 None) (vsize v - 1).
Proof.
  intros W (n & l & r & Hn & Hi & El & Er & Bl & Br) Hd. destruct depth as [|depth]; [lia|]. cbn [node_value].
  rewrite (node_at_lookup _ _ _ Hn), El, Er, Hi. destruct (wf_inner h W root n Hn Hi) as (l' & r' & El' & Er' & Hl & Hr & _).
  assert (l' = l) as -> by congruence. assert (r' = r) as -> by congruence. apply lookup_lt_Some in Hn as Hlt.
  destruct (lookup_lt_is_Some_2 h l) as [nl Hnl]; [lia|]. destruct (lookup_lt_is_Some_2 h r) as [nr Hnr]; [lia|].
  rewrite (node_at_lookup _ _ _ Hnl) in Bl. rewrite (node_at_lookup _ _ _ Hnr) in Br.
  apply place_children; [by eapply node_value_ok; [..|lia]|by eapply node_value_ok; [..|lia]| |].
  - rewrite (node_value_leaf _ _ _ _ Hnl); [done|lia].
  - rewrite (node_value_leaf _ _ _ _ Hnr); [done|lia].
Qed.

(** A tree that was written to the store and read back is a tree over the same contents with
    the same root. *)
Lemma reload_ok t t1 cs : merkle_ok t cs → relinked (mtNodes t) (mtNodes t1) → mtRoot t1 = mtRoot t →
  MerkleRootInternal t1 = MerkleRootInternal t →
  let v := node_value (S (length (mtNodes t1))) (mtNodes t1) (Some (mtRoot t1)) in
  ∃ h root t', load_node v [] = (h, Some root) ∧
    RestoreAfterMarshalling (mkMerkleTree h root (MerkleRootInternal t1) []) = Ok t' ∧ merkle_ok t' cs ∧ MerkleRoot t' = MerkleRoot t ∧
    ∀ b, root_children b (mtNodes t) (mtRoot t) → root_children b (mtNodes t') (mtRoot t').
Proof.
  intros (W & O & Hr & Hl & Ha & Hc) R1 -> ->. cbn zeta. rewrite (node_value_relinked _ _ _ R1). set (v := node_value _ _ _).
  destruct (proj1 (O (mtRoot t))) as (n & Hn & _); [by left|].
  destruct (node_value_ok (S (length (mtNodes t1))) (mtNodes t) W (mtRoot t) n Hn) as (V & Hh & Hcs).
  { destruct R1 as [_ ->]. apply lookup_lt_Some in Hn. lia. }
  fold v in V, Hh, Hcs. destruct (place_wf v V) as (W' & O' & Hh' & Ha'). destruct (vwf_root v 0 V) as (_ & Rv & _).
  assert (relinked (place v 0 None) (set_parent None <$> place v 0 None)) as R2.
  { split; [|by rewrite length_fmap]. intros p m Hm. exists None. by rewrite list_lookup_fmap, Hm. }
  destruct (RestoreLinks_root _ _ _ W' O' R2) as (ls & E2 & G1 & G2).
  exists (set_parent None <$> place v 0 None), (vsize v - 1). eexists. split_and!.
  - rewrite (load_node_place v [] None). cbn [length app]. by rewrite Rv.
  - unfold RestoreAfterMarshalling. cbn [mtNodes mtRoot]. by rewrite E2.
  - assert (∀ c, c ∈ vcontents v → c ∈ cs) as Hsub by (intros c (x & m & _ & Hm & Hlm & <-)%Hcs; by eapply Ha).
    split_and!; cbn [mtNodes mtRoot mtLeafs MerkleRootInternal]; [done|done| |done| |].
    + rewrite Hh', Hh, Hr. unfold hash_at. by rewrite (node_at_lookup _ _ _ Hn).
    + intros p m Hm Hlm. by eapply Hsub, Ha'.
    + intros c. rewrite list_elem_of_fmap. split.
      * intros (x & -> & Hx). rewrite Forall_forall in G1. destruct (G1 x Hx) as (m & Hm & Hlm). rewrite (node_at_lookup _ _ _ Hm).
        by eapply Hsub, Ha'.
      * intros (x & -> & Hx)%Hc%list_elem_of_fmap. rewrite Forall_forall in Hl. destruct (Hl x Hx) as (m & Hm & Hlm).
        rewrite (node_at_lookup _ _ _ Hm). destruct (place_contents v (nC m) 0 None) as (y & k & Hk & Hlk & <-).
        { apply Hcs. exists x, m. split_and!; try done. by eapply below_root, lookup_lt_Some. }
        exists y. rewrite (node_at_lookup _ _ _ Hk). split; [done|]. apply G2. by exists k.
  - done.
  - intros b Hb. cbn [mtNodes mtRoot]. apply node_value_children; [done|done|]. destruct R1 as [_ ->]. apply lookup_lt_Some in Hn. lia.
Qed.
End Links.
