(* ===== verification/RhineLogFacts.v ===== *)
(** * Theorems about the delegation status log

    The proofs that the log gives are those of its delegations, in memory and from the store;
    a log that lost its cache forgets the delegations of a zone when the next one is added. *)

From S2P Require Import Prelude Cbor Keys Merkle MerkleFacts RhineTree Rhine RhineLog RhineStore.

(** ** The log *)

Section Log.
Context {RC : RhineCrypto} {SL : Sha256Lib} {ED : Ed25519Lib} {DC : DsaCodec} {DCL : DsaCodecLaws}.

(** The accumulator of a zone with the delegations [zs]. *)
Definition accumulates (dsa : DSA) (zs : list DSLeafZone) : Prop :=
  dsaSubzones dsa = chain zs ∧ merkle_ok (dsaAcc dsa) (chain zs) ∧ Forall existing zs ∧ StronglySorted by_name zs ∧
  root_children (bool_decide (length zs ≤ 1)) (mtNodes (dsaAcc dsa)) (mtRoot (dsaAcc dsa)).
(** The log answers with an accumulator that has these delegations. *)
Definition delegates (d : DSALog) (db : gmap string (list Z)) (zone : string) (zs : list DSLeafZone) : Prop :=
  ∃ dsa, find_dsa d db zone = Ok dsa ∧ accumulates dsa zs.

(** Storing keeps the tree, and the store has the accumulator with a tree over the same
    contents. *)
Lemma store_dsa_tree db zone dsa cs : merkle_ok (dsaAcc dsa) cs →
  ∃ t1 t2 db', store_dsa db zone dsa = Ok (set_acc dsa t1, db', None) ∧ merkle_ok t1 cs ∧ merkle_ok t2 cs ∧
    (∀ z, z ≠ zone → db' !! z = db !! z) ∧
    (∀ d, zoneToDSA d !! zone = None → find_dsa d db' zone = Ok (set_acc dsa t2)) ∧
    ∀ b, root_children b (mtNodes (dsaAcc dsa)) (mtRoot (dsaAcc dsa)) →
      root_children b (mtNodes t1) (mtRoot t1) ∧ root_children b (mtNodes t2) (mtRoot t2).
Proof.
  intros Hm. destruct (relink_ok _ _ Hm) as (t1 & t2 & E1 & R1 & Rt & Rm & E2 & En & Er & Hm2 & _).
  unfold store_dsa. rewrite E1. cbn [mbind outcome_bind]. rewrite E2. cbn [mbind outcome_bind].
  destruct (dsa_roundtrip (dsa_value (set_acc dsa t1))) as (b & -> & Eb).
  destruct (reload_ok _ t1 _ Hm R1 Rt Rm) as (h & root & t' & L1 & L2 & Hm' & _ & Hb).
  exists t2, t', (<[zone:=b]> db). split_and!; [done..| | |].
  - intros z Hz. by rewrite lookup_insert_ne.
  - intros d Hd. unfold find_dsa. rewrite Hd, lookup_insert_eq, Eb. unfold load_dsa, dsa_value.
    cbn [valRoot set_acc dsaAcc]. rewrite L1. cbn [mbind outcome_bind dsaAcc valMerkleRoot]. by rewrite L2.
  - intros b' Hb'. rewrite En, Er. auto.
Qed.
Lemma store_dsa_ok db zone dsa zs : accumulates dsa zs →
  ∃ dsa' db', store_dsa db zone dsa = Ok (dsa', db', None) ∧ accumulates dsa' zs ∧
    (∀ z, z ≠ zone → db' !! z = db !! z) ∧
    (∀ d, zoneToDSA d !! zone = None → delegates d db' zone zs).
Proof.
  intros (Hs & Hm & He & Hso & Hb). destruct (store_dsa_tree db zone dsa _ Hm) as (t1 & t2 & db' & E & H1 & H2 & Hk & Hf & Hc).
  destruct (Hc _ Hb) as [Hb1 Hb2].
  exists (set_acc dsa t1), db'. split_and!; [done|by split_and!|done|]. intros d Hd. exists (set_acc dsa t2).
  split; [by apply Hf|by split_and!].
Qed.

Lemma pad_chain zs : bool_decide (length (pad (chain zs)) = 2) = bool_decide (length zs ≤ 1).
Proof.
  assert (length (chain zs) = S (length zs)) as Hl.
  { unfold chain. generalize GetNegativeInfinityZone. induction zs as [|z zs IH]; intros x; [done|]. cbn. by rewrite IH. }
  destruct zs as [|z1 [|z2 zs]]; [done..|]. rewrite (bool_decide_false (length (z1 :: z2 :: zs) ≤ 1)) by (cbn; lia).
  apply bool_decide_false. unfold pad. destruct (_ =? 1); [rewrite length_app|]; cbn in *; lia.
Qed.
Lemma accumulates_new zone alv exp cert sig zs : Forall existing zs → StronglySorted by_name zs →
  ∃ t, NewTree (chain zs) = Ok t ∧ accumulates (mkDSA zone alv exp cert t (chain zs) sig) zs.
Proof.
  intros He Hs. destruct (NewTree_ok (chain zs)) as (t & E & Hm & _); [by destruct zs|]. exists t. split; [done|].
  split_and!; [done..|]. rewrite <-pad_chain. by apply NewTree_children.
Qed.
Lemma insert_existing z zs : existing z → Forall existing zs → Forall existing (insert_by_name z zs).
Proof. intros Hz Hs. rewrite insert_by_name_Permutation. by constructor. Qed.

(** The proofs the log gives for a name of the zone: of presence for a delegated name and of
    absence for any other, never both, and each leads to the root hash of the summary. *)
Definition proved (d : DSALog) (db : gmap string (list Z)) (zone : string) (zs : list DSLeafZone) (name : string) : Prop :=
  let here := bool_decide (name ∈ (zZone <$> zs)) in
  (∃ dsp, DSProofRet d db zone name (if here then ProofOfPresence else ProofOfAbsence) = Ok dsp ∧
     genuine (Roothash (dsDacc (dspDsum dsp))) (dspProof dsp) ∧ fits (dspProof dsp) name) ∧
  is_err (DSProofRet d db zone name (if here then ProofOfAbsence else ProofOfPresence)) = true.

Lemma delegates_proved d db zone zs name : delegates d db zone zs → name ≠ ""%string → proved d db zone zs name.
Proof.
  intros (dsa & Ef & Hsub & Hm & He & Hso & _) Hn. pose proof (chain_proofs zs (dsaAcc dsa) name He Hso Hm Hn) as Hc.
  assert (Roothash (dsDacc (GetDSum dsa)) = MerkleRoot (dsaAcc dsa)) as Hroot by (symmetry; apply Hm).
  unfold proved, DSProofRet. rewrite Ef. cbn [mbind outcome_bind]. unfold chain_status in Hc. case_bool_decide as Hd.
  - rewrite decide_True in Hc by done. destruct Hc as (H1 & _ & p & H2 & H3 & H4 & H5 & _). cbn. rewrite H1, H2. split; [|done].
    eexists. split; [reflexivity|]. cbn [dspDsum dspProof]. rewrite Hroot. split; [done|]. by left.
  - rewrite decide_False in Hc by done. destruct Hc as (H1 & p & H2 & H3 & H4 & H5 & _). cbn. rewrite H1, H2. split; [|done].
    eexists. split; [reflexivity|]. cbn [dspDsum dspProof]. rewrite Hroot. split; [done|]. by right.
Qed.

(** The proof of absence in detail: its path has one hash over at most one delegation, and
    more otherwise. *)
Lemma absence_dsp d db zone zs name dsa : find_dsa d db zone = Ok dsa → accumulates dsa zs → name ≠ ""%string → name ∉ (zZone <$> zs) →
  ∃ p, DSProofRet d db zone name ProofOfAbsence = Ok (mkDsp (GetDSum dsa) (dsT d) (newRhineSig []) p) ∧
    genuine (Roothash (dsDacc (GetDSum dsa))) p ∧ fits p name ∧ Ptype p = ProofOfAbsence ∧
    (length zs ≤ 1 → length (Path p) = 1) ∧ (2 ≤ length zs → 2 ≤ length (Path p)).
Proof.
  intros Ef (Hsub & Hm & He & Hso & Hb) Hn Hd. pose proof (chain_proofs zs (dsaAcc dsa) name He Hso Hm Hn) as Hc.
  unfold chain_status in Hc. rewrite decide_False in Hc by done. destruct Hc as (_ & p & H2 & H3 & H4 & H5 & H6).
  assert (Roothash (dsDacc (GetDSum dsa)) = MerkleRoot (dsaAcc dsa)) as Hroot by (symmetry; apply Hm).
  exists p. unfold DSProofRet. rewrite Ef, Hroot. cbn. rewrite H2. split_and!; [done..|by right|done| |].
  - intros Hl. rewrite bool_decide_true in Hb by done. exact (path_length _ _ _ _ _ true Hm Hb H6).
  - intros Hl. rewrite bool_decide_false in Hb by lia. exact (path_length _ _ _ _ _ false Hm Hb H6).
Qed.

(** A content that starts at the name gives a proof of presence. *)
Lemma presence_found t cs c name : merkle_ok t cs → c ∈ cs → zZone (dStart c) = name →
  ∃ p, GetMPathProofPresence t name = Ok (Some p) ∧ genuine (MerkleRoot t) p ∧ fits p name.
Proof.
  intros Hm Hc Hn. assert (∀ x, x ∈ leaf_contents t ↔ x ∈ cs) as Hin by apply Hm.
  pose proof (find_start_spec (leaf_contents t) name) as Hst. unfold GetMPathProofPresence.
  destruct (mtLeafs t) as [|x l] eqn:El.
  { apply Hin in Hc. unfold leaf_contents in Hc. rewrite El in Hc. by apply elem_of_nil in Hc. }
  destruct (find_start _ _) as [c'|]; [|by destruct (Hst c); [apply Hin|]]. destruct Hst as [Hc' Hn'].
  destruct (path_of_genuine t cs c' ProofOfPresence Hm) as (p & -> & E1 & E2 & G & _); [by apply Hin|]. cbn. exists p. split_and!; [done..|].
  left. split; [done|]. by rewrite E1.
Qed.

(** The cache after room was made. *)
Definition trimmed (victim : string) (d : DSALog) : gmap string DSA :=
  if (CACHE_MAX_SIZE <? Z.of_nat (size (zoneToDSA d)))%Z then delete victim (zoneToDSA d) else zoneToDSA d.
(** The delegations of a zone in the cache: none without an accumulator. *)
Definition cached (cache : gmap string DSA) (zone : string) (zs : list DSLeafZone) : Prop :=
  match cache !! zone with None => zs = [] | Some dsa => zs ≠ [] ∧ accumulates dsa zs end.

(** The accumulator of the parent. *)
Lemma updated_ok cache zone alv exp cert z zs : cached cache zone zs → existing z →
  ∃ dsa, match cache !! zone with
    | None => content ← InsertNewDSLeafZone [] z; newTree ← NewTree content; Ok (mkDSA zone alv exp cert newTree content [])
    | Some dsa => content ← InsertNewDSLeafZone (dsaSubzones dsa) z; newTree ← RebuildTreeWith (dsaAcc dsa) content;
        Ok (mkDSA (dsaZone dsa) (dsaAlv dsa) (dsaExp dsa) (dsaCert dsa) newTree content (dsaSignature dsa))
    end = Ok dsa ∧ accumulates dsa (insert_by_name z zs).
Proof.
  unfold cached. intros Hc Hz. destruct (cache !! zone) as [dsa|].
  - destruct Hc as (Hne & Hs & _ & He & Hso & _). rewrite Hs, insert_into_chain by done. cbn [mbind outcome_bind].
    destruct (accumulates_new (dsaZone dsa) (dsaAlv dsa) (dsaExp dsa) (dsaCert dsa) (dsaSignature dsa) (insert_by_name z zs)) as (t & Et & Hacc);
      [by apply insert_existing|by apply insert_by_name_sorted|].
    change (RebuildTreeWith (dsaAcc dsa) (chain (insert_by_name z zs))) with (NewTree (chain (insert_by_name z zs))). rewrite Et. by eexists.
  - subst zs. destruct (accumulates_new zone alv exp cert [] [z]) as (t & Et & Hacc); [by repeat constructor..|].
    change (InsertNewDSLeafZone [] z) with (Ok (chain [z])). cbn [mbind outcome_bind]. rewrite Et. by eexists.
Qed.

Lemma AddDelegationStatus_ok victim d db pZone pAlv pCert exp cZone cAlv cCert zs :
  cached (trimmed victim d) pZone zs → pZone ≠ cZone →
  let zs' := insert_by_name (mkDSLeafZone cZone cAlv ExistingZone) zs in
  ∃ d' db', AddDelegationStatus victim d db pZone pAlv pCert exp cZone cAlv cCert = Ok (d', db', None) ∧
    delegates d' db' pZone zs' ∧ delegates d' db' cZone [] ∧ delegates NewDSALog db' pZone zs' ∧ delegates NewDSALog db' cZone [].
Proof.
  intros Hc Hne zs'. unfold AddDelegationStatus. fold (trimmed victim d).
  destruct (updated_ok _ pZone pAlv exp pCert (mkDSLeafZone cZone cAlv ExistingZone) zs Hc eq_refl) as (dsa & Ed & Ha). fold zs' in Ha.
  rewrite Ed. cbn [mbind outcome_bind]. destruct (store_dsa_ok db pZone dsa zs' Ha) as (dsa1 & db1 & -> & Ha1 & _ & Hd1). cbn [mbind outcome_bind].
  destruct (accumulates_new cZone cAlv zero_time cCert [] []) as (t & Et & Hacc); [constructor..|]. change (chain []) with [GetEmptyContent] in Et, Hacc.
  change (mkDSLeafContent GetNegativeInfinityZone GetPositiveInfinityZone) with GetEmptyContent. rewrite Et. cbn [mbind outcome_bind].
  destruct (store_dsa_ok db1 cZone _ [] Hacc) as (dsa2 & db2 & -> & Ha2 & Hk & Hd2). cbn [mbind outcome_bind].
  do 2 eexists. split; [reflexivity|]. split_and!.
  - exists dsa1. split; [|done]. unfold find_dsa. cbn [zoneToDSA]. by rewrite lookup_insert_ne, lookup_insert_eq.
  - exists dsa2. split; [|done]. unfold find_dsa. cbn [zoneToDSA]. by rewrite lookup_insert_eq.
  - destruct (Hd1 NewDSALog) as (x & Hx & Hx'); [done|]. exists x. split; [|done]. unfold find_dsa in *. by rewrite Hk.
  - by apply Hd2.
Qed.



(** The absence of a delegated zone can be proved.  The accumulator of a zone that was
    itself added as a child contains the interval around all names, which stays when the
    first delegation is added: the log proves the presence of the delegation, and under the
    same root there is a genuine proof of its absence. *)
Theorem delegated_zone_can_be_denied victim d db pZone pAlv pCert exp cZone cAlv cCert dsa :
  trimmed victim d !! pZone = Some dsa → accumulates dsa [] → pZone ≠ cZone → cZone ≠ ""%string →
  ∃ d' db' dsp p, AddDelegationStatus victim d db pZone pAlv pCert exp cZone cAlv cCert = Ok (d', db', None) ∧
    DSProofRet d' db' pZone cZone ProofOfPresence = Ok dsp ∧
    let root := Roothash (dsDacc (dspDsum dsp)) in
    genuine root (dspProof dsp) ∧ fits (dspProof dsp) cZone ∧ Ptype p = ProofOfAbsence ∧ genuine root p ∧ fits p cZone.
Proof.
  intros Hd (Hs & _ & _ & _) Hne Hc. set (z := mkDSLeafZone cZone cAlv ExistingZone). set (cs := GetEmptyContent :: chain [z]).
  destruct (NewTree_ok cs) as (t & Et & Hm & _); [done|].
  destruct (store_dsa_tree db pZone (mkDSA (dsaZone dsa) (dsaAlv dsa) (dsaExp dsa) (dsaCert dsa) t cs (dsaSignature dsa)) cs Hm)
    as (t1 & _ & db1 & E1 & Hm1 & _).
  destruct (accumulates_new cZone cAlv zero_time cCert [] []) as (t' & Et' & Hacc); [constructor..|].
  destruct (store_dsa_ok db1 cZone _ [] Hacc) as (dsa2 & db2 & E2 & _).
  assert (AddDelegationStatus victim d db pZone pAlv pCert exp cZone cAlv cCert = Ok (mkDSALog (<[cZone := dsa2]> (<[pZone := set_acc
    (mkDSA (dsaZone dsa) (dsaAlv dsa) (dsaExp dsa) (dsaCert dsa) t cs (dsaSignature dsa)) t1]> (trimmed victim d))) (dsT d), db2, None)) as E.
  { unfold AddDelegationStatus. fold (trimmed victim d). fold z. rewrite Hd, Hs. change (InsertNewDSLeafZone (chain []) z) with (Ok cs).
    cbn [mbind outcome_bind]. change (RebuildTreeWith (dsaAcc dsa) cs) with (NewTree cs). rewrite Et. cbn [mbind outcome_bind].
    rewrite E1. cbn [mbind outcome_bind].
    change [mkDSLeafContent GetNegativeInfinityZone GetPositiveInfinityZone] with (chain []). rewrite Et'. cbn [mbind outcome_bind].
    by rewrite E2. }
  destruct (path_of_genuine t1 cs GetEmptyContent ProofOfAbsence Hm1) as (p & _ & Hp1 & Hp2 & Hp3 & _); [by left|].
  destruct (presence_found t1 cs (mkDSLeafContent z GetPositiveInfinityZone) cZone Hm1) as (q & Eq & Gq & Fq); [by right; right; left|done|].
  eexists _, _, _, p. split; [exact E|]. unfold DSProofRet, find_dsa. cbn [zoneToDSA].
  rewrite lookup_insert_ne, lookup_insert_eq by done. cbn [mbind outcome_bind set_acc dsaAcc]. cbn [Z.eqb ProofOfPresence].
  rewrite Eq. cbn [mbind outcome_bind]. split; [reflexivity|]. cbn [dspDsum dspProof]. 
  assert (Roothash (dsDacc (GetDSum (set_acc (mkDSA (dsaZone dsa) (dsaAlv dsa) (dsaExp dsa) (dsaCert dsa) t cs (dsaSignature dsa)) t1))) = MerkleRoot t1)
    as -> by (symmetry; apply Hm1).
  split_and!; [done|done|done|done|]. right. split; [done|]. by rewrite Hp1.
Qed.
End Log.

(** ** Witnesses *)

#[local] Instance DSLeafZone_countable : Countable DSLeafZone.
Proof. refine (inj_countable' (λ z, (zZone z, zAlv z, zZoneType z)) (λ '(a, b, c), mkDSLeafZone a b c) _). by intros []. Defined.
#[local] Instance DSLeafContent_countable : Countable DSLeafContent.
Proof. refine (inj_countable' (λ c, (dStart c, dEnd c)) (λ '(a, b), mkDSLeafContent a b) _). by intros []. Defined.
#[local] Instance VNode_eq_dec : EqDecision VNode.
Proof. solve_decision. Defined.
Fixpoint to_tree (v : VNode) : gen_tree (bool * bool * list Z * DSLeafContent) :=
  match v with VNil => GenNode 0 [] | VNodeOf a b h c l r => GenNode 1 [GenLeaf (a, b, h, c); to_tree l; to_tree r] end.
Fixpoint of_tree (t : gen_tree (bool * bool * list Z * DSLeafContent)) : VNode :=
  match t with GenNode 1 [GenLeaf (a, b, h, c); l; r] => VNodeOf a b h c (of_tree l) (of_tree r) | _ => VNil end.
#[local] Instance VNode_countable : Countable VNode.
Proof. refine (inj_countable' to_tree of_tree _). induction x; cbn; congruence. Defined.
#[local] Instance DSAVal_eq_dec : EqDecision DSAVal.
Proof. solve_decision. Defined.
#[local] Instance DSAVal_countable : Countable DSAVal.
Proof.
  refine (inj_countable' (λ v, (valZone v, valAlv v, valExp v, valCert v, valRoot v, valMerkleRoot v, valSubzones v, valSignature v))
    (λ '(a, b, c, d, e, f, g, h), mkDSAVal a b c d e f g h) _). by intros [].
Defined.
(** An accumulator as one number. *)
Definition toy_codec : DsaCodec := {|
  dsa_Marshal v := Ok [Zpos (countable.encode v)];
  dsa_Unmarshal b := match b with [Zpos p] => or_err (countable.decode p) "malformed" | _ => Err "malformed"%string end
|}.
Lemma toy_codec_laws : @DsaCodecLaws toy_codec.
Proof. constructor. intros v. eexists. split; [reflexivity|]. cbn -[countable.encode countable.decode]. by rewrite countable.decode_encode. Qed.

Section Example.
Local Open Scope string_scope.
Local Open Scope Z_scope.
Local Existing Instance toy_sha.
Local Existing Instance toy_codec.
Local Existing Instance toy_codec_laws.

(** A log with one and with two delegations of one zone. *)
Definition one_delegation : outcome (DSALog * gmap string (list Z)) :=
  '(d, db, _) ← AddDelegationStatus "" NewDSALog ∅ "ch" 1 [1] 0 "a.ch" 1 [2];
  Ok (d, db).
Definition d1 : DSALog := match one_delegation with Ok (d, _) => d | _ => NewDSALog end.
Definition db1 : gmap string (list Z) := match one_delegation with Ok (_, db) => db | _ => ∅ end.
Definition two_delegations : outcome (DSALog * gmap string (list Z)) :=
  '(d, db) ← one_delegation;
  '(d, db, _) ← AddDelegationStatus "" d db "ch" 1 [1] 0 "b.ch" 1 [3];
  Ok (d, db).
Definition db2 : gmap string (list Z) := match two_delegations with Ok (_, db) => db | _ => ∅ end.



(** The zone a.ch delegates for the first time. *)
Lemma delegated_zone_can_be_denied_witness :
  ∃ d' db' dsp p, AddDelegationStatus "" d1 db1 "a.ch" 1 [2] 0 "x.a.ch" 1 [5] = Ok (d', db', None) ∧
    DSProofRet d' db' "a.ch" "x.a.ch" ProofOfPresence = Ok dsp ∧ Ptype p = ProofOfAbsence ∧
    genuine (Roothash (dsDacc (dspDsum dsp))) p ∧ fits p "x.a.ch".
Proof.
  destruct (AddDelegationStatus_ok "" NewDSALog ∅ "ch" 1 [1] 0 "a.ch" 1 [2] []) as (d & db & E & _ & (dsa & Ef & Ha) & _);
    [reflexivity|discriminate|].
  unfold d1, db1, one_delegation. rewrite E. cbn [mbind outcome_bind].
  assert (trimmed "" d !! "a.ch" = Some dsa) as Ed.
  { assert (d = d1) as -> by (unfold d1, one_delegation; rewrite E; reflexivity).
    assert (trimmed "" d1 = zoneToDSA d1) as -> by (unfold trimmed; by replace (CACHE_MAX_SIZE <? _) with false by (vm_compute; reflexivity)).
    destruct (zoneToDSA d1 !! "a.ch") as [dsa'|] eqn:Ed; [|vm_compute in Ed; discriminate Ed].
    unfold find_dsa in Ef. rewrite Ed in Ef. by injection Ef as ->. }
  destruct (delegated_zone_can_be_denied "" d db "a.ch" 1 [2] 0 "x.a.ch" 1 [5] dsa Ed Ha) as (d' & db' & dsp & p & H1 & H2 & _ & _ & H3);
    [discriminate|discriminate|]. exists d', db', dsp, p. split; [exact H1|]. split; [exact H2|exact H3].
Defined.
End Example.
