(* ===== verification/RhineServers.v ===== *)
(** * The servers of the delegation protocol

    Models the operations of src/offlineauth/rhine/aggManager.go, authorityManager.go,
    loggerManager.go and zoneManager.go, and the handlers of the four servers in
    src/offlineauth/components: the parent approves the request of a child; the authority
    checks it with the logs, has it witnessed and confirmed, and issues the certificate.

    The handler of the authority calls other servers: it is a function of their state [W],
    over an interface that says nothing about their answers.  A panic in a handler stops its
    server; the caller sees an error.  Reading configurations and opening stores is left
    out. *)

From S2P Require Import Prelude Cbor Keys Object Query BitArray BloomFilter Section Merkle MerkleFacts RhineTree Rhine RhineLog.
Local Open Scope string_scope.
Local Open Scope Z_scope.

(** ** Encodings *)

(** CBOR and gob.  [dsp_Decode] is what is left in the result after decoding, since its error
    is dropped. *)
Class RhineCodec := {
  nds_Marshal : Nds → outcome (list Z);
  nds_Unmarshal : list Z → outcome Nds;
  confirm_Marshal : Confirm → outcome (list Z);
  confirm_Unmarshal : list Z → outcome Confirm;
  dsp_Encode : Dsp → outcome (list Z);
  dsp_Decode : list Z → Dsp
}.

(** Their contract. *)
Class RhineCodecLaws `{RhineCodec} : Prop := {
  nds_roundtrip n : ∃ b, nds_Marshal n = Ok b ∧ nds_Unmarshal b = Ok n;
  confirm_roundtrip c : ∃ b, confirm_Marshal c = Ok b ∧ confirm_Unmarshal b = Ok c;
  dsp_roundtrip d : ∃ b, dsp_Encode d = Ok b ∧ dsp_Decode b = d
}.

Section Encodings.
Context {CD : RhineCodec}.

(** An error gives a nil pointer without an error: [None]. *)
Definition BytesToNds (byt : list Z) : option Nds := match nds_Unmarshal byt with Ok n => Some n | _ => None end.
Definition TransportBytesToConfirm (byt : list Z) : option Confirm := match confirm_Unmarshal byt with Ok c => Some c | _ => None end.
Definition NdsToBytes (n : Nds) : outcome (list Z) := nds_Marshal n.
Definition ConfirmToTransportBytes (c : Confirm) : outcome (list Z) := confirm_Marshal c.
(** The loops that dereference what they decode. *)
Definition decode_confirms (l : list (list Z)) : outcome (list Confirm) :=
  traverse (λ b, or_panic (TransportBytesToConfirm b) "nil pointer dereference") l.
End Encodings.

Section Servers.
Context {RC : RhineCrypto} {SL : Sha256Lib} {ED : Ed25519Lib} {CT : CtLib} {DC : DsaCodec} {CD : RhineCodec}.

(** ** zoneManager.go *)

Record ZoneManager := mkZoneManager {
  zmZone : ZoneOwner;
  zmPrivkey : RPrivKey;
  Rcert : option Cert;
  zmLogMap : gmap string Log;
  zmAggMap : gmap string Agg;
  zmLogList : list string;
  zmAggList : list string;
  zmCa : Authority;
  zmCaCert : option Cert;
  zmDB : gmap string (list Z)
}.

Definition CreateSignedCSR (now : Z) (zm : ZoneManager) (authlevel : AuthorityLevel) (exp : Z) (ca : Authority) (logs : list string) (revo : Z)
    : outcome Csr :=
  csr ← createRID now (mkCsr (zmZone zm) ca logs authlevel exp emptyRequest revo [] [] NoKey);
  Csr_Sign csr (zmPrivkey zm).

(** The approval: a signature over the request, whose error is dropped. *)
Definition CreatePSR (csr : Csr) (privatekey : RPrivKey) : RhineSig := (RhineSig_Sign (newRhineSig (signedcsr csr)) privatekey).1.

(** The request, the approval and the certificate of the parent. *)
Definition VerifyChildCSR (zm : ZoneManager) (rawcsr : list Z) : outcome (Csr * RhineSig * list Z) :=
  csr ← VerifyCSR rawcsr;
  let childName := nmName (csrZone csr) in
  let parentName := GetParentZone childName in
  if (parentName =ₛ "") || HasSuffix childName ("." +:+ parentName) then
    cert ← or_panic (Rcert zm) "nil pointer dereference";
    Ok (csr, CreatePSR csr (zmPrivkey zm), certRaw cert)
  else
    let get key := or_err (zmDB zm !! key) "Not a child zone of this parent" in
    pcerti ← get ("PARENTCERT_" +:+ parentName);
    privatekeyparent ← get ("PARENTSK_" +:+ parentName);
    pKey ← get ("CHILDPK_" +:+ childName);
    if negb (EqualKeys (EdKey pKey) (csrPkey csr)) then Err "Public key on parent server did not match CSR public key"
    else Ok (csr, CreatePSR csr (EdPriv privatekeyparent), pcerti).

(** parentserver.go: the approval and the certificate. *)
Definition InitDelegation (zm : ZoneManager) (csr : list Z) : outcome (RhineSig * list Z) :=
  '(_, psr, parentcert) ← VerifyChildCSR zm csr; Ok (psr, parentcert).

(** ** aggManager.go *)

Record AggManager := mkAggManager {
  amAgg : Agg;
  amPrivkey : RPrivKey;
  amLogMap : gmap string Log;
  amCa : Authority;
  amDsalog : DSALog;
  amDB : gmap string (list Z)
}.

Definition AcceptNDSAndStore (a : AggManager) (n : Nds) : outcome Confirm :=
  CreateConfirm 0 n (nmName (amAgg a)) (ConstructDSum n) (amPrivkey a).

(** agg_server.go; [Lwit] is also the form of a log witness on the wire. *)
Definition SubmitNDS (a : AggManager) (nds : list Z) (lwits : list Lwit) : outcome (list Z) :=
  nds ← or_panic (BytesToNds nds) "nil pointer dereference";
  _ ← VerifyNDS nds (nmPubkey (amCa a));
  if negb (VerifyLwitSlice lwits (amLogMap a)) then Err "Aggregator: One of the LogWitness failed verification!"
  else if negb (MatchWithLwits nds lwits) then Err "Aggregator: Lwit did not match with NDS"
  else acfm ← AcceptNDSAndStore a nds; ConfirmToTransportBytes acfm.
Definition DSRetrieval (a : AggManager) (zones : list string) : outcome (list (list Z) * list (list Z)) :=
  DSRetrieve zones (amPrivkey a) (amDB a).

(** ** loggerManager.go *)

Record RememberRequest := mkRememberRequest { rrRid : list Z; rrNDS : Nds; PreRCc : Cert; ParentCert : Cert }.
Record LogManager := mkLogManager {
  lmLog : Log;
  lmPrivkey : RPrivKey;
  lmCertPool : CertPool;
  lmLogMap : gmap string Log;
  lmAggMap : gmap string Agg;
  lmAggList : list string;
  lmCa : Authority;
  lmDsalog : DSALog;
  RequestCache : gmap (list Z) RememberRequest;
  lmDB : gmap string (list Z)
}.
Definition set_requests (lm : LogManager) (m : gmap (list Z) RememberRequest) : LogManager :=
  mkLogManager (lmLog lm) (lmPrivkey lm) (lmCertPool lm) (lmLogMap lm) (lmAggMap lm) (lmAggList lm) (lmCa lm) (lmDsalog lm) m (lmDB lm).
Definition set_db (lm : LogManager) (db : gmap string (list Z)) : LogManager :=
  mkLogManager (lmLog lm) (lmPrivkey lm) (lmCertPool lm) (lmLogMap lm) (lmAggMap lm) (lmAggList lm) (lmCa lm) (lmDsalog lm) (RequestCache lm) db.

(** The error of signing is dropped. *)
Definition DSProof (lm : LogManager) (pzone czone : string) : outcome Dsp :=
  dsp ← DSProofRet (lmDsalog lm) (lmDB lm) pzone czone ProofOfAbsence; Ok (Dsp_Sign dsp (lmPrivkey lm)).1.

Definition VerifyNewDelegationRequestLog (lm : LogManager) (rcertp : Cert) (acsr : RhineSig) (precert : Cert) (nds : option Nds)
    : outcome (LogManager * Lwit) :=
  psr ← Psr_Verify acsr rcertp (lmCertPool lm);
  dsp ← DSProof lm (ParentZone psr) (ChildZone psr);
  ok ← Dsp_Verify dsp (nmPubkey (lmLog lm)) (ChildZone psr) rcertp (GetAlFromCSR psr);
  if negb ok then Err "Verification of DSP failed / Checks against it failed"
  else
    _ ← CheckRCertValid precert (lmCertPool lm);
    ok ← CheckAgainstCert (psrCsr psr) precert;
    if negb ok then Err "PreCert and CSR not matching."
    else
      nds ← or_panic nds "nil pointer dereference";
      if negb (CheckAgainstCSR nds (psrCsr psr)) then Err "Failed check of NDS against CSR at log"
      else
        _ ← VerifyNDS nds (nmPubkey (lmCa lm));
        lwit ← CreateLwit nds (lmLog lm) (csrLogs (psrCsr psr)) (lmPrivkey lm);
        let rid := csrRid (psrCsr psr) in
        Ok (set_requests lm (<[rid := mkRememberRequest rid nds precert rcertp]> (RequestCache lm)), lwit).

(** The accumulators of an aggregator replace those in the store, up to the first that cannot
    be read. *)
Fixpoint add_payload (payload : list (list Z)) (db : gmap string (list Z)) : gmap string (list Z) :=
  match payload with
  | [] => db
  | b :: payload' => match dsa_Unmarshal b with Ok v => add_payload payload' (<[valZone v := b]> db) | _ => db end
  end.

(** The backend of the log: a timestamp, marshalled; [None] for nil. *)
Class CtBackend := { SendPreCertToLogBackend : list (list Z) → outcome (option (list Z)) }.
Context {CB : CtBackend}.

(** [retrieved] is the answer of the first aggregator; an error ends the program. *)
Definition FinishInitialDelegLog (retrieved : outcome (list (list Z))) (lm : LogManager) (dsum : DSum) (nds : Nds) (preRCChild : Cert)
    : outcome (LogManager * Confirm * list Z) :=
  aggc ← CreateConfirm 1 nds (nmName (lmLog lm)) dsum (lmPrivkey lm);
  sct ← SendPreCertToLogBackend [certRaw preRCChild];
  sctbytes ← or_err sct "No SCT received from Backend.";
  match lmAggList lm with
  | [] => Panic "index out of range"
  | _ => match retrieved with Ok payload => Ok (set_db lm (add_payload payload (lmDB lm)), aggc, sctbytes) | _ => Panic "No response from Aggregator" end
  end.

(** log_server.go *)
Definition log_DSProofRet (lm : LogManager) (parentzone childzone : string) : outcome (list Z) :=
  dsp ← DSProof lm parentzone childzone; dsp_Encode dsp.
Definition DemandLogging (lm : LogManager) (acsr : RhineSig) (parentRcert childPreRC nds : list Z) : outcome (LogManager * Lwit) :=
  rcertp ← ParseCertificate parentRcert;
  prercp ← ParseCertificate childPreRC;
  VerifyNewDelegationRequestLog lm rcertp acsr prercp (BytesToNds nds).
(** The confirmation of the log and the timestamp.  An error of encoding is dropped. *)
Definition SubmitACFM (retrieved : outcome (list (list Z))) (lm : LogManager) (acfms : list (list Z)) (rid : list Z)
    : outcome (LogManager * list Z * list Z) :=
  aggConfirmList ← decode_confirms acfms;
  match RequestCache lm !! rid with
  | None => Err "Wrong RID on this Request"
  | Some rq =>
      if negb (MatchWithConfirm (rrNDS rq) aggConfirmList) then Err "One of the AggConfirms did not match the NDS"
      else if negb (VerifyAggConfirmSlice aggConfirmList (lmAggMap lm)) then Err "An AggConfirm was not correctly signed"
      else
        first ← at_index aggConfirmList 0;
        _ ← at_index (certDNSNames (ParentCert rq)) 0;
        '(lm, loggconf, sct) ← FinishInitialDelegLog retrieved lm (cfDsum first) (rrNDS rq) (PreRCc rq);
        Ok (lm, match ConfirmToTransportBytes loggconf with Ok b => b | _ => [] end, sct)
  end.

(** ** authorityManager.go *)

Record Ca := mkCa {
  caPrivateKey : RPrivKey;
  CACertificate : option Cert;
  caCertPool : CertPool;
  caLogMap : gmap string Log;
  caAggMap : gmap string Agg;
  caAggList : list string
}.
Definition KeyUsageDigitalSignature : Z := 1.

Definition VerifyNewDelegationRequest (myca : Ca) (rcertp : Cert) (acsr : RhineSig) : outcome Psr :=
  Psr_Verify acsr rcertp (caCertPool myca).

(** The certificate that a template gives, or nil: errors are dropped. *)
Definition create_and_parse (template parent : Cert) (pub : RPubKey) (priv : RPrivKey) : option Cert :=
  match ParseCertificate (match CreateCertificate template parent pub priv with Ok b => b | _ => [] end) with Ok c => Some c | _ => None end.

(** The name is the first DNS name of the request. *)
Definition CreatePoisonedCert (now : Z) (myca : Ca) (psr : Psr) : outcome (option Cert) :=
  caCert ← or_panic (CACertificate myca) "nil pointer dereference";
  let req := csrCsr (psrCsr psr) in
  name ← at_index (reqDNSNames req) 0;
  let template := mkX509Cert [] [] true NoKey (certIssuer caCert) (reqSubject req) 897 now (csrExp (psrCsr psr))
                    KeyUsageDigitalSignature [name] [] in
  Ok (create_and_parse template caCert (reqPublicKey req) (caPrivateKey myca)).

Definition CreateNDS (myca : Ca) (psr : Psr) (certC : option Cert) : outcome Nds :=
  certC ← or_panic certC "nil pointer dereference";
  let csr := psrCsr psr in
  Nds_Sign (mkNds (mkNdsToSign (csrLogs csr) (caAggList myca) (csrZone csr) (csrAl csr) (ExtractTbsRCAndHash certC) (csrExp csr))
              (newRhineSig [])) (caPrivateKey myca).

Definition IssueRHINECert (myca : Ca) (precert : Cert) (psr : Psr) (sct : list (list Z)) : outcome (option Cert) :=
  caCert ← or_panic (CACertificate myca) "nil pointer dereference";
  let template := mkX509Cert [] [] false NoKey (certIssuer precert) (certSubject precert) (certSerialNumber precert)
                    (certNotBefore precert) (certNotAfter precert) (certKeyUsage precert) (certDNSNames precert) sct in
  Ok (create_and_parse template caCert (reqPublicKey (csrCsr (psrCsr psr))) (caPrivateKey myca)).

(** ** ca_server.go *)

(** The other servers: [W] is their state, a name is the address of one of them. *)
Class RhineNet (W : Type) := {
  call_DSProofRet : string → string → string → W → W * outcome (list Z);       (* log, parent and child zone *)
  call_DemandLogging : string → RhineSig → list Z → list Z → list Z → W → W * outcome Lwit;
  call_SubmitNDS : string → list Z → list Lwit → W → W * outcome (list Z);
  call_SubmitACFM : string → list (list Z) → list Z → W → W * outcome (list Z * list Z)
}.
Context {W : Type} {RN : RhineNet W}.

Definition rpcM (A : Type) : Type := W → W * outcome A.
#[export] Instance rpcM_ret : MRet rpcM := λ A a w, (w, Ok a).
#[export] Instance rpcM_bind : MBind rpcM := λ A B f m w,
  match m w with (w, Ok a) => f a w | (w, Err e) => (w, Err e) | (w, Panic e) => (w, Panic e) end.
Definition lift {A} (m : outcome A) : rpcM A := λ w, (w, m).
(** [f] for each element in order. *)
Fixpoint for_each {A B} (f : A → rpcM B) (l : list A) : rpcM (list B) :=
  match l with [] => mret [] | a :: l' => b ← f a; bs ← for_each f l'; mret (b :: bs) end.

(** One log: its proof is checked against the parent and the level of the child. *)
Definition check_log (myca : Ca) (psr : Psr) (rcertp : Cert) (logger : string) : rpcM Dsp :=
  bytes ← call_DSProofRet logger (ParentZone psr) (ChildZone psr);
  let dsp := dsp_Decode bytes in
  ok ← lift (Dsp_Verify dsp (key_of (caLogMap myca) logger) (ChildZone psr) rcertp (GetAlFromCSR psr));
  if ok : bool then mret dsp else lift (Err "Verification of DSP and check against it failed!").

(** The witnesses of the designated logs, the confirmations of the aggregators and those of
    the logs with their timestamps; a confirmation is kept as it was received. *)
Definition collect_lwits (acsr : RhineSig) (rcertpBytes preRC ndsBytes : list Z) (logs : list string) : rpcM (list Lwit) :=
  for_each (λ logger, call_DemandLogging logger acsr rcertpBytes preRC ndsBytes) logs.
Definition collect_agg_confirms (ndsBytes : list Z) (lwits : list Lwit) (aggs : list string) : rpcM (list (Confirm * list Z)) :=
  for_each (λ aggregat,
    b ← call_SubmitNDS aggregat ndsBytes lwits;
    c ← lift (or_panic (TransportBytesToConfirm b) "nil pointer dereference");
    mret (c, b)) aggs.
Definition collect_log_confirms (acfms : list (list Z)) (rid : list Z) (logs : list string) : rpcM (list (Confirm * list Z * list Z)) :=
  for_each (λ logger,
    '(lcfm, sct) ← call_SubmitACFM logger acfms rid;
    c ← lift (or_panic (TransportBytesToConfirm lcfm) "nil pointer dereference");
    mret (c, lcfm, sct)) logs.

(** The certificate and the confirmations of the logs. *)
Definition SubmitNewDelegCA (now : Z) (myca : Ca) (acsrData acsrSig rcertpBytes rid : list Z) : rpcM (list Z * list (list Z)) :=
  let acsr := mkRhineSig ED25519 acsrData acsrSig None in
  rcertp ← lift (ParseCertificate rcertpBytes);
  psr ← lift (VerifyNewDelegationRequest myca rcertp acsr);
  _ ← for_each (check_log myca psr rcertp) (GetLogs psr);
  preRC ← lift (CreatePoisonedCert now myca psr);
  nds ← lift (CreateNDS myca psr preRC);
  preRC ← lift (or_panic preRC "nil pointer dereference");
  ndsBytes ← lift (NdsToBytes nds);
  lwits ← collect_lwits acsr rcertpBytes (certRaw preRC) ndsBytes (GetLogs psr);
  if negb (VerifyLwitSlice lwits (caLogMap myca)) then lift (Err "One of the LogWitness failed verification!")
  else if negb (MatchWithLwits nds lwits) then lift (Err "Lwit did not match with NDS")
  else
    aggConfirms ← collect_agg_confirms ndsBytes lwits (ndsAgg (ndsNds nds));
    if negb (MatchWithConfirm nds aggConfirms.*1) then lift (Err "One of the AggConfirms did not match the NDS")
    else if negb (VerifyAggConfirmSlice aggConfirms.*1 (caAggMap myca)) then lift (Err "An AggConfirm was not correctly signed")
    else
      logConfirms ← collect_log_confirms aggConfirms.*2 rid (GetLogs psr);
      let confirms := (λ x : Confirm * list Z * list Z, x.1.1) <$> logConfirms in
      if negb (VerifyLogConfirmSlice confirms (caLogMap myca)) then lift (Err "A LogConfirm was not correctly signed")
      else
        chilcert ← lift (IssueRHINECert myca preRC psr logConfirms.*2);
        chilcert ← lift (or_panic chilcert "nil pointer dereference");
        caCert ← lift (or_panic (CACertificate myca) "nil pointer dereference");
        _ ← lift (VerifyEmbeddedSCTs chilcert caCert (key_of (caLogMap myca) <$> GetLogs psr));
        mret (certRaw chilcert, (λ x : Confirm * list Z * list Z, x.1.2) <$> logConfirms).
End Servers.

(** ** The whole system *)

Section System.
Context {RC : RhineCrypto} {SL : Sha256Lib} {ED : Ed25519Lib} {CT : CtLib} {DC : DsaCodec} {CD : RhineCodec} {CB : CtBackend}.

(** The logs and the aggregators by their addresses. *)
Record System := mkSystem { sysLogs : gmap string LogManager; sysAggs : gmap string AggManager }.

(** A server that does not exist, or stops, does not answer. *)
Definition answer {A} (m : outcome A) : outcome A := match m with Panic e => Err e | _ => m end.
Definition with_log {A} (name : string) (s : System) (f : LogManager → outcome (LogManager * A)) : System * outcome A :=
  match sysLogs s !! name with
  | None => (s, Err "connection refused")
  | Some lm =>
      match f lm with
      | Ok (lm, a) => (mkSystem (<[name := lm]> (sysLogs s)) (sysAggs s), Ok a)
      | Err e | Panic e => (s, Err e)
      end
  end.
Definition with_agg {A} (name : string) (s : System) (f : AggManager → outcome A) : System * outcome A :=
  (s, match sysAggs s !! name with None => Err "connection refused" | Some a => answer (f a) end).
(** What the first aggregator of a log answers to [DSRetrieval]. *)
Definition retrieve (s : System) (lm : LogManager) : outcome (list (list Z)) :=
  match lmAggList lm with
  | [] => Err "no aggregator"
  | a :: _ => r ← (with_agg a s (λ a, DSRetrieval a [])).2; Ok r.1
  end.

#[export] Instance System_net : RhineNet System := {|
  call_DSProofRet logger pzone czone s := with_log logger s (λ lm, b ← log_DSProofRet lm pzone czone; Ok (lm, b));
  call_DemandLogging logger acsr rcertp preRC nds s := with_log logger s (λ lm, DemandLogging lm acsr rcertp preRC nds);
  call_SubmitNDS aggregat nds lwits s := with_agg aggregat s (λ a, SubmitNDS a nds lwits);
  call_SubmitACFM logger acfms rid s :=
    with_log logger s (λ lm, '(lm', lcfm, sct) ← SubmitACFM (retrieve s lm) lm acfms rid; Ok (lm', (lcfm, sct)))
|}.
End System.
