(* ===== verification/RhineToy.v ===== *)
(** * Concrete libraries for the delegation protocol

    Instances of the interfaces that the protocol uses, on which it can be run: a hash
    function without collisions, an encoding of all structures as sequences of numbers, and
    certificates and requests that are encoded structures with a signature.  Their contracts
    are proved. *)

From S2P Require Import Prelude Cbor Keys Merkle MerkleFacts RhineTree Rhine RhineLog RhineStore RhineLogFacts RhineServers.
Local Open Scope string_scope.
Local Open Scope Z_scope.

(** ** Hashing *)

Definition ideal_sha : Sha256Lib := {| sha256_Sum256 b := (replicate 31 0 ++ [Zpos (countable.encode b)])%list |}.
Lemma ideal_sha_laws : @Sha256Laws ideal_sha.
Proof. split. intros b. cbn [ideal_sha sha256_Sum256]. by rewrite length_app, length_replicate. Qed.
Lemma ideal_sha_inj x y : @sha256_Sum256 ideal_sha x = @sha256_Sum256 ideal_sha y → x = y.
Proof. cbn [ideal_sha sha256_Sum256]. intros [= E]%app_inv_head. by apply (inj countable.encode). Qed.

(** ** Encodings *)

(** Writing a value in front of a sequence, and reading it off. *)
Record coding (A : Type) := mkCoding { put : A → list Z; get : list Z → option (A * list Z) }.
Arguments mkCoding {A}.
Arguments put {A} _ _.
Arguments get {A} _ _.
Class Coded {A} (c : coding A) : Prop := get_put a r : get c (put c a ++ r)%list = Some (a, r).

Definition cZ : coding Z := mkCoding (λ z, [z]) (λ b, match b with z :: r => Some (z, r) | [] => None end).
Definition cPair {A B} (c : coding A) (d : coding B) : coding (A * B) :=
  mkCoding (λ p, put c p.1 ++ put d p.2)%list (λ b, '(x, r) ← get c b; '(y, r) ← get d r; Some ((x, y), r)).
Definition cIso {A B} (f : A → B) (g : B → A) (c : coding B) : coding A :=
  mkCoding (λ a, put c (f a)) (λ b, '(x, r) ← get c b; Some (g x, r)).
Fixpoint get_n {A} (c : coding A) (n : nat) (b : list Z) : option (list A * list Z) :=
  match n with O => Some ([], b) | S n' => '(x, r) ← get c b; '(xs, r) ← get_n c n' r; Some (x :: xs, r) end.
Definition cList {A} (c : coding A) : coding (list A) :=
  mkCoding (λ l, Z.of_nat (length l) :: concat (put c <$> l))
    (λ b, match b with n :: r => get_n c (Z.to_nat n) r | [] => None end).

#[local] Instance cZ_coded : Coded cZ.
Proof. done. Qed.
#[local] Instance cPair_coded {A B} (c : coding A) (d : coding B) : Coded c → Coded d → Coded (cPair c d).
Proof. intros Hc Hd [x y] r. cbn. rewrite <-app_assoc, Hc. cbn. by rewrite Hd. Qed.
#[local] Instance cList_coded {A} (c : coding A) : Coded c → Coded (cList c).
Proof.
  intros Hc l r. cbn. rewrite Nat2Z.id. induction l as [|x l IH]; [done|]. cbn. rewrite <-app_assoc, Hc. cbn. by rewrite IH.
Qed.
Lemma cIso_coded {A B} (f : A → B) (g : B → A) (c : coding B) : Coded c → (∀ a, g (f a) = a) → Coded (cIso f g c).
Proof. intros Hc Hg a r. cbn. rewrite Hc. cbn. by rewrite Hg. Qed.

Definition cBytes : coding (list Z) := cList cZ.
Definition cString : coding string := cIso bytes_of_string string_of_bytes cBytes.
#[local] Instance cString_coded : Coded cString.
Proof.
  apply cIso_coded; [apply _|]. intros s. induction s as [|c s IH]; [done|]. cbn. rewrite IH. f_equal.
  rewrite N2Z.id. apply Ascii.ascii_N_embedding.
Qed.
Definition cBool : coding bool := cIso Z.b2z (λ z, z =? 1) cZ.
#[local] Instance cBool_coded : Coded cBool.
Proof. apply cIso_coded; [apply _|]. by intros []. Qed.
Definition cOption {A} (c : coding A) : coding (option A) := cIso option_list head (cList c).
#[local] Instance cOption_coded {A} (c : coding A) : Coded c → Coded (cOption c).
Proof. intros Hc. apply cIso_coded; [apply _|]. by intros []. Qed.

Definition encode {A} (c : coding A) (a : A) : list Z := put c a.
Definition decode {A} (c : coding A) (b : list Z) : outcome A := match get c b with Some (a, []) => Ok a | _ => Err "malformed" end.
Lemma decode_encode {A} (c : coding A) (a : A) : Coded c → decode c (encode c a) = Ok a.
Proof. intros Hc. unfold decode, encode. rewrite <-(app_nil_r (put c a)). by rewrite Hc. Qed.

(** ** The structures *)

Definition cKey : coding RPubKey :=
  cIso (λ k, match k with NoKey => (0, []) | EdKey k => (1, k) | EdKeyPtr k => (2, k) | RsaKey k => (3, k) | OtherKey => (4, []) end)
    (λ '(n, k), if n =? 0 then NoKey else if n =? 1 then EdKey k else if n =? 2 then EdKeyPtr k else if n =? 3 then RsaKey k else OtherKey)
    (cPair cZ cBytes).
#[local] Instance cKey_coded : Coded cKey.
Proof. apply cIso_coded; [apply _|]. by intros []. Qed.
Definition cNamed : coding Named := cIso (λ n, (nmName n, nmPubkey n)) (λ '(a, b), mkNamed a b) (cPair cString cKey).
#[local] Instance cNamed_coded : Coded cNamed.
Proof. apply cIso_coded; [apply _|]. by intros []. Qed.
Definition cSig : coding RhineSig :=
  cIso (λ s, (rsAlgorithm s, rsData s, rsSignature s, rsDataPostfix s)) (λ '(a, b, c, d), mkRhineSig a b c d)
    (cPair (cPair (cPair cZ cBytes) cBytes) (cOption cBytes)).
#[local] Instance cSig_coded : Coded cSig.
Proof. apply cIso_coded; [apply _|]. by intros []. Qed.
Definition cDSum : coding DSum :=
  cIso (λ d, (daZone (dsDacc d), Roothash (dsDacc d), dsAlv d, dsCert d, dsExp d)) (λ '(a, b, c, d, e), mkDSum (mkDAcc a b) c d e)
    (cPair (cPair (cPair (cPair cString cBytes) cZ) cBytes) cZ).
#[local] Instance cDSum_coded : Coded cDSum.
Proof. apply cIso_coded; [apply _|]. by intros [[]]. Qed.
Definition cLeafZone : coding DSLeafZone :=
  cIso (λ z, (zZone z, zAlv z, zZoneType z)) (λ '(a, b, c), mkDSLeafZone a b c) (cPair (cPair cString cZ) cZ).
#[local] Instance cLeafZone_coded : Coded cLeafZone.
Proof. apply cIso_coded; [apply _|]. by intros []. Qed.
Definition cProof : coding MPathProof :=
  cIso (λ p, (Path p, Index p, dStart (Lcontent p), dEnd (Lcontent p), Ptype p)) (λ '(a, b, c, d, e), mkMPathProof a b (mkDSLeafContent c d) e)
    (cPair (cPair (cPair (cPair (cList cBytes) cBytes) cLeafZone) cLeafZone) cZ).
#[local] Instance cProof_coded : Coded cProof.
Proof. apply cIso_coded; [apply _|]. by intros [? ? [] ?]. Qed.
Definition cDsp : coding Dsp :=
  cIso (λ d, (dspDsum d, EpochT d, dspSig d, dspProof d)) (λ '(a, b, c, d), mkDsp a b c d) (cPair (cPair (cPair cDSum cZ) cSig) cProof).
#[local] Instance cDsp_coded : Coded cDsp.
Proof. apply cIso_coded; [apply _|]. by intros []. Qed.
Definition cNds : coding Nds :=
  cIso (λ n, let d := ndsNds n in (ndsLog d, ndsAgg d, ndsZone d, ndsAl d, TbsCert d, ndsExp d, Signednds n))
    (λ '(a, b, c, d, e, f, g), mkNds (mkNdsToSign a b c d e f) g)
    (cPair (cPair (cPair (cPair (cPair (cPair (cList cString) (cList cString)) cNamed) cZ) cBytes) cZ) cSig).
#[local] Instance cNds_coded : Coded cNds.
Proof. apply cIso_coded; [apply _|]. by intros [[]]. Qed.
Definition cConfirm : coding Confirm :=
  cIso (λ c, (cfRsig c, cfNdsHashBytes c, cfDsum c, cfEntityName c, AggOrLog c)) (λ '(a, b, c, d, e), mkConfirm a b c d e)
    (cPair (cPair (cPair (cPair cSig cBytes) cDSum) cString) cZ).
#[local] Instance cConfirm_coded : Coded cConfirm.
Proof. apply cIso_coded; [apply _|]. by intros []. Qed.

Definition zeroDsp : Dsp := mkDsp (mkDSum (mkDAcc "" []) 0 [] 0) 0 (newRhineSig []) (mkMPathProof [] [] zeroContent 0).
Definition toy_rhine_codec : RhineCodec := {|
  nds_Marshal n := Ok (encode cNds n);
  nds_Unmarshal := decode cNds;
  confirm_Marshal c := Ok (encode cConfirm c);
  confirm_Unmarshal := decode cConfirm;
  dsp_Encode d := Ok (encode cDsp d);
  dsp_Decode b := match decode cDsp b with Ok d => d | _ => zeroDsp end
|}.
Lemma toy_rhine_codec_laws : @RhineCodecLaws toy_rhine_codec.
Proof.
  split; intros x; eexists; (split; [reflexivity|]); [apply decode_encode, _..|].
  cbn [dsp_Decode toy_rhine_codec]. by rewrite decode_encode by apply _.
Qed.

(** ** Keys and certificates *)

Definition toy_crypto : RhineCrypto := {|
  rsa_SignPSS _ _ := Err "unsupported";
  rsa_VerifyPSS _ _ _ := false;
  MarshalPKCS1PublicKey k := k;
  MarshalPKIXPublicKey k := Ok k;
  ParsePKCS1PublicKey k := Ok k;
  ParsePKIXPublicKey k := Ok (EdKey k);
  time_MarshalBinary t := Ok [t]
|}.

(** The signed part of a certificate: whether it is poisoned, the key, the issuer, the
    subject, the serial number, the period, the usage, the names and the timestamps. *)
Abbreviation Tbs := (bool * RPubKey * string * string * (Z * Z * Z * Z) * list string * list (list Z))%type (only parsing).
Definition cTbs : coding Tbs :=
  cPair (cPair (cPair (cPair (cPair (cPair cBool cKey) cString) cString) (cPair (cPair (cPair cZ cZ) cZ) cZ)) (cList cString)) (cList cBytes).
Definition cSigned : coding (list Z * list Z) := cPair cBytes cBytes.

Section Ct.
Local Existing Instance toy_ed25519.

Definition toy_tbs (poison : bool) (key : RPubKey) (issuer : string) (c : X509Cert string) : Tbs :=
  (poison, key, issuer, certSubject c, (certSerialNumber c, certNotBefore c, certNotAfter c, certKeyUsage c), certDNSNames c, certSCTList c).
Definition toy_signed (priv : RPrivKey) (b : list Z) : outcome (list Z) :=
  match priv with EdPriv sk => Ok (encode cSigned (b, ed25519_Sign sk b)) | _ => Err "unsupported key" end.
Definition toy_parse (b : list Z) : outcome (X509Cert string) :=
  '(tbs, _) ← decode cSigned b;
  '(poison, key, issuer, subject, (serial, nb, na, ku), dns, scts) ← decode cTbs tbs;
  Ok (mkX509Cert b tbs poison key issuer subject serial nb na ku dns scts).
Definition toy_verify (k b : list Z) : outcome unit :=
  '(body, s) ← decode cSigned b; if ed25519_Verify k body s then Ok () else Err "invalid signature".
(** A change of the signed part. *)
Definition toy_edit (f : Tbs → option Tbs) (b : list Z) : outcome (list Z) :=
  tbs ← decode cTbs b; tbs ← or_err (f tbs) "extension not present"; Ok (encode cTbs tbs).

Abbreviation Body := (RPubKey * string * list (list Z * bool * list Z) * list string)%type (only parsing).
Definition cBody : coding Body := cPair (cPair (cPair cKey cString) (cList (cPair (cPair cBytes cBool) cBytes))) (cList cString).
Definition toy_parse_request (b : list Z) : outcome (CertificateRequest string) :=
  '(body, _) ← decode cSigned b;
  '(key, subject, exts, dns) ← decode cBody body;
  Ok (mkCertificateRequest b key subject ((λ '(i, c, v), mkExtension i c v) <$> exts) dns).
Definition cExt : coding CsrExt :=
  cIso (λ e, (extZone e, extAl e, extExp e, extRevocation e, extCAuthority e, extLogs e, extRid e)) (λ '(a, b, c, d, e, f, g), mkCsrExt a b c d e f g)
    (cPair (cPair (cPair (cPair (cPair (cPair cNamed cZ) cZ) cZ) cNamed) (cList cString)) cBytes).

(** The pool of roots is one key. *)
Definition toy_ct : CtLib := {|
  PkixName := string;
  CommonName s := s;
  Name_String s := s;
  CertPool := list Z;
  ParseCertificate := toy_parse;
  cert_Verify c roots name _ :=
    _ ← toy_verify roots (certRaw c);
    if (name =ₛ "") || bool_decide (name ∈ certDNSNames c) then Ok () else Err "certificate is not valid for the name";
  CreateCertificate template parent pub priv := toy_signed priv (encode cTbs (toy_tbs (IsPrecertificate template) pub (certSubject parent) template));
  RemoveCTPoison := toy_edit (λ '(p, a, b, c, d, e, f), if p : bool then Some (false, a, b, c, d, e, f) else None);
  RemoveSCTList := toy_edit (λ '(p, a, b, c, d, e, f), match f with [] => None | _ => Some (p, a, b, c, d, e, []) end);
  ParseCertificateRequest := toy_parse_request;
  CheckSignature r := match reqPublicKey r with EdKey k => toy_verify k (reqRaw r) | _ => Err "unsupported key" end;
  CreateCertificateRequest r priv :=
    toy_signed priv (encode cBody (reqPublicKey r, reqSubject r, (λ e, (extId e, extCritical e, extValue e)) <$> reqExtensions r, reqDNSNames r));
  asn1_Marshal e := Ok (encode cExt e);
  asn1_Unmarshal := decode cExt;
  SCT := list Z;
  MerkleTreeLeaf := list Z;
  MerkleTreeLeafForEmbeddedSCT c _ :=
    toy_edit (λ '(p, a, b, c, d, e, f), Some (p, a, b, c, d, e, [])) (RawTBSCertificate c);
  ExtractSCT b := Ok b;
  VerifySCTSignature k sct leaf :=
    match k with EdKey k => if ed25519_Verify k leaf sct then Ok () else Err "invalid signature" | _ => Err "unsupported key" end
|}.
(** A backend that signs with the key [sk]. *)
Definition toy_backend (sk : list Z) : CtBackend := {|
  SendPreCertToLogBackend chain :=
    raw ← at_index chain 0; c ← toy_parse raw;
    tbs ← toy_edit (λ '(_, a, b, c, d, e, f), Some (false, a, b, c, d, e, f)) (RawTBSCertificate c);
    Ok (Some (ed25519_Sign sk tbs))
|}.
End Ct.

(** ** A system of servers *)

Section Scenario.
Local Existing Instance toy_ed25519.
Local Existing Instance ideal_sha.
Local Existing Instance toy_crypto.
Local Existing Instance toy_ct.
Local Existing Instance toy_codec.
Local Existing Instance toy_rhine_codec.

Definition ca_key : list Z := [1].
Definition parent_key : list Z := [2].
Definition log_key : list Z := [3].
Definition agg_key : list Z := [4].
Definition child_key : list Z := [5].
Local Instance log_backend : CtBackend := toy_backend log_key.

(** The certificates of the authority and of the zone ch. *)
Definition no_cert : Cert := mkX509Cert [] [] false NoKey "" "" 0 0 0 0 [] [].
Definition cert_for (name : string) (dns : list string) (key : list Z) : Cert :=
  default no_cert (create_and_parse (mkX509Cert [] [] false NoKey "CA" name 1 0 1000 KeyUsageDigitalSignature dns [])
                     (mkX509Cert [] [] false NoKey "CA" "CA" 1 0 1000 KeyUsageDigitalSignature [] []) (EdKey key) (EdPriv ca_key)).
Definition ca_cert : Cert := cert_for "CA" [] ca_key.
Definition parent_cert : Cert := cert_for "ch" ["ch"] parent_key.

(** A log in which the zone ch has the delegations [names]. *)
Definition delegated (names : list string) : outcome (DSALog * gmap string (list Z)) :=
  foldl (λ r name, '(d, db) ← r; '(d, db, _) ← AddDelegationStatus "" d db "ch" 1 (ExtractTbsRCAndHash parent_cert) 1000 name 1 [0]; Ok (d, db))
    (Ok (NewDSALog, ∅)) names.
Definition the_log : Log := mkNamed "log" (EdKey log_key).
Definition the_agg : Agg := mkNamed "agg" (EdKey agg_key).
Definition the_ca : Authority := mkNamed "ca" (EdKey ca_key).
Definition log_manager (names : list string) : LogManager :=
  let '(d, db) := match delegated names with Ok r => r | _ => (NewDSALog, ∅) end in
  mkLogManager the_log (EdPriv log_key) ca_key {["log" := the_log]} {["agg" := the_agg]} ["agg"] the_ca d ∅ db.
Definition agg_manager (names : list string) : AggManager :=
  let '(d, db) := match delegated names with Ok r => r | _ => (NewDSALog, ∅) end in
  mkAggManager the_agg (EdPriv agg_key) {["log" := the_log]} the_ca d db.
Definition servers (names : list string) : System := mkSystem {["log" := log_manager names]} {["agg" := agg_manager names]}.
Definition the_authority : Ca :=
  mkCa (EdPriv ca_key) (Some ca_cert) ca_key {["log" := the_log]} {["agg" := the_agg]} ["agg"].

(** The manager of a zone. *)
Definition zone_manager (name : string) (key : list Z) (cert : option Cert) : ZoneManager :=
  mkZoneManager (mkNamed name (EdKey key)) (EdPriv key) cert {["log" := the_log]} {["agg" := the_agg]} ["log"] ["agg"] the_ca (Some ca_cert) ∅.

(** The request of the zone [name], and one that asks for the DNS name [dns] in addition. *)
Definition request (name : string) (logs : list string) : outcome Csr :=
  CreateSignedCSR 0 (zone_manager name child_key None) 1 1000 the_ca logs 0.
Definition other_name_request (name dns : string) (logs : list string) : outcome (list Z) :=
  csr ← request name logs;
  ext ← CreateCSRExtension csr;
  CreateCertificateRequest (mkCertificateRequest [] (EdKey child_key) (CommonName dns) [ext] [dns]) (EdPriv child_key).

(** The whole protocol: the parent approves and the authority issues. *)
Definition the_parent : ZoneManager := zone_manager "ch" parent_key (Some parent_cert).
Definition delegate (names : list string) (raw rid : list Z) : outcome (list Z * list (list Z)) :=
  '(approval, cert) ← InitDelegation the_parent raw;
  (SubmitNewDelegCA 0 the_authority (rsData approval) (rsSignature approval) cert rid (servers names)).2.
(** The names of a certificate that is signed by the authority. *)
Definition names_in (r : outcome (list Z * list (list Z))) : outcome (list string) :=
  '(raw, _) ← r; c ← ParseCertificate raw; _ ← cert_Verify c ca_key "" true; Ok (certDNSNames c).

(** The request of a.ch and its approval. *)
Definition the_request : list Z * list Z := match request "a.ch" ["log"] with Ok c => (signedcsr c, csrRid c) | _ => ([], []) end.
Definition the_approval : RhineSig := match InitDelegation the_parent the_request.1 with Ok (s, _) => s | _ => newRhineSig [] end.

End Scenario.

(** The protocol ends with a certificate for the requested zone. *)
Example honest_delegation :
  (csr ← request "a.ch" ["log"]; names_in (delegate ["x.ch"] (signedcsr csr) (csrRid csr))) = Ok ["a.ch"].
Proof. vm_compute. reflexivity. Qed.
(** With the second delegation of the parent it ends without one. *)
Example refused_delegation :
  (csr ← request "a.ch" ["log"]; names_in (delegate ["x.ch"; "y.ch"] (signedcsr csr) (csrRid csr))) =
  Err "Verification of DSP and check against it failed!".
Proof. vm_compute. reflexivity. Qed.
(** Without designated logs no log is asked. *)
Example unlogged_delegation :
  (csr ← request "a.ch" []; names_in (delegate [] (signedcsr csr) (csrRid csr))) = Ok ["a.ch"].
Proof. vm_compute. reflexivity. Qed.
