(* ===== verification/RhineFacts.v ===== *)
(** * Theorems about the delegation protocol

    What the authority has checked when it issues a certificate, which proofs of the logs it
    accepts, what the parent approves, what the signature over a new delegation covers, and
    how the log answers to confirmations. *)

From S2P Require Import Prelude Cbor Keys Object Query BitArray BloomFilter Section Merkle MerkleFacts RhineTree Rhine RhineLog RhineStore RhineLogFacts RhineServers RhineToy.

(** ** Calls *)

Section Calls.
Context {W : Type}.

Lemma rpc_bind_Ok {A B} (m : rpcM A) (f : A → rpcM B) (w w' : W) b :
  (m ≫= f) w = (w', Ok b) → ∃ w1 a, m w = (w1, Ok a) ∧ f a w1 = (w', Ok b).
Proof. unfold mbind, rpcM_bind. destruct (m w) as [w1 [a| |]]; [|done..]. by exists w1, a. Qed.
Lemma lift_Ok {A} (m : outcome A) (w w' : W) a : lift m w = (w', Ok a) → w' = w ∧ m = Ok a.
Proof. unfold lift. by intros [= <- ->]. Qed.
Lemma ret_Ok {A} (a b : A) (w w' : W) : (mret a : rpcM A) w = (w', Ok b) → w' = w ∧ a = b.
Proof. unfold mret, rpcM_ret. by intros [= <- <-]. Qed.
Lemma for_each_Ok {A B} (f : A → rpcM B) l : ∀ (w w' : W) bs, for_each f l w = (w', Ok bs) →
  Forall2 (λ a b, ∃ w1 w2, f a w1 = (w2, Ok b)) l bs.
Proof.
  induction l as [|a l IH]; intros w w' bs H; cbn [for_each] in H.
  - apply ret_Ok in H as [_ <-]. constructor.
  - apply rpc_bind_Ok in H as (w1 & b & Hb & H). apply rpc_bind_Ok in H as (w2 & bs' & Hbs & [_ <-]%ret_Ok).
    constructor; [by eexists _, _|by eapply IH].
Qed.
End Calls.

Lemma foldl_andb {A} (f : A → bool) l b : foldl (λ r x, r && f x) b l = true ↔ b = true ∧ Forall (λ x, f x = true) l.
Proof.
  revert b. induction l as [|x l IH]; intros b; cbn; [naive_solver|]. rewrite IH, Forall_cons, andb_true_iff. tauto.
Qed.

(** One step of an accepted call. *)
Ltac rpc_step :=
  match goal with
  | H : mbind _ _ _ = (_, Ok _) |- _ => apply rpc_bind_Ok in H as (? & ? & ? & H)
  | H : lift _ _ = (_, Ok _) |- _ => apply lift_Ok in H as [? ?]; try done; subst
  | H : mret _ _ = (_, Ok _) |- _ => apply ret_Ok in H as [? ?]; subst
  | H : (if negb ?b then _ else _) _ = (_, Ok _) |- _ => destruct b eqn:?; [cbn [negb] in H|by apply lift_Ok in H as [_ ?]]
  end.

Section Facts.
Context {RC : RhineCrypto} {SL : Sha256Lib} {ED : Ed25519Lib} {CT : CtLib} {DC : DsaCodec} {CD : RhineCodec} {CB : CtBackend}.

(** ** What an accepted proof says *)

(** The signature of the log, the Merkle proof, the certificate of the parent and its
    authority level: independent and able to delegate. *)
Definition attests (pub : RPubKey) (zname : string) (rcertp : Cert) (dsp : Dsp) : Prop :=
  (∃ data, dsp_bytes dsp = Ok data ∧ RhineSig_Verify (mkRhineSig ED25519 data (rsSignature (dspSig dsp)) None) pub = true) ∧
  VerifyMPathProof (dspProof dsp) (Roothash (dsDacc (dspDsum dsp))) zname = Ok true ∧
  dsCert (dspDsum dsp) = ExtractTbsRCAndHash rcertp ∧
  CheckINDSet (dsAlv (dspDsum dsp)) = true ∧ CheckDOLSet (dsAlv (dspDsum dsp)) = false.

Lemma Dsp_Verify_true dsp pub zname rcertp alC : Dsp_Verify dsp pub zname rcertp alC = Ok true ↔ attests pub zname rcertp dsp.
Proof.
  unfold Dsp_Verify, attests, CheckLegalDelegationAuthority. destruct (dsp_bytes dsp) as [data|e|e];
    [|split; [done|intros ((? & [=] & _) & _)]..].
  destruct (RhineSig_Verify _ _) eqn:Es; cbn; [|split; [done|intros ((? & [= <-] & ?) & _); congruence]].
  destruct (VerifyMPathProof _ _ _) as [[]| |]; [|split; [done|by intros (_ & ? & _)]..].
  case_bool_decide; cbn; [|split; [done|by intros (_ & _ & ? & _)]].
  destruct (CheckINDSet _); cbn; [|split; [done|by intros (_ & _ & _ & ? & _)]].
  destruct (CheckDOLSet _); cbn; [split; [done|by intros (_ & _ & _ & _ & ?)]|]. split; [|done]. intros _. split_and!; [|done..]. by exists data.
Qed.

(** ** Issued certificates *)

(** The request is signed by its own key, the parent's certificate leads to a root and is for
    the parent of the requested zone, and its key signed the request. *)
Definition approved (roots : CertPool) (acsr : RhineSig) (rcertp : Cert) (csr : Csr) : Prop :=
  VerifyCSR (rsData acsr) = Ok csr ∧ cert_Verify rcertp roots (GetParentZone (nmName (csrZone csr))) false = Ok () ∧
  RhineSig_Verify acsr (certPublicKey rcertp) = true.
(** What the authority tells the logs and the aggregators. *)
Definition announced (myca : Ca) (csr : Csr) (preRC : Cert) (nds : Nds) : Prop :=
  ndsLog (ndsNds nds) = csrLogs csr ∧ ndsAgg (ndsNds nds) = caAggList myca ∧ ndsZone (ndsNds nds) = csrZone csr ∧
  ndsAl (ndsNds nds) = csrAl csr ∧ TbsCert (ndsNds nds) = ExtractTbsRCAndHash preRC ∧ ndsExp (ndsNds nds) = csrExp csr.
(** A witness or a confirmation is signed with the key of the name it carries, for the same
    announcement. *)
Definition witnesses (logMap : gmap string Log) (nds : Nds) (lw : Lwit) : Prop :=
  NdsToSignBytes nds = Ok (lwNdsBytes lw) ∧ VerifyLwit lw (key_of logMap (lwLog lw)) = true.
Definition confirms (aggMap : gmap string Agg) (nds : Nds) (c : Confirm) : Prop :=
  NdsToSignBytes nds = Ok (cfNdsHashBytes c) ∧ AggOrLog c = 0%Z ∧ VerifyConfirm c (key_of aggMap (cfEntityName c)) = true.
(** The certificate is for the key and the first DNS name of the request. *)
Definition issued (myca : Ca) (csr : Csr) (preRC : Cert) (raw : list Z) (scts : list (list Z)) : Prop :=
  ∃ caCert chilcert, CACertificate myca = Some caCert ∧ certRaw chilcert = raw ∧
    (∃ name now, at_index (reqDNSNames (csrCsr csr)) 0 = Ok name ∧
       create_and_parse (mkX509Cert [] [] true NoKey (certIssuer caCert) (reqSubject (csrCsr csr)) 897 now (csrExp csr)
         KeyUsageDigitalSignature [name] []) caCert (reqPublicKey (csrCsr csr)) (caPrivateKey myca) = Some preRC) ∧
    create_and_parse (mkX509Cert [] [] false NoKey (certIssuer preRC) (certSubject preRC) (certSerialNumber preRC)
      (certNotBefore preRC) (certNotAfter preRC) (certKeyUsage preRC) (certDNSNames preRC) scts) caCert
      (reqPublicKey (csrCsr csr)) (caPrivateKey myca) = Some chilcert ∧
    VerifyEmbeddedSCTs chilcert caCert (key_of (caLogMap myca) <$> csrLogs csr) = Ok ().

Lemma Psr_Verify_Ok acsr rcertp roots psr : Psr_Verify acsr rcertp roots = Ok psr →
  approved roots acsr rcertp (psrCsr psr) ∧ ChildZone psr = nmName (csrZone (psrCsr psr)) ∧
  ParentZone psr = GetParentZone (ChildZone psr).
Proof.
  unfold Psr_Verify, approved, CheckRCertNameAndValid. intros E. destruct (VerifyCSR _) as [csr| |] eqn:E1; [|done..]. cbn in E.
  destruct (cert_Verify _ _ _ _) as [[]| |] eqn:E2; [|done..]. cbn in E.
  destruct (RhineSig_Verify _ _) eqn:E3; [|done]. injection E as <-. done.
Qed.
Lemma CreateNDS_Ok myca psr certC nds : CreateNDS myca psr certC = Ok nds →
  ∃ preRC, certC = Some preRC ∧ announced myca (psrCsr psr) preRC nds ∧ is_ok (NdsToSignBytes nds) = true.
Proof.
  unfold CreateNDS, Nds_Sign. destruct certC as [preRC|]; [|done]. cbn [or_panic mbind outcome_bind].
  set (n0 := mkNds _ _). destruct (NdsToSignBytes n0) as [b| |] eqn:Eb; [|done..]. cbn [mbind outcome_bind].
  destruct (signed_or_error _) as [s| |]; [|done..]. intros [= <-]. exists preRC. split_and!; try done.
  change (is_ok (NdsToSignBytes n0) = true). by rewrite Eb.
Qed.

Lemma lwits_ok nds logMap lwits : is_ok (NdsToSignBytes nds) = true →
  VerifyLwitSlice lwits logMap = true → MatchWithLwits nds lwits = true → Forall (witnesses logMap nds) lwits.
Proof.
  unfold VerifyLwitSlice, MatchWithLwits. rewrite !foldl_andb. destruct (NdsToSignBytes nds) as [b| |] eqn:E; [|done..].
  intros _ [_ H1] [_ H2]. apply Forall_forall. intros lw Hlw. rewrite Forall_forall in H1, H2. split; [|by apply H1].
  rewrite E. f_equal. symmetry. exact (bool_decide_eq_true_1 _ (H2 lw Hlw)).
Qed.
Lemma confirms_ok nds aggMap cs : MatchWithConfirm nds cs = true → VerifyAggConfirmSlice cs aggMap = true → Forall (confirms aggMap nds) cs.
Proof.
  unfold VerifyAggConfirmSlice, MatchWithConfirm. rewrite foldl_andb. destruct (NdsToSignBytes nds) as [b| |] eqn:E; [|done..].
  rewrite foldl_andb. intros [_ H1] [_ H2]. apply Forall_forall. intros c Hc. rewrite Forall_forall in H1, H2.
  specialize (H1 c Hc). apply andb_true_iff in H1 as [H1%Z.eqb_eq Hb%bool_decide_eq_true_1]. split_and!; [congruence|done|by apply H2].
Qed.

Lemma check_logs_ok {W} {RN : RhineNet W} myca psr rcertp (w w' : W) dsps :
  for_each (check_log myca psr rcertp) (GetLogs psr) w = (w', Ok dsps) →
  Forall2 (λ logger, attests (key_of (caLogMap myca) logger) (ChildZone psr) rcertp) (csrLogs (psrCsr psr)) dsps.
Proof.
  intros H%for_each_Ok. eapply Forall2_impl; [exact H|]. intros logger dsp (w1 & w2 & Hd). unfold check_log in Hd. repeat rpc_step.
  match goal with H : (if ?b then _ else _) _ = _ |- _ => destruct b; [|by apply lift_Ok in H as [_ ?]] end. repeat rpc_step.
  by eapply Dsp_Verify_true.
Qed.
Lemma issued_ok now myca psr preRC scts chil caCert : CreatePoisonedCert now myca psr = Ok (Some preRC) →
  IssueRHINECert myca preRC psr scts = Ok (Some chil) → CACertificate myca = Some caCert →
  VerifyEmbeddedSCTs chil caCert (key_of (caLogMap myca) <$> GetLogs psr) = Ok () → issued myca (psrCsr psr) preRC (certRaw chil) scts.
Proof.
  unfold CreatePoisonedCert, IssueRHINECert. intros E1 E2 Hca E3. rewrite Hca in E1, E2. cbn [or_panic mbind outcome_bind] in E1, E2.
  destruct (at_index _ 0) as [name| |] eqn:En; [|done..]. cbn [mbind outcome_bind] in E1. injection E1 as E1. injection E2 as E2.
  exists caCert, chil. split_and!; [done|done| |done|done]. by exists name, now.
Qed.

Lemma SubmitNewDelegCA_issued {W} {RN : RhineNet W} now myca acsrData acsrSig rcertpBytes rid w w' raw lcfms :
  SubmitNewDelegCA now myca acsrData acsrSig rcertpBytes rid w = (w', Ok (raw, lcfms)) →
  ∃ rcertp csr preRC nds dsps lwits confs lconfs scts,
    ParseCertificate rcertpBytes = Ok rcertp ∧
    approved (caCertPool myca) (mkRhineSig ED25519 acsrData acsrSig None) rcertp csr ∧
    Forall2 (λ logger, attests (key_of (caLogMap myca) logger) (nmName (csrZone csr)) rcertp) (csrLogs csr) dsps ∧
    announced myca csr preRC nds ∧
    length lwits = length (csrLogs csr) ∧ Forall (witnesses (caLogMap myca) nds) lwits ∧
    length confs = length (caAggList myca) ∧ Forall (confirms (caAggMap myca) nds) confs ∧
    length lconfs = length (csrLogs csr) ∧ Forall (λ c, VerifyConfirm c (key_of (caLogMap myca) (cfEntityName c)) = true) lconfs ∧
    issued myca csr preRC raw scts.
Proof.
  unfold SubmitNewDelegCA, collect_lwits, collect_agg_confirms, collect_log_confirms. intros H. repeat rpc_step.
  match goal with H : VerifyNewDelegationRequest _ _ _ = Ok ?p |- _ => rename p into psr; pose proof (Psr_Verify_Ok _ _ _ _ H) as (Ha & Hc & _) end.
  match goal with H : CreateNDS _ _ _ = Ok _ |- _ => destruct (CreateNDS_Ok _ _ _ _ H) as (preRC & -> & Hann & Hb) end.
  match goal with H : for_each (check_log _ _ _) _ _ = _ |- _ => apply check_logs_ok in H as Hlogs; rewrite Hc in Hlogs end.
  repeat match goal with H : for_each _ _ _ = _ |- _ => apply for_each_Ok, Forall2_length in H end.
  repeat match goal with
  | H : or_panic _ _ = Ok _ |- _ => apply or_panic_Ok in H; simplify_eq
  | H : (_, _) = (_, _) |- _ => injection H as <- <-
  | x : () |- _ => destruct x
  end.
  match goal with H : VerifyAggConfirmSlice ?cs.*1 _ = true |- _ => rename cs into confs end.
  match goal with H : VerifyLogConfirmSlice (_ <$> ?cs) _ = true |- _ => rename cs into lconfs; apply foldl_andb in H as [_ Hlc] end.
  do 4 eexists. eexists _, _, (confs.*1), _, _. split_and!; [done|done|exact Hlogs|exact Hann|done|by apply lwits_ok| |by apply confirms_ok| |exact Hlc|].
  - destruct Hann as (_ & <- & _). by rewrite length_fmap.
  - by rewrite length_fmap.
  - eapply issued_ok; eauto.
Qed.

(** C8: the authority issues a certificate only for an approved request.  Whatever the other
    servers answer: the request is signed by its own key and approved under the certificate
    of the parent; each designated log gave a proof that passes all checks; as many
    witnesses as designated logs and as many confirmations as aggregators are signed for the
    announcement of this request; and the certificate is made for the key of the request and
    its first DNS name, with embedded timestamps that verify. *)
Theorem SubmitNewDelegCA_sound {W} {RN : RhineNet W} now myca acsrData acsrSig rcertpBytes rid w w' raw lcfms :
  SubmitNewDelegCA now myca acsrData acsrSig rcertpBytes rid w = (w', Ok (raw, lcfms)) →
  ∃ rcertp csr preRC nds dsps lwits confs lconfs scts,
    ParseCertificate rcertpBytes = Ok rcertp ∧
    approved (caCertPool myca) (mkRhineSig ED25519 acsrData acsrSig None) rcertp csr ∧
    Forall2 (λ logger, attests (key_of (caLogMap myca) logger) (nmName (csrZone csr)) rcertp) (csrLogs csr) dsps ∧
    announced myca csr preRC nds ∧
    length lwits = length (csrLogs csr) ∧ Forall (witnesses (caLogMap myca) nds) lwits ∧
    length confs = length (caAggList myca) ∧ Forall (confirms (caAggMap myca) nds) confs ∧
    length lconfs = length (csrLogs csr) ∧ Forall (λ c, VerifyConfirm c (key_of (caLogMap myca) (cfEntityName c)) = true) lconfs ∧
    issued myca csr preRC raw scts.
Proof. apply SubmitNewDelegCA_issued. Qed.

(** ** Servers without a key *)

(** C15: servers that are not configured are believed.  The key of a name that is not in the
    map is nil, and a nil key verifies every signature: without any signature such a log has
    its proofs accepted, even proofs of presence made up for the requested name, its
    witnesses and its confirmations, and such an aggregator its confirmations. *)
Theorem unknown_servers_are_believed (logMap aggMap : gmap string Named) logger aggregat zname rcertp alC nds b t logs :
  logMap !! logger = None → aggMap !! aggregat = None → NdsToSignBytes nds = Ok b → time_MarshalBinary 0 = Ok t →
  (∃ dsp, rsSignature (dspSig dsp) = [] ∧ Ptype (dspProof dsp) = ProofOfPresence ∧
     Dsp_Verify dsp (key_of logMap logger) zname rcertp alC = Ok true) ∧
  (∃ lw, rsSignature (lwRsig lw) = [] ∧ lwLog lw = logger ∧ lwLogList lw = logs ∧
     VerifyLwitSlice [lw] logMap = true ∧ MatchWithLwits nds [lw] = true) ∧
  (∃ c, rsSignature (cfRsig c) = [] ∧ cfEntityName c = aggregat ∧
     VerifyAggConfirmSlice [c] aggMap = true ∧ MatchWithConfirm nds [c] = true) ∧
  (∃ c, rsSignature (cfRsig c) = [] ∧ cfEntityName c = logger ∧ VerifyLogConfirmSlice [c] logMap = true).
Proof.
  intros Hl Ha Hb Ht. set (d0 := mkDSum (mkDAcc "" []) 0 [] 0).
  assert (GetDSumToBytes d0 = Ok (sha256_Sum256 ([] ++ [] ++ [byte_of 0] ++ [] ++ t))) as Hd by (unfold GetDSumToBytes; cbn; by rewrite Ht).
  assert (∀ k name ndsb aol, k = NoKey → ∃ c, rsSignature (cfRsig c) = [] ∧ cfEntityName c = name ∧ cfNdsHashBytes c = ndsb ∧
    AggOrLog c = aol ∧ VerifyConfirm c k = true) as Hconf.
  { intros k name ndsb aol ->. eexists (mkConfirm (newRhineSig (confirm_hash aol ndsb name _)) ndsb d0 name aol). split_and!; [done..|].
    unfold VerifyConfirm. cbn [RhineSig_Verify negb cfDsum]. rewrite Hd. cbn. by rewrite bool_decide_true. }
  assert (key_of logMap logger = NoKey) as Kl by (unfold key_of; by rewrite Hl).
  assert (key_of aggMap aggregat = NoKey) as Ka by (unfold key_of; by rewrite Ha). split_and!.
  - set (c := mkDSLeafContent (mkDSLeafZone zname 0 ExistingZone) GetPositiveInfinityZone).
    exists (mkDsp (mkDSum (mkDAcc "" (CalculateHash c)) 1 (ExtractTbsRCAndHash rcertp) 0) 0 (newRhineSig []) (mkMPathProof [] [] c ProofOfPresence)).
    split_and!; [done..|]. apply Dsp_Verify_true. rewrite Kl. split_and!; [|..|done|done|done].
    + unfold dsp_bytes, GetDSumToBytes. cbn. rewrite Ht. cbn. by eexists.
    + unfold VerifyMPathProof. cbn. rewrite String.eqb_refl. cbn. by rewrite bool_decide_true.
  - exists (mkLwit (newRhineSig (lwit_hash b logger logs)) b logger logs). unfold VerifyLwitSlice, MatchWithLwits. cbn. rewrite Kl, Hb.
    split_and!; [done..| |by rewrite bool_decide_true]. unfold VerifyLwit. cbn. by rewrite bool_decide_true.
  - destruct (Hconf _ aggregat b 0%Z Ka) as (c & H1 & <- & H3 & H4 & H5). exists c. unfold VerifyAggConfirmSlice, MatchWithConfirm. cbn.
    rewrite Hb, H3, H4. split_and!; [done|done|done|]. by rewrite bool_decide_true.
  - destruct (Hconf _ logger [] 0%Z Kl) as (c & H1 & <- & H3 & H4 & H5). by exists c.
Qed.

(** ** Approvals of the parent *)

Lemma GetParentZone_suffix name : GetParentZone name = ""%string ∨ HasSuffix name ("." +:+ GetParentZone name) = true.
Proof.
  assert (GetParentZone name = ""%string ∨ ∃ pre, name = (pre +:+ ("." +:+ GetParentZone name))%string) as [H|[pre H]];
    [|by left|right; rewrite H at 1; apply HasSuffix_app].
  induction name as [|c s IH]; cbn [GetParentZone]; [by left|]. destruct (Ascii.eqb_spec c ".") as [->|_]; [right; by exists ""%string|].
  destruct IH as [H|[pre H]]; [by left|right]. exists (String c pre). exact (f_equal (String c) H).
Qed.

(** C16: the parent approves every request.  A request that is signed by its own key is
    approved with the key and the certificate of the zone manager, whatever zone it is for
    and whether or not the child and its key are in the store; and the authority accepts
    this approval whenever the certificate is valid for the name of the parent. *)
Theorem InitDelegation_approves {EDL : Ed25519Laws} zm raw csr cert sk roots :
  VerifyCSR raw = Ok csr → Rcert zm = Some cert → zmPrivkey zm = EdPriv sk →
  let approval := CreatePSR csr (zmPrivkey zm) in
  InitDelegation zm raw = Ok (approval, certRaw cert) ∧
  (certPublicKey cert = EdKey (ed25519_Public sk) → cert_Verify cert roots (GetParentZone (nmName (csrZone csr))) false = Ok () →
   Psr_Verify approval cert roots =
     Ok (mkPsr csr approval cert (nmName (csrZone csr)) (GetParentZone (nmName (csrZone csr))))).
Proof.
  intros Hc Hr Hk approval. split.
  - unfold InitDelegation, VerifyChildCSR. rewrite Hc. cbn [mbind outcome_bind].
    replace ((GetParentZone (nmName (csrZone csr)) =ₛ "") || _) with true; [by rewrite Hr|].
    destruct (GetParentZone_suffix (nmName (csrZone csr))) as [-> | ->]; [done|by rewrite orb_true_r].
  - intros Hp Hv. assert (signedcsr csr = raw) as Hs.
    { clear Hr. unfold VerifyCSR in Hc. by simplify_outcome. }
    unfold approval, CreatePSR. rewrite Hk, Hs. unfold Psr_Verify. cbn [RhineSig_Sign fst newRhineSig rsData rsDataPostfix].
    rewrite Hc. cbn [mbind outcome_bind]. unfold CheckRCertNameAndValid. rewrite Hv. cbn [mbind outcome_bind]. rewrite Hp.
    cbn [RhineSig_Verify signData rsData rsDataPostfix default rsSignature]. by rewrite ed25519_correct.
Qed.

(** ** The signature over a new delegation *)

(** The announcement that the authority signs is accepted under its key, and so is any
    other announcement whose names of logs and aggregators and whose zone give the same
    bytes one after the other: a log can become an aggregator, and the end of a name can
    move to the next one. *)
Theorem signed_nds {EDL : Ed25519Laws} n sk n' : Nds_Sign n (EdPriv sk) = Ok n' →
  VerifyNDS n' (EdKey (ed25519_Public sk)) = Ok () ∧
  ∀ logs aggs zone,
    names_bytes logs ++ names_bytes aggs ++ bytes_of_string (nmName zone) =
    names_bytes (ndsLog (ndsNds n)) ++ names_bytes (ndsAgg (ndsNds n)) ++ bytes_of_string (nmName (ndsZone (ndsNds n))) →
    VerifyNDS (mkNds (mkNdsToSign logs aggs zone (ndsAl (ndsNds n)) (TbsCert (ndsNds n)) (ndsExp (ndsNds n))) (Signednds n'))
      (EdKey (ed25519_Public sk)) = Ok ().
Proof.
  unfold Nds_Sign. intros E. destruct (NdsToSignBytes n) as [b| |] eqn:Eb; [|done..]. cbn in E. injection E as <-.
  assert (∀ n1, NdsToSignBytes n1 = Ok b → rsData (Signednds n1) = b →
    RhineSig_Verify (Signednds n1) (EdKey (ed25519_Public sk)) = true → VerifyNDS n1 (EdKey (ed25519_Public sk)) = Ok ()) as Hv.
  { intros n1 E1 E2 E3. unfold VerifyNDS. rewrite E1. cbn [mbind outcome_bind]. rewrite bool_decide_true by done. cbn [negb]. by rewrite E3. }
  split.
  - apply Hv; [exact Eb|done|]. cbn. apply ed25519_correct.
  - intros logs aggs zone Hn. apply Hv; [|done|cbn; apply ed25519_correct]. rewrite <-Eb. unfold NdsToSignBytes. cbn [ndsNds ndsLog ndsAgg ndsZone ndsAl TbsCert ndsExp].
    destruct (time_MarshalBinary _) as [t| |]; [|done..]. cbn. do 2 f_equal. rewrite !app_assoc in *. by rewrite Hn.
Qed.

(** ** Confirmations at the log *)

(** Malformed and missing confirmations stop the log.  A confirmation that cannot be
    decoded gives a nil pointer, which is dereferenced; for a known request an empty list
    passes all checks and its first element is read; an unknown request is an error. *)
Theorem SubmitACFM_errors retrieved lm acfms rid :
  (Exists (λ b, is_ok (confirm_Unmarshal b) = false) acfms → SubmitACFM retrieved lm acfms rid = Panic "nil pointer dereference") ∧
  (Forall (λ b, is_ok (confirm_Unmarshal b) = true) acfms → RequestCache lm !! rid = None →
   SubmitACFM retrieved lm acfms rid = Err "Wrong RID on this Request") ∧
  (∀ rq, RequestCache lm !! rid = Some rq → is_ok (NdsToSignBytes (rrNDS rq)) = true →
   SubmitACFM retrieved lm [] rid = Panic "index out of range").
Proof.
  split_and!.
  - intros H. unfold SubmitACFM. assert (decode_confirms acfms = Panic "nil pointer dereference") as ->; [|done].
    unfold decode_confirms, TransportBytesToConfirm. induction H as [b l Hb|b l _ IH]; cbn; [by destruct (confirm_Unmarshal b)|].
    destruct (confirm_Unmarshal b); cbn; [by rewrite IH|done..].
  - intros H Hr. unfold SubmitACFM. assert (∃ cs, decode_confirms acfms = Ok cs) as [cs ->]; [|cbn; by rewrite Hr].
    unfold decode_confirms, TransportBytesToConfirm. induction H as [|b l Hb _ [cs IH]]; cbn; [by eexists|].
    destruct (confirm_Unmarshal b) as [c| |]; [|done..]. cbn. rewrite IH. by eexists.
  - intros rq Hr Hn. unfold SubmitACFM. cbn. rewrite Hr. unfold MatchWithConfirm. by destruct (NdsToSignBytes (rrNDS rq)).
Qed.

(** ** What the servers remember *)

(** The aggregators are unchanged, and every log has its accumulators in memory as before. *)
Definition unrecorded (s s' : System) : Prop :=
  sysAggs s' = sysAggs s ∧ (lmDsalog <$> sysLogs s') = (lmDsalog <$> sysLogs s).
Definition keeps {A} (m : rpcM A) : Prop := ∀ s : System, unrecorded s (m s).1.

Lemma keeps_lift {A} (m : outcome A) : keeps (lift m).
Proof. by intros s. Qed.
Lemma keeps_ret {A} (a : A) : keeps (mret a).
Proof. by intros s. Qed.
Lemma keeps_bind {A B} (m : rpcM A) (f : A → rpcM B) : keeps m → (∀ a, keeps (f a)) → keeps (m ≫= f).
Proof.
  intros Hm Hf s. unfold mbind, rpcM_bind. specialize (Hm s). destruct (m s) as [s' [a| |]]; [|done..].
  destruct (Hf a s') as [H1 H2], Hm as [H3 H4]. split; cbn in *; congruence.
Qed.
Lemma keeps_if {A} (b : bool) (m m' : rpcM A) : keeps m → keeps m' → keeps (if b then m else m').
Proof. by destruct b. Qed.
Lemma keeps_for_each {A B} (f : A → rpcM B) l : (∀ a, keeps (f a)) → keeps (for_each f l).
Proof.
  intros Hf. induction l as [|a l IH]; [apply keeps_ret|]. apply keeps_bind; [done|]. intros b. apply keeps_bind; [done|]. intros bs. apply keeps_ret.
Qed.
Lemma keeps_log {A} name (f : LogManager → outcome (LogManager * A)) :
  (∀ lm lm' a, f lm = Ok (lm', a) → lmDsalog lm' = lmDsalog lm) → keeps (λ s, with_log name s f).
Proof.
  intros Hf s. unfold with_log. destruct (sysLogs s !! name) as [lm|] eqn:El; [|done].
  destruct (f lm) as [[lm' a]| |] eqn:Ef; [|done..]. split; [done|]. cbn. rewrite fmap_insert. apply insert_id.
  rewrite lookup_fmap, El. cbn. by rewrite (Hf lm lm' a).
Qed.

(** The branches of a call that succeeds. *)
Ltac branches H :=
  repeat match type of H with
  | mbind _ ?m = Ok _ => destruct m; cbn [mbind outcome_bind] in H; try discriminate H
  | (match ?x with _ => _ end) = Ok _ => destruct x; try discriminate H
  end.
Lemma keeps_DSProofRet logger p c : keeps (call_DSProofRet logger p c).
Proof. apply keeps_log. intros lm lm' a H. destruct (log_DSProofRet lm p c); [|done..]. by injection H as <- _. Qed.
Lemma keeps_DemandLogging logger acsr p c n : keeps (call_DemandLogging logger acsr p c n).
Proof.
  apply keeps_log. unfold DemandLogging, VerifyNewDelegationRequestLog. intros lm lm' a H.
  branches H. by injection H as <- _.
Qed.
Lemma keeps_SubmitNDS aggregat n l : keeps (call_SubmitNDS aggregat n l).
Proof. by intros s. Qed.
Lemma FinishInitialDelegLog_keeps r lm dsum nds c lm' conf sct :
  FinishInitialDelegLog r lm dsum nds c = Ok (lm', conf, sct) → lmDsalog lm' = lmDsalog lm.
Proof. unfold FinishInitialDelegLog. intros H. branches H. by injection H as <- _ _. Qed.
Lemma SubmitACFM_keeps r lm acfms rid lm' conf sct : SubmitACFM r lm acfms rid = Ok (lm', conf, sct) → lmDsalog lm' = lmDsalog lm.
Proof.
  unfold SubmitACFM. intros H. destruct (decode_confirms acfms); [|done..]. cbn [mbind outcome_bind] in H.
  destruct (RequestCache lm !! rid) as [rq|]; [|done].
  do 2 (destruct (negb _); [discriminate H|]). do 2 (destruct (at_index _ 0%Z); cbn [mbind outcome_bind] in H; try discriminate H).
  destruct (FinishInitialDelegLog _ _ _ _ _) as [[[lm1 conf1] sct1]| |] eqn:Ef; [|done..]. injection H as <- _ _.
  by apply FinishInitialDelegLog_keeps in Ef.
Qed.
Lemma keeps_SubmitACFM logger acfms rid : keeps (call_SubmitACFM logger acfms rid).
Proof.
  intros s. apply (keeps_log logger (λ lm, '(lm', lcfm, sct) ← SubmitACFM (retrieve s lm) lm acfms rid; Ok (lm', (lcfm, sct)))).
  intros lm lm' a H. destruct (SubmitACFM _ _ _ _) as [[[lm1 conf1] sct1]| |] eqn:Ef; [|done..]. injection H as <- _.
  by apply SubmitACFM_keeps in Ef.
Qed.

Ltac keeps_step :=
  first [apply keeps_ret | apply keeps_lift | apply keeps_DSProofRet | apply keeps_DemandLogging | apply keeps_SubmitNDS | apply keeps_SubmitACFM
        | apply keeps_if | apply keeps_for_each; intros ? | apply keeps_bind; [|intros ?]
        | match goal with |- keeps (match ?x with _ => _ end) => destruct x end].

(** ** Proofs of an honest log *)

(** The log of this name has an accumulator of the zone with the delegations [zs], for the
    certificate [rcertp] and with the authority to delegate, and signs with the key that the
    authority has for it. *)
Definition honest_log (s : System) (myca : Ca) (logger pzone : string) (rcertp : Cert) (zs : list DSLeafZone) : Prop :=
  ∃ lm sk dsa, sysLogs s !! logger = Some lm ∧ lmPrivkey lm = EdPriv sk ∧
    key_of (caLogMap myca) logger = EdKey (ed25519_Public sk) ∧
    find_dsa (lmDsalog lm) (lmDB lm) pzone = Ok dsa ∧ accumulates dsa zs ∧ dsaCert dsa = ExtractTbsRCAndHash rcertp ∧
    CheckINDSet (dsaAlv dsa) = true ∧ CheckDOLSet (dsaAlv dsa) = false ∧ is_ok (time_MarshalBinary (dsaExp dsa)) = true.

Lemma DSProofRet_call logger pzone czone s :
  (call_DSProofRet logger pzone czone s).1 = s ∧
  ∀ lm, sysLogs s !! logger = Some lm →
    (call_DSProofRet logger pzone czone s).2 = answer (log_DSProofRet lm pzone czone).
Proof.
  cbn [call_DSProofRet System_net]. unfold with_log. destruct (sysLogs s !! logger) as [lm|] eqn:El; [|done].
  destruct (log_DSProofRet lm pzone czone) as [b|e|e] eqn:Eb; cbn [mbind outcome_bind fst snd];
    (split; [|by intros ? [= <-]; rewrite Eb]); [|done..].
  rewrite insert_id by done. by destruct s.
Qed.
(** Asking a log leaves the servers as they are. *)
Lemma check_log_state myca psr rcertp logger (s : System) : (check_log myca psr rcertp logger s).1 = s.
Proof.
  unfold check_log, mbind, rpcM_bind. destruct (DSProofRet_call logger (ParentZone psr) (ChildZone psr) s) as [Hs _].
  destruct (call_DSProofRet _ _ _ s) as [s' [b| |]]; cbn in Hs; subst s'; [|done..]. unfold lift.
  by destruct (Dsp_Verify _ _ _ _ _) as [[]| |].
Qed.
Lemma for_each_stops {W A B} (f : A → rpcM B) l x (w : W) : (∀ a, (f a w).1 = w) → x ∈ l → is_ok (f x w).2 = false →
  is_ok (for_each f l w).2 = false.
Proof.
  intros Hf Hx Hk. induction l as [|y l IH]; [by apply elem_of_nil in Hx|]. cbn [for_each]. unfold mbind, rpcM_bind.
  apply elem_of_cons in Hx as [<-|Hx]; [by destruct (f x w) as [w' []]|]. specialize (IH Hx).
  pose proof (Hf y) as Hy. destruct (f y w) as [w' []]; cbn in Hy; subst w'; [|done..]. by destruct (for_each f l w) as [w' []].
Qed.

Context {SLL : Sha256Laws} {EDL : Ed25519Laws} {CDL : RhineCodecLaws}.

(** What the log answers, and what is checked of it. *)
Lemma honest_answer s myca psr rcertp logger zs : honest_log s myca logger (ParentZone psr) rcertp zs →
  ChildZone psr ≠ ""%string → ChildZone psr ∉ (zZone <$> zs) →
  ∃ root p, genuine root p ∧ fits p (ChildZone psr) ∧ Ptype p = ProofOfAbsence ∧
    (length zs ≤ 1 → length (Path p) = 1) ∧ (2 ≤ length zs → 2 ≤ length (Path p)) ∧
    (VerifyMPathProof p root (ChildZone psr) = Ok true ↔ is_ok (check_log myca psr rcertp logger s).2 = true).
Proof.
  intros (lm & sk & dsa & Hlm & Hsk & Hk & Hf & Hacc & Hc & Hi & Hd & Ht) Hne Hnot.
  destruct (absence_dsp _ _ _ zs (ChildZone psr) dsa Hf Hacc Hne Hnot) as (p & E & Hg & Hfit & Hp & H1 & H2).
  exists (Roothash (dsDacc (GetDSum dsa))), p. split_and!; [done..|].
  destruct (DSProofRet_call logger (ParentZone psr) (ChildZone psr) s) as [Hst Hans]. specialize (Hans lm Hlm).
  unfold log_DSProofRet, DSProof in Hans. rewrite E, Hsk in Hans. cbn [mbind outcome_bind] in Hans.
  set (dsp := (Dsp_Sign _ _).1) in Hans. destruct (dsp_roundtrip dsp) as (b & Eb & Db). rewrite Eb in Hans.
  unfold check_log, mbind, rpcM_bind. destruct (call_DSProofRet _ _ _ s) as [s' r]. cbn in Hst, Hans. subst s' r. cbn [answer]. rewrite Db, Hk.
  assert (∃ data, dsp_bytes dsp = Ok data ∧ dsp = mkDsp (GetDSum dsa) (dsT (lmDsalog lm))
    (mkRhineSig ED25519 data (ed25519_Sign sk data) None) p) as (data & Ed & Edsp).
  { unfold dsp, Dsp_Sign. destruct (dsp_bytes (mkDsp _ _ _ _)) as [data| |] eqn:Ed.
    - exists data. cbn [RhineSig_Sign fst]. split; [exact Ed|]. unfold signData. cbn. by rewrite app_nil_r.
    - unfold dsp_bytes, GetDSumToBytes in Ed. cbn in Ed. by destruct (time_MarshalBinary (dsaExp dsa)).
    - unfold dsp_bytes, GetDSumToBytes in Ed. cbn in Ed. by destruct (time_MarshalBinary (dsaExp dsa)). }
  assert (attests (EdKey (ed25519_Public sk)) (ChildZone psr) rcertp dsp ↔ VerifyMPathProof p (Roothash (dsDacc (GetDSum dsa))) (ChildZone psr) = Ok true) as Ha.
  { unfold attests. rewrite Ed, Edsp. cbn [dspDsum dspProof dspSig rsSignature GetDSum dsCert dsAlv]. split; [by intros (_ & ? & _)|].
    intros Hv. split_and!; [|done..]. exists data. split; [done|]. cbn. rewrite app_nil_r. apply ed25519_correct. }
  rewrite <-Ha, <-(Dsp_Verify_true _ _ _ _ (GetAlFromCSR psr)). unfold lift. by destruct (Dsp_Verify _ _ _ _ _) as [[]| |].
Qed.

(** C13: a zone gets no third delegation.  The authority accepts the proof of an honest log
    while the parent has at most one delegation.  With two or more the log's proof is over
    more than one level, and unless SHA-256 collides the authority refuses it: every request
    that designates this log ends without a certificate. *)
Theorem no_third_delegation s myca psr rcertp logger zs : honest_log s myca logger (ParentZone psr) rcertp zs →
  ChildZone psr ≠ ""%string → ChildZone psr ∉ (zZone <$> zs) →
  (length zs ≤ 1 → is_ok (check_log myca psr rcertp logger s).2 = true) ∧
  (2 ≤ length zs → (∀ x y, sha256_Sum256 x = sha256_Sum256 y → x = y) → logger ∈ GetLogs psr →
   ∀ now acsrData acsrSig rcertpBytes rid, ParseCertificate rcertpBytes = Ok rcertp →
     VerifyNewDelegationRequest myca rcertp (mkRhineSig ED25519 acsrData acsrSig None) = Ok psr →
     is_ok (SubmitNewDelegCA now myca acsrData acsrSig rcertpBytes rid s).2 = false).
Proof.
  intros Hh Hne Hnot. destruct (honest_answer s myca psr rcertp logger zs Hh Hne Hnot) as (root & p & Hg & Hfit & Hp & H1 & H2 & Hiff). split.
  - intros Hl. apply Hiff, VerifyMPathProof_loop; [by right|]. split; [done|]. apply mpath_loop_short; [apply Hg|by rewrite H1|done].
  - intros Hl Hinj Hin now acsrData acsrSig rcertpBytes rid Ep Ev.
    assert (is_ok (for_each (check_log myca psr rcertp) (GetLogs psr) s).2 = false) as Hf.
    { apply (for_each_stops _ _ logger); [intros; apply check_log_state|done|]. apply not_true_is_false. intros Hok.
      apply Hiff, VerifyMPathProof_loop in Hok as [_ Hm]; [|by right].
      destruct (mpath_loop_long p root (H2 Hl) Hg Hm) as (x & y & Hxy & E). by apply Hxy, Hinj. }
    destruct (SubmitNewDelegCA _ _ _ _ _ _ _) as [s' [r| |]] eqn:E; [|done..]. unfold SubmitNewDelegCA in E.
    apply rpc_bind_Ok in E as (s1 & c & [-> Ec]%lift_Ok & E). rewrite Ep in Ec. injection Ec as <-.
    apply rpc_bind_Ok in E as (s2 & psr' & [-> Epsr]%lift_Ok & E). rewrite Ev in Epsr. injection Epsr as <-.
    apply rpc_bind_Ok in E as (s3 & dsps & Ef & _). by rewrite Ef in Hf.
Qed.
End Facts.

(** ** Witnesses *)

Section Witnesses.
Local Open Scope string_scope.
Local Open Scope Z_scope.
Local Existing Instance toy_ed25519.
Local Existing Instance toy_ed25519_laws.
Local Existing Instance ideal_sha.
Local Existing Instance ideal_sha_laws.
Local Existing Instance toy_crypto.
Local Existing Instance toy_ct.
Local Existing Instance toy_codec.
Local Existing Instance toy_codec_laws.
Local Existing Instance toy_rhine_codec.
Local Existing Instance toy_rhine_codec_laws.
Local Existing Instance log_backend.

Lemma SubmitNewDelegCA_sound_witness : ∃ rcertp csr preRC nds,
  approved ca_key (mkRhineSig ED25519 (rsData the_approval) (rsSignature the_approval) None) rcertp csr ∧
  announced the_authority csr preRC nds.
Proof.
  assert (is_ok (SubmitNewDelegCA 0 the_authority (rsData the_approval) (rsSignature the_approval) (certRaw parent_cert) the_request.2
    (servers ["x.ch"])).2 = true) as H by (vm_compute; reflexivity).
  destruct (SubmitNewDelegCA _ _ _ _ _ _ _) as [w' [[raw l]| |]] eqn:E; [|discriminate H..].
  destruct (SubmitNewDelegCA_sound 0 the_authority _ _ _ _ _ _ _ _ E) as (rcertp & csr & preRC & nds & _ & _ & _ & _ & _ & _ & Ha & _ & Hn & _).
  exists rcertp, csr, preRC, nds. split; [exact Ha|exact Hn].
Defined.

Definition some_nds : Nds := mkNds (mkNdsToSign ["log"] ["agg"] (mkNamed "a.ch" NoKey) 1 [] 1000) (newRhineSig []).
Lemma unknown_servers_are_believed_witness :
  ∃ dsp, rsSignature (dspSig dsp) = [] ∧ Ptype (dspProof dsp) = ProofOfPresence ∧
    Dsp_Verify dsp (key_of {["log" := the_log]} "evil") "a.ch" parent_cert 1 = Ok true.
Proof.
  apply (unknown_servers_are_believed {["log" := the_log]} {["agg" := the_agg]} "evil" "evil" "a.ch" parent_cert 1 some_nds
    (sha256_Sum256 (names_bytes ["log"; "agg"; "a.ch"] ++ [1; 1000])) [0] []); reflexivity.
Defined.

(** The zone ch approves a request of a zone of another parent. *)
Lemma InitDelegation_approves_witness : match request "a.com" [] with
  | Ok csr => ∃ csr', VerifyCSR (signedcsr csr) = Ok csr' ∧
      InitDelegation the_parent (signedcsr csr) = Ok (CreatePSR csr' (EdPriv parent_key), certRaw parent_cert)
  | _ => False
  end.
Proof.
  assert (is_ok (csr ← request "a.com" []; VerifyCSR (signedcsr csr)) = true) as H by (vm_compute; reflexivity).
  destruct (request "a.com" []) as [csr| |]; [|discriminate H..]. cbn [mbind outcome_bind] in H.
  destruct (VerifyCSR (signedcsr csr)) as [csr'| |] eqn:E; [|discriminate H..]. exists csr'. split; [reflexivity|].
  apply (InitDelegation_approves the_parent _ _ parent_cert parent_key ca_key E); reflexivity.
Defined.

(** The log becomes an aggregator. *)
Lemma signed_nds_witness : match Nds_Sign some_nds (EdPriv ca_key) with
  | Ok n => VerifyNDS (mkNds (mkNdsToSign [] ["log"; "agg"] (mkNamed "a.ch" NoKey) 1 [] 1000) (Signednds n)) (EdKey ca_key) = Ok ()
  | _ => False
  end.
Proof.
  destruct (Nds_Sign some_nds (EdPriv ca_key)) as [n| |] eqn:E; [|discriminate E..].
  apply (signed_nds some_nds ca_key n E). reflexivity.
Defined.

Lemma SubmitACFM_errors_witness :
  let lm := set_requests (log_manager []) {[[7] := mkRememberRequest [7] some_nds parent_cert parent_cert]} in
  SubmitACFM (Err "") lm [[]] [7] = Panic "nil pointer dereference" ∧ SubmitACFM (Err "") lm [] [7] = Panic "index out of range".
Proof.
  intros lm. split.
  - apply (SubmitACFM_errors (Err "") lm [[]] [7]). constructor. reflexivity.
  - eapply (SubmitACFM_errors (Err "") lm [] [7]); reflexivity.
Defined.

Definition zone_of (name : string) : DSLeafZone := mkDSLeafZone name 1 ExistingZone.
(** The two delegations in the log. *)
Lemma delegated_first : ∃ d db, delegated ["x.ch"] = Ok (d, db) ∧ cached (trimmed "" d) "ch" [zone_of "x.ch"].
Proof.
  destruct (AddDelegationStatus_ok "" NewDSALog ∅ "ch" 1 (ExtractTbsRCAndHash parent_cert) 1000 "x.ch" 1 [0] [])
    as (d & db & E & (dsa & Hf & Ha) & _); [reflexivity|discriminate|].
  assert (delegated ["x.ch"] = Ok (d, db)) as Ed by (unfold delegated; cbn [foldl mbind outcome_bind]; by rewrite E).
  assert (match delegated ["x.ch"] with
          | Ok (d, _) => (Z.of_nat (size (zoneToDSA d)) <=? CACHE_MAX_SIZE) && bool_decide (is_Some (zoneToDSA d !! "ch"))
          | _ => false end = true) as Hc by (vm_compute; reflexivity).
  rewrite Ed in Hc. apply andb_true_iff in Hc as [Hs%Z.leb_le [dsa' Hd]%bool_decide_eq_true_1]. exists d, db. split; [done|].
  unfold cached, trimmed. replace (CACHE_MAX_SIZE <? _) with false by (symmetry; apply Z.ltb_ge; lia). rewrite Hd. split; [done|].
  unfold find_dsa in Hf. rewrite Hd in Hf. by injection Hf as ->.
Qed.
Lemma two_delegations_honest :
  honest_log (servers ["x.ch"; "y.ch"]) the_authority "log" "ch" parent_cert [zone_of "x.ch"; zone_of "y.ch"].
Proof.
  destruct delegated_first as (d1 & db1 & E1 & Hc1).
  destruct (AddDelegationStatus_ok "" d1 db1 "ch" 1 (ExtractTbsRCAndHash parent_cert) 1000 "y.ch" 1 [0] _ Hc1)
    as (d2 & db2 & E2 & (dsa & Hf & Ha) & _); [discriminate|].
  assert (delegated ["x.ch"; "y.ch"] = Ok (d2, db2)) as Ed.
  { change (delegated ["x.ch"; "y.ch"]) with ('(d, db) ← delegated ["x.ch"];
      '(d, db, _) ← AddDelegationStatus "" d db "ch" 1 (ExtractTbsRCAndHash parent_cert) 1000 "y.ch" 1 [0]; Ok (d, db)).
    rewrite E1. cbn [mbind outcome_bind]. by rewrite E2. }
  assert (match delegated ["x.ch"; "y.ch"] with
          | Ok (d, db) => match find_dsa d db "ch" with
              | Ok dsa => bool_decide (dsaCert dsa = ExtractTbsRCAndHash parent_cert) && CheckINDSet (dsaAlv dsa) && negb (CheckDOLSet (dsaAlv dsa))
              | _ => false end
          | _ => false end = true) as Hc by (vm_compute; reflexivity).
  rewrite Ed, Hf in Hc. apply andb_true_iff in Hc as [[Hcert%bool_decide_eq_true_1 Hi]%andb_true_iff Hd%negb_true_iff].
  exists (log_manager ["x.ch"; "y.ch"]), log_key, dsa. 
  assert (lmDsalog (log_manager ["x.ch"; "y.ch"]) = d2 ∧ lmDB (log_manager ["x.ch"; "y.ch"]) = db2 ∧
    lmPrivkey (log_manager ["x.ch"; "y.ch"]) = EdPriv log_key) as (-> & -> & ->) by (unfold log_manager; rewrite Ed; split_and!; reflexivity).
  split_and!; [apply lookup_singleton_eq|reflexivity|reflexivity|exact Hf|exact Ha|exact Hcert|exact Hi|exact Hd|reflexivity].
Qed.
Lemma no_third_delegation_witness :
  is_ok (SubmitNewDelegCA 0 the_authority (rsData the_approval) (rsSignature the_approval) (certRaw parent_cert) the_request.2
           (servers ["x.ch"; "y.ch"])).2 = false.
Proof.
  set (acsr := mkRhineSig ED25519 (rsData the_approval) (rsSignature the_approval) None).
  assert (match VerifyNewDelegationRequest the_authority parent_cert acsr with
          | Ok psr => bool_decide (ParentZone psr = "ch" ∧ ChildZone psr = "a.ch" ∧ GetLogs psr = ["log"])
          | _ => false end = true) as H by (vm_compute; reflexivity).
  destruct (VerifyNewDelegationRequest the_authority parent_cert acsr) as [psr| |] eqn:Ev; [|discriminate H..].
  apply bool_decide_eq_true_1 in H as (H1 & H2 & H3).
  apply (no_third_delegation (servers ["x.ch"; "y.ch"]) the_authority psr parent_cert "log" [zone_of "x.ch"; zone_of "y.ch"]).
  - rewrite H1. exact two_delegations_honest.
  - rewrite H2. discriminate.
  - rewrite H2. by apply (bool_decide_unpack _).
  - cbn. lia.
  - exact ideal_sha_inj.
  - rewrite H3. by left.
  - vm_compute. reflexivity.
  - exact Ev.
Defined.
End Witnesses.
