(* ===== verification/RhineConfig.v ===== *)
(** * Key files and the start of the RHINE servers

    Models the PEM files of src/offlineauth/rhine/util.go and the constructors of
    aggManager.go, authorityManager.go, loggerManager.go and zoneManager.go: how the private
    key, the certificates, the trust roots and the keys of the other servers are read.

    Files are bytes by their path.  [log.Fatal] ends the program, like a panic.  JSON, the
    opening of a store and the pools of certificates are parameters. *)

From S2P Require Import Prelude Cbor Keys Object Query BitArray BloomFilter Section Message Siglib SiglibFacts KeyManager Merkle MerkleFacts RhineTree Rhine RhineLog RhineStore RhineLogFacts RhineServers RhineToy.
Local Open Scope string_scope.
Local Open Scope Z_scope.

(** ** Files *)

(** The files and the directories with their names in order; [fsCreatable] are the paths at
    which a file can be created. *)
Record FS := mkFS { fsFiles : gmap string (list Z); fsDirs : gmap string (list string); fsCreatable : string → bool }.
Definition read_file (fs : FS) (path : string) : option (list Z) := fsFiles fs !! path.
Definition write_file (fs : FS) (path : string) (data : list Z) : FS :=
  mkFS (<[path := data]> (fsFiles fs)) (fsDirs fs) (fsCreatable fs).
(** [filepath.Join] of a directory and a name. *)
Definition filepath_Join (dir name : string) : string :=
  if dir =ₛ "" then name else if HasSuffix dir "/" then dir +:+ name else dir +:+ "/" +:+ name.

(** crypto/rsa and x509 as far as key files need them, and the pools of certificates. *)
Class ConfigLib `{CtLib} := {
  MarshalPKCS1PrivateKey : list Z → list Z;
  ParsePKCS1PrivateKey : list Z → outcome (list Z);
  rsa_Public : list Z → list Z;
  SystemCertPool : outcome CertPool;
  NewCertPool : CertPool;
  NilCertPool : CertPool;                       (* the nil pointer *)
  AppendCertsFromPEM : CertPool → list Z → CertPool * bool;
  open_store : string → outcome (gmap string (list Z))
}.

Section Files.
Context {RC : RhineCrypto} {SL : Sha256Lib} {ED : Ed25519Lib} {CT : CtLib} {KL : KeyLib} {CL : ConfigLib}.

Definition pem_block (type : string) (bytes : list Z) : PemBlock := mkPemBlock type ∅ bytes.

(** [os.Create] and [pem.Encode]: the files and the error.  The file exists, empty, when
    encoding fails. *)
Definition store_pem (fs : FS) (path : string) (b : PemBlock) : FS * option string :=
  if fsCreatable fs path then
    match pem_Encode b with
    | Ok data => (write_file fs path data, None)
    | Err e | Panic e => (write_file fs path [], Some e)
    end
  else (fs, Some "no such file or directory").
(** The block of a file; without one the nil pointer is dereferenced. *)
Definition load_pem (fs : FS) (path : string) : outcome PemBlock :=
  bytes ← or_err (read_file fs path) "no such file or directory";
  or_panic (pem_Decode bytes).1 "nil pointer dereference".

Definition StoreCertificateRequestPEM (fs : FS) (path : string) (csr : list Z) : FS * option string :=
  store_pem fs path (pem_block "CERTIFICATE REQUEST" csr).
Definition LoadCertificateRequestPEM (fs : FS) (path : string) : outcome (list Z) :=
  block ← load_pem fs path; Ok (pemBytes block).
Definition StoreCertificatePEM (fs : FS) (path : string) (cert : list Z) : FS * option string :=
  store_pem fs path (pem_block "CERTIFICATE" cert).
Definition LoadCertificatePEM (fs : FS) (path : string) : outcome Cert :=
  block ← load_pem fs path; ParseCertificate (pemBytes block).

(** Errors are logged and not returned. *)
Definition StorePrivateKeyEd25519 (fs : FS) (path : string) (key : list Z) : FS := (store_pem fs path (pem_block "RHINE Ed25519 PRIVATE KEY" key)).1.
Definition StorePublicKeyEd25519 (fs : FS) (path : string) (key : list Z) : FS := (store_pem fs path (pem_block "RHINE Ed25519 PUBLIC KEY" key)).1.
(** The type of the block is not compared. *)
Definition LoadPrivateKeyEd25519 (fs : FS) (path : string) : outcome (list Z) := block ← load_pem fs path; Ok (pemBytes block).

Definition StoreRSAPrivateKeyPEM (fs : FS) (key : list Z) (path : string) : FS * option string :=
  store_pem fs path (pem_block "RSA PRIVATE KEY" (MarshalPKCS1PrivateKey key)).
Definition StoreRSAPublicKeyPEM (fs : FS) (key : list Z) (path : string) : FS * option string :=
  store_pem fs path (pem_block "RSA PUBLIC KEY" (MarshalPKCS1PublicKey key)).
Definition LoadRSAPrivateKeyPEM (fs : FS) (path : string) : outcome (list Z) :=
  block ← load_pem fs path; ParsePKCS1PrivateKey (pemBytes block).

(** The key of a block.  Errors of parsing are dropped: what is left is the nil interface
    for a PKIX key, and a nil pointer for an RSA key, here [RsaKey []]. *)
Definition public_key_of (block : PemBlock) : outcome RPubKey :=
  if pemType block =ₛ "RSA PUBLIC KEY" then Ok (match ParsePKCS1PublicKey (pemBytes block) with Ok k => RsaKey k | _ => RsaKey [] end)
  else if pemType block =ₛ "PUBLIC KEY" then Ok (match ParsePKIXPublicKey (pemBytes block) with Ok k => k | _ => NoKey end)
  else Err "unsupported key".
Definition PublicKeyFromStringPEM (key : list Z) : outcome RPubKey :=
  block ← or_panic (pem_Decode key).1 "nil pointer dereference"; public_key_of block.
Definition PublicKeyFromFile (fs : FS) (path : string) : outcome RPubKey :=
  block ← load_pem fs path;
  if pemType block =ₛ "RHINE Ed25519 PUBLIC KEY" then Ok (EdKey (pemBytes block)) else public_key_of block.

(** An error of [pem.EncodeToMemory] gives the empty text. *)
Definition encode_to_memory (b : PemBlock) : list Z := match pem_Encode b with Ok data => data | _ => [] end.
Definition PublicKeyToStringPEM (key : RPubKey) : outcome (list Z) :=
  match key with
  | RsaKey k => Ok (encode_to_memory (pem_block "RSA PUBLIC KEY" (MarshalPKCS1PublicKey k)))
  | EdKeyPtr k => Ok (encode_to_memory (pem_block "PUBLIC KEY" (match MarshalPKIXPublicKey k with Ok b => b | _ => [] end)))
  | _ => Err "unsupported key"
  end.

(** ** What the constructors share *)

(** The keys of the server; without a known algorithm both are nil. *)
Definition load_private_key (fs : FS) (alg path : string) : outcome (RPrivKey * RPubKey) :=
  if alg =ₛ "" then Panic "No private key alg in config"
  else if path =ₛ "" then Panic "No private key path"
  else
    let fatal {A} (m : outcome A) : outcome A := match m with Err e => Panic e | _ => m end in
    if alg =ₛ "RSA" then k ← fatal (LoadRSAPrivateKeyPEM fs path); Ok (RsaPriv k, RsaKey (rsa_Public k))
    else if alg =ₛ "Ed25519" then
      k ← fatal (LoadPrivateKeyEd25519 fs path);
      if (length k <? 32)%nat then Panic "slice bounds out of range" else Ok (EdPriv k, EdKey (ed25519_Public k))
    else Ok (OtherPriv, NoKey).
(** [pk, _ := PublicKeyFromFile(path)] *)
Definition key_or_nil (fs : FS) (path : string) : outcome RPubKey :=
  match PublicKeyFromFile fs path with Err _ => Ok NoKey | r => r end.
(** The map of the logs or of the aggregators; [paths] are read by the index of the name. *)
Fixpoint load_names (fs : FS) (names paths : list string) (m : gmap string Named) : outcome (gmap string Named) :=
  match names with
  | [] => Ok m
  | v :: names' =>
      match paths with
      | [] => Panic "index out of range"
      | p :: paths' => pk ← key_or_nil fs p; load_names fs names' paths' (<[v := mkNamed v pk]> m)
      end
  end.
(** The system's roots are replaced by an empty pool if they could be read, and nil if not:
    a nil pool panics with the first certificate that is added. *)
Definition initial_pool : option CertPool := if is_ok SystemCertPool then Some NewCertPool else None.
Fixpoint append_roots (pems : list (list Z)) (pool : option CertPool) : outcome CertPool :=
  match pems with
  | [] => Ok (default NilCertPool pool)
  | pem :: pems' =>
      match pool with
      | Some c => append_roots pems' (Some (AppendCertsFromPEM c pem).1)
      | None => if (AppendCertsFromPEM NewCertPool pem).2 then Panic "nil pointer dereference" else append_roots pems' None
      end
  end.
Definition root_files (fs : FS) (dir : string) : outcome (list string) := or_panic (fsDirs fs !! dir) "Error reading roots directory".

(** ** authorityManager.go *)

Record CaConfig := mkCaConfig {
  ccPrivateKeyAlgorithm : string;
  ccPrivateKeyPath : string;
  ccCertificatePath : string;
  ccServerAddress : string;
  ccRootCertsPath : string;
  ccLogsName : list string;
  ccLogsPubKeyPaths : list string;
  ccAggregatorName : list string;
  ccAggPubKeyPaths : list string
}.
(** A certificate, or nil without a path; an error ends the program. *)
Definition load_certificate (fs : FS) (path : string) : outcome (option Cert) :=
  if path =ₛ "" then Ok None
  else match LoadCertificatePEM fs path with Ok c => Ok (Some c) | Err e | Panic e => Panic e end.

(** Files of the directory that cannot be read are skipped. *)
Definition NewCA (fs : FS) (config : CaConfig) : outcome Ca :=
  '(privKey, _) ← load_private_key fs (ccPrivateKeyAlgorithm config) (ccPrivateKeyPath config);
  cert ← load_certificate fs (ccCertificatePath config);
  files ← root_files fs (ccRootCertsPath config);
  pool ← append_roots (omap (λ f, read_file fs (filepath_Join (ccRootCertsPath config) f)) files) initial_pool;
  logMap ← load_names fs (ccLogsName config) (ccLogsPubKeyPaths config) ∅;
  aggMap ← load_names fs (ccAggregatorName config) (ccAggPubKeyPaths config) ∅;
  Ok (mkCa privKey cert pool logMap aggMap (ccAggregatorName config)).

(** ** aggManager.go *)

Record AggConfig := mkAggConfig {
  acPrivateKeyAlgorithm : string;
  acPrivateKeyPath : string;
  acServerAddress : string;
  acRootCertsPath : string;
  acLogsName : list string;
  acLogsPubKeyPaths : list string;
  acAggregatorName : list string;
  acAggPubKeyPaths : list string;
  acCAName : string;
  acCAPubKeyPath : string;
  acKeyValueDBDirectory : string
}.
(** [badger.Open]; an error ends the program. *)
Definition open_db (dir : string) : outcome (gmap string (list Z)) := match open_store dir with Err e => Panic e | r => r end.

(** The path of a root is the directory and the name without a separator, and what cannot be
    read counts as an empty file.  The pool and the map of aggregators are not used. *)
Definition NewAggManager (fs : FS) (config : AggConfig) : outcome AggManager :=
  '(privKey, pubkey) ← load_private_key fs (acPrivateKeyAlgorithm config) (acPrivateKeyPath config);
  caPk ← key_or_nil fs (acCAPubKeyPath config);
  db ← open_db (acKeyValueDBDirectory config);
  files ← root_files fs (acRootCertsPath config);
  _ ← append_roots ((λ f, default [] (read_file fs (acRootCertsPath config +:+ f))) <$> files) initial_pool;
  logMap ← load_names fs (acLogsName config) (acLogsPubKeyPaths config) ∅;
  _ ← load_names fs (acAggregatorName config) (acAggPubKeyPaths config) ∅;
  Ok (mkAggManager (mkNamed (acServerAddress config) pubkey) privKey logMap (mkNamed (acCAName config) caPk) NewDSALog db).

(** ** loggerManager.go *)

Record LogConfig := mkLogConfig {
  lcPrivateKeyAlgorithm : string;
  lcPrivateKeyPath : string;
  lcServerAddress : string;
  lcRootCertsPath : string;
  lcLogsName : list string;
  lcLogsPubKeyPaths : list string;
  lcAggregatorName : list string;
  lcAggPubKeyPaths : list string;
  lcCAName : string;
  lcCAPubKeyPath : string;
  lcKeyValueDBDirectory : string
}.
Definition NewLogManager (fs : FS) (config : LogConfig) : outcome LogManager :=
  '(privKey, pubkey) ← load_private_key fs (lcPrivateKeyAlgorithm config) (lcPrivateKeyPath config);
  caPk ← key_or_nil fs (lcCAPubKeyPath config);
  db ← open_db (lcKeyValueDBDirectory config);
  files ← root_files fs (lcRootCertsPath config);
  pool ← append_roots ((λ f, default [] (read_file fs (filepath_Join (lcRootCertsPath config) f))) <$> files) initial_pool;
  logMap ← load_names fs (lcLogsName config) (lcLogsPubKeyPaths config) ∅;
  aggMap ← load_names fs (lcAggregatorName config) (lcAggPubKeyPaths config) ∅;
  Ok (mkLogManager (mkNamed (lcServerAddress config) pubkey) privKey pool logMap aggMap (lcAggregatorName config)
        (mkNamed (lcCAName config) caPk) NewDSALog ∅ db).

(** ** zoneManager.go *)

Record ZoneConfig := mkZoneConfig {
  zcfPrivateKeyAlgorithm : string;
  zcfPrivateKeyPath : string;
  zcfCertificatePath : string;
  zcfServerAddress : string;
  zcfZoneName : string;
  zcfParentServerAddr : string;
  zcfLogsName : list string;
  zcfLogsPubKeyPaths : list string;
  zcfAggregatorName : list string;
  zcfAggPubKeyPaths : list string;
  zcfCAName : string;
  zcfCAServerAddr : string;
  zcfCACertificatePath : string;
  zcfParentDataBaseDirectory : string
}.
(** The key of the authority is taken from its certificate, also when there is none.  A nil
    store is never read. *)
Definition NewZoneManager (fs : FS) (config : ZoneConfig) : outcome ZoneManager :=
  '(privKey, pubkey) ← load_private_key fs (zcfPrivateKeyAlgorithm config) (zcfPrivateKeyPath config);
  cert ← load_certificate fs (zcfCertificatePath config);
  certCA ← load_certificate fs (zcfCACertificatePath config);
  db ← (if zcfParentDataBaseDirectory config =ₛ "" then Ok ∅ else open_db (zcfParentDataBaseDirectory config));
  caCert ← or_panic certCA "nil pointer dereference";
  logMap ← load_names fs (zcfLogsName config) (zcfLogsPubKeyPaths config) ∅;
  aggMap ← load_names fs (zcfAggregatorName config) (zcfAggPubKeyPaths config) ∅;
  Ok (mkZoneManager (mkNamed (zcfZoneName config) pubkey) privKey cert logMap aggMap (zcfLogsName config) (zcfAggregatorName config)
        (mkNamed (zcfCAName config) (certPublicKey caCert)) certCA db).

(** ** Configuration files *)

(** [json.Unmarshal] into the configurations. *)
Class JsonLib := {
  json_CaConfig : list Z → outcome CaConfig;
  json_AggConfig : list Z → outcome AggConfig;
  json_LogConfig : list Z → outcome LogConfig;
  json_ZoneConfig : list Z → outcome ZoneConfig
}.
Context {JL : JsonLib}.
Definition load_config {C} (unmarshal : list Z → outcome C) (fs : FS) (path : string) : outcome C :=
  file ← or_err (read_file fs path) "no such file or directory"; unmarshal file.
Definition LoadCAConfig : FS → string → outcome CaConfig := load_config json_CaConfig.
Definition LoadAggConfig : FS → string → outcome AggConfig := load_config json_AggConfig.
Definition LoadLogConfig : FS → string → outcome LogConfig := load_config json_LogConfig.
Definition LoadZoneConfig : FS → string → outcome ZoneConfig := load_config json_ZoneConfig.

(** ** Theorems *)

Context {KLL : KeyLibLaws}.

Lemma store_pem_load fs path b : fsCreatable fs path = true → pem_ok b → load_pem (store_pem fs path b).1 path = Ok b.
Proof.
  intros Hc Hb. destruct (pem_roundtrip b Hb) as (d & E & D). unfold store_pem, load_pem. rewrite Hc, E.
  unfold read_file. cbn. rewrite lookup_insert_eq. cbn. by rewrite D.
Qed.

(** What is stored is loaded again: certificates, requests, Ed25519 keys, and RSA keys if
    their encodings are read back. *)
Theorem key_files_roundtrip fs path bytes : fsCreatable fs path = true → (∀ type b, pem_ok (pem_block type b)) →
  LoadCertificateRequestPEM (StoreCertificateRequestPEM fs path bytes).1 path = Ok bytes ∧
  LoadCertificatePEM (StoreCertificatePEM fs path bytes).1 path = ParseCertificate bytes ∧
  LoadPrivateKeyEd25519 (StorePrivateKeyEd25519 fs path bytes) path = Ok bytes ∧
  PublicKeyFromFile (StorePublicKeyEd25519 fs path bytes) path = Ok (EdKey bytes) ∧
  (ParsePKCS1PrivateKey (MarshalPKCS1PrivateKey bytes) = Ok bytes →
   LoadRSAPrivateKeyPEM (StoreRSAPrivateKeyPEM fs bytes path).1 path = Ok bytes) ∧
  (ParsePKCS1PublicKey (MarshalPKCS1PublicKey bytes) = Ok bytes →
   PublicKeyFromFile (StoreRSAPublicKeyPEM fs bytes path).1 path = Ok (RsaKey bytes) ∧
   ∃ text, PublicKeyToStringPEM (RsaKey bytes) = Ok text ∧ PublicKeyFromStringPEM text = Ok (RsaKey bytes)).
Proof.
  intros Hc Hb.
  unfold LoadCertificateRequestPEM, StoreCertificateRequestPEM, LoadCertificatePEM, StoreCertificatePEM, LoadPrivateKeyEd25519,
    StorePrivateKeyEd25519, PublicKeyFromFile, StorePublicKeyEd25519, LoadRSAPrivateKeyPEM, StoreRSAPrivateKeyPEM, StoreRSAPublicKeyPEM.
  rewrite !store_pem_load by auto. split_and!; try done. intros E. unfold public_key_of. cbn. rewrite E. split; [done|].
  destruct (pem_roundtrip _ (Hb "RSA PUBLIC KEY" (MarshalPKCS1PublicKey bytes))) as (d & Ed & Dd). eexists. split; [reflexivity|].
  unfold PublicKeyFromStringPEM, encode_to_memory. rewrite Ed, Dd. cbn. unfold public_key_of. cbn. by rewrite E.
Qed.

Lemma load_names_spec fs names : ∀ paths m m' i v p, load_names fs names paths m = Ok m' → NoDup names → names !! i = Some v →
  paths !! i = Some p → ∃ pk, key_or_nil fs p = Ok pk ∧ m' !! v = Some (mkNamed v pk).
Proof.
  assert (∀ names paths m m' v, load_names fs names paths m = Ok m' → v ∉ names → m' !! v = m !! v) as Hframe.
  { clear. induction names as [|x names IH]; intros paths m m' v E Hv; cbn in E; [by injection E as ->|].
    destruct paths as [|p paths]; [done|]. destruct (key_or_nil fs p) as [pk| |]; [|done..]. cbn in E. apply not_elem_of_cons in Hv as [Hx Hv].
    rewrite (IH _ _ _ _ E Hv). by rewrite lookup_insert_ne. }
  induction names as [|x names IH]; intros paths m m' i v p E Hnd Hi Hp; [done|]. cbn in E. destruct paths as [|q paths]; [done|].
  destruct (key_or_nil fs q) as [pk| |] eqn:Ek; [|done..]. cbn in E. apply NoDup_cons in Hnd as [Hx Hnd]. destruct i as [|i]; cbn in Hi, Hp.
  - injection Hi as ->. injection Hp as ->. exists pk. split; [done|]. rewrite (Hframe _ _ _ _ _ E Hx). by rewrite lookup_insert_eq.
  - by eapply IH.
Qed.

(** The authority starts without the keys it cannot read.  The key of a configured log is
    the one that was stored in its file; but if the file is missing or has a type that is
    not known, the log is configured with a nil key, which verifies every signature. *)
Theorem NewCA_log_keys fs config ca i name path : NewCA fs config = Ok ca → NoDup (ccLogsName config) →
  ccLogsName config !! i = Some name → ccLogsPubKeyPaths config !! i = Some path →
  (∀ k, PublicKeyFromFile fs path = Ok k → key_of (caLogMap ca) name = k) ∧
  (is_err (PublicKeyFromFile fs path) = true → key_of (caLogMap ca) name = NoKey ∧ ∀ rs, RhineSig_Verify rs (key_of (caLogMap ca) name) = true).
Proof.
  unfold NewCA. intros E Hnd Hi Hp. destruct (load_private_key _ _ _) as [[priv pub]| |]; [|done..]. cbn [mbind outcome_bind] in E.
  do 5 (match type of E with mbind _ ?m = Ok _ => let H := fresh "Hs" in destruct m eqn:H end; cbn [mbind outcome_bind] in E; [|discriminate E..]).
  match goal with H : load_names _ (ccLogsName _) _ _ = Ok _ |- _ => rename H into El end. injection E as <-. cbn [caLogMap].
  destruct (load_names_spec _ _ _ _ _ _ _ _ El Hnd Hi Hp) as (pk & Ek & Hl). unfold key_of. rewrite Hl. cbn [nmPubkey].
  unfold key_or_nil in Ek. split.
  - intros k Hk. rewrite Hk in Ek. by injection Ek as ->.
  - intros He. destruct (PublicKeyFromFile fs path); [done| |done]. by injection Ek as <-.
Qed.
End Files.

(** ** Witnesses *)

Section Witnesses.
Local Existing Instance toy_ed25519.
Local Existing Instance ideal_sha.
Local Existing Instance toy_crypto.
Local Existing Instance toy_ct.
Local Existing Instance toy_keylib.
Local Existing Instance toy_keylib_laws.

(** The pool is the contents of the last file. *)
Local Instance toy_config : ConfigLib := {|
  MarshalPKCS1PrivateKey k := k;
  ParsePKCS1PrivateKey k := Ok k;
  rsa_Public k := k;
  SystemCertPool := Ok [];
  NewCertPool := [];
  NilCertPool := [];
  AppendCertsFromPEM c pem := match (pem_Decode pem).1 with Some b => (pemBytes b, true) | None => (c, false) end;
  open_store _ := Ok ∅
|}.
Definition some_files : FS :=
  let fs := mkFS ∅ {["roots" := ["ca"]]} (λ _, true) in
  let fs := StorePrivateKeyEd25519 fs "ca_sec" (replicate 32 1) in
  let fs := StorePublicKeyEd25519 fs "log1_pub" log_key in
  (StoreCertificatePEM fs "roots/ca" ca_key).1.
Definition some_config : CaConfig := mkCaConfig "Ed25519" "ca_sec" "" "ca" "roots" ["log1"; "log2"] ["log1_pub"; "log2_pub"] [] [].

Lemma key_files_roundtrip_witness : PublicKeyFromFile (StorePublicKeyEd25519 some_files "new_pub" [7]) "new_pub" = Ok (EdKey [7]).
Proof. apply (key_files_roundtrip some_files "new_pub" [7]); [reflexivity|]. intros type b. exact I. Defined.

(** The file of the second log is missing. *)
Lemma NewCA_log_keys_witness : match NewCA some_files some_config with
  | Ok ca => key_of (caLogMap ca) "log1" = EdKey log_key ∧ key_of (caLogMap ca) "log2" = NoKey ∧ caCertPool ca = ca_key
  | _ => False
  end.
Proof.
  assert (match NewCA some_files some_config with Ok ca => bool_decide (caCertPool ca = ca_key) | _ => false end = true) as H
    by (vm_compute; reflexivity).
  destruct (NewCA some_files some_config) as [ca| |] eqn:E; [|discriminate H..]. split_and!.
  - apply (NewCA_log_keys some_files some_config ca 0 "log1" "log1_pub" E); [by apply (bool_decide_unpack _)|reflexivity..].
  - apply (NewCA_log_keys some_files some_config ca 1 "log2" "log2_pub" E); [by apply (bool_decide_unpack _)|reflexivity..].
  - by apply bool_decide_eq_true_1 in H.
Defined.
End Witnesses.
