(* ===== verification/RhineCommands.v ===== *)
(** * The command-line programs of the delegation protocol

    Models the commands under src/offlineauth/cmd and src/offlineauth/keyManager: a child
    zone that asks for a delegation and checks what it receives, the commands that fill the
    store of an aggregator, and the generation of key files.

    The child calls its parent and the authority over an interface that says nothing about
    their answers.  [log.Fatal] ends the program, like a panic; what it prints is left out. *)

From S2P Require Import Prelude Cbor Keys Object Query BitArray BloomFilter Section Message Siglib SiglibFacts KeyManager QueryEngine Merkle MerkleFacts RhineTree Rhine RhineLog RhineStore RhineLogFacts RhineServers RhineToy RhineFacts RhineConfig.
Local Open Scope string_scope.
Local Open Scope Z_scope.

(** An error ends the program. *)
Definition fatal {A} (m : outcome A) : outcome A := match m with Err e => Panic e | _ => m end.
Definition half_year : Z := 180 * 24 * 3600 * 1000000000.

(** [strings.Replace] of the first occurrence by nothing, and [strings.ReplaceAll]; the text
    to be removed is not empty. *)
Fixpoint remove_first (old s : string) : string :=
  if HasPrefix s old then String.substring (String.length old) (String.length s - String.length old) s
  else match s with EmptyString => "" | String c s' => String c (remove_first old s') end.
Fixpoint remove_all (old : string) (skip : nat) (s : string) : string :=
  match s with
  | EmptyString => ""
  | String c s' =>
      match skip with
      | S k => remove_all old k s'
      | O => if HasPrefix s old then remove_all old (String.length old - 1) s' else String c (remove_all old 0 s')
      end
  end.
Definition TrimPrefix (s p : string) : string :=
  if HasPrefix s p then String.substring (String.length p) (String.length s - String.length p) s else s.

Section Commands.
Context {RC : RhineCrypto} {SL : Sha256Lib} {ED : Ed25519Lib} {CT : CtLib} {DC : DsaCodec} {CD : RhineCodec} {KL : KeyLib} {CL : ConfigLib} {JL : JsonLib}.

(** ** run_zoneManager.go *)

(** The flags of the command. *)
Record RequestFlags := mkRequestFlags {
  ChildConfig : string;
  flZoneName : string;
  flParentServer : string;
  OutputPath : string;
  ZoneIsIndependent : bool;
  ZoneIsDelegationOnly : bool;
  flPrivateKeyPath : string
}.
Definition overwrite (flag conf : string) : string := if flag =ₛ "" then conf else flag.
Definition overwrite_config (fl : RequestFlags) (cof : ZoneConfig) : ZoneConfig :=
  mkZoneConfig (zcfPrivateKeyAlgorithm cof) (overwrite (flPrivateKeyPath fl) (zcfPrivateKeyPath cof)) (zcfCertificatePath cof)
    (zcfServerAddress cof) (overwrite (flZoneName fl) (zcfZoneName cof)) (overwrite (flParentServer fl) (zcfParentServerAddr cof))
    (zcfLogsName cof) (zcfLogsPubKeyPaths cof) (zcfAggregatorName cof) (zcfAggPubKeyPaths cof) (zcfCAName cof) (zcfCAServerAddr cof)
    (zcfCACertificatePath cof) (zcfParentDataBaseDirectory cof).
Definition requested_level (fl : RequestFlags) : AuthorityLevel :=
  (if ZoneIsIndependent fl then 1 else 0) + (if ZoneIsDelegationOnly fl then 8 else 0).

(** The parent and the authority by their addresses.  The parent gets the identifier and the
    request and answers with the data and the signature of an approval, or nil, and a
    certificate; the authority gets the certificate of the parent, the approval and the
    identifier and answers with a certificate and the confirmations of logs. *)
Class ChildNet (W : Type) := {
  call_InitDelegation : string → list Z → list Z → W → W * outcome (option (list Z * list Z) * list Z);
  call_SubmitNewDelegCA : string → list Z → list Z * list Z → list Z → W → W * outcome (list Z * list (list Z))
}.

Section Child.
Context {W : Type} {CN : ChildNet W}.

Definition fatalM {A} (m : rpcM (W := W) A) : rpcM A := λ w, let '(w, r) := m w in (w, fatal r).

(** The certificate and the confirmations that the servers send. *)
Definition obtain_certificate (cof : ZoneConfig) (csr : Csr) : rpcM (W := W) (list Z * list (list Z)) :=
  '(approvalcommit, rcertp) ← fatalM (call_InitDelegation (zcfParentServerAddr cof) (csrRid csr) (signedcsr csr));
  '(data, sig) ← lift (or_panic approvalcommit "nil pointer dereference");
  pcertp ← lift (fatal (ParseCertificate rcertp));
  if negb (RhineSig_Verify (mkRhineSig ED25519 data sig None) (certPublicKey pcertp)) then lift (Panic "Checking acsr failed")
  else fatalM (call_SubmitNewDelegCA (zcfCAServerAddr cof) rcertp (data, sig) (csrRid csr)).

(** The last checks of the child. *)
Definition check_received (nzm : ZoneManager) (csr : Csr) (rcertc : list Z) (lcfms : list (list Z)) : outcome Cert :=
  childce ← fatal (ParseCertificate rcertc);
  logConfirmList ← decode_confirms lcfms;
  let inOrderKey := (λ c, key_of (zmLogMap nzm) (cfEntityName c)) <$> logConfirmList in
  if negb (VerifyLogConfirmSlice logConfirmList (zmLogMap nzm)) then Panic "A LogConfirm was not correctly signed!"
  else
    caCert ← or_panic (zmCaCert nzm) "nil pointer dereference";
    _ ← fatal (VerifyEmbeddedSCTs childce caCert inOrderKey);
    ok ← CheckAgainstCert csr childce;
    if negb ok then Panic "Cerificate does not match Certificate Signing Request!"
    else
      first ← at_index logConfirmList 0;
      if negb (bool_decide (dsCert (cfDsum first) = ExtractTbsRCAndHash childce)) then
        Panic "Failed: DSum certificate data does not match received certificate data!"
      else Ok childce.

(** The files after the command; [start] is the time at which it begins and [now] the time at
    which the request is made.  A file that could only be created is not kept track of. *)
Definition RequestDelegCmd (start now : Z) (fl : RequestFlags) (fs : FS) : rpcM (W := W) FS :=
  cof ← lift (fatal (LoadZoneConfig fs (ChildConfig fl)));
  let cof := overwrite_config fl cof in
  nzm ← lift (NewZoneManager fs cof);
  csr ← lift (fatal (CreateSignedCSR now nzm (requested_level fl) (start + half_year) (zmCa nzm) (zmLogList nzm) 0));
  '(rcertc, lcfms) ← obtain_certificate cof csr;
  _ ← lift (check_received nzm csr rcertc lcfms);
  let '(fs, err) := StoreCertificatePEM fs (OutputPath fl) rcertc in
  match err with None => mret fs | Some e => lift (Panic "Failed storing returned RHINE cert") end.

(** ** Theorems on the child *)

Lemma fatal_Ok {A} (m : outcome A) a : fatal m = Ok a → m = Ok a.
Proof. by destruct m. Qed.

(** Every timestamp verifies under the key at its place. *)
Definition timestamped (leaf : MerkleTreeLeaf) (scts : list (list Z)) (keys : list RPubKey) : Prop :=
  ∀ i b, scts !! i = Some b → ∃ sct k, ExtractSCT b = Ok sct ∧ keys !! i = Some k ∧ VerifySCTSignature k sct leaf = Ok ().
Lemma verify_scts_Ok leaf scts : ∀ keys, verify_scts leaf scts keys = Ok () → timestamped leaf scts keys.
Proof.
  induction scts as [|s scts IH]; intros keys E i b Hi; [done|]. cbn in E. destruct (ExtractSCT s) as [sct| |] eqn:Es; [|done..]. cbn in E.
  destruct keys as [|k keys]; [done|]. destruct (VerifySCTSignature k sct leaf) as [[]| |] eqn:Ev; [|done..]. cbn in E.
  destruct i as [|i]; cbn in Hi; [injection Hi as <-; by exists sct, k|]. by apply (IH keys E i b).
Qed.

(** What the child knows of the certificate it received. *)
Record Received (nzm : ZoneManager) (rcertc : list Z) (lcfms : list (list Z)) (cert : Cert) (confirms : list Confirm) : Prop := {
  rcv_parsed : ParseCertificate rcertc = Ok cert;
  rcv_decoded : decode_confirms lcfms = Ok confirms;
  rcv_subject : Name_String (certSubject cert) = Name_String (CommonName ("RHINE_ZONE_OWNER:" +:+ nmName (zmZone nzm)));
  rcv_key : EqualKeys (nmPubkey (zmZone nzm)) (certPublicKey cert) = true;
  rcv_name : head (certDNSNames cert) = Some (nmName (zmZone nzm));
  rcv_confirmed : Forall (λ c, VerifyConfirm c (key_of (zmLogMap nzm) (cfEntityName c)) = true) confirms;
  rcv_dsum : ∃ c, head confirms = Some c ∧ dsCert (cfDsum c) = ExtractTbsRCAndHash cert;
  rcv_logged : ∃ caCert leaf, zmCaCert nzm = Some caCert ∧ MerkleTreeLeafForEmbeddedSCT cert caCert = Ok leaf ∧
    timestamped leaf (certSCTList cert) ((λ c, key_of (zmLogMap nzm) (cfEntityName c)) <$> confirms)
}.
(** The request of the child has the name and the key of the zone. *)
Lemma CreateSignedCSR_request now nzm al exp ca logs revo csr : CreateSignedCSR now nzm al exp ca logs revo = Ok csr →
  csrZone csr = zmZone nzm ∧ reqSubject (csrCsr csr) = CommonName ("RHINE_ZONE_OWNER:" +:+ nmName (zmZone nzm)) ∧
  reqPublicKey (csrCsr csr) = nmPubkey (zmZone nzm) ∧ reqDNSNames (csrCsr csr) = [nmName (zmZone nzm)].
Proof.
  unfold CreateSignedCSR. intros (c & E1 & E2)%bind_ok. unfold createRID in E1. apply bind_ok in E1 as (t0 & _ & E1).
  apply bind_ok in E1 as ([kb alg] & _ & E1). apply bind_ok in E1 as (t1 & _ & [= <-]). unfold Csr_Sign in E2.
  apply bind_ok in E2 as (ext & _ & E2). by apply bind_ok in E2 as (signed & _ & [= <-]).
Qed.
Lemma CheckAgainstCert_Ok csr cert : CheckAgainstCert csr cert = Ok true →
  Name_String (certSubject cert) = Name_String (reqSubject (csrCsr csr)) ∧ EqualKeys (reqPublicKey (csrCsr csr)) (certPublicKey cert) = true ∧
  ∃ n, head (certDNSNames cert) = Some n ∧ head (reqDNSNames (csrCsr csr)) = Some n.
Proof.
  unfold CheckAgainstCert. destruct ((_ =ₛ _) && _) eqn:E; [|done]. apply andb_true_iff in E as [En Ek]. apply String.eqb_eq in En.
  intros (a & Ea & H)%bind_ok. apply bind_ok in H as (b & Eb & [= E]). apply String.eqb_eq in E as ->. apply at_index_head in Ea, Eb. eauto.
Qed.
Lemma check_received_sound now nzm al exp ca logs revo csr rcertc lcfms cert : CreateSignedCSR now nzm al exp ca logs revo = Ok csr →
  check_received nzm csr rcertc lcfms = Ok cert → ∃ confirms, Received nzm rcertc lcfms cert confirms.
Proof.
  intros (_ & Hs & Hk & Hn)%CreateSignedCSR_request. unfold check_received. intros (c & Ec%fatal_Ok & H)%bind_ok.
  apply bind_ok in H as (confirms & Ed & H). destruct (VerifyLogConfirmSlice _ _) eqn:Ev; [|done]. cbn [negb] in H.
  apply bind_ok in H as (caCert & Eca & H). apply bind_ok in H as ([] & Es%fatal_Ok & H). apply bind_ok in H as (ok & Eok & H).
  destruct ok; [|done]. cbn [negb] in H. apply bind_ok in H as (first & Ef%at_index_head & H). case_bool_decide as Hd; [|done]. injection H as <-.
  apply CheckAgainstCert_Ok in Eok as (H1 & H2 & n & H3 & H4). rewrite Hs in H1. rewrite Hk in H2. rewrite Hn in H4. injection H4 as <-.
  exists confirms. apply bind_ok in Es as (leaf & El & Es). split; try done.
  - by apply foldl_andb in Ev as [_ ?].
  - by exists first.
  - exists caCert, leaf. split_and!; [by eapply or_panic_Ok|done|by apply verify_scts_Ok].
Qed.

(** The steps of a command that returns. *)
Lemma RequestDeleg_run start now fl fs w w' fs' : RequestDelegCmd start now fl fs w = (w', Ok fs') →
  ∃ cof nzm csr rcertc lcfms cert,
    LoadZoneConfig fs (ChildConfig fl) = Ok cof ∧ NewZoneManager fs (overwrite_config fl cof) = Ok nzm ∧
    CreateSignedCSR now nzm (requested_level fl) (start + half_year) (zmCa nzm) (zmLogList nzm) 0 = Ok csr ∧
    obtain_certificate (overwrite_config fl cof) csr w = (w', Ok (rcertc, lcfms)) ∧
    check_received nzm csr rcertc lcfms = Ok cert ∧ StoreCertificatePEM fs (OutputPath fl) rcertc = (fs', None).
Proof.
  unfold RequestDelegCmd. intros H. apply rpc_bind_Ok in H as (w1 & cof & [-> Hc%fatal_Ok]%lift_Ok & H).
  apply rpc_bind_Ok in H as (w1 & nzm & [-> Hn]%lift_Ok & H). apply rpc_bind_Ok in H as (w1 & csr & [-> Hr%fatal_Ok]%lift_Ok & H).
  apply rpc_bind_Ok in H as (w1 & [rcertc lcfms] & Ho & H). apply rpc_bind_Ok in H as (w2 & cert & [-> Hk]%lift_Ok & H).
  destruct (StoreCertificatePEM _ _ _) as [fs1 [e|]] eqn:Es; [by apply lift_Ok in H as [_ ?]|]. apply ret_Ok in H as [-> ->].
  by exists cof, nzm, csr, rcertc, lcfms, cert.
Qed.

Context {KLL : KeyLibLaws}.

Lemma StoreCertificatePEM_Ok fs path raw fs' cert : StoreCertificatePEM fs path raw = (fs', None) → pem_ok (pem_block "CERTIFICATE" raw) →
  ParseCertificate raw = Ok cert → LoadCertificatePEM fs' path = Ok cert ∧ ∀ p, p ≠ path → read_file fs' p = read_file fs p.
Proof.
  unfold StoreCertificatePEM, LoadCertificatePEM. intros Es Hb Hp. assert (fsCreatable fs path = true) as Hc.
  { unfold store_pem in Es. by destruct (fsCreatable fs path). }
  pose proof (store_pem_load fs path _ Hc Hb) as Hl. rewrite Es in Hl. cbn [fst] in Hl. rewrite Hl. split; [exact Hp|]. intros p Hne.
  unfold store_pem in Es. rewrite Hc in Es. destruct (pem_Encode _); [|done..]. injection Es as <-. by apply lookup_insert_ne.
Qed.

(** C9: whatever the parent and the authority answer, the child keeps only a certificate that
    is its own.  When the command returns, the file at the output path has a certificate with
    the name, the DNS name and the key of the zone; at least one confirmation came with it,
    each verifies under the key that is configured for the log it names, the first is for
    this certificate, and every embedded timestamp verifies under the key of the log with the
    confirmation at its place.  No other file has changed. *)
Theorem RequestDeleg_sound start now fl fs w w' fs' : (∀ b, pem_ok (pem_block "CERTIFICATE" b)) →
  RequestDelegCmd start now fl fs w = (w', Ok fs') →
  ∃ cof nzm rcertc lcfms cert confirms,
    LoadZoneConfig fs (ChildConfig fl) = Ok cof ∧ NewZoneManager fs (overwrite_config fl cof) = Ok nzm ∧
    Received nzm rcertc lcfms cert confirms ∧
    LoadCertificatePEM fs' (OutputPath fl) = Ok cert ∧ (∀ p, p ≠ OutputPath fl → read_file fs' p = read_file fs p).
Proof.
  intros Hb (cof & nzm & csr & rcertc & lcfms & cert & Hc & Hn & Hr & _ & Hk & Hs)%RequestDeleg_run.
  destruct (check_received_sound _ _ _ _ _ _ _ _ _ _ _ Hr Hk) as [confirms HR].
  exists cof, nzm, rcertc, lcfms, cert, confirms. split_and!; [done|done|done|..]; eapply StoreCertificatePEM_Ok; eauto using rcv_parsed.
Qed.
End Child.

(** ** The child in the whole system *)

Section World.
Context {CB : CtBackend} {KLL : KeyLibLaws}.

(** Parents and authorities by their addresses, the time and the other servers. *)
Record World := mkWorld { wdParents : gmap string ZoneManager; wdCas : gmap string Ca; wdNow : Z; wdServers : System }.
#[export] Instance World_net : ChildNet World := {|
  call_InitDelegation addr _ csr w :=
    (w, match wdParents w !! addr with
        | None => Err "connection refused"
        | Some zm => answer ('(s, cert) ← InitDelegation zm csr; Ok (Some (rsData s, rsSignature s), cert))
        end);
  call_SubmitNewDelegCA addr rcertp acsr rid w :=
    match wdCas w !! addr with
    | None => (w, Err "connection refused")
    | Some ca =>
        let '(s, r) := SubmitNewDelegCA (wdNow w) ca acsr.1 acsr.2 rcertp rid (wdServers w) in
        (mkWorld (wdParents w) (wdCas w) (wdNow w) s, answer r)
    end
|}.

Lemma answer_Ok {A} (m : outcome A) a : answer m = Ok a → m = Ok a.
Proof. by destruct m. Qed.
Lemma CreatePSR_data csr k : rsData (CreatePSR csr k) = signedcsr csr.
Proof. unfold CreatePSR, RhineSig_Sign. destruct k; [done| |done]. by destruct (rsa_SignPSS _ _). Qed.
(** An approval is of the request that was sent. *)
Lemma InitDelegation_data zm raw s cert : InitDelegation zm raw = Ok (s, cert) → rsData s = raw.
Proof.
  unfold InitDelegation. intros ([[csr s'] c] & E & [= <- <-])%bind_ok. unfold VerifyChildCSR in E. apply bind_ok in E as (csr' & Ev & E).
  assert (signedcsr csr' = raw) as Hr.
  { unfold VerifyCSR in Ev. apply bind_ok in Ev as (r & _ & Ev). apply bind_ok in Ev as (? & _ & Ev). by apply bind_ok in Ev as (e & _ & [= <-]). }
  destruct (_ || _).
  - apply bind_ok in E as (? & _ & [= _ <- _]). by rewrite CreatePSR_data.
  - do 3 (apply bind_ok in E as (? & _ & E)). destruct (negb _); [done|]. injection E as _ <- _. by rewrite CreatePSR_data.
Qed.

(** C10: the whole protocol.  When the child keeps a certificate, the parent at its address
    approved the child's own request, this approval is valid under a certificate of the
    parent that leads to a root of the authority, each log that the child designated attested
    the parent to the authority, and the authority issued what the child received for the
    key and the name of this request. *)
Theorem accepted_delegation start now fl fs (w w' : World) fs' : RequestDelegCmd start now fl fs w = (w', Ok fs') →
  ∃ cof nzm csr parent ca approval rcertpBytes rcertp csr' dsps preRC rcertc scts lcfms cert confirms,
    LoadZoneConfig fs (ChildConfig fl) = Ok cof ∧ NewZoneManager fs (overwrite_config fl cof) = Ok nzm ∧
    CreateSignedCSR now nzm (requested_level fl) (start + half_year) (zmCa nzm) (zmLogList nzm) 0 = Ok csr ∧
    wdParents w !! zcfParentServerAddr (overwrite_config fl cof) = Some parent ∧ wdCas w !! zcfCAServerAddr cof = Some ca ∧
    InitDelegation parent (signedcsr csr) = Ok (approval, rcertpBytes) ∧ ParseCertificate rcertpBytes = Ok rcertp ∧
    VerifyCSR (signedcsr csr) = Ok csr' ∧
    approved (caCertPool ca) (mkRhineSig ED25519 (signedcsr csr) (rsSignature approval) None) rcertp csr' ∧
    Forall2 (λ logger, attests (key_of (caLogMap ca) logger) (nmName (csrZone csr')) rcertp) (csrLogs csr') dsps ∧
    issued ca csr' preRC rcertc scts ∧ Received nzm rcertc lcfms cert confirms.
Proof.
  intros (cof & nzm & csr & rcertc & lcfms & cert & Hc & Hn & Hr & Ho & Hk & Hs)%RequestDeleg_run.
  destruct (check_received_sound _ _ _ _ _ _ _ _ _ _ _ Hr Hk) as [confirms HR].
  unfold obtain_certificate in Ho. apply rpc_bind_Ok in Ho as (w1 & [ac rb] & Hi & Ho). unfold fatalM in Hi. cbn [call_InitDelegation World_net] in Hi.
  injection Hi as <- Hi%fatal_Ok. destruct (wdParents w !! _) as [parent|] eqn:Hp; [|done].
  apply answer_Ok, bind_ok in Hi as ([approval rb'] & Hi & [= <- <-]).
  apply rpc_bind_Ok in Ho as (w1 & [d s] & [-> [= <- <-]]%lift_Ok & Ho). pose proof (InitDelegation_data _ _ _ _ Hi) as Hd. rewrite Hd in Ho.
  apply rpc_bind_Ok in Ho as (w1 & pcertp & [-> Hpc]%lift_Ok & Ho). destruct (RhineSig_Verify _ _); [|by apply lift_Ok in Ho as [_ ?]].
  cbn [negb] in Ho. unfold fatalM in Ho. cbn [call_SubmitNewDelegCA World_net] in Ho. cbn [zcfCAServerAddr overwrite_config] in Ho.
  destruct (wdCas w !! _) as [ca|] eqn:Hca; [|done]. destruct (SubmitNewDelegCA _ _ _ _ _ _ _) as [sys r] eqn:Hsub. cbn [fst snd] in Hsub.
  injection Ho as <- ->%fatal_Ok%answer_Ok. apply SubmitNewDelegCA_issued in Hsub as (rcertp & csr' & preRC & nds & dsps & lw & cf & lc & scts & H).
  destruct H as (Hparse & Happ & Hatt & _ & _ & _ & _ & _ & _ & _ & Hiss).
  exists cof, nzm, csr, parent, ca, approval, rb', rcertp, csr', dsps, preRC, rcertc, scts, lcfms, cert, confirms.
  split_and!; try done. by destruct Happ.
Qed.
End World.

(** ** run_Aggregator.go *)

(** [AddDelegationStatus] for an independent child without a certificate; its error is
    dropped. *)
Definition add_status (victim : string) (d : DSALog) (db : DB) (pZone : string) (pCert : list Z) (exp : Z) (cZone : string)
    : outcome (DSALog * DB) :=
  match AddDelegationStatus victim d db pZone 1 pCert exp cZone 1 [] with
  | Ok (d, db, _) => Ok (d, db)
  | Err _ => Ok (mkDSALog (trimmed victim d) (dsT d), db)
  | Panic e => Panic e
  end.
Definition test_child (zone : string) : string := "testzonechild." +:+ zone.

(** The store after the command. *)
Definition WipeDB (fs : FS) (configPath : string) : outcome DB :=
  cof ← fatal (LoadAggConfig fs configPath); _ ← NewAggManager fs cof; Ok ∅.
Definition AddTestDT (now : Z) (victim : string) (fs : FS) (configPath testParentZone testCertPath : string) : outcome DB :=
  cof ← fatal (LoadAggConfig fs configPath);
  aggr ← NewAggManager fs cof;
  cert ← (if testCertPath =ₛ "" then Panic "Must provide a parent cert!" else fatal (LoadCertificatePEM fs testCertPath));
  '(_, db) ← add_status victim (amDsalog aggr) (amDB aggr) testParentZone (ExtractTbsRCAndHash cert) (now + half_year) (test_child testParentZone);
  Ok db.

(** The zone of a certificate by the name of its file. *)
Definition zone_of_file (name : string) : string := remove_first ".pem" (TrimPrefix name "CERT_").
(** One file of the directory: the name of the child is made from [testParentZone]. *)
Definition add_file (now : Z) (victim testParentZone : string) (fs : FS) (st : DSALog * DB) (file : string * string) : outcome (DSALog * DB) :=
  let '(path, name) := file in
  if HasPrefix name "CERT_" then
    cert ← fatal (LoadCertificatePEM fs path);
    add_status victim st.1 st.2 (zone_of_file name) (ExtractTbsRCAndHash cert) (now + half_year) (test_child testParentZone)
  else Ok st.
Fixpoint add_files (now : Z) (victim testParentZone : string) (fs : FS) (st : DSALog * DB) (files : list (string * string)) : outcome (DSALog * DB) :=
  match files with [] => Ok st | f :: files' => st ← add_file now victim testParentZone fs st f; add_files now victim testParentZone fs st files' end.
(** [files] are the paths and the names in the order in which [filepath.Walk] visits them. *)
Definition AddDTBatch (now : Z) (victim : string) (fs : FS) (configPath testParentZone : string) (files : list (string * string)) : outcome DB :=
  cof ← fatal (LoadAggConfig fs configPath);
  aggr ← NewAggManager fs cof;
  '(_, db) ← add_files now victim testParentZone fs (amDsalog aggr, amDB aggr) files;
  Ok db.

Lemma store_dsa_frame db zone dsa dsa' db' err k : store_dsa db zone dsa = Ok (dsa', db', err) → k ≠ zone → db' !! k = db !! k.
Proof.
  unfold store_dsa. intros (m & _ & H)%bind_ok Hk. apply bind_ok in H as (m' & _ & H). destruct (dsa_Marshal _); [|by injection H as _ <- _|done].
  injection H as _ <- _. by rewrite lookup_insert_ne.
Qed.
Lemma add_status_frame victim d db pZone pCert exp cZone d' db' k : add_status victim d db pZone pCert exp cZone = Ok (d', db') →
  k ≠ pZone → k ≠ cZone → db' !! k = db !! k.
Proof.
  unfold add_status. intros E Hp Hc. destruct (AddDelegationStatus _ _ _ _ _ _ _ _ _ _) as [[[d1 db1] err]|e|e] eqn:Ea; [|by injection E as _ <-|done].
  injection E as _ <-. unfold AddDelegationStatus in Ea. apply bind_ok in Ea as (dsa & _ & Ea).
  apply bind_ok in Ea as ([[dsa' db2] err2] & Es & Ea). apply (store_dsa_frame _ _ _ _ _ _ k) in Es; [|done].
  destruct err2; [by injection Ea as _ <- _|]. apply bind_ok in Ea as (t & _ & Ea). apply bind_ok in Ea as ([[dsan db3] err3] & Es2 & Ea).
  injection Ea as _ <- _. by rewrite (store_dsa_frame _ _ _ _ _ _ k Es2 Hc).
Qed.
Lemma add_files_frame now victim zone fs files k : k ≠ test_child zone → Forall (λ f, k ≠ zone_of_file f.2) files →
  ∀ st st', add_files now victim zone fs st files = Ok st' → st'.2 !! k = st.2 !! k.
Proof.
  intros Hk. induction 1 as [|[path name] files Hf _ IH]; intros st st' E; cbn [add_files] in E; [by injection E as ->|].
  apply bind_ok in E as (st1 & E1 & E). rewrite (IH _ _ E). unfold add_file in E1. destruct (HasPrefix _ _); [|by injection E1 as ->].
  apply bind_ok in E1 as (cert & _ & E1). destruct st1 as [d1 db1]. by apply (add_status_frame _ _ _ _ _ _ _ _ _ k) in E1.
Qed.

(** The children of a batch all have the same name: whatever the directory holds, the store
    has nothing new about a name other than the zones of the files and the child of
    [testParentZone], in particular nothing about the test child of any other parent. *)
Theorem AddDTBatch_children now victim fs configPath zone files db' p : AddDTBatch now victim fs configPath zone files = Ok db' →
  p ≠ zone → Forall (λ f, test_child p ≠ zone_of_file f.2) files →
  ∃ cof aggr, LoadAggConfig fs configPath = Ok cof ∧ NewAggManager fs cof = Ok aggr ∧ db' !! test_child p = amDB aggr !! test_child p.
Proof.
  unfold AddDTBatch. intros (cof & Hc%fatal_Ok & H)%bind_ok Hp Hf. apply bind_ok in H as (aggr & Ha & H). apply bind_ok in H as ([d db] & Hb & [= <-]).
  exists cof, aggr. split_and!; [done..|]. apply (add_files_frame _ _ _ _ _ (test_child p)) in Hb; [done| |done].
  unfold test_child. intros E. by simplify_eq.
Qed.

(** ** keyManager.go *)

(** Two characters at a time. *)
Fixpoint hex_pairs (s : string) : string :=
  match s with String a (String b s') => "\x" +:+ String a (String b (hex_pairs s')) | _ => "" end.
Definition PEMBytesToHexString (pemBytes : list Z) : string := hex_pairs (hex_EncodeToString pemBytes).

(** The public key is stored beside the private one. *)
Definition pub_path (path : string) : string := remove_all ".pem" 0 path +:+ "_pub.pem".

(** The files and the result; [key] is what [rsa.GenerateKey] returns, whose public half is
    taken before the error is looked at. *)
Definition CreateRSAKey (key : outcome (list Z)) (fs : FS) (path : string) (pubkey : bool) : FS * outcome unit :=
  match key with
  | Ok k =>
      let '(fs, err) := if pubkey then StoreRSAPublicKeyPEM fs (rsa_Public k) (pub_path path) else (fs, None) in
      match err with
      | Some e => (fs, Err e)
      | None => let '(fs, err) := StoreRSAPrivateKeyPEM fs k path in (fs, match err with Some e => Err e | None => Ok () end)
      end
  | _ => (fs, Panic "nil pointer dereference")
  end.
(** Errors of storing are not returned. *)
Definition CreateEd25519Key (n : nat) (fs : FS) (path : string) (pubkey : bool) : FS * outcome unit :=
  match ed25519_GenerateKey n with
  | Ok (pbkey, privatekey) =>
      let fs := if pubkey then StorePublicKeyEd25519 fs (pub_path path) pbkey else fs in
      (StorePrivateKeyEd25519 fs path privatekey, Ok ())
  | Err e => (fs, Err e)
  | Panic e => (fs, Panic e)
  end.
Definition DerivePubKeyRSA (fs : FS) (privPath path : string) : FS * outcome unit :=
  match LoadRSAPrivateKeyPEM fs privPath with
  | Ok k => let '(fs, err) := StoreRSAPublicKeyPEM fs (rsa_Public k) path in (fs, match err with Some e => Err e | None => Ok () end)
  | Err e => (fs, Err e)
  | Panic e => (fs, Panic e)
  end.
(** [Public] copies the bytes behind the first 32. *)
Definition DerivePubKeyEd25519 (fs : FS) (privPath path : string) : FS * outcome unit :=
  match LoadPrivateKeyEd25519 fs privPath with
  | Ok k =>
      if (length k <? 32)%nat then (fs, Panic "slice bounds out of range")
      else (StorePublicKeyEd25519 fs path (ed25519_Public k), Ok ())
  | Err e => (fs, Err e)
  | Panic e => (fs, Panic e)
  end.

Context {KLL : KeyLibLaws}.

Lemma store_pem_other fs path b p : p ≠ path → load_pem (store_pem fs path b).1 p = load_pem fs p.
Proof.
  intros Hp. unfold store_pem, load_pem. destruct (fsCreatable fs path); [|done].
  destruct (pem_Encode b); cbn [fst]; unfold read_file, write_file; cbn [fsFiles]; by rewrite lookup_insert_ne.
Qed.
Lemma store_pem_creatable fs path b : fsCreatable (store_pem fs path b).1 = fsCreatable fs.
Proof. unfold store_pem. destruct (fsCreatable fs path); [|done]. by destruct (pem_Encode b). Qed.

(** A generated pair is usable: the private file starts a server with this key, the public
    file is read as its public half, and deriving the public key from the private file gives
    the same key. *)
Theorem CreateEd25519Key_pair n fs path out pk sk : ed25519_GenerateKey n = Ok (pk, sk) → (32 ≤ length sk)%nat → (∀ b, pem_ok b) →
  fsCreatable fs path = true → fsCreatable fs (pub_path path) = true → fsCreatable fs out = true → pub_path path ≠ path →
  ∃ fs' fs'', CreateEd25519Key n fs path true = (fs', Ok ()) ∧
    load_private_key fs' "Ed25519" path = (if path =ₛ "" then Panic "No private key path" else Ok (EdPriv sk, EdKey pk)) ∧
    PublicKeyFromFile fs' (pub_path path) = Ok (EdKey pk) ∧
    DerivePubKeyEd25519 fs' path out = (fs'', Ok ()) ∧ PublicKeyFromFile fs'' out = Ok (EdKey pk).
Proof.
  intros Hg Hl Hb Hc1 Hc2 Hc3 Hne. pose proof (generated _ _ _ Hg) as ->. unfold CreateEd25519Key. rewrite Hg. eexists _, _. split; [reflexivity|].
  set (fs' := StorePrivateKeyEd25519 _ _ _).
  assert (LoadPrivateKeyEd25519 fs' path = Ok sk) as Hload.
  { unfold LoadPrivateKeyEd25519, fs', StorePrivateKeyEd25519, StorePublicKeyEd25519. rewrite store_pem_load; [done| |done].
    by rewrite store_pem_creatable. }
  assert (fsCreatable fs' out = true) as Hout by (unfold fs', StorePrivateKeyEd25519, StorePublicKeyEd25519; by rewrite !store_pem_creatable).
  assert ((length sk <? 32)%nat = false) as Hlen by (apply Nat.ltb_ge; lia).
  split_and!.
  - unfold load_private_key. cbn [String.eqb Ascii.eqb Bool.eqb]. destruct (path =ₛ ""); [done|]. rewrite Hload. cbn -[Nat.ltb]. by rewrite Hlen.
  - unfold PublicKeyFromFile, fs', StorePrivateKeyEd25519. rewrite store_pem_other by done. unfold StorePublicKeyEd25519.
    by rewrite store_pem_load.
  - unfold DerivePubKeyEd25519. rewrite Hload, Hlen. reflexivity.
  - unfold PublicKeyFromFile, StorePublicKeyEd25519. by rewrite store_pem_load.
Qed.
End Commands.

(** ** Witnesses *)

Section Witnesses.
Local Existing Instance toy_ed25519.
Local Existing Instance ideal_sha.
Local Existing Instance toy_crypto.
Local Existing Instance toy_ct.
Local Existing Instance toy_codec.
Local Existing Instance toy_rhine_codec.
Local Existing Instance toy_keylib.
Local Existing Instance toy_keylib_laws.
Local Existing Instance toy_config.
Local Existing Instance log_backend.

(** The zone a.ch, whose configuration names its parent, the authority and one log. *)
Definition child_config : ZoneConfig :=
  mkZoneConfig "Ed25519" "child_sec" "" "" "a.ch" "parent" ["log"] ["log_pub"] [] [] "ca" "ca" "ca_cert" "".
Local Instance toy_json : JsonLib := {|
  json_CaConfig _ := Err "unknown";
  json_AggConfig _ := Ok (mkAggConfig "Ed25519" "child_sec" "agg" "roots" [] [] [] [] "ca" "ca_pub" "db");
  json_LogConfig _ := Err "unknown";
  json_ZoneConfig _ := Ok child_config
|}.
Definition child_files : FS :=
  let fs := mkFS {["config" := []]} {["roots" := []]} (λ _, true) in
  let fs := StorePrivateKeyEd25519 fs "child_sec" (replicate 32 5) in
  let fs := StorePublicKeyEd25519 fs "log_pub" log_key in
  let fs := (StoreCertificatePEM fs "CERT_ch.pem" (certRaw parent_cert)).1 in
  (StoreCertificatePEM fs "ca_cert" (certRaw ca_cert)).1.
Definition child_flags : RequestFlags := mkRequestFlags "config" "" "" "out" true false "".
Definition the_world : World := mkWorld {["parent" := the_parent]} {["ca" := the_authority]} 0 (servers ["x.ch"]).
Definition the_run : outcome FS := (RequestDelegCmd 0 0 child_flags child_files the_world).2.
Definition stored_names : outcome (list string) := fs ← the_run; c ← LoadCertificatePEM fs "out"; Ok (certDNSNames c).
(** The command ends with a certificate for the zone. *)
Example honest_request : stored_names = Ok ["a.ch"].
Proof. vm_compute. reflexivity. Qed.

Lemma RequestDeleg_sound_witness : ∃ w' fs' cert, RequestDelegCmd 0 0 child_flags child_files the_world = (w', Ok fs') ∧
  LoadCertificatePEM fs' "out" = Ok cert ∧ read_file fs' "log_pub" = read_file child_files "log_pub".
Proof.
  assert (is_ok (RequestDelegCmd 0 0 child_flags child_files the_world).2 = true) as H by (vm_compute; reflexivity).
  destruct (RequestDelegCmd 0 0 child_flags child_files the_world) as [w' [fs'| |]] eqn:E; [|discriminate H..].
  assert (∀ b, pem_ok (pem_block "CERTIFICATE" b)) as Hb by (intros b; exact I).
  destruct (RequestDeleg_sound 0 0 child_flags child_files the_world w' fs' Hb E) as (cof & nzm & raw & l & cert & cs & _ & _ & _ & Hl & Hf).
  exists w', fs', cert. split_and!; [reflexivity|exact Hl|]. by apply Hf.
Defined.
Lemma accepted_delegation_witness : ∃ csr cert, InitDelegation the_parent (signedcsr csr) = Ok cert ∧ csrZone csr = mkNamed "a.ch" (EdKey (replicate 32 5)).
Proof.
  assert (is_ok (RequestDelegCmd 0 0 child_flags child_files the_world).2 = true) as H by (vm_compute; reflexivity).
  destruct (RequestDelegCmd 0 0 child_flags child_files the_world) as [w' [fs'| |]] eqn:E; [|discriminate H..].
  destruct (accepted_delegation 0 0 child_flags child_files the_world w' fs' E)
    as (cof & nzm & csr & parent & ca & approval & rb & rcertp & csr' & dsps & preRC & rcertc & scts & lcfms & cert & cs & Hc & Hn & Hr & Hp & _ & Hi & _).
  assert (LoadZoneConfig child_files "config" = Ok child_config) as Hc' by (vm_compute; reflexivity).
  change (ChildConfig child_flags) with "config" in Hc. rewrite Hc' in Hc. assert (cof = child_config) as -> by congruence.
  exists csr, (approval, rb). cbn in Hp. rewrite lookup_singleton_eq in Hp. injection Hp as <-. split; [exact Hi|].
  assert (match NewZoneManager child_files (overwrite_config child_flags child_config) with
    | Ok m => bool_decide (nmName (zmZone m) = "a.ch" ∧ nmPubkey (zmZone m) = EdKey (replicate 32 5)) | _ => false end = true) as Hz
    by (vm_compute; reflexivity).
  rewrite Hn in Hz. apply bool_decide_eq_true_1 in Hz as [Hz1 Hz2]. apply CreateSignedCSR_request in Hr as [-> _].
  destruct (zmZone nzm). cbn in Hz1, Hz2. by subst.
Defined.

(** A batch with the certificate of ch adds the zone and the child of another one. *)
Example batch_of_one : match AddDTBatch 0 "" child_files "config" "ethz.ch" [("", "certs"); ("CERT_ch.pem", "CERT_ch.pem")] with
  | Ok db => (bool_decide (is_Some (db !! "ch")), bool_decide (is_Some (db !! "testzonechild.ethz.ch")), bool_decide (is_Some (db !! "testzonechild.ch"))) = (true, true, false)
  | _ => False
  end.
Proof. vm_compute. reflexivity. Qed.
Example pub_path_of_pem : pub_path "keys/zone.pem" = "keys/zone_pub.pem".
Proof. reflexivity. Qed.
Example hex_of_bytes : PEMBytesToHexString [18; 255] = "\x12\xff".
Proof. vm_compute. reflexivity. Qed.
End Witnesses.
