(* ===== verification/Client.v ===== *)
(** * The query client

    Models src/pkg/rains: a query to one server, and the values of its reply.  The text of a
    value, [fmt.Sprintf] with the verb %v, is a parameter. *)

From S2P Require Import Prelude Cbor Keys Object Query BitArray BloomFilter Section Message Siglib ConnectionCache Server Connection ZoneFile.
Local Open Scope Z_scope.

(** The package has its own numbering of types and options, which is that of the core. *)
Definition client_AllTypes : list Z :=
  [OTName; OTIP6Addr; OTIP4Addr; OTRedirection; OTDelegation; OTNameset; OTCertInfo; OTServiceInfo; OTRegistrar; OTRegistrant;
   OTInfraKey; OTExtraKey; OTNextKey; OTScionAddr].
Definition AllOptions : list Z :=
  [QOMinE2ELatency; QOMinLastHopAnswerSize; QOMinInfoLeakage; QOCachedAnswersOnly; QOExpiredAssertionsOk; QOTokenTracing;
   QONoVerificationDelegation; QONoProactiveCaching; QOMaxFreshness].
Definition convertTyps (types : list Z) : list Z := types.
Definition convertOpts (opts : list Z) : list Z := opts.

Section Client.
Context {CS : CborStream} {IN : Internet} {TG : TokenGen} {OL : ObjLib} {AL : AddrLib} {ZL : ZoneLib}.
Context (fmt_value : Value → string).

(** The value of each type; of several objects of a type the last one. *)
Definition ParseMessage (m : Message) : string + gmap Z string :=
  match mContent m with
  | [sec] =>
      match sec with
      | SecAssertion a => inr (foldl (λ vals o, <[objType o := fmt_value (objValue o)]> vals) ∅ (aContent a))
      | _ => inl "message is not an assertion"%string
      end
  | _ => inl "message contains invalid number of sections"%string
  end.
Definition formatSections (sections : list AnySection) : outcome string := Encode sections.
Definition Message_String (m : Message) : outcome string := formatSections (mContent m).

(** [expire] and [timeout] in nanoseconds. *)
Definition QueryRaw (name context : string) (types opts : list Z) (expire timeout : Z) (addr : NetAddr) : netM (string + Message) :=
  token ← net_token;
  now ← (λ s : Net, Ok (s, inet_now (netEvents s)));
  SendQuery (NewQueryMessage name context (unix_after now expire) (convertTyps types) (convertOpts opts) token) addr timeout.

(** The requested types only; a type that is not in the reply gets the empty text. *)
Definition requested (types : list Z) (res : gmap Z string) : gmap Z string :=
  foldl (λ m t, <[t := default ""%string (res !! t)]> m) ∅ types.
Definition Query (name context : string) (types opts : list Z) (expire timeout : Z) (addr : NetAddr) : netM (string + gmap Z string) :=
  raw ← QueryRaw name context types opts expire timeout addr;
  match raw with
  | inl err => mret (inl err)
  | inr msg => mret (match ParseMessage msg with inl err => inl err | inr res => inr (requested types res) end)
  end.

(** ** Theorems *)

(** The last element that satisfies a test. *)
Definition last_such {A} (P : A → bool) (l : list A) : option A := last (filter (λ x, P x = true) l).
Lemma parsed_lookup l t : ∀ m : gmap Z string,
  foldl (λ vals o, <[objType o := fmt_value (objValue o)]> vals) m l !! t =
  match last_such (λ o, objType o =? t) l with Some o => Some (fmt_value (objValue o)) | None => m !! t end.
Proof.
  unfold last_such. induction l as [|o l IH] using rev_ind; intros m; [done|]. rewrite foldl_app, filter_app. cbn [foldl].
  destruct (Z.eqb_spec (objType o) t) as [E|E].
  - rewrite (filter_cons_True _ o), filter_nil by (by apply Z.eqb_eq). rewrite last_snoc. by rewrite E, lookup_insert_eq.
  - rewrite (filter_cons_False _ o), filter_nil by (rewrite Z.eqb_eq; done). rewrite lookup_insert_ne by done. by rewrite app_nil_r, IH.
Qed.
Lemma requested_lookup types res t :
  requested types res !! t = if decide (t ∈ types) then Some (default ""%string (res !! t)) else None.
Proof.
  unfold requested. induction types as [|x types IH] using rev_ind; [done|]. rewrite foldl_app. cbn [foldl].
  destruct (decide (x = t)) as [->|Hne]; [rewrite lookup_insert_eq, decide_True; [done|set_solver]|].
  rewrite lookup_insert_ne, IH by done. destruct (decide (t ∈ types)); [rewrite decide_True|rewrite decide_False]; set_solver.
Qed.

(** A query succeeds only with a reply of one assertion.  The result has exactly the
    requested types, each with the last value of the assertion or, if it has none, with the
    empty text.  Neither the name, the zone and the context of the assertion nor its
    signatures matter. *)
Theorem Query_spec name context types opts expire timeout addr s s' vals :
  Query name context types opts expire timeout addr s = Ok (s', inr vals) →
  ∃ msg a, QueryRaw name context types opts expire timeout addr s = Ok (s', inr msg) ∧ mContent msg = [SecAssertion a] ∧
    ∀ t, vals !! t = if decide (t ∈ types)
                     then Some (match last_such (λ o, objType o =? t) (aContent a) with Some o => fmt_value (objValue o) | None => ""%string end)
                     else None.
Proof.
  unfold Query. unfold mbind at 1, netM_bind. destruct (QueryRaw _ _ _ _ _ _ _ s) as [[s1 [err|msg]]| |]; [done| |done..].
  unfold mret, netM_ret. cbn. unfold ParseMessage. destruct (mContent msg) as [|sec [|]] eqn:Em; [done| |done].
  destruct sec as [a| | | | |]; try done. intros [= <- <-]. exists msg, a. split_and!; [done..|]. intros t.
  rewrite requested_lookup. destruct (decide (t ∈ types)); [|done]. rewrite parsed_lookup. by destruct (last_such _ _).
Qed.
End Client.
