(* ===== verification/Dig.v ===== *)
(** * The command-line client

    Models attic/cmd/rdig/rdig.go: the arguments and flags of a query, and the command that
    sends it, prints the answer and checks it under the RHINE certificate.  The parsing of
    the command line itself is the library's; [DigLine] is what it gives. *)

From S2P Require Import Prelude Cbor Keys Object Query BitArray BloomFilter Section Message Siglib SiglibFacts Containers LruCache Pointers ZoneCache ZoneCacheFacts AssertionCache NegAssertionCache ZoneKeyCache ConnectionCache PendingCaches CapabilityCache Server QueryEngine EngineFacts Connection ZoneFile.
Local Open Scope string_scope.
Local Open Scope Z_scope.
Local Open Scope list_scope.

(** The values of the flags, and the flags that were given: their shorthands, in the order in
    which they were given.  [dlTimeout] is in nanoseconds. *)
Record DigLine := mkDigLine {
  dlPort : Z;
  dlContext : string;
  dlExpires : Z;
  dlToken : string;
  dlTimeout : Z;
  dlVisited : list string;
  dlArgs : list string
}.
(** [flag.Lookup(name).Changed] for the flag with the shorthand. *)
Definition changed (l : DigLine) (shorthand : string) : bool := bool_decide (shorthand ∈ dlVisited l).

(** The expiration when the flag is not given: [now] is the start of the program. *)
Definition default_expires (now : Z) : Z := unix_after now Second.

Definition parseQueryOption (name : string) : option Z :=
  if name =ₛ "1" then Some QOMinE2ELatency
  else if name =ₛ "2" then Some QOMinLastHopAnswerSize
  else if name =ₛ "3" then Some QOMinInfoLeakage
  else if name =ₛ "4" then Some QOCachedAnswersOnly
  else if name =ₛ "5" then Some QOExpiredAssertionsOk
  else if name =ₛ "6" then Some QOTokenTracing
  else if name =ₛ "7" then Some QONoVerificationDelegation
  else if name =ₛ "8" then Some QONoProactiveCaching
  else if name =ₛ "9" then Some QOMaxFreshness
  else None.
(** [flag.Visit] passes over the flags that were given, whatever their values are. *)
Definition parseAllQueryOptions (l : DigLine) : list Z := omap parseQueryOption (dlVisited l).

(** The server address, the name, whether there is one, and the types seen.  [log.Fatal] ends
    the program: an error. *)
Record DigArgs := mkDigArgs { daServer : string; daName : string; daNameSet : bool; daTypes : gset Z }.
Definition handleArg (st : DigArgs) (a : string) : outcome DigArgs :=
  if HasPrefix a "@" then Ok (mkDigArgs (String.substring 1 (String.length a - 1) a) (daName st) (daNameSet st) (daTypes st))
  else if daNameSet st then
    match ParseTypes a with
    | Ok ts => Ok (mkDigArgs (daServer st) (daName st) true (daTypes st ∪ list_to_set ts))
    | _ => Err "Error: malformed type"
    end
  else Ok (mkDigArgs (daServer st) a true (daTypes st)).
Fixpoint handleArgs (st : DigArgs) (args : list string) : outcome DigArgs :=
  match args with
  | [] => Ok st
  | a :: args' => st ← handleArg st a; handleArgs st args'
  end.
Definition noArgs : DigArgs := mkDigArgs "" "" false ∅.

(** The switch over the number of arguments: too many are reported, and ignored. *)
Definition read_args (l : DigLine) : outcome DigArgs :=
  match length (dlArgs l) with
  | O => Err "Error: no domain name specified."
  | n =>
      if (n <=? 15)%nat then
        st ← handleArgs noArgs (dlArgs l);
        if daNameSet st then Ok st else Err "Error: no domain name specified."
      else Ok noArgs
  end.

(** The type of certificates is asked for, too, when the answer is going to be verified. *)
Definition add_cert (l : DigLine) (types : list Z) : list Z :=
  if changed l "r" && bool_decide (types ≠ []) && negb (bool_decide (OTCertInfo ∈ types)) then types ++ [OTCertInfo] else types.

(** The bytes of the flag replace those at the beginning of a random token. *)
Fixpoint copy_token (t : Token) (i : Z) (bytes : list Z) : outcome Token :=
  match bytes with
  | [] => Ok t
  | b :: bytes' => if bool_decide (i < Z.of_nat (length t)) then copy_token (<[Z.to_nat i := b]> t) (i + 1) bytes' else Panic "index out of range"
  end.
Definition dig_token (l : DigLine) (t : Token) : outcome Token :=
  if changed l "t" then copy_token t 0 (bytes_of_string (dlToken l)) else Ok t.

Section Dig.
Context {CS : CborStream} {IN : Internet} {TG : TokenGen} {OL : ObjLib} {AL : AddrLib} {ZL : ZoneLib} {CW : CborWriter} {CE : CborEncoder}
  {ED : Ed25519Lib} {XL : X509Lib}.
(** The order in which the map of types is read. *)
Context (iter : gset Z → list Z).

(** A SCION address or else the address of a host. *)
Definition server_address (server : string) (port : Z) : outcome NetAddr :=
  let addr := server +:+ ":" +:+ dec port in
  match ParseUDPAddr addr with
  | Some a => Ok (UDPAddr (Some a))
  | None => match ResolveTCPAddr addr with Some a => Ok (TCPAddr a) | None => Err "Error: serverAddr or port malformed" end
  end.

Record DigOutput := mkDigOutput { digText : string; digVerdict : option bool }.

Definition net_now : netM Z := λ s, Ok (s, inet_now (netEvents s)).

(** The left value is the message of [log.Fatal]. *)
Definition fatal {A B} (m : outcome A) (k : A → netM (string + B)) : netM (string + B) :=
  match m with Ok a => k a | Err e => mret (inl e) | Panic e => net_panic e end.
Definition main_rdig (l : DigLine) : netM (string + DigOutput) :=
  fatal (read_args l) (λ st,
  if daServer st =ₛ "" then mret (inl "Error: default server not yet implemented. Please specify a server addr")
  else
    let types := add_cert l (iter (daTypes st)) in
    fatal (server_address (daServer st) (dlPort l)) (λ serverAddr,
    t ← net_token;
    fatal (dig_token l t) (λ t,
    r ← SendQuery (NewQueryMessage (daName st) (dlContext l) (dlExpires l) types (parseAllQueryOptions l) t) serverAddr (dlTimeout l);
    match r with
    | inl err => mret (inl ("was not able to send query: " +:+ err))
    | inr answerMsg =>
        text ← net_fail (Encode (mContent answerMsg));
        if changed l "r" then
          now ← net_now;
          '(_, ok) ← net_fail (RhineCertVerification now answerMsg);
          mret (inr (mkDigOutput text (Some ok)))
        else mret (inr (mkDigOutput text None))
    end))).
End Dig.

(** ** What a query does *)

Section Theorems.
Context {CS : CborStream} {CSL : CborStreamLaws} {OL : ObjLib} {OLL : ObjLibLaws} {TG : TokenGen} {AL : AddrLib} {ZL : ZoneLib} {CW : CborWriter}
  {CE : CborEncoder} {ED : Ed25519Lib} {XL : X509Lib}.
Context (iter : gset Z → list Z) (iter_spec : ∀ X, iter X ≡ₚ elements X).

Lemma net_bind_ok {A B} (m : netM A) (f : A → netM B) (s s' : Net) b : (m ≫= f) s = Ok (s', b) → ∃ s1 a, m s = Ok (s1, a) ∧ f a s1 = Ok (s', b).
Proof. unfold mbind, netM_bind. destruct (m s) as [[s1 a]| |]; [by exists s1, a|done..]. Qed.

Definition endpoint (a : NetAddr) : option Addr := match a with TCPAddr a => Some a | UDPAddr a => a | _ => None end.
(** A message answers a query: it has its token, or notifies about it. *)
Definition answers (tok : Token) (msg : Message) : Prop :=
  mToken msg = tok ∨ ∃ n, head (mContent msg) = Some (SecNotification n) ∧ nToken n = tok.

Section AnyNetwork.
Context {IN : Internet}.

Lemma SendQuery_ok query addr timeout s s' msg : message_ok query → SendQuery query addr timeout s = Ok (s', inr msg) →
  ∃ a conn req ok resp, endpoint addr = Some a ∧ Message_MarshalCBOR query empty_stream = Ok req ∧
    netEvents s' = netEvents s ++ [Dialled a (Some conn); Written conn req ok; Received conn (Some resp); Closed conn] ∧
    netTokens s' = netTokens s ∧ Message_UnmarshalCBOR zeroMessage resp = Ok msg ∧ answers (mToken query) msg.
Proof.
  intros Hok (s1 & [conn|] & E1 & E)%net_bind_ok; [|done]. apply net_bind_ok in E as (s2 & r2 & E2 & E). apply net_bind_ok in E as (s3 & r3 & E3 & E).
  apply net_bind_ok in E as (s4 & [] & [= <-] & [= <- ->]).
  destruct (Message_wire query Hok) as (req & Ew & _). unfold WriteMessage in E2. rewrite Ew in E2. injection E2 as <- <-.
  unfold ReceiveMessageAsync, ReceiveMessage in E3. apply net_bind_ok in E3 as (s5 & r5 & E5 & E3). apply net_bind_ok in E5 as (s6 & r6 & [= <- <-] & E5).
  assert (∃ a, endpoint addr = Some a ∧ s1 = mkNet (netEvents s ++ [Dialled a (Some conn)]) (netTokens s)) as (a & Ha & ->).
  { destruct addr as [|a|[a|]|]; try done; cbn in E1; injection E1 as <- E1; exists a; (split; [done|by rewrite E1]). }
  cbn [netEvents netTokens] in *. destruct (inet_read _ _ _) as [resp|] eqn:Er; [|by injection E5 as <- <-; cbn in E3].
  destruct (Message_UnmarshalCBOR zeroMessage resp) as [m| |] eqn:Eu; [injection E5 as <- <-|by injection E5 as <- <-; cbn in E3|done].
  exists a, conn, req, (inet_write (netEvents s ++ [Dialled a (Some conn)]) conn req), resp.
  cbn in E3. destruct (bool_decide_reflect (mToken m = mToken query)) as [Et|Et].
  - injection E3 as <- ->. split_and!; try done; [cbn; by rewrite <-!(assoc_L (++))|by left].
  - apply net_bind_ok in E3 as (s7 & sec & E7 & E3). unfold net_fail in E7. destruct (at_index (mContent m) 0) as [sec'| |] eqn:Ei; [|done..].
    injection E7 as <- <-. destruct sec'; try done. case_bool_decide as En; [|done]. injection E3 as <- ->.
    split_and!; try done; [cbn; by rewrite <-!(assoc_L (++))|]. right. eexists. split; [|exact En].
    destruct (mContent msg); [done|]. cbn in Ei. by injection Ei as ->.
Qed.

Lemma copy_token_length t i bytes t' : copy_token t i bytes = Ok t' → length t' = length t.
Proof.
  revert t i. induction bytes as [|b bytes IH]; intros t i E; cbn in E; [by injection E as ->|]. case_bool_decide; [|done].
  apply IH in E. by rewrite length_insert in E.
Qed.
Lemma dig_token_length l t t' : dig_token l t = Ok t' → length t' = length t.
Proof. unfold dig_token. destruct (changed l "t"); [apply copy_token_length|by intros [= ->]]. Qed.

(** The query of a command line. *)
Definition dig_query (l : DigLine) (st : DigArgs) (tok : Token) : Message :=
  NewQueryMessage (daName st) (dlContext l) (dlExpires l) (add_cert l (iter (daTypes st))) (parseAllQueryOptions l) tok.
Lemma dig_query_ok l st tok : length tok = 16%nat → message_ok (dig_query l st tok).
Proof. intros H. split; [done|]. split; [by apply Forall_nil|]. by apply Forall_singleton. Qed.
Lemma dig_types_spec l st : NoDup (add_cert l (iter (daTypes st))) ∧
  ∀ t, t ∈ add_cert l (iter (daTypes st)) ↔ t ∈ daTypes st ∨ (t = OTCertInfo ∧ changed l "r" = true ∧ daTypes st ≠ ∅).
Proof.
  assert (NoDup (iter (daTypes st))) as Hd by (rewrite iter_spec; apply NoDup_elements).
  assert (∀ t, t ∈ iter (daTypes st) ↔ t ∈ daTypes st) as He by (intros t; rewrite iter_spec; apply elem_of_elements).
  assert (iter (daTypes st) ≠ [] ↔ daTypes st ≠ ∅) as Hn.
  { pose proof (iter_spec (daTypes st)) as Hp. split; intros H E; apply H.
    - rewrite E, elements_empty in Hp. rewrite E. by apply Permutation_nil_r.
    - rewrite E in Hp. apply leibniz_equiv, elements_empty_inv. symmetry. by apply Permutation_nil_l. }
  unfold add_cert. destruct (changed l "r") eqn:Er; cbn [andb].
  - destruct (bool_decide_reflect (iter (daTypes st) ≠ [])) as [H1|H1]; cbn [andb].
    + destruct (bool_decide_reflect (OTCertInfo ∈ iter (daTypes st))) as [H2|H2]; cbn [negb].
      * split; [done|]. intros t. rewrite He. split; [by left|]. intros [?|(-> & _)]; [done|]. by apply He.
      * split; [apply NoDup_app; split_and!; [done|set_solver|by apply NoDup_singleton]|]. intros t.
        rewrite elem_of_app, list_elem_of_singleton, He. naive_solver.
    + split; [done|]. intros t. rewrite He. naive_solver.
  - split; [done|]. intros t. rewrite He. naive_solver.
Qed.

(** C12: Whatever the network does, a command that prints an answer has opened one connection to
    the server it was given and written one query to it: for the name and the context of the
    command line, for each type once, the type of certificates included when the answer is
    verified, with the options in their order, under the random token or the one that was
    given.  It prints the sections of a message for this token; and when it reports that the
    certificate is right, each of these sections was accepted under the key of a certificate
    that verifies for the zone. *)
Theorem rdig_sound l s s' out : (∀ i, length (token_at i) = 16%nat) → main_rdig iter l s = Ok (s', inr out) →
  ∃ st tok addr a conn req ok resp msg, read_args l = Ok st ∧ daNameSet st = true ∧ daServer st ≠ "" ∧
    dig_token l (token_at (netTokens s)) = Ok tok ∧ server_address (daServer st) (dlPort l) = Ok addr ∧ endpoint addr = Some a ∧
    Message_MarshalCBOR (dig_query l st tok) empty_stream = Ok req ∧
    netEvents s' = netEvents s ++ [Dialled a (Some conn); Written conn req ok; Received conn (Some resp); Closed conn] ∧
    Message_UnmarshalCBOR zeroMessage resp = Ok msg ∧ answers tok msg ∧ Encode (mContent msg) = Ok (digText out) ∧
    NoDup (add_cert l (iter (daTypes st))) ∧
    (∀ t, t ∈ add_cert l (iter (daTypes st)) ↔ t ∈ daTypes st ∨ (t = OTCertInfo ∧ changed l "r" = true ∧ daTypes st ≠ ∅)) ∧
    (digVerdict out = Some true → ∃ now checked cert zone id, RhineCertVerification now msg = Ok (checked, true) ∧ x509_Verify cert zone = true ∧
       Forall2 (λ sec sec', ∃ w w', as_with_sig sec = Ok w ∧ sec' = SigSection_section w' ∧
                 accepted_section now {[id := [mkPublicKey id (x509_NotBefore cert) (unix_after now three_hours) (x509_PublicKey cert)]]} w w')
         (mContent msg) (mContent checked)).
Proof.
  intros Hlen. unfold main_rdig, fatal. destruct (read_args l) as [st| |] eqn:Ea; [|done..].
  destruct (String.eqb_spec (daServer st) "") as [|Hs]; [done|]. destruct (server_address _ _) as [addr| |] eqn:Eaddr; [|done..].
  intros (s1 & t & [= <- <-] & E)%net_bind_ok. destruct (dig_token _ _) as [tok| |] eqn:Et; [|done..].
  apply net_bind_ok in E as (s2 & [err|msg] & E1 & E); [done|].
  assert (length tok = 16%nat) as Htok by (rewrite (dig_token_length _ _ _ Et); apply Hlen).
  destruct (SendQuery_ok (dig_query l st tok) _ _ _ _ _ (dig_query_ok l st tok Htok) E1) as (a & conn & req & ok & resp & H1 & H2 & H3 & _ & H5 & H6).
  apply net_bind_ok in E as (s3 & text & Etext & E). unfold net_fail in Etext. destruct (Encode (mContent msg)) as [text'| |] eqn:Een; [|done..].
  injection Etext as <- <-. exists st, tok, addr, a, conn, req, ok, resp, msg. destruct (dig_types_spec l st) as [Hd Hi].
  assert (daNameSet st = true) as Hset.
  { unfold read_args in Ea. destruct (length (dlArgs l)); [done|]. destruct (_ <=? 15)%nat; [|by injection Ea as <-].
    destruct (handleArgs _ _) as [st'| |]; [|done..]. cbn in Ea. destruct (daNameSet st') eqn:E'; [|done]. by injection Ea as <-. }
  assert (netEvents s' = netEvents s2 ∧ digText out = text' ∧ (digVerdict out = Some true → ∃ now checked, RhineCertVerification now msg = Ok (checked, true)))
    as (Ee & Eo & Ev).
  { destruct (changed l "r"); [|injection E as <- <-; split_and!; done]. apply net_bind_ok in E as (s4 & now & [= <- <-] & E).
    apply net_bind_ok in E as (s5 & [checked ok'] & Ec & E). unfold net_fail in Ec. destruct (RhineCertVerification _ _) as [r| |] eqn:Er; [|done..].
    injection Ec as <- ->. injection E as <- <-. split_and!; [done..|]. intros [= ->]. by eexists _, _. }
  rewrite Ee, Eo. split_and!; try done. intros (now & checked & Hr)%Ev. exists now, checked.
  destruct (proj1 (RhineCertVerification_spec now msg) checked Hr) as (cert & zone & id & _ & Hv & Hf). by exists cert, zone, id.
Qed.
End AnyNetwork.
End Theorems.

(** ** An example *)

Section Example.
Local Existing Instance toy_stream.
Local Existing Instance toy_tokens.
Local Existing Instance be_objlib.
Local Existing Instance toy_cbor.
Local Existing Instance toy_ed25519.
Local Existing Instance toy_encoder.
Local Existing Instance toy_x509.

(** Every string is the address of a host. *)
Definition dig_addresses : AddrLib := {|
  ResolveTCPAddr s := Some (mkAddr "tcp" s); ParseUDPAddr _ := None; IP_String _ := "10.0.0.1"; IA_String _ := "1-ff00:0:110"
|}.
Definition dig_lib : ZoneLib := {| ParseIP _ := None; snet_ParseUDPAddr _ := None; fmt_other _ := "" |}.
Local Existing Instance dig_addresses.
Local Existing Instance dig_lib.

(** A server that answers every query with the assertion of a name and the certificate. *)
Definition rhine_reply (bytes : stream) : option stream :=
  match Message_UnmarshalCBOR zeroMessage bytes with
  | Ok m =>
      match Message_MarshalCBOR (mkMessage [] (mToken m) [SecAssertion (w_signed false); SecAssertion w_rhine] []) empty_stream with
      | Ok w => Some w
      | _ => None
      end
  | _ => None
  end.
Definition rhine_internet : Internet := {|
  inet_dial _ a := Some (mkConn 1 a);
  inet_write _ _ _ := true;
  inet_read log _ _ := match last log with Some (Written _ bytes _) => rhine_reply bytes | _ => None end;
  inet_now _ := 0
|}.

(** rdig -r @10.0.0.1 www.ch. ip4 *)
Definition rhine_line : DigLine := mkDigLine 55553 "." 1 "" 10000000000 ["r"] ["@10.0.0.1"; "www.ch."; "ip4"].

Lemma rdig_sound_witness : ∃ s' out st, main_rdig (IN := rhine_internet) elements rhine_line (mkNet [] 0) = Ok (s', inr out) ∧
  digVerdict out = Some true ∧ read_args rhine_line = Ok st ∧ daName st = "www.ch." ∧ length (netEvents s') = 4%nat ∧
  OTCertInfo ∈ add_cert rhine_line (elements (daTypes st)).
Proof.
  destruct (main_rdig (IN := rhine_internet) elements rhine_line (mkNet [] 0)) as [[s' [err|out]]| |] eqn:E;
    [vm_compute in E; discriminate E| |vm_compute in E; discriminate E..].
  destruct (@rdig_sound _ toy_stream_laws _ be_objlib_laws _ _ _ _ _ _ _ elements (λ X, reflexivity _) rhine_internet rhine_line (mkNet [] 0) s' out)
    as (st & tok & addr & a & conn & req & ok & resp & msg & Ha & _ & _ & _ & _ & _ & _ & Hev & _ & _ & _ & _ & Ht & _); [done|exact E|].
  exists s', out, st. split_and!; [done|vm_compute in E; by injection E as _ <-|done|vm_compute in Ha; by injection Ha as <-|by rewrite Hev|].
  apply Ht. right. split_and!; [done|done|]. vm_compute in Ha. injection Ha as <-. discriminate.
Defined.
End Example.
