(* ===== verification/Served.v ===== *)
(** * A client and a server

    The two ends of a connection: [served] is a network for [Connection] whose other end is
    the server of [Inbox].  The theorem follows a query from the command line of [Dig]
    through the server's caches and back to what is printed. *)

From S2P Require Import Prelude Cbor Keys Object Query BitArray BloomFilter Section Message Siglib SiglibFacts Containers LruCache Pointers ZoneCache ZoneCacheFacts AssertionCache NegAssertionCache ZoneKeyCache ConnectionCache PendingCaches CapabilityCache Server AssertionEngine QueryEngine Verify Inbox ServerFacts EngineFacts QueryFacts Connection ZoneFile Dig.
Local Open Scope string_scope.
Local Open Scope Z_scope.
Local Open Scope list_scope.

Section Served.
Context {CS : CborStream} {TG : TokenGen} {NW : Network} {OL : ObjLib} {CW : CborWriter} {CE : CborEncoder} {ED : Ed25519Lib}.
Context (stack : nat).

(** A message arrives, and a worker handles what it put into the normal queue. *)
Definition handle_one (now : Z) (msg : Message) (sender : Addr) : serverM (CS:=CS) () :=
  deliver msg sender;;
  q ← gets queues;
  match Normal q with
  | [] => mret ()
  | ss :: rest => update (set_queues (mkQueues (Prio q) rest (Notify q)));; work stack now (HNormal ss)
  end.
(** What the server wrote to the connection since the log was [old] events long. *)
Definition written_to (conn : Conn) (old : nat) (log : list NetEvent) : option stream :=
  match last (drop old log) with Some (EvWrite c b true) => if bool_decide (c = conn) then Some b else None | _ => None end.
Definition serve (now : Z) (s : Server (CS:=CS)) (conn : Conn) (bytes : stream) : option stream :=
  match Message_UnmarshalCBOR zeroMessage bytes with
  | Ok msg =>
      match handle_one now msg (RemoteAddr conn) s with
      | Ok (s', _) => written_to conn (length (netLog s)) (netLog s')
      | _ => None
      end
  | _ => None
  end.
(** The network of a client that is connected to the server [s] by [conn]: it reads what the
    server writes for the message that the client wrote last. *)
Definition served (now : Z) (s : Server (CS:=CS)) (conn : Conn) : Internet := {|
  inet_dial _ _ := Some conn;
  inet_write _ _ _ := true;
  inet_read log _ _ := match last log with Some (Written _ bytes _) => serve now s conn bytes | _ => None end;
  inet_now _ := now
|}.
End Served.

(** ** What the server answers *)

Section Answers.
Context {CS : CborStream} {TG : TokenGen} {NW : Network} {OL : ObjLib} {CW : CborWriter} {CE : CborEncoder} {ED : Ed25519Lib}.
Implicit Types s : Server (CS:=CS).

(** Lookups change nothing but the order of the assertion cache. *)
Definition only_assertions s s' : Prop := ∃ c, s' = set_caches (set_assertions c (caches s)) s.
Lemma only_assertions_refl s : only_assertions s s.
Proof. exists (AssertionsCache (caches s)). by destruct s as [? ? ? [] ? ? ? ? ? ? ?]. Qed.
Lemma only_assertions_trans s1 s2 s3 : only_assertions s1 s2 → only_assertions s2 s3 → only_assertions s1 s3.
Proof. intros [c ->] [d ->]. by exists d. Qed.
Lemma AssertionsCache_Get_only fqdn ctx t s s' r : AssertionsCache_Get fqdn ctx t s = Ok (s', r) → only_assertions s s'.
Proof. unfold AssertionsCache_Get, on_cache. destruct (AssertionImpl_Get _ _ _ _ _) as [c r']. intros [= <- _]. by exists c. Qed.

(** *** Collecting assertions *)

Definition valid_at (now : Z) (a : Assertion) : Prop := unix now < aValidUntil a.
(** The keys that were seen are those of the collected assertions, which have one each. *)
Definition collected (st : gset string * list Assertion) : Prop := (∀ k, k ∈ st.1 ↔ k ∈ asKey <$> st.2) ∧ NoDup (asKey <$> st.2).
Lemma collect_spec now asserts st : collected st →
  let st' := foldl (collect now) st asserts in
  collected st' ∧ ∃ new, st'.2 = st.2 ++ new ∧ (∀ a, a ∈ new → a ∈ asserts ∧ valid_at now a) ∧
    (∀ a, a ∈ asserts → valid_at now a → asKey a ∈ asKey <$> st'.2).
Proof.
  revert st. induction asserts as [|a asserts IH]; intros st Hst; cbn zeta; cbn [foldl].
  { split; [done|]. exists []. rewrite app_nil_r. split_and!; [done|set_solver..]. }
  assert (collected (collect now st a) ∧ ∃ new, (collect now st a).2 = st.2 ++ new ∧ (∀ b, b ∈ new → b = a ∧ valid_at now a) ∧
    (valid_at now a → asKey a ∈ asKey <$> (collect now st a).2)) as (H1 & new1 & E1 & Hn1 & Hk1).
  { destruct st as [X l], Hst as [Hk Hd]. cbn [fst snd] in *. unfold collect. case_bool_decide as Hin; cbn [fst snd].
    - split; [done|]. exists []. rewrite app_nil_r. split_and!; [done|set_solver|]. intros _. by apply Hk.
    - destruct (Z.ltb_spec (unix now) (aValidUntil a)) as [Hv|Hv]; cbn [fst snd].
      + split.
        * split; cbn [fst snd]; rewrite fmap_app; [intros k; rewrite elem_of_union, elem_of_app, Hk; set_solver|].
          apply NoDup_app. split_and!; [done| |by apply NoDup_singleton]. intros k Hkl ->%list_elem_of_singleton. by apply Hin, Hk.
        * exists [a]. split_and!; [done|intros b ->%list_elem_of_singleton; done|]. intros _. rewrite fmap_app. set_solver.
      + split; [done|]. exists []. rewrite app_nil_r. split_and!; [done|set_solver|]. unfold valid_at. lia. }
  destruct (IH _ H1) as (H2 & new2 & E2 & Hn2 & Hk2). split; [done|]. exists (new1 ++ new2). rewrite E2, E1, <-(assoc_L (++)). split_and!; [done| |].
  - intros b [Hb|Hb]%elem_of_app; [destruct (Hn1 b Hb) as [-> ?]; split; [by left|done]|]. destruct (Hn2 b Hb). split; [by right|done].
  - intros b [->|Hb]%elem_of_cons Hv; [|rewrite E2, E1, <-(assoc_L (++)) in Hk2; by apply Hk2].
    rewrite (assoc_L (++)), <-E1, fmap_app. apply elem_of_app. left. by apply Hk1.
Qed.

Lemma assertionCacheLookup_spec v now q s : holds v s → ∃ s' l, assertionCacheLookup now q s = Ok (s', SecAssertion <$> l) ∧ only_assertions s s' ∧
  NoDup (asKey <$> l) ∧
  (∀ a, a ∈ l → valid_at now a ∧ ∃ t, t ∈ qTypes q ∧ filed_for v (qName q) (qContext q) t a) ∧
  (∀ t a, t ∈ qTypes q → filed_for v (qName q) (qContext q) t a → valid_at now a → asKey a ∈ asKey <$> l).
Proof.
  intros Hh. set (body := λ st t, '(asserts, ok) ← AssertionsCache_Get (qName q) (qContext q) t;
         mret (if ok : bool then foldl (collect now) st asserts else st) : serverM (CS:=CS) _).
  assert (∀ types st s, holds v s → collected st → ∃ s' st', fold_each body st types s = Ok (s', st') ∧ only_assertions s s' ∧ collected st' ∧
    ∃ new, st'.2 = st.2 ++ new ∧ (∀ a, a ∈ new → valid_at now a ∧ ∃ t, t ∈ types ∧ filed_for v (qName q) (qContext q) t a) ∧
      (∀ t a, t ∈ types → filed_for v (qName q) (qContext q) t a → valid_at now a → asKey a ∈ asKey <$> st'.2)) as H.
  { clear s Hh. induction types as [|t types IH]; intros st s Hh Hst.
    { exists s, st. split_and!; [done|apply only_assertions_refl|done|]. exists []. rewrite app_nil_r. split_and!; [done|by intros a ?%elem_of_nil|by intros t a ?%elem_of_nil]. }
    destruct (AssertionsCache_Get_holds v (qName q) (qContext q) t s Hh) as (s1 & asserts & E & Hh1 & Hf). cbn [fold_each].
    set (st1 := if bool_decide (asserts ≠ []) then foldl (collect now) st asserts else st).
    assert (body st t s = Ok (s1, st1)) as Eb by (unfold body, mbind, serverM_bind; by rewrite E).
    assert (st1 = foldl (collect now) st asserts) as Est by (unfold st1; case_bool_decide as Hn; [done|]; by rewrite Hn).
    destruct (collect_spec now asserts st Hst) as (H1 & new1 & E1 & Hn1 & Hk1). rewrite <-Est in *.
    destruct (IH st1 s1 Hh1 H1) as (s2 & st2 & E2 & Ho2 & H2 & new2 & E2' & Hn2 & Hk2).
    exists s2, st2. split_and!; [|eapply only_assertions_trans; [by eapply AssertionsCache_Get_only|done]|done|].
    { unfold mbind, serverM_bind in E2 |- *. rewrite Eb. exact E2. }
    exists (new1 ++ new2). rewrite E2', E1, <-(assoc_L (++)). split_and!; [done| |].
    - intros a [[Ha Hv]%Hn1|[Hv (t' & Ht & Hfa)]%Hn2]%elem_of_app; split; [done| |done|exists t'; split; [by right|done]].
      exists t. split; [by left|by apply Hf].
    - intros t' a [->|Ht]%elem_of_cons Hfa Hv; [|rewrite E2', E1, <-(assoc_L (++)) in Hk2; by eapply Hk2].
      rewrite (assoc_L (++)), <-E1, fmap_app. apply elem_of_app. left. apply Hk1; [by apply Hf|done]. }
  destruct (H (qTypes q) (∅, []) s Hh) as (s' & st' & E & Ho & [_ Hd] & new & En & Hn & Hk); [split; [set_solver|by apply NoDup_nil]|].
  cbn [snd app] in En. exists s', st'.2. unfold assertionCacheLookup. fold body. unfold mbind at 1, serverM_bind. rewrite E.
  split_and!; [done|done|done|rewrite En; done|done].
Qed.

(** *** Sending and handling *)

(** The server has no packet socket, [conn] is its first connection to the other end, and
    writing to it succeeds. *)
Definition connected s (conn : Conn) : Prop :=
  packetConn s = false ∧ (∃ rest, (GetConnection (ConnCache (caches s)) (RemoteAddr conn)).2 = Some (conn :: rest)) ∧
  ∀ bytes, net_write (netLog s) conn bytes = true.
Lemma sendSections_conn s conn answer tok enc : connected s conn → tok ≠ replicate 16 0 →
  Message_MarshalCBOR (mkMessage [capabilityHash s] tok answer []) empty_stream = Ok enc →
  ∃ s', sendSections answer tok (RemoteAddr conn) s = Ok (s', None) ∧ netLog s' = netLog s ++ [EvWrite conn enc true].
Proof.
  intros (Hp & [rest Hc] & Hw) Ht He. unfold sendSections. rewrite bool_decide_false by done. unfold sendTo, mbind, serverM_bind. cbn. rewrite He.
  unfold sendToTry, mbind, serverM_bind. cbn. rewrite Hp. cbn. unfold GetConnection_M, on_cache. cbn.
  destruct (GetConnection _ _) as [c r]. cbn in Hc |- *. subst r. unfold write_any, conn_Write, mbind, serverM_bind. cbn. rewrite Hw. cbn.
  eexists. by split.
Qed.

(** The query is one that the server checks and is responsible for. *)
Definition accepted_query (now : Z) s (q : QueryName) : Prop :=
  contextInvalid (qContext q) = false ∧ isQueryExpired now (qExpiration q) = false ∧
  (Authorities (config s) = [] ∨ authority_over (Authorities (config s)) q = true).

Lemma processQuery_cached stack now s conn tok q s1 l enc : connected s conn → tok ≠ replicate 16 0 →
  (Authorities (config s) = [] ∨ authority_over (Authorities (config s)) q = true) →
  assertionCacheLookup now q s = Ok (s1, SecAssertion <$> l) → only_assertions s s1 → l ≠ [] →
  Message_MarshalCBOR (mkMessage [capabilityHash s] tok (SecAssertion <$> l) []) empty_stream = Ok enc →
  ∃ s', processQuery stack now (mkMsgSectionSender (RemoteAddr conn) [SecQuery q] tok) s = Ok (s', ()) ∧ netLog s' = netLog s ++ [EvWrite conn enc true].
Proof.
  intros Hc Ht Ha E [c ->] Hl He. assert (connected (set_caches (set_assertions c (caches s)) s) conn) as Hc' by exact Hc.
  destruct (sendSections_conn _ conn (SecAssertion <$> l) tok enc Hc' Ht He) as (s2 & E2 & En).
  assert (lookup_all now (RemoteAddr conn) tok [q] s = Ok (set_caches (set_assertions c (caches s)) s, ([], SecAssertion <$> l))) as EL.
  { unfold lookup_all, fold_each, cacheLookup, mbind, serverM_bind. rewrite E. by destruct l. }
  exists s2. split; [|exact En]. unfold processQuery. cbn [traverse mssSections mssSender mssToken]. unfold mbind, serverM_bind. cbn.
  destruct Ha as [Ha|Ha].
  - rewrite Ha. unfold answerQueriesCachingResolver, mbind, serverM_bind. cbn -[lookup_all]. rewrite EL. cbn. by rewrite E2.
  - destruct (Authorities (config s)) as [|x auths] eqn:EA; [done|]. unfold answerQueriesAuthoritative, mbind, serverM_bind. cbn -[authority_over lookup_all].
    rewrite EA. cbn -[authority_over lookup_all]. rewrite Ha. cbn -[authority_over lookup_all]. rewrite EL. cbn. rewrite elements_empty. cbn. by rewrite E2.
Qed.

Lemma handle_query stack now s conn tok q s1 l enc : connected s conn → tok ≠ replicate 16 0 → accepted_query now s q → Normal (queues s) = [] →
  assertionCacheLookup now q s = Ok (s1, SecAssertion <$> l) → only_assertions s s1 → l ≠ [] →
  Message_MarshalCBOR (mkMessage [capabilityHash s] tok (SecAssertion <$> l) []) empty_stream = Ok enc →
  ∃ s', handle_one stack now (mkMessage [] tok [SecQuery q] []) (RemoteAddr conn) s = Ok (s', ()) ∧ netLog s' = netLog s ++ [EvWrite conn enc true].
Proof.
  intros Hc Ht (H1 & H2 & H3) Hn E Ho Hl He. destruct (processQuery_cached stack now s conn tok q s1 l enc Hc Ht H3 E Ho Hl He) as (s2 & E2 & En).
  exists s2. split; [|exact En]. unfold handle_one, deliver, mbind, serverM_bind. cbn. unfold mret, serverM_ret, mbind, serverM_bind. cbn. rewrite Hn. cbn. unfold mbind, serverM_bind. cbn.
  unfold verify, verifyQueries, expire_queries, mbind, serverM_bind. cbn. unfold Query_GetContext, Query_GetExpiration. rewrite H1, H2. cbn.
  rewrite <-E2. f_equal. destruct s as [? ? ? ? [] ? ? ? ? ? ?]. cbn in Hn. by subst.
Qed.
End Answers.

(** ** What the client prints *)

Section Printed.
Context {CS : CborStream} {CSL : CborStreamLaws} {OL : ObjLib} {OLL : ObjLibLaws} {TG : TokenGen} {NW : Network} {AL : AddrLib} {ZL : ZoneLib}
  {CW : CborWriter} {CE : CborEncoder} {ED : Ed25519Lib} {XL : X509Lib}.
Context (iter : gset Z → list Z) (iter_spec : ∀ X, iter X ≡ₚ elements X).

Lemma traverse_total {A B} (f : A → outcome B) l : (∀ x, x ∈ l → ∃ y, f x = Ok y) → ∃ k, traverse f l = Ok k.
Proof.
  induction l as [|x l IH]; intros H; [by eexists|]. destruct (H x) as [y Ey]; [by left|]. destruct IH as [k Ek]; [intros; apply H; by right|].
  exists (y :: k). cbn. by rewrite Ey, Ek.
Qed.
Lemma Encode_ok l : (∀ b, b ∈ l → Forall sig_ok (aSignatures b)) → ∃ text, Encode (SecAssertion <$> l) = Ok text.
Proof.
  intros H. unfold Encode. destruct (traverse_total EncodeSection (SecAssertion <$> l)) as [k ->]; [|by eexists].
  intros sec (b & -> & Hb)%list_elem_of_fmap. cbn. unfold encodeAssertion, encode_sigs.
  destruct (traverse_total encodeEd25519Signature (aSignatures b)) as [sigs ->]; [|cbn; case_match; by eexists].
  intros sig Hsig. specialize (H b Hb). rewrite Forall_forall in H. destruct (H sig Hsig) as [_ [bytes Hd]].
  unfold encodeEd25519Signature. rewrite Hd. case_match; by eexists.
Qed.

(** The client against the server it is connected to. *)
Lemma SendQuery_served stack now s conn query addr a timeout (net : Net) enc msg : message_ok query → endpoint addr = Some a →
  (∃ s', handle_one stack now (mkMessage (mCapabilities query) (mToken query) (section_wire <$> mContent query) (mSignatures query)) (RemoteAddr conn) s = Ok (s', ()) ∧
    netLog s' = netLog s ++ [EvWrite conn enc true]) →
  Message_UnmarshalCBOR zeroMessage enc = Ok msg → mToken msg = mToken query →
  ∃ net', SendQuery (IN := served stack now s conn) query addr timeout net = Ok (net', inr msg).
Proof.
  intros Hok Ha (s' & Eh & El) Eu Et. destruct (Message_wire query Hok) as (req & Ew & Er).
  assert (serve stack now s conn req = Some enc) as Es.
  { unfold serve. rewrite Er, Eh, El. unfold written_to. rewrite drop_app_length. cbn. by rewrite bool_decide_true. }
  assert (∃ net1, CreateConnection (IN := served stack now s conn) addr net = Ok (net1, Some conn)) as [net1 E1].
  { destruct addr as [|b|[b|]|]; try done; by eexists. }
  unfold SendQuery, WriteMessage, ReceiveMessageAsync, ReceiveMessage, mbind, netM_bind. rewrite E1. cbn. rewrite Ew. cbn.
  rewrite last_snoc, Es. cbn. rewrite Eu. cbn. rewrite bool_decide_true by done. cbn. by eexists.
Qed.

Definition dig_name_query (l : DigLine) (st : DigArgs) : QueryName :=
  mkQueryName (dlContext l) (daName st) (add_cert l (iter (daTypes st))) (dlExpires l) (parseAllQueryOptions l) 0 0.

(** C11: A query on the command line that a server is connected to and responsible for, and for
    which it has an assertion that is still valid in its cache, is answered: the command
    prints assertions that the server has filed for the name, the context and one of the
    types and that are still valid, one for each combination of subject, zone and context,
    as they survive the encoding. *)
Theorem rdig_is_answered stack now v s conn l st addr a tok (net : Net) :
  read_args l = Ok st → daServer st ≠ "" → server_address (daServer st) (dlPort l) = Ok addr → endpoint addr = Some a → changed l "r" = false →
  dig_token l (token_at (netTokens net)) = Ok tok → length tok = 16%nat → tok ≠ replicate 16 0 →
  holds v s → connected s conn → Normal (queues s) = [] → accepted_query now s (dig_name_query l st) →
  (∀ b, filed v b → assertion_ok b) →
  (∃ t b, t ∈ daTypes st ∧ filed_for v (daName st) (dlContext l) t b ∧ valid_at now b) →
  ∃ answers net' text, main_rdig (IN := served stack now s conn) iter l net = Ok (net', inr (mkDigOutput text None)) ∧
    Encode (SecAssertion <$> (assertion_wire <$> answers)) = Ok text ∧ answers ≠ [] ∧ NoDup (asKey <$> answers) ∧
    (∀ b, b ∈ answers → valid_at now b ∧ ∃ t, t ∈ daTypes st ∧ filed_for v (daName st) (dlContext l) t b) ∧
    (∀ t b, t ∈ daTypes st → filed_for v (daName st) (dlContext l) t b → valid_at now b → asKey b ∈ asKey <$> answers).
Proof.
  intros Ea Hs Eaddr Hend Hr Et Hlen Hz Hh Hc Hn Hq Hok (t0 & b0 & Ht0 & Hb0 & Hv0).
  assert (∀ t, t ∈ qTypes (dig_name_query l st) ↔ t ∈ daTypes st) as Hty.
  { intros t. cbn. unfold add_cert. rewrite Hr. cbn [andb]. by rewrite iter_spec, elem_of_elements. }
  destruct (assertionCacheLookup_spec v now (dig_name_query l st) s Hh) as (s1 & answers & E & Ho & Hd & Hin & Hall).
  assert (answers ≠ []) as Hne.
  { specialize (Hall t0 b0 (proj2 (Hty t0) Ht0) Hb0 Hv0). intros ->. by apply elem_of_nil in Hall. }
  assert (∀ b, b ∈ answers → assertion_ok b) as Hwf.
  { intros b (_ & t & _ & Hb)%Hin. by eapply Hok, filed_for_filed. }
  set (reply := mkMessage [capabilityHash s] tok (SecAssertion <$> answers) []).
  assert (message_ok reply) as Hreply.
  { split; [done|]. split; [by apply Forall_nil|]. apply Forall_fmap, Forall_forall. exact Hwf. }
  destruct (Message_wire reply Hreply) as (enc & Eenc & Edec).
  pose proof (handle_query stack now s conn tok _ s1 answers enc Hc Hz Hq Hn E Ho Hne Eenc) as Hhandle.
  destruct (SendQuery_served stack now s conn (dig_query iter l st tok) addr a (dlTimeout l)
    (mkNet (netEvents net) (S (netTokens net))) enc _ (dig_query_ok iter l st tok Hlen) Hend Hhandle Edec eq_refl) as [net' Enet].
  destruct (Encode_ok (assertion_wire <$> answers)) as [text Etext].
  { intros b (b' & -> & Hb')%list_elem_of_fmap. by destruct (Hwf b' Hb') as (_ & _ & Hsig & _). }
  assert (section_wire <$> (SecAssertion <$> answers) = SecAssertion <$> (assertion_wire <$> answers)) as Ew by by rewrite <-!list_fmap_compose.
  exists answers, net', text. split_and!; [|exact Etext|done|done| |].
  - unfold main_rdig, fatal. rewrite Ea. rewrite (proj2 (String.eqb_neq _ _)) by done. rewrite Eaddr. unfold net_token, mbind, netM_bind. cbn.
    rewrite Et. unfold dig_query in Enet. rewrite Enet. cbn [mbind outcome_bind mContent reply]. rewrite Ew. unfold net_fail. rewrite Etext. cbn. by rewrite Hr.
  - intros b (Hv & t & Ht & Hb)%Hin. split; [done|]. exists t. split; [by apply Hty|done].
  - intros t b Ht. apply Hall. by apply Hty.
Qed.
End Printed.

(** ** An example *)

Section Example.
Local Existing Instance toy_stream.
Local Existing Instance toy_tokens.
Local Existing Instance toy_network.
Local Existing Instance be_objlib.
Local Existing Instance toy_cbor.
Local Existing Instance toy_ed25519.
Local Existing Instance toy_encoder.
Local Existing Instance toy_x509.
Local Existing Instance dig_addresses.
Local Existing Instance dig_lib.

(** A caching resolver with one connection that knows the name "loop.ch.". *)
Definition dig_conn : Conn := mkConn 1 (mkAddr "tcp" "10.0.0.7:40000").
Definition dig_connections : ConnectionImpl := match AddConnection 1 (NewConnection 5) dig_conn with Some (Ok c) => c | _ => NewConnection 5 end.
Definition dig_server : Server :=
  mkServer DefaultConfig "hash" "" (set_conns_cache dig_connections (caches loop_server)) (mkQueues [] [] []) false 0 [] [] [] [].
(** rdig @10.0.0.1 loop.ch. name *)
Definition dig_line : DigLine := mkDigLine 55553 "." 1 "" 10000000000 [] ["@10.0.0.1"; "loop.ch."; "name"].

Lemma rdig_is_answered_witness : ∃ net' text, main_rdig (IN := served 100 0 dig_server dig_conn) elements dig_line (mkNet [] 0) = Ok (net', inr (mkDigOutput text None)) ∧
  text = ":A: loop ch. . [ :name:      loop.ch. [ :name: ] ]".
Proof.
  assert (filed_for loop_view "loop.ch." "." OTName loop_assertion) as Hf.
  { eexists _, (assertion_hash loop_assertion), 50. split; vm_compute; reflexivity. }
  destruct (@rdig_is_answered _ toy_stream_laws _ be_objlib_laws _ _ _ _ _ _ _ _ elements (λ X, reflexivity _) 100 0 loop_view dig_server dig_conn dig_line
    (mkDigArgs "10.0.0.1" "loop.ch." true {[ OTName ]}) (TCPAddr (mkAddr "tcp" "10.0.0.1:55553")) (mkAddr "tcp" "10.0.0.1:55553")
    (token_at 0) (mkNet [] 0)) as (answers & net' & text & E & Etext & Hne & Hd & Hin & _).
  - vm_compute. reflexivity.
  - discriminate.
  - vm_compute. reflexivity.
  - reflexivity.
  - reflexivity.
  - reflexivity.
  - reflexivity.
  - discriminate.
  - exact loop_holds.
  - split; [done|]. split; [exists []; vm_compute; reflexivity|done].
  - reflexivity.
  - split_and!; [vm_compute; reflexivity..|by left].
  - intros b ->%loop_filed. split_and!; [done|done|by apply Forall_nil|]. apply Forall_singleton. split; [by eexists|]. exact I.
  - exists OTName, loop_assertion. split; [set_solver|]. split; [exact Hf|]. vm_compute. reflexivity.
  - exists net', text. split; [exact E|]. destruct answers as [|b answers]; [exfalso; exact (Hne eq_refl)|].
    assert (∀ c, c ∈ b :: answers → c = loop_assertion) as Hall by (intros c (_ & t & _ & Hc)%Hin; by eapply loop_filed, filed_for_filed).
    rewrite (Hall b) in * by by left. destruct answers as [|c answers].
    + vm_compute in Etext. by injection Etext as <-.
    + rewrite (Hall c) in Hd by (right; by left). apply NoDup_cons in Hd as [Hd _]. destruct Hd. by left.
Defined.
End Example.
