(* ===== verification/Commands.v ===== *)
(** * The command-line programs

    Models attic/cmd/rainsd/rainsd.go, attic/cmd/zonepub/zonepub.go and
    attic/cmd/keyManager/keyManager.go: the flags with a parser of their own, the
    configuration that the flags of a command line change, and what the commands do with it.
    rdig is in [Dig].

    The library parses the command line: a flag that was given has a value ([Some]), which is
    what [Changed] tells.  [log.Fatal] ends a program with an error. *)

From S2P Require Import Prelude Cbor Keys Object Query BitArray BloomFilter Section Message Siglib SiglibFacts Containers LruCache Pointers ZoneCache AssertionCache NegAssertionCache ZoneKeyCache ConnectionCache PendingCaches CapabilityCache Server QueryEngine Inbox ServerStore Connection Resolver ZoneFile ZoneFileFacts KeyManager Publisher EngineFacts Dig.
Local Open Scope string_scope.
Local Open Scope Z_scope.
Local Open Scope list_scope.

(** ** Flags with a parser of their own *)

(** Every time a flag is given its [Set] runs; the first error ends the program. *)
Fixpoint set_all {F} (Set_ : F → string → outcome F) (flag : F) (values : list string) : outcome F :=
  match values with [] => Ok flag | v :: values' => flag ← Set_ flag v; set_all Set_ flag values' end.
(** The flag as [updateConfig] sees it. *)
Definition given {F} (Set_ : F → string → outcome F) (zero : F) (values : list string) : outcome (option F) :=
  match values with [] => Ok None | _ => flag ← set_all Set_ zero values; Ok (Some flag) end.

(** zonepub.go: the numbers are those of the hash functions, but not of the Bloom filters. *)
Definition bfHashFlag_Set (flag : HashAlgo) (value : string) : outcome HashAlgo :=
  if bool_decide (value ∈ [TypeShake256; "shake256"; "4"]) then Ok Shake256
  else if bool_decide (value ∈ [TypeFnv64; "fnv64"; "5"]) then Ok Fnv64
  else if bool_decide (value ∈ [TypeFnv128; "fnv128"; "6"]) then Ok Fnv128
  else Err "unknown hash algorithm type".
Definition algoFlag_Set (flag : SigAlgo) (value : string) : outcome SigAlgo :=
  if bool_decide (value ∈ [TypeEd25519; "ed25519"; "1"]) then Ok Ed25519 else Err "invalid signature algorithm type".
Definition bfAlgoFlag_Set (flag : Z) (value : string) : outcome Z :=
  if bool_decide (value ∈ [TypeKM12; "bloomKM12"; "0"]) then Ok BloomKM12
  else if bool_decide (value ∈ [TypeKM16; "bloomKM16"; "1"]) then Ok BloomKM16
  else if bool_decide (value ∈ [TypeKM20; "bloomKM20"; "2"]) then Ok BloomKM20
  else if bool_decide (value ∈ [TypeKM24; "bloomKM24"; "3"]) then Ok BloomKM24
  else Err "invalid bloom filter mode of operation type".

(** rainsd.go: pairs of a zone and a context. *)
Fixpoint zone_contexts (values : list string) : list ZoneContext :=
  match values with z :: c :: values' => mkZoneContext z c :: zone_contexts values' | _ => [] end.
Definition authoritiesFlag_Set (flag : list ZoneContext) (value : string) : outcome (list ZoneContext) :=
  let values := split_on "," value in
  if negb (length values mod 2 =? 0)%nat then Err "Error: amount of zone and context values is not the same"
  else Ok (flag ++ zone_contexts values).

Section Addresses.
Context {AL : AddrLib}.

(** The type and the value of an address. *)
Definition addressFlag_Set (flag : ConnType * Addr) (value : string) : outcome (ConnType * Addr) :=
  match ResolveTCPAddr value with
  | Some a => Ok (TCP, a)
  | None => match ParseUDPAddr value with Some a => Ok (SCION, a) | None => Err "invalid address" end
  end.

(** An element that is not the address of a host is looked for in the whole value. *)
Fixpoint add_addresses (value : string) (addresses : list string) (flag : list NetAddr) : outcome (list NetAddr) :=
  match addresses with
  | [] => Ok flag
  | addr :: addresses' =>
      match ResolveTCPAddr addr with
      | Some a => add_addresses value addresses' (flag ++ [TCPAddr a])
      | None =>
          match ParseUDPAddr value with
          | Some a => add_addresses value addresses' (flag ++ [UDPAddr (Some a)])
          | None => Err "invalid address"
          end
      end
  end.
Definition addressesFlag_Set (flag : list NetAddr) (value : string) : outcome (list NetAddr) :=
  add_addresses value (split_on "," value) flag.
End Addresses.

(** ** rainsd *)

(** The flags that [updateConfig] reads; durations are in nanoseconds. *)
Record RainsdFlags := mkRainsdFlags {
  flRootZonePublicKeyPath : option string;
  flAssertionCheckPointInterval : option Z;
  flNegAssertionCheckPointInterval : option Z;
  flZoneKeyCheckPointInterval : option Z;
  flCheckPointPath : option string;
  flPreLoadCaches : option bool;
  flServerAddress : option (ConnType * Addr);
  flMaxConnections : option Z;
  flKeepAlivePeriod : option Z;
  flTCPTimeout : option Z;
  flTLSCertificateFile : option string;
  flTLSPrivateKeyFile : option string;
  flPrioBufferSize : option Z;
  flNormalBufferSize : option Z;
  flNotificationBufferSize : option Z;
  flPrioWorkerCount : option Z;
  flNormalWorkerCount : option Z;
  flNotificationWorkerCount : option Z;
  flCapabilitiesCacheSize : option Z;
  flCapabilities : option string;
  flZoneKeyCacheSize : option Z;
  flZoneKeyCacheWarnSize : option Z;
  flMaxPublicKeysPerZone : option Z;
  flPendingKeyCacheSize : option Z;
  flDelegationQueryValidity : option Z;
  flReapZoneKeyCacheInterval : option Z;
  flReapPendingKeyCacheInterval : option Z;
  flAssertionCacheSize : option Z;
  flNegativeAssertionCacheSize : option Z;
  flPendingQueryCacheSize : option Z;
  flAuthorities : option (list ZoneContext);
  flMaxAssertionValidity : option Z;
  flMaxShardValidity : option Z;
  flMaxPshardValidity : option Z;
  flMaxZoneValidity : option Z;
  flReapAssertionCacheInterval : option Z;
  flReapNegAssertionCacheInterval : option Z;
  flReapPendingQCacheInterval : option Z
}.

(** [if rootCmd.Flag(name).Changed { config.X = x }], for all flags. *)
Definition rainsd_updateConfig (f : RainsdFlags) (c : Config) : Config := {|
  RootZonePublicKeyPath := default (RootZonePublicKeyPath c) (flRootZonePublicKeyPath f);
  AssertionCheckPointInterval := default (AssertionCheckPointInterval c) (flAssertionCheckPointInterval f);
  NegAssertionCheckPointInterval := default (NegAssertionCheckPointInterval c) (flNegAssertionCheckPointInterval f);
  ZoneKeyCheckPointInterval := default (ZoneKeyCheckPointInterval c) (flZoneKeyCheckPointInterval f);
  CheckPointPath := default (CheckPointPath c) (flCheckPointPath f);
  PreLoadCaches := default (PreLoadCaches c) (flPreLoadCaches f);
  ServerAddressType := default (ServerAddressType c) (fst <$> flServerAddress f);
  ServerAddress := default (ServerAddress c) (snd <$> flServerAddress f);
  MaxConnections := default (MaxConnections c) (flMaxConnections f);
  KeepAlivePeriod := default (KeepAlivePeriod c) (flKeepAlivePeriod f);
  TCPTimeout := default (TCPTimeout c) (flTCPTimeout f);
  TLSCertificateFile := default (TLSCertificateFile c) (flTLSCertificateFile f);
  TLSPrivateKeyFile := default (TLSPrivateKeyFile c) (flTLSPrivateKeyFile f);
  PrioBufferSize := default (PrioBufferSize c) (flPrioBufferSize f);
  NormalBufferSize := default (NormalBufferSize c) (flNormalBufferSize f);
  NotificationBufferSize := default (NotificationBufferSize c) (flNotificationBufferSize f);
  PrioWorkerCount := default (PrioWorkerCount c) (flPrioWorkerCount f);
  NormalWorkerCount := default (NormalWorkerCount c) (flNormalWorkerCount f);
  NotificationWorkerCount := default (NotificationWorkerCount c) (flNotificationWorkerCount f);
  CapabilitiesCacheSize := default (CapabilitiesCacheSize c) (flCapabilitiesCacheSize f);
  cfgCapabilities := default (cfgCapabilities c) ((λ s, [s]) <$> flCapabilities f);
  ZoneKeyCacheSize := default (ZoneKeyCacheSize c) (flZoneKeyCacheSize f);
  ZoneKeyCacheWarnSize := default (ZoneKeyCacheWarnSize c) (flZoneKeyCacheWarnSize f);
  MaxPublicKeysPerZone := default (MaxPublicKeysPerZone c) (flMaxPublicKeysPerZone f);
  PendingKeyCacheSize := default (PendingKeyCacheSize c) (flPendingKeyCacheSize f);
  DelegationQueryValidity := default (DelegationQueryValidity c) (flDelegationQueryValidity f);
  ReapZoneKeyCacheInterval := default (ReapZoneKeyCacheInterval c) (flReapZoneKeyCacheInterval f);
  ReapPendingKeyCacheInterval := default (ReapPendingKeyCacheInterval c) (flReapPendingKeyCacheInterval f);
  AssertionCacheSize := default (AssertionCacheSize c) (flAssertionCacheSize f);
  NegativeAssertionCacheSize := default (NegativeAssertionCacheSize c) (flNegativeAssertionCacheSize f);
  PendingQueryCacheSize := default (PendingQueryCacheSize c) (flPendingQueryCacheSize f);
  QueryValidity := QueryValidity c;
  Authorities := default (Authorities c) (flAuthorities f);
  cfgMaxCacheValidity := mkMaxCacheValidity
    (default (AssertionValidity (cfgMaxCacheValidity c)) (flMaxAssertionValidity f))
    (default (ShardValidity (cfgMaxCacheValidity c)) (flMaxShardValidity f))
    (default (PshardValidity (cfgMaxCacheValidity c)) (flMaxPshardValidity f))
    (default (ZoneValidity (cfgMaxCacheValidity c)) (flMaxZoneValidity f));
  ReapAssertionCacheInterval := default (ReapAssertionCacheInterval c) (flReapAssertionCacheInterval f);
  ReapNegAssertionCacheInterval := default (ReapNegAssertionCacheInterval c) (flReapNegAssertionCacheInterval f);
  ReapPendingQCacheInterval := default (ReapPendingQCacheInterval c) (flReapPendingQCacheInterval f)
|}.

(** ** zonepub *)

(** The signing interval is given in seconds. *)
Record ZonepubFlags := mkZonepubFlags {
  zfZonefilePath : option string;
  zfAuthServers : option (list NetAddr);
  zfPrivateKeyPath : option string;
  zfKeepShards : option bool;
  zfDoSharding : option bool;
  zfNofAssertionsPerShard : option Z;
  zfMaxShardSize : option Z;
  zfKeepPshards : option bool;
  zfDoPsharding : option bool;
  zfNofAssertionsPerPshard : option Z;
  zfBfAlgo : option Z;
  zfBfHash : option HashAlgo;
  zfBloomFilterSize : option Z;
  zfAddSignatureMetaData : option bool;
  zfAddSigMetaDataToAssertions : option bool;
  zfAddSigMetaDataToShards : option bool;
  zfAddSigMetaDataToPshards : option bool;
  zfSignatureAlgorithm : option SigAlgo;
  zfKeyPhase : option Z;
  zfSigValidSince : option Z;
  zfSigValidUntil : option Z;
  zfSigSigningInterval : option Z;
  zfDoConsistencyCheck : option bool;
  zfSortShards : option bool;
  zfSortZone : option bool;
  zfSigNotExpired : option bool;
  zfCheckStringFields : option bool;
  zfDoSigning : option bool;
  zfMaxZoneSize : option Z;
  zfOutputPath : option string;
  zfDoPublish : option bool
}.

Definition zonepub_updateConfig (f : ZonepubFlags) (c : PubConfig) : PubConfig :=
  let sc := ShardingConf c in
  let pc := PShardingConf c in
  let bc := BloomFilterConf pc in
  let mc := MetaDataConf c in
  let cc := ConsistencyConf c in {|
  ZonefilePath := default (ZonefilePath c) (zfZonefilePath f);
  AuthServers := default (AuthServers c) (zfAuthServers f);
  PrivateKeyPath := default (PrivateKeyPath c) (zfPrivateKeyPath f);
  ShardingConf := {|
    KeepShards := default (KeepShards sc) (zfKeepShards f);
    cfgDoSharding := default (cfgDoSharding sc) (zfDoSharding f);
    NofAssertionsPerShard := default (NofAssertionsPerShard sc) (zfNofAssertionsPerShard f);
    MaxShardSize := default (MaxShardSize sc) (zfMaxShardSize f)
  |};
  PShardingConf := {|
    KeepPshards := default (KeepPshards pc) (zfKeepPshards f);
    cfgDoPsharding := default (cfgDoPsharding pc) (zfDoPsharding f);
    NofAssertionsPerPshard := default (NofAssertionsPerPshard pc) (zfNofAssertionsPerPshard f);
    BloomFilterConf := {|
      BFAlgo := default (BFAlgo bc) (zfBfAlgo f);
      BFHash := default (BFHash bc) (zfBfHash f);
      BloomFilterSize := default (BloomFilterSize bc) (zfBloomFilterSize f)
    |}
  |};
  MetaDataConf := {|
    AddSignatureMetaData := default (AddSignatureMetaData mc) (zfAddSignatureMetaData f);
    AddSigMetaDataToAssertions := default (AddSigMetaDataToAssertions mc) (zfAddSigMetaDataToAssertions f);
    AddSigMetaDataToShards := default (AddSigMetaDataToShards mc) (zfAddSigMetaDataToShards f);
    AddSigMetaDataToPshards := default (AddSigMetaDataToPshards mc) (zfAddSigMetaDataToPshards f);
    SignatureAlgorithm := default (SignatureAlgorithm mc) (zfSignatureAlgorithm f);
    cfgKeyPhase := default (cfgKeyPhase mc) (zfKeyPhase f);
    SigValidSince := default (SigValidSince mc) (zfSigValidSince f);
    SigValidUntil := default (SigValidUntil mc) (zfSigValidUntil f);
    SigSigningInterval := default (SigSigningInterval mc) ((λ d, times d Second) <$> zfSigSigningInterval f)
  |};
  ConsistencyConf := {|
    DoConsistencyCheck := default (DoConsistencyCheck cc) (zfDoConsistencyCheck f);
    SortShards := default (SortShards cc) (zfSortShards f);
    SortZone := default (SortZone cc) (zfSortZone f);
    SigNotExpired := default (SigNotExpired cc) (zfSigNotExpired f);
    cfgCheckStringFields := default (cfgCheckStringFields cc) (zfCheckStringFields f)
  |};
  DoSigning := default (DoSigning c) (zfDoSigning f);
  MaxZoneSize := default (MaxZoneSize c) (zfMaxZoneSize f);
  OutputPath := default (OutputPath c) (zfOutputPath f);
  DoPublish := default (DoPublish c) (zfDoPublish f)
|}.

(** ** The programs *)

Definition fatal_nil {A} (msg : string) (m : outcome A) : outcome A := match m with Err _ => Err msg | m => m end.

Section Programs.
Context {AL : AddrLib} {ZL : ZoneLib} {CS : CborStream} {IN : Internet} {TG : TokenGen} {OL : ObjLib} {BL : BloomLib} {CW : CborWriter}
  {CE : CborEncoder} {ED : Ed25519Lib} {KL : KeyLib}.

(** *** rainsd *)

Definition net_address (a : ConnType * Addr) : NetAddr :=
  match a with (TCP, a) => TCPAddr a | (SCION, a) => UDPAddr (Some a) end.

(** The configuration: the default or what the file has, and the flags. *)
Definition rainsd_config (file : option (outcome Config)) (f : RainsdFlags) : outcome Config :=
  c ← match file with None => Ok DefaultConfig | Some read => fatal_nil "Error: was not able to load config file" (LoadConfig read) end;
  Ok (rainsd_updateConfig f c).
(** The server and its resolver before [Start].  [root] and [maxrecurse] are flags; the
    resolver gets the flag for the number of connections, whatever the configuration says.
    [tls] and [readRoot] are what loading the certificate and the root key give. *)
Definition rainsd_main (file : option (outcome Config)) (f : RainsdFlags) (root : option (ConnType * Addr)) (maxrecurse : option Z) (now : Z)
    (tls : outcome ()) (readRoot : string → outcome Assertion) : outcome (Server (CS:=CS) * Resolver) :=
  config ← rainsd_config file f;
  server ← fatal_nil "Error: Was not able to initialize server" (ServerStore.New now config tls (readRoot (RootZonePublicKeyPath config)));
  let rootNameServers := [match root with Some a => net_address a | None => NilAddr end] in
  resolver ← fatal_nil "Error: Unable to initialize recursive resolver"
    (Resolver.New now rootNameServers [] (readRoot (RootZonePublicKeyPath config)) Recursive (default 10000 (flMaxConnections f))
       (cfgMaxCacheValidity config) (default 50 maxrecurse));
  Ok (server, resolver).

(** *** zonepub *)

Definition zonepub_config (start : Z) (file : option (outcome PubConfig)) (f : ZonepubFlags) : outcome PubConfig :=
  c ← match file with
      | None => Ok (pub_DefaultConfig start)
      | Some read => fatal_nil "Error: was not able to load config file" (pub_LoadConfig read)
      end;
  Ok (zonepub_updateConfig f c).
(** [None]: the publisher still waits; [Err]: the message of [log.Fatal]. *)
Definition zonepub_main (rounds : nat) (start now : Z) (file : option (outcome PubConfig)) (f : ZonepubFlags) (s : PubState)
    : option (outcome (PubState * list NetAddr)) :=
  match zonepub_config start file f with
  | Ok config =>
      r ← Publish rounds now config s;
      Some ('(s, unreached, err) ← r; match err with None => Ok (s, unreached) | Some e => Err ("Publishing to server failed: " +:+ e) end)
  | Err e => Some (Err e)
  | Panic e => Some (Panic e)
  end.

(** *** keyManager *)

Definition key_path (args : list string) : string := match args with [path] => path | _ => "./" end.

Definition gen_command (disk : Disk) (n : nat) (args : list string) (name algo description pwd : string) (phase : Z) : outcome Disk :=
  '(disk, err) ← GenerateKey disk n (key_path args) name description algo pwd phase;
  match err with None => Ok disk | Some _ => Err "Was not able to generate key pair" end.
(** What is printed: the blocks, each behind a line break but the first. *)
Definition encode_block (block : option PemBlock) : outcome (list Z) :=
  match block with
  | Some b => match pem_Encode b with Ok data => Ok data | _ => Ok [] end
  | None => Panic "nil pointer dereference"
  end.
Fixpoint join_lines (l : list (list Z)) : list Z :=
  match l with [] => [] | [x] => x | x :: l' => x ++ [10] ++ join_lines l' end.
Definition load_command (disk : Disk) (args : list string) : outcome (list Z) :=
  keys ← fatal_nil "Was not able to load public keys" (LoadPublicKeys disk (key_path args));
  val ← traverse encode_block keys; Ok (join_lines val ++ [10]).
(** The name is that of the file: no suffix is added. *)
Definition decrypt_command (disk : Disk) (args : list string) (name pwd : string) : outcome (list Z) :=
  block ← fatal_nil "Was not able to decrypt private key" (DecryptKey disk (key_path args) name pwd);
  encode_block (Some block).
Definition selfsign_command (disk : Disk) (now : Z) (args : list string) (pwd zone context : string) (validityPeriod : Z) : outcome Assertion :=
  fatal_nil "Was not able to create a self signed delegation assertion" (SelfSignedDelegation disk now (key_path args) pwd zone context validityPeriod).
End Programs.

(** ** Theorems *)

(** *** Flags *)

Lemma split_on_join sep ls : ls ≠ [] → Forall (no_char sep) ls → split_on sep (str_join (String sep "") ls) = ls.
Proof.
  intros Hne H. induction H as [|w ls Hw H IH]; [done|]. clear Hne. assert (∀ t, split_on sep (w +:+ String sep t) = w :: split_on sep t) as Hcons.
  { intros t. induction w as [|c w IHw]; [change ("" +:+ String sep t) with (String sep t); cbn [split_on]; by rewrite Ascii.eqb_refl|]. destruct Hw as [Hc Hw]. rewrite str_app_cons. cbn [split_on].
    rewrite IHw by done. by destruct (Ascii.eqb_spec c sep). }
  destruct ls as [|w' ls].
  - change (split_on sep w = [w]). clear -Hw. induction w as [|c w IHw]; [done|]. destruct Hw as [Hc Hw]. cbn [split_on]. rewrite IHw by done. by destruct (Ascii.eqb_spec c sep).
  - change (str_join (String sep "") (w :: w' :: ls)) with (w +:+ String sep (str_join (String sep "") (w' :: ls))). by rewrite Hcons, IH.
Qed.
Definition zone_context_words (zs : list ZoneContext) : list string := concat ((λ z, [zctxZone z; zctxContext z]) <$> zs).
(** The authorities of a server are read from the flag as they were written, if no zone or
    context has a comma. *)
Lemma authorities_roundtrip flag zs : zs ≠ [] → Forall (λ z, no_char "," (zctxZone z) ∧ no_char "," (zctxContext z)) zs →
  authoritiesFlag_Set flag (str_join "," (zone_context_words zs)) = Ok (flag ++ zs).
Proof.
  intros Hne H. unfold authoritiesFlag_Set. rewrite split_on_join.
  - assert (length (zone_context_words zs) mod 2 = 0)%nat as ->.
    { unfold zone_context_words. clear. induction zs as [|z zs IH]; [done|]. cbn -[Nat.modulo]. 
      replace (S (S (length (concat ((λ z, [zctxZone z; zctxContext z]) <$> zs))))) with (length (concat ((λ z, [zctxZone z; zctxContext z]) <$> zs)) + 1 * 2)%nat by lia.
      by rewrite Nat.Div0.mod_add. }
    cbn. do 2 f_equal. unfold zone_context_words. clear. induction zs as [|[z c] zs IH]; [done|]. cbn in IH |- *. by rewrite IH.
  - by destruct zs.
  - unfold zone_context_words. clear Hne. induction H as [|z zs [H1 H2] _ IH]; cbn; [by apply Forall_nil|]. by repeat (apply Forall_cons; split).
Qed.

(** The address of a SCION host has a comma: its parts are taken for two servers, the address
    and, in plain TCP, what is behind the comma. *)
Lemma scion_server_is_two_servers `{AddrLib} ia host a b flag : no_char "," ia → no_char "," host →
  ResolveTCPAddr ia = None → ParseUDPAddr (ia +:+ "," +:+ host) = Some a → ResolveTCPAddr host = Some b →
  addressesFlag_Set flag (ia +:+ "," +:+ host) = Ok (flag ++ [UDPAddr (Some a); TCPAddr b]).
Proof.
  intros Hi Hh E1 E2 E3. unfold addressesFlag_Set. change (ia +:+ "," +:+ host) with (str_join "," [ia; host]) at 2.
  rewrite split_on_join by (done || by repeat constructor). cbn [add_addresses]. rewrite E1, E2, E3. by rewrite <-(assoc_L (++)).
Qed.

(** A Bloom filter algorithm that is given by its number is the next one. *)
Lemma bloom_filter_numbers : ∀ i, 0 ≤ i < 4 → bfAlgoFlag_Set 0 (dec i) = Ok (i + 1).
Proof. intros i Hi. assert (i = 0 ∨ i = 1 ∨ i = 2 ∨ i = 3) as [->|[->|[->| ->]]] by lia; reflexivity. Qed.

(** *** A server without the address of a root server *)

Section Rainsd.
Context {AL : AddrLib} {CS : CborStream} {IN : Internet} {TG : TokenGen} {OL : ObjLib} {CW : CborWriter} {CE : CborEncoder} {ED : Ed25519Lib}.

Lemma SendQuery_nil msg timeout (s : Net) : SendQuery msg NilAddr timeout s = Ok (s, inl "no connection").
Proof. done. Qed.

(** A server that is started without the flag for the root server, whose help names a
    default, asks nobody: every lookup of its resolver, but for a delegation that it has, ends
    with an error after nothing was sent, and so does every lookup for the server's clients,
    who get no answer. *)
Theorem rainsd_without_root file f maxrecurse now tls readRoot s r : rainsd_main file f None maxrecurse now tls readRoot = Ok (s, r) →
  ∀ stack rounds depth q addr tok (st : RState), resolver st = r → OTDelegation ∉ qTypes q →
  (∃ st' err, ClientLookup SendQuery stack (S rounds) (S depth) q st = Some (Ok (st', inl err)) ∧ netEvents (net st') = netEvents (net st)) ∧
  ∃ st', ServerLookup SendQuery stack (S rounds) (S depth) q addr tok st = Some (Ok (st', ())) ∧ netEvents (net st') = netEvents (net st).
Proof.
  unfold rainsd_main. intros (config & _ & E)%bind_ok. apply bind_ok in E as (server & _ & E). apply bind_ok in E as (r' & E & Er). injection Er as _ <-.
  assert (Resolver.New now [NilAddr] [] (readRoot (RootZonePublicKeyPath config)) Recursive (default 10000 (flMaxConnections f))
    (cfgMaxCacheValidity config) (default 50 maxrecurse) = Ok r') as En by (unfold fatal_nil in E; by destruct (Resolver.New _ _ _ _ _ _ _ _)).
  assert (RootNameServers r' = [NilAddr] ∧ Mode r' = Recursive) as [Hroots Hmode].
  { unfold Resolver.New in En. apply bind_ok in En as (a & _ & En). destruct (GetOverlapValidityForSignatures _) as [since until].
    apply bind_ok in En as (o & _ & En). apply bind_ok in En as (pk & _ & En). injection En as <-. done. }
  intros stack rounds depth q addr tok st Hst Hq.
  assert (∃ st' err, ClientLookup SendQuery stack (S rounds) (S depth) q st = Some (Ok (st', inl err)) ∧ netEvents (net st') = netEvents (net st)) as Hc.
  { unfold ClientLookup, mbind, resM_bind, asks. rewrite Hst, Hmode. cbn -[Z.leb].
    unfold mbind, resM_bind, asks. rewrite Hst. destruct (MaxRecursiveCount r' <=? 0); [by eexists _, _|]. unfold cached_delegation.
    rewrite bool_decide_eq_false_2 by done. cbn. rewrite Hst, Hroots. cbn. by eexists _, _. }
  split; [exact Hc|]. destruct Hc as (st' & err & Ec & Ee). exists st'. split; [|exact Ee]. unfold ServerLookup, mbind, resM_bind. by rewrite Ec.
Qed.
End Rainsd.

(** *** The commands of the key manager *)

Section KeyCommands.
Context {KL : KeyLib} {ED : Ed25519Lib} {KLL : KeyLibLaws} {EDL : Ed25519Laws} {OL : ObjLib} {CW : CborWriter} {CE : CborEncoder}.

(** Generating a key touches no other file. *)
Lemma GenerateKey_others disk n folder name description algo pwd phase disk' err other : other ≠ name +:+ pubSuffix → other ≠ name +:+ SecSuffix →
  GenerateKey disk n folder name description algo pwd phase = Ok (disk', err) → ReadFile disk' folder other = ReadFile disk folder other.
Proof.
  intros H1 H2. assert (∀ d d' nm data, nm = name +:+ pubSuffix ∨ nm = name +:+ SecSuffix → WriteFile d folder nm data = Some d' →
    ReadFile d' folder other = ReadFile d folder other) as Hw.
  { intros d d' nm data Hnm Ew. rewrite (ReadFile_WriteFile _ _ _ _ _ _ Ew). by destruct Hnm as [-> | ->]; rewrite decide_False. }
  assert (∀ d nm data, nm = name +:+ pubSuffix ∨ nm = name +:+ SecSuffix →
    ReadFile (default d (WriteFile d folder nm data)) folder other = ReadFile d folder other) as Hd.
  { intros d nm data Hnm. destruct (WriteFile d folder nm data) eqn:Ew; [by eapply Hw|done]. }
  unfold GenerateKey. intros E. repeat (case_match; try done); simplify_eq; rewrite ?Hd by auto;
    repeat match goal with Ew : WriteFile _ _ ?nm _ = Some ?d |- context [ReadFile ?d _ _] => rewrite (Hw _ _ nm _ ltac:(auto) Ew) end; done.
Qed.
Lemma suffix_longer name suffix : suffix ≠ "" → name ≠ name +:+ suffix.
Proof. intros Hs E. apply Hs. apply (f_equal String.length) in E. rewrite str_length_app in E. by destruct suffix; cbn in *; [|lia]. Qed.

(** C36: What the commands of the key manager do with a key that gen has made in a folder:
    decrypt prints the private key when it is given the whole name of its file, but with the
    name of the key, which is what its help asks for, it ends with an error; and selfsign
    makes a delegation of the zone to the public half of this key that
    [CheckSectionSignatures] accepts during the validity period. *)
Theorem key_commands disk n folder name description algo pwd phase disk' now zone context period maxVal :
  gen_command disk n [folder] name algo description pwd phase = Ok disk' →
  pem_representable algo description phase → in_int64 phase → description ∉ [KeyAlgo; KeyPhaseHeader] → no_char "/" name →
  ReadFile disk folder name = None → 0 ≤ period → clean context zone = true →
  let id := mkPublicKeyID Ed25519 RainsKeySpace phase in
  let until := unix_after now period in
  (∀ sk, is_ok (encode (DontAddSigInMarshaller (self_delegation zone context id (ed25519_Public sk) (unix now) until))) = true) →
  is_err (decrypt_command disk' [folder] name pwd) = true ∧
  ∃ data block a sk, let pk := ed25519_Public sk in
    decrypt_command disk' [folder] (name +:+ SecSuffix) pwd = Ok data ∧ pem_Decode data = (Some block, []) ∧ pemBytes block = sk ∧
    selfsign_command disk' now [folder +:+ "/" +:+ name] pwd zone context period = Ok a ∧
    assertion_body a = assertion_body (self_delegation zone context id pk (unix now) until) ∧
    ∀ now', unix now ≤ unix now' ≤ until →
      ∃ a', CheckSectionSignatures now' (WAssertion a) (Some {[ id := [mkPublicKey id (unix now) until (KeyEd25519 pk)] ]}) maxVal = Ok (WAssertion a', true).
Proof.
  intros Hg Hpem Hp Hd Hn Hr Hper Hc id until Henc. unfold gen_command in Hg. cbn [key_path] in Hg.
  destruct (GenerateKey _ _ _ _ _ _ _ _) as [[d err]| |] eqn:Eg; [|done..]. cbn [mbind outcome_bind] in Hg. destruct err; [done|]. injection Hg as ->.
  split.
  - unfold decrypt_command, DecryptKey, loadPemBlock. cbn [key_path].
    by rewrite (GenerateKey_others _ _ _ _ _ _ _ _ _ _ name (suffix_longer _ pubSuffix ltac:(done)) (suffix_longer _ SecSuffix ltac:(done)) Eg), Hr.
  - destruct (SelfSignedDelegation_accepted _ _ _ _ _ _ _ _ _ now zone context period maxVal Eg Hpem Hp Hd Hn Hper Hc Henc)
      as (a & s & i & sk & Ed & Es & Eb & Ec).
    destruct (pem_roundtrip (private_block algo description phase s i sk) (proj2 Hpem _ _ _)) as (data & Ep & Dp).
    exists data, (private_block algo description phase s i sk), a, sk. cbv zeta. split_and!; [|exact Dp|done| |exact Eb|exact Ec].
    + unfold decrypt_command. cbn [key_path]. rewrite Ed. cbn [fatal_nil mbind outcome_bind encode_block]. by rewrite Ep.
    + unfold selfsign_command. cbn [key_path]. by rewrite Es.
Qed.
End KeyCommands.

(** *** Examples *)

Section Examples.
Local Existing Instance toy_stream.
Local Existing Instance toy_tokens.
Local Existing Instance be_objlib.
Local Existing Instance toy_cbor.
Local Existing Instance toy_ed25519.
Local Existing Instance toy_ed25519_laws.
Local Existing Instance toy_encoder.
Local Existing Instance dig_addresses.
Local Existing Instance rhine_internet.
Local Existing Instance toy_keylib.
Local Existing Instance toy_keylib_laws.

(** The root's delegation, signed with its own key. *)
Definition root_key_id : PublicKeyID := mkPublicKeyID Ed25519 RainsKeySpace 0.
Definition root_delegation : Assertion :=
  match SignSectionUnsafe (WAssertion (self_delegation "." "." root_key_id (ed25519_Public [7]) 0 100)) {[ root_key_id := PrivEd25519 [7] ]} with
  | Ok (WAssertion a, None) => a
  | _ => self_delegation "." "." root_key_id [] 0 0
  end.
Definition no_flags : RainsdFlags :=
  mkRainsdFlags None None None None None None None None None None None None None None None None None None None None None None None None None
    None None None None None None None None None None None None None.

Lemma rainsd_without_root_witness : ∃ s r, rainsd_main None no_flags None None 0 (Ok ()) (λ _, Ok root_delegation) = Ok (s, r) ∧
  ∃ st' err, ClientLookup SendQuery 10 1 1 (mkQueryName "." "www.ch." [OTIP4Addr] 100 [] 0 0) (mkRState r (mkNet [] 0) []) = Some (Ok (st', inl err)).
Proof.
  destruct (rainsd_main None no_flags None None 0 (Ok ()) (λ _, Ok root_delegation)) as [[s r]| |] eqn:E; [|vm_compute in E; discriminate E..].
  exists s, r. split; [reflexivity|].
  destruct (rainsd_without_root None no_flags None 0 (Ok ()) (λ _, Ok root_delegation) s r E 10 0 0
    (mkQueryName "." "www.ch." [OTIP4Addr] 100 [] 0 0) NilAddr [] (mkRState r (mkNet [] 0) [])) as [(st' & err & H & _) _]; [done| |by exists st', err].
  by apply (bool_decide_unpack _).
Defined.

Lemma key_commands_witness : ∃ data a, is_err (decrypt_command (generated_disk "my key") ["keys"] "zone" "pwd") = true ∧
  decrypt_command (generated_disk "my key") ["keys"] "zone_sec.pem" "pwd" = Ok data ∧
  selfsign_command (generated_disk "my key") 0 ["keys/zone"] "pwd" "ch." "." Hour = Ok a.
Proof.
  destruct (key_commands key_disk 0 "keys" "zone" "my key" "ed25519" "pwd" 2 (generated_disk "my key") 0 "ch." "." Hour w_max)
    as (H1 & data & block & a & sk & H2 & _ & _ & H3 & _);
    [vm_compute; reflexivity|apply toy_representable|done|by apply (bool_decide_unpack _)|cbn; done|done|done|done|done|].
  exists data, a. split; [exact H1|]. split; [exact H2|exact H3].
Defined.
End Examples.
